(* ===== verification/_CoqProject ===== *)
-Q . S2P
Prelude.v
Status.v
ByteIo.v
Hash.v
Types.v
ProbeTable.v
FrozenIndex.v
FrozenIndexProofs.v
FrozenBuildProofs.v
Schema.v
SchemaProofs.v
RowStorage.v
RowSafety.v
RowProofs.v
RowListProofs.v
RowAccess.v
Snapshot.v
SnapshotProofs.v
RealtimeDelta.v
RealtimeProofs.v
RealtimeTable.v
Shard.v
Rebuild.v
RebuildProofs.v
RealtimeConcurrent.v
ConcurrentProofs.v
ConcurrentTheorems.v
StoreSamples.v
Payload.v
Codec.v
PayloadProofs.v
Kafka.v
UpdateApplier.v
UpdateCoordinator.v
EncodeProofs.v
ApplyProofs.v
CheckpointProofs.v
CoordinatorProofs.v
IngestProgress.v
IngestSamples.v
ArtifactFormat.v
ArtifactWriter.v
MmapBacking.v
ArtifactCodec.v
ArtifactSchema.v
ArtifactAppend.v
ArtifactImage.v
ArtifactLayout.v
ArtifactLoad.v
ArtifactTheorems.v
ArtifactSafety.v
ArtifactSamples.v
AsyncLoad.v
CatchUpRunner.v
LoadProtocol.v
AsyncLoadProofs.v
AsyncLoadTheorems.v
AsyncLoadSamples.v
ForwardIndex.v
ForwardIndexProofs.v
IndexProofs.v
WorkerProofs.v
StopProofs.v
ServeProofs.v
IndexTheorems.v
IndexSamples.v
OfflineSchema.v
OfflineSchemaProofs.v
OfflineEncode.v
OfflineEncodeProofs.v
OfflineColumns.v
OfflineColumnsProofs.v
OfflineBuilder.v
OfflineMain.v
OfflineBuildProofs.v
OfflineInputProofs.v
OfflineServeProofs.v
OfflineTheorems.v
OfflineSamples.v
