(* ===== verification/Prelude.v ===== *)
(** * kv_index: a verified model of an embedded in-memory forward index

    [kv_index] (C++20, under [src/] and [include/]) keeps rows by 64-bit
    primary key.  A row is encoded against a compiled layout of a runtime
    schema; immutable snapshots hold rows behind a frozen primary-key index;
    recent updates live in a realtime table that many threads write and read;
    a shard stacks the layers, and background jobs fold the recent rows into
    new snapshots.  Updates come from Kafka; whole shards come from artifacts,
    files that a load maps, catches up and publishes behind the public index.
    This library translates those parts into definitions and proves what makes
    them correct.

    ** The parts and their files

    - [include/kv_index/status.h]: [Status].  [src/base/byte_io.h]: [ByteIo].
      [src/base/hash.cc]: [Hash].  [include/kv_index/types.h]: [Types] and, for
      thresholds and statistics, [RealtimeDelta] and [Shard].
    - [src/store/frozen_primary_key_index.cc]: [FrozenIndex] (definitions),
      [FrozenIndexProofs] (validation and lookup), [FrozenBuildProofs] (the
      builder).  The index is bytes: control bytes, keys and row offsets of an
      open-addressing table.  [ProbeTable] is the table as a list of slots;
      the bytes and the realtime slots are both refined to it.
    - [include/kv_index/schema.h], [src/model/schema.cc]: [Schema],
      [SchemaProofs].  [RuntimeSchema] is a record with its history;
      [compile_layout] assigns presence bits and slots and the fingerprint.
    - [include/kv_index/row.h], [src/model/row_storage.{h,cc}]: [RowStorage];
      [RowSafety] (memory safety of reading), [RowProofs] and [RowListProofs]
      (what is written is read), [RowAccess] (accessors, defaults).
    - [src/store/snapshot.cc], [src/store/snapshot_builder.cc]: [Snapshot],
      [SnapshotProofs].  The abstract class [SnapshotBacking] is a record of
      its virtual methods; [backing_ok] is the contract an implementation owes
      and the views are proved against it.
    - [src/store/realtime_delta.cc]: [RealtimeDelta] (each operation run
      without interference), [RealtimeProofs] (the hash map), [RealtimeTable]
      (the table); [RealtimeConcurrent] (the same operations as atomic steps
      of interleaved threads), [ConcurrentProofs], [ConcurrentTheorems].
    - [src/runtime/shard_state.cc], [src/runtime/shard_directory.cc]:
      [Shard]; the class [RowLayer] is what a layer offers a shard.
    - [src/rebuild/compaction.cc], [src/rebuild/full_rebase.cc]: [Rebuild],
      [RebuildProofs].
    - [src/ingest/]: [Payload] (the frame decoder), [Codec] (parsers and
      serializers that invert each other), [Kafka] (the consumer, and its
      client over the functions of librdkafka, the class [Librdkafka]),
      [UpdateApplier] (encoding for a layout, routing and publication),
      [UpdateCoordinator] (the poll-apply-commit step); [PayloadProofs],
      [EncodeProofs], [ApplyProofs], [CheckpointProofs], [CoordinatorProofs],
      [IngestProgress] (what steps over librdkafka were answered is delivered
      and committed).
    - [src/artifact/]: [ArtifactFormat] (the format and its parser),
      [ArtifactWriter], [MmapBacking] (paths, loading a shard of the mapped
      bytes, prewarming); [ArtifactCodec], [ArtifactSchema] (the sections),
      [ArtifactAppend], [ArtifactImage], [ArtifactLayout] (what the writer
      lays out), [ArtifactLoad] (what the parser and the loader make of it),
      [ArtifactTheorems] (the round trip), [ArtifactSafety] (any bytes at
      all).
    - [src/rebuild/async_load.cc]: [AsyncLoad] (the load over its callbacks
      and a runner, the class [AsyncCatchUpRunner]), [CatchUpRunner] (the
      runner over Kafka); [LoadProtocol] is what a load promises, a step
      relation labelled by what its callbacks observe; [AsyncLoadProofs]
      (every run follows it), [AsyncLoadTheorems].
    - [src/api/forward_index.cc], [include/kv_index/forward_index.h]:
      [ForwardIndex] (the public operations, and a worker with the schedule
      of what other threads do between its callbacks); [ForwardIndexProofs] (reads), [IndexProofs] (the operations as a step
      relation with its invariant), [WorkerProofs], [StopProofs] (a cancelled
      worker ends), [ServeProofs] (one that nobody stops succeeds),
      [IndexTheorems].
    - [tools/offline/src/]: [OfflineSchema] (the schema file, read and
      written), [OfflineColumns] (cells of table columns, over the class
      [Arrow]), [OfflineEncode] (the row encoder of the builder),
      [OfflineBuilder] ([BuildArtifactDirectory], over the class
      [OfflineSystem]), [OfflineMain] (the command line);
      [OfflineSchemaProofs] (what is written is read), [OfflineInputProofs]
      (the walk over the input, typed configurations),
      [OfflineColumnsProofs] (typed values, no fault), [OfflineEncodeProofs]
      (the encoder against that of [UpdateApplier]), [OfflineBuildProofs]
      (the loops over files and rows), [OfflineServeProofs] (the files
      written), [OfflineTheorems].
    - [StoreSamples], [IngestSamples], [ArtifactSamples], [AsyncLoadSamples],
      [IndexSamples] and [OfflineSamples] apply the theorems to concrete
      inputs.

    ** How code becomes definitions

    A call returns an [outcome]: a value, an error status, or a [Fault] when
    the C++ would read out of range, dereference null, take the wrong variant
    alternative, throw or diverge; that a function has no fault is a theorem.
    A call that changes an object is [stateful]: it returns the object with
    the outcome, on error paths too.  Integers are [Z] with their wrap-around
    written out ([wrap8], [wrap32], [wrap64]); [std::size_t] is 64 bits.  A
    [std::vector] is a list, read and written by [at_] and [set_at], which
    fault out of range; [std::string] is a list of bytes; an unordered map or
    set is a [gmap] or [gset]; where the code iterates one, the order is a
    parameter ([LoadOrder]), and so is the algorithm of [std::sort] on equal
    elements ([SectionSort]).  Calls of the operating system and of librdkafka
    are parameters: [stat], mapping a file, the page size, the output stream,
    the client functions.  So are those of Arrow and Parquet, and the file
    system of the offline builder, whose output streams change its state.
    [double] is the Standard Library's executable IEEE binary64.  A
    [shared_ptr] is an [option]; rows are immutable once shared, so they are
    passed by value, and the realtime table, which is not, is passed at the
    value it has at the time of the call.

    ** What the theorems show

    - Index: a built index validates and is exactly the map of its entries;
      [Validate] accepts exactly the well-formed images and never leaves its
      input; on a validated index [Lookup] is total and agrees with [Entries];
      the capacity is minimal and its computation does not overflow.
    - Layout: every reachable schema compiles to a layout with disjoint,
      aligned, in-bounds slots, whatever the order of the fields; field ids are
      never reused.
    - Rows: scalars, strings, lists and dictionary values round-trip and leave
      other fields alone; reading any bytes at all is memory safe; accessors
      read what their layout says; absent fields read as their defaults.
    - Snapshots: a sealed snapshot answers exactly the rows that were added.
    - Realtime: per key the row with the highest source offset is visible;
      a scan up to a captured boundary is a snapshot of that moment.
    - Concurrency: under every interleaving a read returns a row current
      during the call, a finished publication stays visible, a key has one
      slot, and the plain accesses to keys do not race; the sequential
      functions are the executions of one thread alone.
    - Rebuilding: delta compaction and full rebase keep every answer of the
      shard.
    - Ingest: the payload decoder inverts its encoder and consumes the whole
      frame; the row encoded from an update answers its fields; an applied
      update is delivered to every route; a step commits exactly the
      checkpoint of what it applied, and a batch applied again changes
      nothing; whatever librdkafka answers, steps that succeed deliver and
      commit every record they were polled for.
    - Artifacts: a written artifact is read back row for row, with a stable
      [std::sort] or without empty shards; whatever a file holds, loading and reading it stay in
      its bytes.
    - Loads: every load follows [LoadProtocol], so that no shard is published
      before all are loaded and warm and, with Kafka, before the updates
      behind the artifact are committed; the catch-up ends when the updates
      it waits for do.
    - The index: the end-to-end theorem [loaded_artifact_is_served] joins the
      artifact, the load and the reads; reads of many keys are reads of each;
      the operations keep the invariant [index_ok] in any order; a
      cancellation is final and ends its worker; a worker leaves a terminal
      state.
    - The offline builder: a directory it has built serves exactly the rows
      of its tables ([offline_build_is_served], which joins the builder, the
      writer, the loader and the shard of a key); its rows are those of
      upserts of the same values; up to the first write it takes no fault and
      its values are typed; the input walk ends and finds every Parquet file;
      keys are distinct and every row is in its shard; the schema file reads
      back; the command line accepts exactly the numerals in range.
    - Divergences from intent are theorems too: a list of [2^32] elements is
      truncated on writing; a snapshot builder reused after [Seal] serves rows
      under the wrong keys; a realtime table whose capacity is not a power of
      two may refuse a key although a slot is free; a layout with default
      values does not survive its artifact; an artifact with an empty shard is
      refused by some sorting algorithms; a load whose consumer group is ahead
      of the artifact skips the replay and publishes the artifact's rows alone
      ([committed_group_skips_replay]); a field name with a hash in it
      is cut in the schema file of an artifact.

    ** Bounds and fuel

    The loops over slots take as many iterations as the capacity, written as
    fuel; [lookup_loop] and the realtime loops return the error of the source
    when they run out.  [find_empty_slot] is an unbounded loop in the source:
    its fuel is the capacity and running out is a [Diverges] fault, which the
    builder theorem excludes.  [grow_capacity] has fuel 64: a capacity doubles
    at most 64 times before it leaves 64 bits, and the theorem on
    [CalculateCapacity] shows the fuel suffices.  Snapshots above [2^58] rows
    may be refused by the index builder; theorems state the bound.  The
    payload theorems take frames below [2^30] bytes (librdkafka delivers no
    message above 1,000,000,000 bytes); the artifact theorems take fewer than
    [2^22] shards in one artifact and files whose size fits 64 bits.
    [decimal_digits] has fuel 10, the digits of a 32-bit number, or 20, those
    of a 64-bit number; the fuel of [CollectParquetFiles] bounds the depth of
    the directories, on which the recursion of the source is unbounded, and
    [CollectParquetFiles_finds_all] shows that the depth there is is enough;
    the offline theorems on encoded rows take rows below [2^30] bytes;
    [touch_pages]
    has the number of bytes, and [Prewarm_touches_every_page] shows it
    suffices.  The fuel of a load bounds the rounds of its catch-up, a loop
    that the source lets run for ever: running out is [Diverges], and
    [catch_up_terminates] and [cancelled_load_ends] say when it does not.
    Load ids are taken not to wrap around 64 bits.

    ** The memory model of the concurrent part

    Each step is one access to a slot and executions are sequentially
    consistent.  Every access but the one to a slot's key is atomic in the
    source, and the accesses to the keys are proved race-free, with
    acquire/release pairs around them.

    The mutex of the index makes each of its operations one atomic step.  A
    worker runs with a schedule: a list of operations of other threads for
    each of its callbacks, which happen just before the callback.  Between two
    callbacks a worker touches only its own objects, so every interleaving is
    one of these schedules.

    ** Not modelled

    Failures of allocation, and the release of resources (unmapping, closing,
    joining threads, destroying clients).  The operating system and librdkafka
    beyond the parameters named above.  The mutex around the factory that
    replaces the runner in tests.  [src/testing/test_peer.h], which only opens
    private members to tests.  Arrow and the Parquet reader, beyond the
    accessors of the class [Arrow].  Tests and benchmarks. *)

From Stdlib Require Export ZArith Lia Zpow_facts.
From stdpp Require Export base numbers sorting gmap strings option list.
From Stdlib Require Strings.Byte.

(** ** Outcomes of C++ calls

    A modelled call either returns a value, returns an error value (for the
    library functions, a [Status]), or leaves the defined behaviour of the
    program: it reads outside a container, dereferences a null pointer, or
    lets an exception escape.  The last case is a value of its own so that
    its absence is something to prove. *)

Inductive fault : Type :=
| OutOfRange          (** unchecked element access past the end *)
| NullDereference
| BadVariantAccess    (** [std::get] on another alternative *)
| Thrown (what : string)
| Diverges            (** a loop that never exits *)
| UnknownEnumerator.  (** an enum holding a value without enumerator is used *)

Inductive outcome (E A : Type) : Type :=
| Ok (a : A)
| Err (e : E)
| Fault (f : fault).
Arguments Ok {E A} a.
Arguments Err {E A} e.
Arguments Fault {E A} f.

Declare Scope kv_scope.
Delimit Scope kv_scope with kv.

Definition obind {E A B} (c : outcome E A) (k : A → outcome E B) : outcome E B :=
  match c with
  | Ok a => k a
  | Err e => Err e
  | Fault f => Fault f
  end.

Notation "'let*' x ':=' c 'in' k" := (obind c (λ x, k))
  (at level 10, x pattern, c at level 100, k at level 200,
   format "'[v' 'let*'  x  ':='  c  'in' '//' k ']'") : kv_scope.

(** A computation over a mutable object of type [S]: what the call returns
    and the object it leaves behind, on error paths too. *)
Definition stateful (S E A : Type) : Type := S → outcome E A * S.

Definition sret {S E A} (a : A) : stateful S E A := λ s, (Ok a, s).
Definition serr {S E A} (e : E) : stateful S E A := λ s, (Err e, s).
Definition sbind {S E A B} (c : stateful S E A) (k : A → stateful S E B)
    : stateful S E B :=
  λ s, match c s with
       | (Ok a, s') => k a s'
       | (Err e, s') => (Err e, s')
       | (Fault f, s') => (Fault f, s')
       end.
(** [slift c] runs a call that does not touch the object. *)
Definition slift {S E A} (c : outcome E A) : stateful S E A := λ s, (c, s).

Notation "'do*' x ':=' c 'in' k" := (sbind c (λ x, k))
  (at level 10, x pattern, c at level 100, k at level 200,
   format "'[v' 'do*'  x  ':='  c  'in' '//' k ']'") : kv_scope.

Open Scope Z_scope.
Open Scope kv_scope.

(** [for (x : l) if (!f(x).ok()) return ...;] over a mutable object. *)
Fixpoint sfor {S E A} (f : A → stateful S E unit) (l : list A) : stateful S E unit :=
  match l with
  | [] => sret tt
  | x :: l' => do* _ := f x in sfor f l'
  end.

(** The loop [for (x : l) { if (!f(x).ok()) return; ... }]. *)
Fixpoint ofold {E A S} (f : S → A → outcome E S) (l : list A) (s : S) : outcome E S :=
  match l with
  | [] => Ok s
  | x :: l' => let* s' := f s x in ofold f l' s'
  end.

Fixpoint omapM {E A B} (f : A → outcome E B) (l : list A) : outcome E (list B) :=
  match l with
  | [] => Ok []
  | x :: l' => let* y := f x in let* ys := omapM f l' in Ok (y :: ys)
  end.

(** [no_fault c]: the call stays within defined behaviour. *)
Definition no_fault {E A} (c : outcome E A) : Prop :=
  match c with Fault _ => False | _ => True end.

Lemma no_fault_bind {E A B} (c : outcome E A) (k : A → outcome E B) :
  no_fault c → (∀ a, c = Ok a → no_fault (k a)) → no_fault (obind c k).
Proof. destruct c; simpl; auto. Qed.

Lemma obind_Ok {E A B} (c : outcome E A) (k : A → outcome E B) b :
  obind c k = Ok b ↔ ∃ a, c = Ok a ∧ k a = Ok b.
Proof. destruct c; simpl; naive_solver. Qed.

Lemma omapM_Ok {E A B} (f : A → outcome E B) l ys :
  omapM f l = Ok ys ↔ Forall2 (λ x y, f x = Ok y) l ys.
Proof.
  revert ys. induction l as [|x l IH]; intros ys; simpl.
  - split; [by intros [= <-]|by inversion 1].
  - rewrite obind_Ok. split.
    + intros (y & Hy & (ys' & Hys & [= <-])%obind_Ok).
      constructor; [done|by apply IH].
    + inversion 1 as [|? y ? ys' Hy Hys]; subst.
      exists y. split; [done|]. apply obind_Ok. exists ys'.
      split; [by apply IH|done].
Qed.

Lemma ofold_app {E A S} (f : S → A → outcome E S) l1 l2 s :
  ofold f (l1 ++ l2) s = obind (ofold f l1 s) (ofold f l2).
Proof.
  revert s. induction l1 as [|x l1 IH]; intros s; simpl; [done|].
  destruct (f s x); simpl; auto.
Qed.

(** Invariant rule of a loop whose body may return early. *)
Lemma ofold_inv {E A S} (f : S → A → outcome E S) (P : list A → S → Prop) l s s' :
  P [] s →
  (∀ done x rest t t', l = done ++ x :: rest → P done t → f t x = Ok t' →
    P (done ++ [x]) t') →
  ofold f l s = Ok s' → P l s'.
Proof.
  intros H0 Hstep.
  assert (∀ todo done t, l = done ++ todo → P done t →
    ofold f todo t = Ok s' → P l s') as Hgen.
  { induction todo as [|x todo IH]; intros done t Hl HP; simpl.
    - intros [= <-]. by rewrite Hl, app_nil_r.
    - intros (t' & Hf & Hr)%obind_Ok.
      apply (IH (done ++ [x]) t'); [by rewrite <-app_assoc|by eauto|done]. }
  apply (Hgen l [] s); done.
Qed.

(** The same rule for a loop that always completes. *)
Lemma ofold_total {E A S} (f : S → A → outcome E S) (P : list A → S → Prop) l s :
  P [] s →
  (∀ done x rest t, l = done ++ x :: rest → P done t →
    ∃ t', f t x = Ok t' ∧ P (done ++ [x]) t') →
  ∃ s', ofold f l s = Ok s' ∧ P l s'.
Proof.
  intros H0 Hstep.
  assert (∀ todo done t, l = done ++ todo → P done t →
    ∃ s', ofold f todo t = Ok s' ∧ P l s') as Hgen.
  { induction todo as [|x todo IH]; intros done t Hl HP; simpl.
    - exists t. by rewrite Hl, app_nil_r.
    - destruct (Hstep done x todo t Hl HP) as (t' & -> & HP'). simpl.
      apply (IH (done ++ [x])); [by rewrite <-app_assoc|done]. }
  apply (Hgen l [] s); done.
Qed.

(** The rule of [sfor]: an invariant of the completed rounds, and what holds
    when a round stops the loop. *)
Lemma sfor_rule {S E A} (f : A → stateful S E unit) (P : list A → S → Prop)
    (Q : E → S → Prop) l s :
  P [] s →
  (∀ done x rest t, l = done ++ x :: rest → P done t →
    match f x t with
    | (Ok _, t') => P (done ++ [x]) t' | (Err e, t') => Q e t' | (Fault _, _) => False
    end) →
  match sfor f l s with
  | (Ok _, s') => P l s' | (Err e, s') => Q e s' | (Fault _, _) => False
  end.
Proof.
  intros H0 Hstep.
  assert (∀ todo done t, l = done ++ todo → P done t →
    match sfor f todo t with
    | (Ok _, s') => P l s' | (Err e, s') => Q e s' | (Fault _, _) => False
    end) as Hgen.
  { induction todo as [|x todo IH]; intros done t Hl HP; simpl.
    - by rewrite Hl, app_nil_r.
    - unfold sbind. pose proof (Hstep done x todo t Hl HP) as Hx.
      destruct (f x t) as [[[]|e|ft] t']; [|done..].
      apply (IH (done ++ [x])); [by rewrite <-app_assoc|done]. }
  by apply (Hgen l []).
Qed.

Lemma ofold_no_fault {E A S} (f : S → A → outcome E S) l s :
  (∀ t x, x ∈ l → no_fault (f t x)) → no_fault (ofold f l s).
Proof.
  revert s. induction l as [|x l IH]; intros s H; simpl; [done|].
  apply no_fault_bind; [apply H; left|]. intros t _. apply IH.
  intros t' y Hy. apply H. by right.
Qed.

Lemma omapM_ext {E A B} (f g : A → outcome E B) l :
  (∀ x, x ∈ l → f x = g x) → omapM f l = omapM g l.
Proof.
  induction l as [|x l IH]; intros H; simpl; [done|].
  rewrite H by left. rewrite IH; [done|]. intros y Hy. apply H. by right.
Qed.

Lemma omapM_no_fault {E A B} (f : A → outcome E B) l :
  (∀ x, x ∈ l → no_fault (f x)) → no_fault (omapM f l).
Proof.
  induction l as [|x l IH]; intros H; simpl; [done|].
  apply no_fault_bind; [apply H; left|]. intros y _.
  apply no_fault_bind; [|done]. apply IH. intros z Hz. apply H. by right.
Qed.

(** The counting loop [for (i = 0; i < n; ++i)]. *)
Lemma seqZ_position n done x rest :
  seqZ 0 n = done ++ x :: rest →
  x = Z.of_nat (length done) ∧ Z.of_nat (length done) < n.
Proof.
  intros H. assert (seqZ 0 n !! length done = Some x) as Hx.
  { by rewrite H, list_lookup_middle. }
  apply lookup_seqZ in Hx. lia.
Qed.

Lemma for_inv {E S} (f : S → Z → outcome E S) (P : nat → S → Prop) n s s' :
  P 0%nat s →
  (∀ i t t', Z.of_nat i < n → P i t → f t (Z.of_nat i) = Ok t' → P (Datatypes.S i) t') →
  ofold f (seqZ 0 n) s = Ok s' → P (Z.to_nat n) s'.
Proof.
  intros H0 Hstep Hf. rewrite <-(length_seqZ 0 n).
  apply (ofold_inv f (λ done t, P (length done) t) (seqZ 0 n) s); [done| |done].
  intros done x rest t t' [-> Hlt]%seqZ_position HP Hft.
  rewrite length_app, Nat.add_1_r. by eapply Hstep.
Qed.

Lemma for_total {E S} (f : S → Z → outcome E S) (P : nat → S → Prop) n s :
  P 0%nat s →
  (∀ i t, Z.of_nat i < n → P i t → ∃ t', f t (Z.of_nat i) = Ok t' ∧ P (Datatypes.S i) t') →
  ∃ s', ofold f (seqZ 0 n) s = Ok s' ∧ P (Z.to_nat n) s'.
Proof.
  intros H0 Hstep. rewrite <-(length_seqZ 0 n).
  apply (ofold_total f (λ done t, P (length done) t)); [done|].
  intros done x rest t [-> Hlt]%seqZ_position HP.
  rewrite length_app, Nat.add_1_r. by apply Hstep.
Qed.

(** [bind_ok H x Hx]: the successful call [H] ran a first step [Hx] giving [x].
    [guard_ok H Hb]: it passed a guard whose failure returns early. *)
Ltac bind_ok H x Hx :=
  apply obind_Ok in H; destruct H as (x & Hx & H).
Ltac guard_ok H Hb :=
  match type of H with
  | (if ?b then _ else _) = Ok _ => destruct b eqn:Hb; [discriminate H|]
  end.
(** Splits every successful call in the context into its steps. *)
Ltac inv_ok :=
  repeat match goal with
  | H : obind _ _ = Ok _ |- _ =>
      let a := fresh "v" in let H1 := fresh "Hstep" in bind_ok H a H1
  | H : Ok _ = Ok _ |- _ => injection H as H; try subst
  | H : (if _ then _ else _) = Ok _ |- _ => let Hb := fresh "Hb" in guard_ok H Hb
  | H : _ = Ok _ |- _ => discriminate H
  end.

(** Splits the innermost match or conditional of the goal. *)
Ltac case_inner :=
  match goal with |- context [match ?x with _ => _ end] =>
    lazymatch x with context [match _ with _ => _ end] => fail | _ => destruct x eqn:? end
  end.

(** Turns boolean tests on integers into the facts they state. *)
Ltac btoprop :=
  repeat match goal with
  | H : (_ || _) = false |- _ => apply orb_false_iff in H; destruct H
  | H : (_ && _) = true |- _ => apply andb_true_iff in H; destruct H
  | H : negb _ = false |- _ => apply negb_false_iff in H
  | H : negb _ = true |- _ => apply negb_true_iff in H
  | H : (_ <? _) = true |- _ => apply Z.ltb_lt in H
  | H : (_ <? _) = false |- _ => apply Z.ltb_ge in H
  | H : (_ <=? _) = true |- _ => apply Z.leb_le in H
  | H : (_ <=? _) = false |- _ => apply Z.leb_gt in H
  | H : (_ =? _) = true |- _ => apply Z.eqb_eq in H
  | H : (_ =? _) = false |- _ => apply Z.eqb_neq in H
  | H : (_ >? _) = true |- _ => rewrite Z.gtb_ltb in H
  | H : (_ >? _) = false |- _ => rewrite Z.gtb_ltb in H
  | H : (_ >=? _) = true |- _ => rewrite Z.geb_leb in H
  | H : (_ >=? _) = false |- _ => rewrite Z.geb_leb in H
  end.

(** ** Lengths and positions as unsigned integers *)

Definition Zlen {A} (l : list A) : Z := Z.of_nat (length l).

Lemma Zlen_nonneg {A} (l : list A) : 0 ≤ Zlen l.
Proof. unfold Zlen. lia. Qed.

Lemma Zlen_app {A} (l1 l2 : list A) : Zlen (l1 ++ l2) = Zlen l1 + Zlen l2.
Proof. unfold Zlen. rewrite length_app. lia. Qed.

Lemma Zlen_cons {A} (x : A) l : Zlen (x :: l) = 1 + Zlen l.
Proof. unfold Zlen. simpl length. lia. Qed.

(** [vec[i]] without a bounds check. *)
Definition at_ {E A} (l : list A) (i : Z) : outcome E A :=
  if (i <? 0) then Fault OutOfRange else
  match l !! Z.to_nat i with
  | Some x => Ok x
  | None => Fault OutOfRange
  end.

Lemma at_Ok {E A} (l : list A) i x :
  @at_ E A l i = Ok x ↔ 0 ≤ i ∧ l !! Z.to_nat i = Some x.
Proof.
  unfold at_. destruct (Z.ltb_spec i 0).
  - split; [done|lia].
  - destruct (l !! Z.to_nat i); naive_solver.
Qed.

Lemma at_in {E A} (l : list A) i : 0 ≤ i < Zlen l →
  ∃ x, l !! Z.to_nat i = Some x ∧ @at_ E A l i = Ok x.
Proof.
  unfold Zlen. intros Hi.
  destruct (lookup_lt_is_Some_2 l (Z.to_nat i)) as [x Hx]; [lia|].
  exists x. split; [done|]. apply at_Ok. split; [lia|done].
Qed.

(** [vec[i] = x] without a bounds check. *)
Definition set_at {E A} (l : list A) (i : Z) (x : A) : outcome E (list A) :=
  if (i <? 0) || (Zlen l <=? i) then Fault OutOfRange
  else Ok (<[Z.to_nat i := x]> l).

Lemma set_at_in {E A} (l : list A) i x :
  0 ≤ i < Zlen l → @set_at E A l i x = Ok (<[Z.to_nat i := x]> l).
Proof.
  intros. unfold set_at. destruct (Z.ltb_spec i 0), (Z.leb_spec (Zlen l) i); done || lia.
Qed.

(** ** Sub-lists: [span.subspan(off, n)] and overwriting *)

Definition slice {A} (off n : nat) (l : list A) : list A := take n (drop off l).

(** [l] with the elements from [off] on replaced by [new]. *)
Definition splice {A} (off : nat) (new l : list A) : list A :=
  take off l ++ new ++ drop (off + length new) l.

Lemma length_slice {A} off n (l : list A) :
  (off + n ≤ length l)%nat → length (slice off n l) = n.
Proof. intros. unfold slice. rewrite length_take, length_drop. lia. Qed.

Lemma lookup_slice {A} off n (l : list A) i :
  (i < n)%nat → slice off n l !! i = l !! (off + i)%nat.
Proof. intros. unfold slice. rewrite lookup_take, decide_True by lia. apply lookup_drop. Qed.

Lemma length_splice {A} off (new l : list A) :
  (off + length new ≤ length l)%nat → length (splice off new l) = length l.
Proof.
  intros. unfold splice. rewrite !length_app, length_take, length_drop. lia.
Qed.

Lemma lookup_splice_in {A} off (new l : list A) i :
  (off + length new ≤ length l)%nat → (off ≤ i < off + length new)%nat →
  splice off new l !! i = new !! (i - off)%nat.
Proof.
  intros. unfold splice.
  rewrite lookup_app_r by (rewrite length_take; lia).
  rewrite length_take, lookup_app_l by lia. f_equal. lia.
Qed.

Lemma lookup_splice_out {A} off (new l : list A) i :
  (off + length new ≤ length l)%nat → (i < off ∨ off + length new ≤ i)%nat →
  splice off new l !! i = l !! i.
Proof.
  intros ? [?|?]; unfold splice.
  - rewrite lookup_app_l by (rewrite length_take; lia).
    by rewrite lookup_take, decide_True by lia.
  - rewrite lookup_app_r by (rewrite length_take; lia).
    rewrite length_take, lookup_app_r by lia.
    rewrite lookup_drop. f_equal. lia.
Qed.

Lemma slice_splice_same {A} off (new l : list A) :
  (off + length new ≤ length l)%nat →
  slice off (length new) (splice off new l) = new.
Proof.
  intros. apply list_eq. intros i. destruct (decide (i < length new)%nat).
  - rewrite lookup_slice, lookup_splice_in by lia. f_equal. lia.
  - rewrite !lookup_ge_None_2; [done|lia|].
    rewrite length_slice; [lia|]. rewrite length_splice; lia.
Qed.

Lemma slice_splice_disjoint {A} off off' n (new l : list A) :
  (off + length new ≤ length l)%nat →
  (off' + n ≤ off ∨ off + length new ≤ off')%nat →
  slice off' n (splice off new l) = slice off' n l.
Proof.
  intros Hl Hd. apply list_eq. intros i. destruct (decide (i < n)%nat).
  - rewrite !lookup_slice by lia. apply lookup_splice_out; lia.
  - unfold slice. by rewrite !lookup_take, !decide_False by lia.
Qed.

Lemma slice_insert_ne {A} off n i (x : A) l :
  (i < off ∨ off + n ≤ i)%nat → slice off n (<[i:=x]> l) = slice off n l.
Proof.
  intros Hd. apply list_eq. intros j. destruct (decide (j < n)%nat).
  - rewrite !lookup_slice by lia. apply list_lookup_insert_ne. lia.
  - unfold slice. by rewrite !lookup_take, !decide_False by lia.
Qed.

Lemma slice_app_l {A} off n (l l' : list A) :
  (off + n ≤ length l)%nat → slice off n (l ++ l') = slice off n l.
Proof.
  intros. unfold slice. rewrite drop_app_le by lia.
  rewrite take_app_le; [done|]. rewrite length_drop. lia.
Qed.

Lemma slice_app_r {A} (l l' : list A) n :
  n = length l' → slice (length l) n (l ++ l') = l'.
Proof.
  intros ->. unfold slice. rewrite drop_app_length. by rewrite take_ge.
Qed.

(** ** Finding an element by its key *)

Section FindKey.
Context {A K : Type} `{EqDecision K} (key : A → K).
Implicit Types (l : list A) (id : K).

Definition find_key id l : option A := snd <$> list_find (λ x, key x = id) l.

Lemma find_key_Some_1 id l x : find_key id l = Some x → x ∈ l ∧ key x = id.
Proof.
  unfold find_key. intros ([i y] & H & ->)%fmap_Some.
  apply list_find_Some in H as (Hi & Hk & _).
  split; [by eapply list_elem_of_lookup_2|done].
Qed.

Lemma find_key_None id l : find_key id l = None ↔ id ∉ key <$> l.
Proof.
  unfold find_key. rewrite fmap_None, list_find_None, Forall_forall, list_elem_of_fmap.
  naive_solver.
Qed.

Lemma find_key_Some id l x :
  NoDup (key <$> l) → find_key id l = Some x ↔ x ∈ l ∧ key x = id.
Proof.
  intros Hnd. split; [apply find_key_Some_1|]. intros [Hx Hk].
  destruct (find_key id l) as [y|] eqn:E.
  - apply find_key_Some_1 in E as [Hy Hk']. f_equal.
    apply list_elem_of_lookup in Hx as [i Hi], Hy as [j Hj].
    assert (i = j); [|congruence].
    eapply (NoDup_lookup (key <$> l)); [done|..];
      rewrite list_lookup_fmap; [rewrite Hi|rewrite Hj]; simpl; [done|congruence].
  - apply find_key_None in E. destruct E. apply list_elem_of_fmap. by exists x.
Qed.
End FindKey.

(** ** Bytes *)

Abbreviation byte := Byte.byte.

Definition byte_to_Z (b : byte) : Z := Z.of_N (Byte.to_N b).

(** [static_cast<std::byte>(z)] *)
Definition byte_of_Z (z : Z) : byte :=
  match Byte.of_N (Z.to_N (z mod 256)) with
  | Some b => b
  | None => Byte.x00
  end.

#[export] Instance byte_eq_dec : EqDecision byte := Byte.byte_eq_dec.

Lemma byte_to_Z_range b : 0 ≤ byte_to_Z b < 256.
Proof.
  unfold byte_to_Z. pose proof (Byte.to_N_bounded b). lia.
Qed.

Lemma byte_to_of_Z z : byte_to_Z (byte_of_Z z) = z mod 256.
Proof.
  unfold byte_to_Z, byte_of_Z.
  pose proof (Z.mod_pos_bound z 256 ltac:(lia)).
  destruct (Byte.of_N (Z.to_N (z mod 256))) as [b|] eqn:E.
  - apply Byte.to_of_N in E. rewrite E. lia.
  - apply Byte.of_N_None_iff in E. lia.
Qed.

Lemma byte_of_to_Z b : byte_of_Z (byte_to_Z b) = b.
Proof.
  unfold byte_of_Z. rewrite Z.mod_small by apply byte_to_Z_range.
  unfold byte_to_Z. rewrite N2Z.id. by rewrite Byte.of_to_N.
Qed.

Lemma byte_to_Z_inj b1 b2 : byte_to_Z b1 = byte_to_Z b2 → b1 = b2.
Proof. intros H. rewrite <-(byte_of_to_Z b1), H. apply byte_of_to_Z. Qed.

Lemma byte_of_Z_mod z : byte_of_Z (z mod 256) = byte_of_Z z.
Proof. unfold byte_of_Z. by rewrite Z.mod_mod. Qed.

(** ** Machine words *)

Definition u8_max : Z := 255.
Definition u32_max : Z := 4294967295.
Definition u64_max : Z := 18446744073709551615.
Definition i64_max : Z := 9223372036854775807.

Definition wrap8 (z : Z) : Z := z mod 2 ^ 8.
Definition wrap32 (z : Z) : Z := z mod 2 ^ 32.
Definition wrap64 (z : Z) : Z := z mod 2 ^ 64.

Arguments wrap8 : simpl never.
Arguments wrap32 : simpl never.
Arguments wrap64 : simpl never.

Definition is_u32 (z : Z) : Prop := 0 ≤ z < 2 ^ 32.
Definition is_u64 (z : Z) : Prop := 0 ≤ z < 2 ^ 64.

Lemma wrap64_small z : is_u64 z → wrap64 z = z.
Proof. apply Z.mod_small. Qed.

Lemma wrap32_small z : is_u32 z → wrap32 z = z.
Proof. apply Z.mod_small. Qed.

Lemma wrap64_range z : is_u64 (wrap64 z).
Proof. apply Z.mod_pos_bound. lia. Qed.

(** [value != 0 && (value & (value - 1)) == 0], also [std::has_single_bit]. *)
Definition single_bit (z : Z) : bool := negb (z =? 0) && (Z.land z (z - 1) =? 0).

Lemma single_bit_spec z : 0 ≤ z → single_bit z = true ↔ ∃ n, 0 ≤ n ∧ z = 2 ^ n.
Proof.
  intros Hz. unfold single_bit. split.
  - intros [Hne Hl]%andb_true_iff. btoprop.
    exists (Z.log2 z). split; [apply Z.log2_nonneg|].
    destruct (Z.log2_spec z) as [Hlo Hhi]; [lia|].
    destruct (Z.eq_dec z (2 ^ Z.log2 z)) as [|Hne']; [done|exfalso].
    assert (Z.log2 (z - 1) = Z.log2 z) as Hlog.
    { apply Z.log2_unique; [apply Z.log2_nonneg|]. lia. }
    assert (0 < 2 ^ Z.log2 z) by (apply Z.pow_pos_nonneg; [lia|apply Z.log2_nonneg]).
    assert (Z.testbit (Z.land z (z - 1)) (Z.log2 z) = true) as Hb.
    { rewrite Z.land_spec, (Z.bit_log2 z), andb_true_l by lia.
      rewrite <-Hlog. apply Z.bit_log2. lia. }
    by rewrite Hl, Z.bits_0 in Hb.
  - intros (n & Hn & ->).
    assert (0 < 2 ^ n) by (apply Z.pow_pos_nonneg; lia).
    apply andb_true_iff. split; [apply negb_true_iff, Z.eqb_neq; lia|].
    apply Z.eqb_eq. replace (2 ^ n - 1) with (Z.ones n) by (rewrite Z.ones_equiv; lia).
    rewrite Z.land_ones by lia. apply Z.mod_same. lia.
Qed.

(** [x & (2^n - 1)] *)
Lemma land_mask x n : 0 ≤ n → Z.land x (2 ^ n - 1) = x mod 2 ^ n.
Proof.
  intros. replace (2 ^ n - 1) with (Z.ones n) by (rewrite Z.ones_equiv; lia).
  by apply Z.land_ones.
Qed.

Lemma land_single_bit x m :
  0 ≤ m → single_bit m = true → Z.land x (m - 1) = x mod m.
Proof.
  intros Hm (n & Hn & ->)%single_bit_spec; [by apply land_mask|done].
Qed.

(** The concatenation of low bits and shifted high bits is a sum. *)
Lemma lor_shiftl_add b r k :
  0 ≤ k → 0 ≤ b < 2 ^ k → Z.lor b (Z.shiftl r k) = b + r * 2 ^ k.
Proof.
  intros Hk Hb. rewrite <-Z.shiftl_mul_pow2 by lia.
  assert (Z.land b (Z.shiftl r k) = 0) as Hd.
  { apply Z.bits_inj'. intros i Hi. rewrite Z.land_spec, Z.bits_0.
    destruct (Z.lt_ge_cases i k).
    - by rewrite Z.shiftl_spec_low, andb_false_r by lia.
    - rewrite <-(Z.mod_small b (2 ^ k)) by lia.
      by rewrite Z.mod_pow2_bits_high by lia. }
  by rewrite <-Z.lxor_lor, Z.add_nocarry_lxor by done.
Qed.

Lemma splice_cons {A} o (x : A) new l :
  (o < length l)%nat → splice (S o) new (<[o:=x]> l) = splice o (x :: new) l.
Proof.
  intros Ho. unfold splice.
  rewrite (take_S_r _ _ x) by (by apply list_lookup_insert_eq).
  rewrite take_insert_ge by lia.
  rewrite drop_insert_lt by lia. rewrite <-app_assoc. simpl.
  by replace (S (o + length new)) with (o + S (length new))%nat by lia.
Qed.

Lemma slice_cons {A} o n (x : A) l :
  l !! o = Some x → slice o (S n) l = x :: slice (S o) n l.
Proof.
  intros Hx. unfold slice. by rewrite (drop_S _ _ _ Hx).
Qed.

Create HintDb kv discriminated.
#[export] Hint Resolve byte_to_Z_range wrap64_range Zlen_nonneg : kv.
Create Rewrite HintDb kv_len.
#[export] Hint Rewrite @Zlen_app @Zlen_cons @length_app @length_splice
  @length_take @length_drop @length_replicate : kv_len.
