(* ===== verification/Status.v ===== *)
(** * Status: [include/kv_index/status.h]

    [Status] and [StatusOr].  A [StatusOr<T>] is an [outcome Status T]; a
    function returning [Status] is an [outcome Status unit], where [Ok tt]
    is the ok status. *)

From S2P Require Import Prelude.

Inductive StatusCode : Type :=
| kOk
| kCancelled
| kInvalidArgument
| kNotFound
| kFailedPrecondition
| kInternal
| kUnavailable
| kUnknown.

#[export] Instance StatusCode_eq_dec : EqDecision StatusCode.
Proof. solve_decision. Defined.

Record Status : Type := MkStatus { status_code : StatusCode; status_message : string }.

#[export] Instance Status_eq_dec : EqDecision Status.
Proof. solve_decision. Defined.

(** The constructor [Status(code, message)]: an ok code with a message is
    demoted to [kUnknown]. *)
Definition Status_make (code : StatusCode) (message : string) : Status :=
  match code with
  | kOk => if decide (message = ""%string) then MkStatus kOk message
           else MkStatus kUnknown message
  | _ => MkStatus code message
  end.

Definition Status_Ok : Status := MkStatus kOk "".

Definition Status_ok (s : Status) : bool :=
  match status_code s with kOk => true | _ => false end.

Abbreviation StatusOr A := (outcome Status A).
Abbreviation StatusM := (outcome Status unit).

Definition Cancelled {A} (m : string) : StatusOr A := Err (Status_make kCancelled m).
Definition InvalidArgument {A} (m : string) : StatusOr A := Err (Status_make kInvalidArgument m).
Definition NotFound {A} (m : string) : StatusOr A := Err (Status_make kNotFound m).
Definition FailedPrecondition {A} (m : string) : StatusOr A :=
  Err (Status_make kFailedPrecondition m).
Definition Internal {A} (m : string) : StatusOr A := Err (Status_make kInternal m).
Definition Unavailable {A} (m : string) : StatusOr A := Err (Status_make kUnavailable m).

(** [StatusOr::NormalizeStatus]: an ok status cannot stand for an error. *)
Definition NormalizeStatus (s : Status) : Status :=
  if Status_ok s
  then Status_make kInternal "StatusOr constructed from OK status without a value"
  else s.

Definition StatusOr_of_Status {A} (s : Status) : StatusOr A := Err (NormalizeStatus s).

(** [StatusOr::value()]: [EnsureOk] throws when there is no value. *)
Definition StatusOr_value {A} (s : StatusOr A) : StatusOr A :=
  match s with
  | Ok a => Ok a
  | Err e =>
      Fault (Thrown (if decide (status_message e = ""%string)
                     then "StatusOr has no value"
                     else "StatusOr has no value: " +:+ status_message e))
  | Fault f => Fault f
  end.

(** A call is well formed when a failure carries a non-ok status. *)
Definition proper_error {A} (c : StatusOr A) : Prop :=
  match c with Err s => Status_ok s = false | _ => True end.

Lemma NormalizeStatus_not_ok s : Status_ok (NormalizeStatus s) = false.
Proof. unfold NormalizeStatus. by destruct (Status_ok s) eqn:E. Qed.

Lemma Status_make_ok_iff c m :
  Status_ok (Status_make c m) = true ↔ c = kOk ∧ m = ""%string.
Proof.
  destruct c; simpl; try (split; [done|naive_solver]).
  case_decide; simpl; naive_solver.
Qed.
