(* ===== verification/ByteIo.v ===== *)
(** * Little-endian access: [src/base/byte_io.h]

    Fixed-width integers are [Z] values with the [int_type] of the template
    argument; [bit_cast] between a signed and an unsigned type of the same
    width is [to_unsigned] / [of_unsigned].  The loops of the source are the
    fixpoints [write_bytes] and [read_bytes]; [le_bytes] and [le_value] are
    the mathematical encodings they are proved to compute. *)

From S2P Require Import Prelude Status.

(** ** AlignUp *)

Definition AlignUp (value alignment : Z) : Z :=
  if alignment =? 0 then value
  else let remainder := value mod alignment in
       if remainder =? 0 then value
       else wrap64 (value + wrap64 (alignment - remainder)).

(** ** Integer types *)

Record int_type : Type := IntType { it_size : nat; it_signed : bool }.

Definition int8_t := IntType 1 true.
Definition int32_t := IntType 4 true.
Definition int64_t := IntType 8 true.
Definition uint8_t := IntType 1 false.
Definition uint16_t := IntType 2 false.
Definition uint32_t := IntType 4 false.
Definition uint64_t := IntType 8 false.

Definition it_modulus (t : int_type) : Z := 2 ^ (8 * Z.of_nat (it_size t)).

Definition in_int_range (t : int_type) (v : Z) : Prop :=
  if it_signed t
  then - (it_modulus t / 2) ≤ v < it_modulus t / 2
  else 0 ≤ v < it_modulus t.

(** [std::bit_cast<UnsignedT>(value)] *)
Definition to_unsigned (t : int_type) (v : Z) : Z := v mod it_modulus t.

(** [std::bit_cast<T>(unsigned_value)] *)
Definition of_unsigned (t : int_type) (u : Z) : Z :=
  if it_signed t && (it_modulus t / 2 <=? u) then u - it_modulus t else u.

(** ** Bounds *)

Definition CheckSpanBounds (size offset byte_count : Z) : StatusM :=
  if (size <? offset) || (size - offset <? byte_count)
  then InvalidArgument "little-endian fixed-width access is out of bounds"
  else Ok tt.

(** ** Writing *)

(** [bytes[offset + i] = (unsigned_value >> (i * 8)) & 0xff] for
    [i, ..., i + n - 1]. *)
Fixpoint write_bytes (u : Z) (offset : nat) (i n : nat) (bytes : list byte) : list byte :=
  match n with
  | O => bytes
  | S n' =>
      write_bytes u offset (S i) n'
        (<[(offset + i)%nat :=
             byte_of_Z (Z.land (Z.shiftr u (8 * Z.of_nat i)) 255)]> bytes)
  end.

Definition WriteLittleEndian (t : int_type) (value : Z) (offset : Z)
    : stateful (list byte) Status unit :=
  λ bytes,
    match CheckSpanBounds (Zlen bytes) offset (Z.of_nat (it_size t)) with
    | Ok _ =>
        (Ok tt, write_bytes (to_unsigned t value) (Z.to_nat offset) 0 (it_size t) bytes)
    | Err e => (Err e, bytes)
    | Fault f => (Fault f, bytes)
    end.

(** [if (!status.ok()) return status;] for a write into [bytes]. *)
Definition run_write (w : stateful (list byte) Status unit) (bytes : list byte)
    : StatusOr (list byte) :=
  match w bytes with
  | (Ok _, bytes') => Ok bytes'
  | (Err e, _) => Err e
  | (Fault f, _) => Fault f
  end.

(** ** Reading *)

Fixpoint read_bytes (bytes : list byte) (offset : nat) (i n : nat) (acc : Z) : Z :=
  match n with
  | O => acc
  | S n' =>
      let b := default Byte.x00 (bytes !! (offset + i)%nat) in
      read_bytes bytes offset (S i) n'
        (Z.lor acc (Z.shiftl (byte_to_Z b) (8 * Z.of_nat i)))
  end.

Definition ReadLittleEndian (t : int_type) (bytes : list byte) (offset : Z) : StatusOr Z :=
  let* _ := CheckSpanBounds (Zlen bytes) offset (Z.of_nat (it_size t)) in
  Ok (of_unsigned t (read_bytes bytes (Z.to_nat offset) 0 (it_size t) 0)).

(** ** Value references *)

Record ValueRef16 : Type := MkValueRef16 {
  ref_offset : Z;
  byte_length : Z;
  element_count_or_flags : Z;
}.

Definition WriteValueRef16 (ref : ValueRef16) (offset : Z)
    : stateful (list byte) Status unit :=
  λ bytes,
    (do* _ := slift (CheckSpanBounds (Zlen bytes) offset 16) in
     do* _ := WriteLittleEndian uint64_t (ref_offset ref) offset in
     do* _ := WriteLittleEndian uint32_t (byte_length ref) (offset + 8) in
     WriteLittleEndian uint32_t (element_count_or_flags ref) (offset + 12)) bytes.

Definition DecodeValueRef16 (bytes : list byte) (offset : Z) : StatusOr ValueRef16 :=
  let* _ := CheckSpanBounds (Zlen bytes) offset 16 in
  let* o := ReadLittleEndian uint64_t bytes offset in
  let* l := ReadLittleEndian uint32_t bytes (offset + 8) in
  let* c := ReadLittleEndian uint32_t bytes (offset + 12) in
  Ok (MkValueRef16 o l c).

(** ** The mathematical encodings *)

Fixpoint le_bytes (n : nat) (u : Z) : list byte :=
  match n with
  | O => []
  | S n' => byte_of_Z u :: le_bytes n' (Z.shiftr u 8)
  end.

Fixpoint le_value (bs : list byte) : Z :=
  match bs with
  | [] => 0
  | b :: bs' => byte_to_Z b + le_value bs' * 256
  end.

Lemma length_le_bytes n u : length (le_bytes n u) = n.
Proof. revert u. induction n as [|n IH]; intros u; cbn [le_bytes length]; [done|by rewrite IH]. Qed.

Lemma le_value_bound bs : 0 ≤ le_value bs < 2 ^ (8 * Z.of_nat (length bs)).
Proof.
  induction bs as [|b bs IH]; simpl length; simpl le_value; [simpl; lia|].
  pose proof (byte_to_Z_range b).
  replace (8 * Z.of_nat (S (length bs))) with (8 + 8 * Z.of_nat (length bs)) by lia.
  rewrite Z.pow_add_r by lia. change (2 ^ 8) with 256. nia.
Qed.

Lemma le_value_bytes n u : le_value (le_bytes n u) = u mod 2 ^ (8 * Z.of_nat n).
Proof.
  revert u. induction n as [|n IH]; intros u; cbn [le_bytes le_value].
  - by rewrite Z.mod_1_r.
  - rewrite IH, byte_to_of_Z, Z.shiftr_div_pow2 by lia.
    replace (8 * Z.of_nat (S n)) with (8 + 8 * Z.of_nat n) by lia.
    rewrite Z.pow_add_r by lia. change (2 ^ 8) with 256.
    assert (0 < 2 ^ (8 * Z.of_nat n)) by (apply Z.pow_pos_nonneg; lia).
    rewrite Z.rem_mul_r by lia. lia.
Qed.

Lemma le_bytes_value bs : le_bytes (length bs) (le_value bs) = bs.
Proof.
  induction bs as [|b bs IH]; cbn [le_bytes le_value length]; [done|].
  pose proof (byte_to_Z_range b). f_equal.
  - apply byte_to_Z_inj. rewrite byte_to_of_Z.
    rewrite Z.mod_add by lia. by apply Z.mod_small.
  - rewrite Z.shiftr_div_pow2 by lia. change (2 ^ 8) with 256.
    rewrite Z.div_add by lia. by rewrite Z.div_small, Z.add_0_l.
Qed.

(** ** The loops compute them *)

Lemma write_bytes_splice u offset i n bytes :
  (offset + i + n ≤ length bytes)%nat →
  write_bytes u offset i n bytes =
  splice (offset + i) (le_bytes n (Z.shiftr u (8 * Z.of_nat i))) bytes.
Proof.
  revert i bytes. induction n as [|n IH]; intros i bytes Hlen; cbn [write_bytes le_bytes].
  - unfold splice. simpl. by rewrite Nat.add_0_r, take_drop.
  - rewrite IH by (rewrite length_insert; lia).
    replace (offset + S i)%nat with (S (offset + i)) by lia.
    rewrite splice_cons by lia. f_equal.
    rewrite Z.shiftr_shiftr by lia.
    replace (8 * Z.of_nat i + 8) with (8 * Z.of_nat (S i)) by lia. f_equal.
    change 255 with (Z.ones 8). rewrite Z.land_ones by lia.
    apply byte_of_Z_mod.
Qed.

Arguments le_bytes : simpl never.

(** Arithmetic on lengths of updated byte strings. *)
Ltac len :=
  unfold Zlen in *; simpl it_size in *;
  repeat first [rewrite length_le_bytes | rewrite length_app | rewrite length_splice by len];
  lia.

Lemma read_bytes_slice bytes offset i n acc :
  (offset + i + n ≤ length bytes)%nat →
  0 ≤ acc < 2 ^ (8 * Z.of_nat i) →
  read_bytes bytes offset i n acc =
  acc + le_value (slice (offset + i) n bytes) * 2 ^ (8 * Z.of_nat i).
Proof.
  revert i acc. induction n as [|n IH]; intros i acc Hlen Hacc; simpl; [lia|].
  destruct (lookup_lt_is_Some_2 bytes (offset + i)) as [b Hb]; [lia|].
  rewrite Hb. simpl. rewrite (slice_cons _ _ b) by done. simpl le_value.
  pose proof (byte_to_Z_range b).
  rewrite lor_shiftl_add by lia.
  replace (S (offset + i)) with (offset + S i)%nat by lia.
  assert (2 ^ (8 * Z.of_nat (S i)) = 256 * 2 ^ (8 * Z.of_nat i)) as Hpow.
  { replace (8 * Z.of_nat (S i)) with (8 + 8 * Z.of_nat i) by lia.
    rewrite Z.pow_add_r by lia. done. }
  rewrite IH; rewrite ?Hpow; [|lia|].
  - lia.
  - assert (0 < 2 ^ (8 * Z.of_nat i)) by lia. nia.
Qed.

Lemma CheckSpanBounds_Ok size offset n :
  0 ≤ offset → 0 ≤ n →
  CheckSpanBounds size offset n = Ok tt ↔ offset + n ≤ size.
Proof.
  intros. unfold CheckSpanBounds.
  destruct (_ || _) eqn:E; split; try done.
  - intros. apply orb_true_iff in E as [E|E]; btoprop; lia.
  - intros _. btoprop. lia.
Qed.

Lemma CheckSpanBounds_cases size offset n :
  CheckSpanBounds size offset n = Ok tt ∨
  CheckSpanBounds size offset n =
    InvalidArgument "little-endian fixed-width access is out of bounds".
Proof. unfold CheckSpanBounds. case_match; auto. Qed.

(** A write inside the bounds replaces exactly the [sizeof(T)] bytes. *)
Lemma WriteLittleEndian_in t v offset bytes :
  0 ≤ offset → offset + Z.of_nat (it_size t) ≤ Zlen bytes →
  WriteLittleEndian t v offset bytes =
  (Ok tt, splice (Z.to_nat offset) (le_bytes (it_size t) (to_unsigned t v)) bytes).
Proof.
  intros Ho Hlen. unfold WriteLittleEndian.
  assert (CheckSpanBounds (Zlen bytes) offset (Z.of_nat (it_size t)) = Ok tt)
    as -> by (apply CheckSpanBounds_Ok; lia).
  unfold Zlen in Hlen. rewrite write_bytes_splice by lia.
  rewrite Z.mul_0_r, Z.shiftr_0_r. by rewrite Nat.add_0_r.
Qed.

Lemma ReadLittleEndian_in t bytes offset :
  0 ≤ offset → offset + Z.of_nat (it_size t) ≤ Zlen bytes →
  ReadLittleEndian t bytes offset =
  Ok (of_unsigned t (le_value (slice (Z.to_nat offset) (it_size t) bytes))).
Proof.
  intros Ho Hlen. unfold ReadLittleEndian.
  assert (CheckSpanBounds (Zlen bytes) offset (Z.of_nat (it_size t)) = Ok tt)
    as -> by (apply CheckSpanBounds_Ok; lia).
  unfold Zlen in Hlen. simpl. rewrite read_bytes_slice by (simpl; lia).
  rewrite Nat.add_0_r. simpl. by rewrite Z.mul_1_r.
Qed.

Lemma ReadLittleEndian_Ok_bounds t bytes offset v :
  0 ≤ offset → ReadLittleEndian t bytes offset = Ok v →
  offset + Z.of_nat (it_size t) ≤ Zlen bytes.
Proof.
  intros Ho ([] & Hb & _)%obind_Ok.
  by apply CheckSpanBounds_Ok in Hb; [|lia..].
Qed.

Lemma ReadLittleEndian_no_fault t bytes offset :
  no_fault (ReadLittleEndian t bytes offset).
Proof.
  unfold ReadLittleEndian.
  by destruct (CheckSpanBounds_cases (Zlen bytes) offset (Z.of_nat (it_size t))) as [-> | ->].
Qed.

Lemma it_modulus_pos t : 0 < it_modulus t.
Proof. unfold it_modulus. apply Z.pow_pos_nonneg; lia. Qed.

Lemma it_modulus_even t : (0 < it_size t)%nat → it_modulus t = 2 * (it_modulus t / 2).
Proof.
  intros. unfold it_modulus.
  replace (8 * Z.of_nat (it_size t)) with (1 + (8 * Z.of_nat (it_size t) - 1)) by lia.
  rewrite Z.pow_add_r by lia. change (2 ^ 1) with 2.
  rewrite Z.mul_comm, Z.div_mul by lia. lia.
Qed.

Lemma of_to_unsigned t v :
  (0 < it_size t)%nat → in_int_range t v → of_unsigned t (to_unsigned t v) = v.
Proof.
  intros Hs Hv. pose proof (it_modulus_pos t). pose proof (it_modulus_even t Hs).
  unfold of_unsigned, to_unsigned. unfold in_int_range in Hv.
  destruct (it_signed t); simpl; [|by apply Z.mod_small].
  destruct (Z.lt_ge_cases v 0).
  - rewrite <-(Z.mod_add v 1) by lia. rewrite Z.mul_1_l, Z.mod_small by lia.
    case_match; btoprop; lia.
  - rewrite Z.mod_small by lia. case_match; btoprop; lia.
Qed.

Lemma of_unsigned_range t u :
  (0 < it_size t)%nat → 0 ≤ u < it_modulus t → in_int_range t (of_unsigned t u).
Proof.
  intros Hs Hu. pose proof (it_modulus_even t Hs).
  unfold of_unsigned, in_int_range.
  destruct (it_signed t); simpl; [|done]. case_match; btoprop; lia.
Qed.

Lemma ReadLittleEndian_range t bytes offset v :
  (0 < it_size t)%nat → 0 ≤ offset →
  ReadLittleEndian t bytes offset = Ok v → in_int_range t v.
Proof.
  intros Hs Ho H. pose proof (ReadLittleEndian_Ok_bounds _ _ _ _ Ho H) as Hb.
  rewrite ReadLittleEndian_in in H by done. injection H as <-.
  apply of_unsigned_range; [done|].
  pose proof (le_value_bound (slice (Z.to_nat offset) (it_size t) bytes)) as Hl.
  rewrite length_slice in Hl by (unfold Zlen in Hb; lia). done.
Qed.

(** Reads at a place a write did not touch see the old bytes. *)
Lemma ReadLittleEndian_splice_disjoint t off (new bytes : list byte) offset :
  0 ≤ offset → (off + length new ≤ length bytes)%nat →
  (offset + Z.of_nat (it_size t) ≤ Z.of_nat off ∨ Z.of_nat (off + length new) ≤ offset) →
  ReadLittleEndian t (splice off new bytes) offset = ReadLittleEndian t bytes offset.
Proof.
  intros Ho Hl Hd. unfold ReadLittleEndian, Zlen.
  rewrite length_splice by done.
  destruct (CheckSpanBounds_cases (Z.of_nat (length bytes)) offset (Z.of_nat (it_size t)))
    as [E | ->]; [rewrite E|done].
  simpl. apply CheckSpanBounds_Ok in E; [|lia..].
  rewrite !read_bytes_slice by (rewrite ?length_splice; simpl; lia).
  rewrite slice_splice_disjoint; [done|done|lia].
Qed.

Lemma ReadLittleEndian_splice_same t v off (bytes : list byte) :
  (0 < it_size t)%nat → in_int_range t v → (off + it_size t ≤ length bytes)%nat →
  ReadLittleEndian t (splice off (le_bytes (it_size t) (to_unsigned t v)) bytes)
    (Z.of_nat off) = Ok v.
Proof.
  intros Hs Hv Hl.
  assert (length (le_bytes (it_size t) (to_unsigned t v)) = it_size t) as Hn
    by apply length_le_bytes.
  rewrite ReadLittleEndian_in; [|lia|unfold Zlen; rewrite length_splice; lia].
  rewrite Nat2Z.id. rewrite <-Hn at 1. rewrite slice_splice_same by lia.
  rewrite le_value_bytes. fold (it_modulus t).
  rewrite Z.mod_small; [by rewrite of_to_unsigned|].
  apply Z.mod_pos_bound, it_modulus_pos.
Qed.

(** Reading through a prefix of the bytes. *)
Lemma ReadLittleEndian_app t bytes tail offset :
  0 ≤ offset → offset + Z.of_nat (it_size t) ≤ Zlen bytes →
  ReadLittleEndian t (bytes ++ tail) offset = ReadLittleEndian t bytes offset.
Proof.
  intros Ho Hl. rewrite !ReadLittleEndian_in by (rewrite ?Zlen_app; auto with kv;
    pose proof (Zlen_nonneg tail); lia).
  unfold Zlen in Hl. by rewrite slice_app_l by lia.
Qed.

(** Fixed-width access is a faithful store.

    For every integer type of the source, a write of a representable value
    either lies in the span, and then it succeeds, keeps the length, is read
    back as the same value and leaves every other byte alone; or it does not,
    and then it is refused with [kInvalidArgument] and changes nothing, as is
    the read. *)
Theorem little_endian_store (t : int_type) (v offset : Z) (bytes : list byte)
    (Hsize : (0 < it_size t)%nat) (Hv : in_int_range t v) (Hoff : 0 ≤ offset) :
  match WriteLittleEndian t v offset bytes with
  | (Ok _, bytes') =>
      offset + Z.of_nat (it_size t) ≤ Zlen bytes
      ∧ length bytes' = length bytes
      ∧ ReadLittleEndian t bytes' offset = Ok v
      ∧ (∀ i, (Z.of_nat i < offset ∨ offset + Z.of_nat (it_size t) ≤ Z.of_nat i) →
          bytes' !! i = bytes !! i)
  | (Err e, bytes') =>
      Zlen bytes < offset + Z.of_nat (it_size t)
      ∧ bytes' = bytes
      ∧ status_code e = kInvalidArgument
      ∧ ReadLittleEndian t bytes offset = Err e
  | (Fault _, _) => False
  end.
Proof.
  destruct (Z.le_gt_cases (offset + Z.of_nat (it_size t)) (Zlen bytes)) as [Hin|Hout].
  - rewrite WriteLittleEndian_in by done. unfold Zlen in *.
    pose proof (length_le_bytes (it_size t) (to_unsigned t v)) as Hn.
    split_and!; [done|rewrite length_splice; lia| |].
    + rewrite <-(Z2Nat.id offset) at 2 by done.
      apply ReadLittleEndian_splice_same; [done|done|lia].
    + intros i Hi. apply lookup_splice_out; lia.
  - unfold WriteLittleEndian, ReadLittleEndian.
    destruct (CheckSpanBounds_cases (Zlen bytes) offset (Z.of_nat (it_size t))) as [E|E].
    + apply CheckSpanBounds_Ok in E; lia.
    + rewrite E. unfold InvalidArgument. simpl. done.
Qed.

Lemma little_endian_store_witness :
  ∃ bytes', WriteLittleEndian int32_t (-2) 1 (replicate 6 Byte.x00) = (Ok tt, bytes')
    ∧ ReadLittleEndian int32_t bytes' 1 = Ok (-2).
Proof.
  exists (snd (WriteLittleEndian int32_t (-2) 1 (replicate 6 Byte.x00))).
  split; [vm_compute; reflexivity|].
  exact (proj1 (proj2 (proj2 (little_endian_store int32_t (-2) 1 (replicate 6 Byte.x00)
    ltac:(simpl; lia) ltac:(vm_compute; split; congruence) ltac:(lia))))).
Defined.

(** ** Value references *)

Definition ref_wf (r : ValueRef16) : Prop :=
  is_u64 (ref_offset r) ∧ is_u32 (byte_length r) ∧ is_u32 (element_count_or_flags r).

Definition ref_bytes (r : ValueRef16) : list byte :=
  le_bytes 8 (ref_offset r) ++ le_bytes 4 (byte_length r)
    ++ le_bytes 4 (element_count_or_flags r).

Lemma length_ref_bytes r : length (ref_bytes r) = 16%nat.
Proof. unfold ref_bytes. by rewrite !length_app, !length_le_bytes. Qed.

Lemma splice_splice_adjacent {A} off (new1 new2 l : list A) :
  (off + length new1 + length new2 ≤ length l)%nat →
  splice (off + length new1) new2 (splice off new1 l) = splice off (new1 ++ new2) l.
Proof.
  intros Hl. apply list_eq. intros i.
  destruct (decide (off ≤ i < off + length (new1 ++ new2))%nat) as [Hin|Hout].
  - rewrite (lookup_splice_in off (new1 ++ new2)) by (rewrite ?length_app in *; lia).
    rewrite length_app in Hin. destruct (decide (i < off + length new1)%nat).
    + rewrite lookup_splice_out by (rewrite ?length_splice; lia).
      rewrite lookup_splice_in by lia. rewrite lookup_app_l by lia. done.
    + rewrite lookup_splice_in by (rewrite ?length_splice; lia).
      rewrite lookup_app_r by lia. f_equal. lia.
  - rewrite length_app in Hout.
    rewrite !lookup_splice_out by (rewrite ?length_splice, ?length_app; lia). done.
Qed.

Lemma to_unsigned_id t v : 0 ≤ v < it_modulus t → to_unsigned t v = v.
Proof. apply Z.mod_small. Qed.

Lemma WriteValueRef16_in r offset bytes :
  ref_wf r → 0 ≤ offset → offset + 16 ≤ Zlen bytes →
  WriteValueRef16 r offset bytes = (Ok tt, splice (Z.to_nat offset) (ref_bytes r) bytes).
Proof.
  intros (H1 & H2 & H3) Ho Hl. unfold WriteValueRef16, slift, sbind.
  assert (CheckSpanBounds (Zlen bytes) offset 16 = Ok tt) as ->
    by (apply CheckSpanBounds_Ok; lia).
  unfold Zlen in Hl.
  rewrite !WriteLittleEndian_in by len. simpl it_size.
  rewrite !to_unsigned_id by done. f_equal.
  replace (Z.to_nat (offset + 8)) with
    (Z.to_nat offset + length (le_bytes 8 (ref_offset r)))%nat
    by (rewrite length_le_bytes; lia).
  rewrite splice_splice_adjacent by (rewrite !length_le_bytes; lia).
  replace (Z.to_nat (offset + 12)) with
    (Z.to_nat offset + length (le_bytes 8 (ref_offset r) ++ le_bytes 4 (byte_length r)))%nat
    by (rewrite length_app, !length_le_bytes; lia).
  rewrite splice_splice_adjacent by (rewrite ?length_app, !length_le_bytes; lia).
  unfold ref_bytes. by rewrite <-app_assoc.
Qed.

Lemma WriteValueRef16_out r offset bytes :
  0 ≤ offset → Zlen bytes < offset + 16 →
  WriteValueRef16 r offset bytes =
  (InvalidArgument "little-endian fixed-width access is out of bounds", bytes).
Proof.
  intros Ho Hl. unfold WriteValueRef16, slift, sbind.
  destruct (CheckSpanBounds_cases (Zlen bytes) offset 16) as [E| ->]; [|done].
  apply CheckSpanBounds_Ok in E; lia.
Qed.

Lemma slice_slice {A} off n off' n' (l : list A) :
  (off' + n' ≤ n)%nat → slice off' n' (slice off n l) = slice (off + off') n' l.
Proof.
  intros H. apply list_eq. intros i. destruct (decide (i < n')%nat).
  - rewrite !lookup_slice by lia. f_equal. lia.
  - unfold slice. by rewrite !lookup_take, !decide_False by lia.
Qed.

(** Decoding depends only on the sixteen bytes at the offset. *)
Lemma DecodeValueRef16_slice bytes offset r :
  ref_wf r → 0 ≤ offset → offset + 16 ≤ Zlen bytes →
  slice (Z.to_nat offset) 16 bytes = ref_bytes r →
  DecodeValueRef16 bytes offset = Ok r.
Proof.
  intros (H1 & H2 & H3) Ho Hl Hs. unfold DecodeValueRef16.
  assert (CheckSpanBounds (Zlen bytes) offset 16 = Ok tt) as ->
    by (apply CheckSpanBounds_Ok; lia). simpl obind.
  rewrite !ReadLittleEndian_in by (simpl; lia). simpl obind.
  assert (∀ o n, (o + n ≤ 16)%nat →
    slice (Z.to_nat (offset + Z.of_nat o)) n bytes = slice o n (ref_bytes r)) as Hsl.
  { intros o n Hon. rewrite <-Hs, slice_slice by done. f_equal. lia. }
  pose proof (Hsl 0%nat 8%nat ltac:(lia)) as S0. rewrite Z.add_0_r in S0.
  pose proof (Hsl 8%nat 4%nat ltac:(lia)) as S8.
  pose proof (Hsl 12%nat 4%nat ltac:(lia)) as S12.
  simpl it_size. change (Z.of_nat 8) with 8 in S8. change (Z.of_nat 12) with 12 in S12.
  rewrite S0, S8, S12. unfold ref_bytes.
  set (b1 := le_bytes 8 (ref_offset r)). set (b2 := le_bytes 4 (byte_length r)).
  set (b3 := le_bytes 4 (element_count_or_flags r)).
  change (slice 0 8 (b1 ++ b2 ++ b3)) with b1.
  change (slice 8 4 (b1 ++ b2 ++ b3)) with b2.
  change (slice 12 4 (b1 ++ b2 ++ b3)) with b3.
  unfold of_unsigned. cbn [uint64_t uint32_t it_signed andb obind].
  unfold b1, b2, b3. rewrite !le_value_bytes.
  rewrite !Z.mod_small by done. by destruct r.
Qed.

Lemma DecodeValueRef16_no_fault bytes offset : no_fault (DecodeValueRef16 bytes offset).
Proof.
  unfold DecodeValueRef16.
  destruct (CheckSpanBounds_cases (Zlen bytes) offset 16) as [-> | ->]; [|done].
  repeat (apply no_fault_bind; [apply ReadLittleEndian_no_fault || done|intros]). done.
Qed.

Lemma DecodeValueRef16_Ok_bounds bytes offset r :
  0 ≤ offset → DecodeValueRef16 bytes offset = Ok r →
  offset + 16 ≤ Zlen bytes ∧ ref_wf r.
Proof.
  intros Ho H. unfold DecodeValueRef16 in H.
  bind_ok H u Hb. destruct u. bind_ok H o H1. bind_ok H l H2. bind_ok H c H3.
  injection H as <-. apply CheckSpanBounds_Ok in Hb; [|lia..].
  split; [done|]. unfold ref_wf. simpl.
  apply ReadLittleEndian_range in H1, H2, H3; try lia; try (simpl; lia). done.
Qed.

(** Value references survive the slot.

    A [ValueRef16] written at a place that fits is decoded back unchanged;
    where sixteen bytes do not fit, both the write and the decode are refused
    and the bytes are untouched. *)
Theorem value_ref_roundtrip (r : ValueRef16) (offset : Z) (bytes : list byte)
    (Hr : ref_wf r) (Hoff : 0 ≤ offset) :
  match WriteValueRef16 r offset bytes with
  | (Ok _, bytes') =>
      offset + 16 ≤ Zlen bytes ∧ length bytes' = length bytes
      ∧ DecodeValueRef16 bytes' offset = Ok r
      ∧ (∀ i, (Z.of_nat i < offset ∨ offset + 16 ≤ Z.of_nat i) → bytes' !! i = bytes !! i)
  | (Err e, bytes') =>
      Zlen bytes < offset + 16 ∧ bytes' = bytes
      ∧ DecodeValueRef16 bytes offset = Err e
  | (Fault _, _) => False
  end.
Proof.
  pose proof (length_ref_bytes r) as Hn.
  destruct (Z.le_gt_cases (offset + 16) (Zlen bytes)) as [Hin|Hout].
  - rewrite WriteValueRef16_in by done. unfold Zlen in *.
    split_and!; [done|rewrite length_splice; lia| |].
    + apply DecodeValueRef16_slice; [done..| |].
      * unfold Zlen. rewrite length_splice; lia.
      * rewrite <-Hn. apply slice_splice_same. lia.
    + intros i Hi. apply lookup_splice_out; lia.
  - rewrite WriteValueRef16_out by done. split_and!; [done|done|].
    unfold DecodeValueRef16.
    destruct (CheckSpanBounds_cases (Zlen bytes) offset 16) as [E| ->]; [|done].
    apply CheckSpanBounds_Ok in E; lia.
Qed.

Lemma value_ref_roundtrip_witness :
  ∃ bytes', WriteValueRef16 (MkValueRef16 70000 5 2) 3 (replicate 20 Byte.x00) = (Ok tt, bytes')
    ∧ DecodeValueRef16 bytes' 3 = Ok (MkValueRef16 70000 5 2).
Proof.
  exists (snd (WriteValueRef16 (MkValueRef16 70000 5 2) 3 (replicate 20 Byte.x00))).
  split; [vm_compute; reflexivity|].
  exact (proj1 (proj2 (proj2 (value_ref_roundtrip (MkValueRef16 70000 5 2) 3
    (replicate 20 Byte.x00) ltac:(unfold ref_wf, is_u64, is_u32; simpl; lia) ltac:(lia))))).
Defined.

(** ** Alignment *)

Lemma AlignUp_spec value alignment :
  0 ≤ value → 0 < alignment → value + alignment ≤ 2 ^ 64 →
  let a := AlignUp value alignment in
  value ≤ a < value + alignment ∧ (alignment | a).
Proof.
  intros Hv Ha Hmax a. unfold a, AlignUp.
  rewrite (proj2 (Z.eqb_neq alignment 0)) by lia.
  pose proof (Z.mod_pos_bound value alignment ltac:(lia)).
  destruct (Z.eqb_spec (value mod alignment) 0) as [E|E].
  - split; [lia|]. by apply Z.mod_divide; [lia|].
  - rewrite (wrap64_small (alignment - _)) by (unfold is_u64; lia).
    rewrite wrap64_small by (unfold is_u64; lia). split; [lia|].
    exists (value / alignment + 1).
    rewrite (Z.div_mod value alignment) at 1 by lia. ring.
Qed.
