(* ===== verification/Hash.v ===== *)
(** * Stable hashing: [src/base/hash.cc]

    [StableHash64] routes keys to shards and to the buckets of both hash
    tables.  It is written with 64-bit wrap-around; we show that for a fixed
    seed and version it is a permutation of the 64-bit words, so two keys
    never share a full hash. *)

From S2P Require Import Prelude.

Definition SplitMix64 (value : Z) : Z :=
  let value := wrap64 (value + 0x9e3779b97f4a7c15) in
  let value := wrap64 (Z.lxor value (Z.shiftr value 30) * 0xbf58476d1ce4e5b9) in
  let value := wrap64 (Z.lxor value (Z.shiftr value 27) * 0x94d049bb133111eb) in
  Z.lxor value (Z.shiftr value 31).

Definition StableHash64 (primary_key seed version : Z) : Z :=
  let version_mix := wrap64 (version * 0xd6e8feb86659fd93) in
  SplitMix64 (Z.lxor (Z.lxor primary_key seed) version_mix).

Arguments SplitMix64 : simpl never.
Arguments StableHash64 : simpl never.

(** [x ^= x >> k] loses nothing. *)
Lemma xorshift_inj x y k :
  0 < k → 0 ≤ x → 0 ≤ y →
  Z.lxor x (Z.shiftr x k) = Z.lxor y (Z.shiftr y k) → x = y.
Proof.
  intros Hk Hx Hy Heq.
  assert (Z.lxor x y = Z.shiftr (Z.lxor x y) k) as Hz.
  { rewrite Z.shiftr_lxor. apply Z.bits_inj'. intros i Hi.
    apply (f_equal (λ z, Z.testbit z i)) in Heq.
    rewrite !Z.lxor_spec in *.
    destruct (Z.testbit x i), (Z.testbit y i), (Z.testbit (Z.shiftr x k) i),
      (Z.testbit (Z.shiftr y k) i); done. }
  apply Z.lxor_eq.
  assert (0 ≤ Z.lxor x y) as Hpos by (apply Z.lxor_nonneg; lia).
  rewrite Z.shiftr_div_pow2 in Hz by lia.
  assert (2 ≤ 2 ^ k).
  { change 2 with (2 ^ 1) at 1. apply Z.pow_le_mono_r; lia. }
  destruct (Z.eq_dec (Z.lxor x y) 0) as [|Hne]; [done|].
  pose proof (Z.div_lt (Z.lxor x y) (2 ^ k) ltac:(lia) ltac:(lia)). lia.
Qed.

Lemma is_u64_lxor x y : is_u64 x → is_u64 y → is_u64 (Z.lxor x y).
Proof.
  unfold is_u64. intros Hx Hy. split; [apply Z.lxor_nonneg; lia|].
  destruct (Z.eq_dec (Z.lxor x y) 0) as [->|Hne]; [lia|].
  assert (0 ≤ Z.lxor x y) by (apply Z.lxor_nonneg; lia).
  apply Z.log2_lt_pow2; [lia|].
  eapply Z.le_lt_trans; [apply Z.log2_lxor; lia|].
  assert (∀ z, 0 ≤ z < 2 ^ 64 → Z.log2 z < 64) as Hlog.
  { intros z Hz. destruct (Z.eq_dec z 0) as [->|]; [done|]. apply Z.log2_lt_pow2; lia. }
  apply Z.max_lub_lt; apply Hlog; lia.
Qed.

Lemma is_u64_shiftr x k : is_u64 x → 0 ≤ k → is_u64 (Z.shiftr x k).
Proof.
  unfold is_u64. intros Hx Hk. rewrite Z.shiftr_div_pow2 by done.
  assert (0 < 2 ^ k) by (apply Z.pow_pos_nonneg; lia).
  split; [apply Z.div_pos; lia|]. apply Z.div_lt_upper_bound; [lia|nia].
Qed.

(** Multiplication by an odd word is invertible modulo [2^64]. *)
Lemma wrap64_mul_inj c cinv x y :
  wrap64 (c * cinv) = 1 → is_u64 x → is_u64 y →
  wrap64 (x * c) = wrap64 (y * c) → x = y.
Proof.
  intros Hinv Hx Hy Heq.
  assert (∀ z, is_u64 z → wrap64 (wrap64 (z * c) * cinv) = z) as Hcancel.
  { intros z Hz. unfold wrap64 in *. rewrite Z.mul_mod_idemp_l by lia.
    rewrite <-Z.mul_assoc, <-Z.mul_mod_idemp_r, Hinv, Z.mul_1_r by lia.
    by apply Z.mod_small. }
  rewrite <-(Hcancel x Hx), <-(Hcancel y Hy). by rewrite Heq.
Qed.

Lemma wrap64_add_inj c x y :
  is_u64 x → is_u64 y → wrap64 (x + c) = wrap64 (y + c) → x = y.
Proof.
  unfold wrap64, is_u64. intros Hx Hy Heq.
  assert ((x - y) mod 2 ^ 64 = 0) as Hm.
  { replace (x - y) with ((x + c) - (y + c)) by lia.
    rewrite Zminus_mod, Heq, Z.sub_diag. done. }
  apply Z.mod_divide in Hm as [q Hq]; [|lia].
  assert (q = 0) by nia. lia.
Qed.

Lemma SplitMix64_inj x y :
  is_u64 x → is_u64 y → SplitMix64 x = SplitMix64 y → x = y.
Proof.
  intros Hx Hy. unfold SplitMix64. intros Heq.
  assert (∀ z k, 0 ≤ k → is_u64 (Z.lxor (wrap64 z) (Z.shiftr (wrap64 z) k))) as Hr.
  { intros z k Hk. apply is_u64_lxor; [|apply is_u64_shiftr; [|done]]; apply wrap64_range. }
  assert (∀ z, 0 ≤ wrap64 z) as Hn by (intros z; apply wrap64_range).
  apply xorshift_inj in Heq; [|done|apply Hn..].
  apply (wrap64_mul_inj _ 3573116690164977347) in Heq; [|done|by apply Hr..].
  apply xorshift_inj in Heq; [|done|apply Hn..].
  apply (wrap64_mul_inj _ 10871156337175269513) in Heq; [|done|by apply Hr..].
  apply xorshift_inj in Heq; [|done|apply Hn..].
  by apply wrap64_add_inj in Heq.
Qed.

Lemma SplitMix64_range x : is_u64 (SplitMix64 x).
Proof.
  unfold SplitMix64. apply is_u64_lxor; [|apply is_u64_shiftr; [|done]]; apply wrap64_range.
Qed.

Lemma StableHash64_range k seed version : is_u64 (StableHash64 k seed version).
Proof. apply SplitMix64_range. Qed.

(** The key hash is a permutation of the 64-bit words.

    For any seed and hash version, [StableHash64] stays within 64 bits and
    maps distinct primary keys to distinct hashes. *)
Theorem StableHash64_permutes (seed version k1 k2 : Z)
    (Hseed : is_u64 seed) (H1 : is_u64 k1) (H2 : is_u64 k2) :
  is_u64 (StableHash64 k1 seed version)
  ∧ (StableHash64 k1 seed version = StableHash64 k2 seed version → k1 = k2).
Proof.
  split; [apply StableHash64_range|]. unfold StableHash64. intros Heq.
  apply SplitMix64_inj in Heq;
    [|by repeat apply is_u64_lxor; try apply wrap64_range..].
  set (m := wrap64 _) in Heq.
  apply (f_equal (λ z, Z.lxor (Z.lxor z m) seed)) in Heq.
  rewrite !Z.lxor_assoc, <-!(Z.lxor_assoc m m), Z.lxor_nilpotent, Z.lxor_0_l in Heq.
  by rewrite Z.lxor_nilpotent, !Z.lxor_0_r in Heq.
Qed.

Lemma StableHash64_permutes_witness :
  is_u64 (StableHash64 42 7 1) ∧ (StableHash64 42 7 1 = StableHash64 43 7 1 → 42 = 43).
Proof.
  apply (StableHash64_permutes 7 1 42 43); unfold is_u64; lia.
Defined.

#[export] Hint Resolve StableHash64_range : kv.
