(* ===== verification/Types.v ===== *)
(** * Shared types: [include/kv_index/types.h]

    Source positions and their ordering, the serving modes, and [std::string]
    contents as byte lists. *)

From S2P Require Import Prelude Status.

(** The characters of a [std::string]; literals are written as [string]. *)
Abbreviation cpp_string := (list byte).

Definition str (s : string) : cpp_string := byte_of_Z ∘ Z.of_N ∘ Ascii.N_of_ascii <$> String.list_ascii_of_string s.

Inductive ForwardIndexMode : Type :=
| kRealtimeDelta   (** also [kFullSnapshotWithRealtimeDeltaAndCompaction] *)
| kFullSnapshotOnly
| kFullSnapshotWithRealtimeDelta.

#[export] Instance ForwardIndexMode_eq_dec : EqDecision ForwardIndexMode.
Proof. solve_decision. Defined.

Definition ForwardIndexModeUsesKafkaRealtime (mode : ForwardIndexMode) : bool :=
  negb (bool_decide (mode = kFullSnapshotOnly)).

Definition ForwardIndexModeUsesCompactDelta (mode : ForwardIndexMode) : bool :=
  bool_decide (mode = kRealtimeDelta).

Record SourcePosition : Type := MkSourcePosition { partition : Z; offset : Z }.

#[export] Instance SourcePosition_eq_dec : EqDecision SourcePosition.
Proof. solve_decision. Defined.

(** The default member initialisers. *)
Definition SourcePosition_default : SourcePosition := MkSourcePosition (-1) (-1).

Inductive SourcePositionUpdateDecision : Type := kStale | kIdempotent | kNewer.

#[export] Instance SourcePositionUpdateDecision_eq_dec : EqDecision SourcePositionUpdateDecision.
Proof. solve_decision. Defined.

Definition IsValidSourcePosition (position : SourcePosition) : bool :=
  (0 <=? partition position) && (0 <=? offset position).

Definition ClassifySourcePositionUpdate (current candidate : SourcePosition)
    : StatusOr SourcePositionUpdateDecision :=
  if negb (IsValidSourcePosition current) || negb (IsValidSourcePosition candidate) then
    InvalidArgument "source position is invalid"
  else if negb (partition current =? partition candidate) then
    FailedPrecondition "same-key source positions are from different partitions"
  else if offset candidate <? offset current then Ok kStale
  else if offset candidate =? offset current then Ok kIdempotent
  else Ok kNewer.

(** The decision is the order of the offsets within one partition. *)
Lemma Classify_Ok current candidate d :
  ClassifySourcePositionUpdate current candidate = Ok d →
  IsValidSourcePosition current = true ∧ IsValidSourcePosition candidate = true
  ∧ partition current = partition candidate
  ∧ match d with
    | kStale => offset candidate < offset current
    | kIdempotent => candidate = current
    | kNewer => offset current < offset candidate
    end.
Proof.
  unfold ClassifySourcePositionUpdate. destruct current as [p1 o1], candidate as [p2 o2].
  cbn [partition offset].
  destruct (IsValidSourcePosition _), (IsValidSourcePosition _); try done. cbn [negb orb].
  destruct (Z.eqb_spec p1 p2) as [->|]; [|done]. cbn [negb].
  destruct (Z.ltb_spec o2 o1); [intros [= <-]; auto with lia|].
  destruct (Z.eqb_spec o2 o1) as [->|]; intros [= <-]; split_and!; done || lia.
Qed.

Lemma Classify_no_fault current candidate :
  no_fault (ClassifySourcePositionUpdate current candidate).
Proof. unfold ClassifySourcePositionUpdate. by repeat case_match. Qed.
