(* ===== verification/ProbeTable.v ===== *)
(** * Open addressing

    The frozen primary-key index (bytes) and the realtime hash map (slots
    with atomics) are both insert-only tables with open addressing.  This file
    is the specification they are refined against: a table is a list of
    optional entries, a key is searched along its probe sequence, and the
    invariant says that keys are unique and that every stored key is reached
    on its probe sequence after slots of other keys only.  The probe sequence
    is a parameter; the second section is linear probing. *)

From S2P Require Import Prelude.

Section ProbeTable.
Context {K V : Type} `{EqDecision K}.
Context (cap : nat) (probe : K → nat → nat).
Hypothesis probe_lt : ∀ k i, (probe k i < cap)%nat.

Implicit Types (t : list (option (K * V))) (k : K) (v : V) (s i j : nat).

Inductive scan_result : Type :=
| Found (s : nat) (v : V)
| Vacant (s : nat)
| Exhausted.

(** Search for [k], probing at most [fuel] slots from the [i]-th on. *)
Fixpoint scan t k (fuel i : nat) : scan_result :=
  match fuel with
  | O => Exhausted
  | S fuel' =>
      match t !! probe k i with
      | Some (Some (k', v)) =>
          if decide (k' = k) then Found (probe k i) v else scan t k fuel' (S i)
      | _ => Vacant (probe k i)
      end
  end.

Definition holds t k v : Prop := ∃ s, t !! s = Some (Some (k, v)).

Definition entries t : list (K * V) := omap id t.

Definition occupied_by_other t k i : Prop :=
  ∃ k' v', t !! probe k i = Some (Some (k', v')) ∧ k' ≠ k.

Record table_inv t : Prop := {
  inv_length : length t = cap;
  inv_unique : ∀ s s' k v v',
    t !! s = Some (Some (k, v)) → t !! s' = Some (Some (k, v')) → s = s';
  inv_reachable : ∀ s k v, t !! s = Some (Some (k, v)) →
    ∃ i, (i < cap)%nat ∧ s = probe k i
      ∧ ∀ j, (j < i)%nat → occupied_by_other t k j;
}.

Lemma scan_Found t k n i s v :
  scan t k n i = Found s v →
  ∃ j, (i ≤ j < i + n)%nat ∧ s = probe k j ∧ t !! s = Some (Some (k, v)).
Proof.
  revert i. induction n as [|n IH]; intros i; simpl; [done|].
  destruct (t !! probe k i) as [[[k' v']|]|] eqn:E; try done.
  case_decide as Hk.
  - intros [= <- <-]. subst k'. exists i. split_and!; [lia..|done|done].
  - intros (j & Hj & Hs)%IH. exists j. split; [lia|done].
Qed.

Lemma scan_Vacant t k n i s :
  scan t k n i = Vacant s →
  ∃ j, (i ≤ j < i + n)%nat ∧ s = probe k j ∧ (∀ e, t !! s ≠ Some (Some e))
    ∧ ∀ l, (i ≤ l < j)%nat → occupied_by_other t k l.
Proof.
  revert i. induction n as [|n IH]; intros i; simpl; [done|].
  destruct (t !! probe k i) as [[[k' v']|]|] eqn:E.
  - case_decide as Hk; [done|].
    intros (j & Hj & Hs & He & Hl)%IH. exists j. split_and!; [lia..|done|done|].
    intros l Hl'. destruct (decide (l = i)) as [->|]; [by exists k', v'|].
    apply Hl. lia.
  - intros [= <-]. exists i. split_and!; [lia..|done|by rewrite E|lia].
  - intros [= <-]. exists i. split_and!; [lia..|done|by rewrite E|lia].
Qed.

Lemma scan_Exhausted t k n i :
  scan t k n i = Exhausted →
  ∀ l, (i ≤ l < i + n)%nat → occupied_by_other t k l.
Proof.
  revert i. induction n as [|n IH]; intros i; simpl; [lia|].
  destruct (t !! probe k i) as [[[k' v']|]|] eqn:E; try done.
  case_decide as Hk; [done|].
  intros HE l Hl. destruct (decide (l = i)) as [->|]; [by exists k', v'|].
  apply (IH (S i)); [done|lia].
Qed.

(** A stored key is found, with its value, whatever the fuel left, as soon
    as the fuel covers its distance. *)
Lemma scan_reaches t k v n i j :
  (i ≤ j < i + n)%nat → t !! probe k j = Some (Some (k, v)) →
  (∀ l, (i ≤ l < j)%nat → occupied_by_other t k l) →
  scan t k n i = Found (probe k j) v.
Proof.
  revert i. induction n as [|n IH]; intros i Hj Ht Hl; [lia|]. simpl.
  destruct (decide (i = j)) as [->|Hne].
  - rewrite Ht. by rewrite decide_True.
  - destruct (Hl i ltac:(lia)) as (k' & v' & E & Hk).
    rewrite E, decide_False by done.
    apply IH; [lia|done|]. intros l Hl'. apply Hl. lia.
Qed.

Lemma scan_to_vacant t k n i j :
  (i ≤ j < i + n)%nat → (∀ l, (i ≤ l < j)%nat → occupied_by_other t k l) →
  (∀ e, t !! probe k j ≠ Some (Some e)) → scan t k n i = Vacant (probe k j).
Proof.
  revert i. induction n as [|n IH]; intros i Hj Hl He; [lia|]. simpl.
  destruct (decide (i = j)) as [->|Hne].
  - destruct (t !! probe k j) as [[[k' v]|]|] eqn:E; [by destruct (He (k', v))|done..].
  - destruct (Hl i ltac:(lia)) as (k' & v' & -> & Hk). rewrite decide_False by done.
    apply IH; [lia| |done]. intros l Hl'. apply Hl. lia.
Qed.

Lemma scan_holds t k v :
  table_inv t → holds t k v → ∃ s, scan t k cap 0 = Found s v ∧ t !! s = Some (Some (k, v)).
Proof.
  intros Hinv [s Hs].
  destruct (inv_reachable _ Hinv _ _ _ Hs) as (i & Hi & -> & Hpre).
  exists (probe k i). split; [|done]. apply scan_reaches; [lia|done|].
  intros l [_ Hl]. by apply Hpre.
Qed.

(** The three answers of a full search, under the invariant. *)
Lemma scan_spec t k :
  table_inv t →
  match scan t k cap 0 with
  | Found s v => t !! s = Some (Some (k, v))
  | Vacant s => t !! s = Some None ∧ (∀ v, ¬ holds t k v)
  | Exhausted => (∀ i, (i < cap)%nat → occupied_by_other t k i) ∧ (∀ v, ¬ holds t k v)
  end.
Proof.
  intros Hinv. destruct (scan t k cap 0) as [s v|s|] eqn:E.
  - apply scan_Found in E as (j & _ & -> & H). done.
  - split.
    + apply scan_Vacant in E as (j & Hj & -> & He & _).
      pose proof (inv_length _ Hinv). pose proof (probe_lt k j).
      destruct (lookup_lt_is_Some_2 t (probe k j)) as [[e|] Hx]; [lia| |done].
      by destruct (He e).
    + intros v Hv. apply (scan_holds _ _ _ Hinv) in Hv as (s' & E' & _). congruence.
  - split.
    + intros i Hi. apply (scan_Exhausted _ _ _ _ E). lia.
    + intros v Hv. apply (scan_holds _ _ _ Hinv) in Hv as (s' & E' & _). congruence.
Qed.

Lemma scan_Found_iff t k v :
  table_inv t → (∃ s, scan t k cap 0 = Found s v) ↔ holds t k v.
Proof.
  intros Hinv. split.
  - intros [s E]. pose proof (scan_spec t k Hinv) as H. rewrite E in H. by exists s.
  - intros Hv. apply scan_holds in Hv as (s & E & _); [|done]. by exists s.
Qed.

Lemma holds_functional t k v v' : table_inv t → holds t k v → holds t k v' → v = v'.
Proof.
  intros Hinv [s Hs] [s' Hs'].
  pose proof (inv_unique _ Hinv _ _ _ _ _ Hs Hs'). congruence.
Qed.

(** ** Construction *)

Lemma empty_table_inv : table_inv (replicate cap None).
Proof.
  split; [apply length_replicate|..]; intros *; rewrite ?lookup_replicate; naive_solver.
Qed.

Lemma insert_inv t k v s :
  table_inv t → scan t k cap 0 = Vacant s → table_inv (<[s := Some (k, v)]> t).
Proof.
  intros Hinv E. pose proof (scan_spec t k Hinv) as Hs. rewrite E in Hs.
  destruct Hs as [Hs Hnew]. pose proof (lookup_lt_Some _ _ _ Hs) as Hlt.
  apply scan_Vacant in E as (j & Hj & -> & _ & Hpath).
  assert (∀ k1 l, occupied_by_other t k1 l →
    occupied_by_other (<[probe k j := Some (k, v)]> t) k1 l) as Hother.
  { intros k1 l (k' & v' & Hkv & Hne). exists k', v'. split; [|done].
    rewrite list_lookup_insert_ne; [done|]. intros Heq. congruence. }
  split.
  - rewrite length_insert. apply Hinv.
  - intros s1 s2 k1 v1 v2 H1 H2.
    apply list_lookup_insert_Some in H1 as [(<- & [= <- <-] & _)|[Hn1 H1]];
    apply list_lookup_insert_Some in H2 as [(<- & [= <-] & _)|[Hn2 H2]]; try done.
    + destruct (Hnew v2). by exists s2.
    + destruct (Hnew v1). subst. by exists s1.
    + by eapply (inv_unique _ Hinv).
  - intros s1 k1 v1 H1.
    apply list_lookup_insert_Some in H1 as [(<- & [= <- <-] & _)|[Hn1 H1]].
    + exists j. split_and!; [lia|done|]. intros l Hl. apply Hother, Hpath. lia.
    + destruct (inv_reachable _ Hinv _ _ _ H1) as (i & Hi & -> & Hpre).
      exists i. split_and!; [done..|]. intros l Hl. by apply Hother, Hpre.
Qed.

Lemma insert_holds t k v s k' v' :
  table_inv t → scan t k cap 0 = Vacant s →
  holds (<[s := Some (k, v)]> t) k' v' ↔ (k' = k ∧ v' = v) ∨ holds t k' v'.
Proof.
  intros Hinv E. pose proof (scan_spec t k Hinv) as Hs. rewrite E in Hs.
  destruct Hs as [Hs Hnew]. split.
  - intros [s' H']. apply list_lookup_insert_Some in H' as [(<- & [= <- <-] & _)|[Hn H']].
    + by left.
    + right. by exists s'.
  - intros [[-> ->]|[s' H']].
    + exists s. apply list_lookup_insert_eq. by apply lookup_lt_Some in Hs.
    + exists s'. rewrite list_lookup_insert_ne; [done|congruence].
Qed.

(** Overwriting the value of a stored key. *)
Lemma update_inv t k v v' s :
  table_inv t → t !! s = Some (Some (k, v)) → table_inv (<[s := Some (k, v')]> t).
Proof.
  intros Hinv Hs.
  assert (∀ s1 k1 v1, <[s := Some (k, v')]> t !! s1 = Some (Some (k1, v1)) →
    ∃ w, t !! s1 = Some (Some (k1, w))) as Hback.
  { intros s1 k1 v1 [(<- & [= <- <-] & _)|[_ H]]%list_lookup_insert_Some; eauto. }
  assert (∀ k1 l, occupied_by_other t k1 l →
    occupied_by_other (<[s := Some (k, v')]> t) k1 l) as Hforth.
  { intros k1 l (k' & w & Hkv & Hne). destruct (decide (s = probe k1 l)) as [->|].
    - exists k, v'. rewrite list_lookup_insert_eq by (by apply lookup_lt_Some in Hkv).
      split; [done|congruence].
    - exists k', w. by rewrite list_lookup_insert_ne. }
  split.
  - rewrite length_insert. apply Hinv.
  - intros s1 s2 k1 v1 v2 [w1 H1]%Hback [w2 H2]%Hback. by eapply (inv_unique _ Hinv).
  - intros s1 k1 v1 [w1 H1]%Hback.
    destruct (inv_reachable _ Hinv _ _ _ H1) as (i & Hi & -> & Hpre).
    exists i. split_and!; [done..|]. intros l Hl. by apply Hforth, Hpre.
Qed.

Lemma update_holds t k v v' s k1 v1 :
  table_inv t → t !! s = Some (Some (k, v)) →
  holds (<[s := Some (k, v')]> t) k1 v1 ↔ (k1 = k ∧ v1 = v') ∨ (k1 ≠ k ∧ holds t k1 v1).
Proof.
  intros Hinv Hs. split.
  - intros [s' H']. apply list_lookup_insert_Some in H' as [(<- & [= <- <-] & _)|[Hn H']].
    + by left.
    + right. split; [|by exists s']. intros ->. by pose proof (inv_unique _ Hinv _ _ _ _ _ Hs H').
  - intros [[-> ->]|[Hne [s' H']]].
    + exists s. apply list_lookup_insert_eq. by apply lookup_lt_Some in Hs.
    + exists s'. rewrite list_lookup_insert_ne; [done|congruence].
Qed.

(** ** Entries in slot order *)

Lemma entries_cons_Some x t : entries (Some x :: t) = x :: entries t.
Proof. done. Qed.

Lemma entries_cons_None t : entries (None :: t) = entries t.
Proof. done. Qed.

Lemma entries_replicate_None n : entries (replicate n None) = [].
Proof using Type. clear probe_lt. by induction n. Qed.

Lemma entries_take_S t s x :
  t !! s = Some x →
  entries (take (S s) t) = entries (take s t) ++ match x with Some e => [e] | None => [] end.
Proof using Type.
  clear probe_lt.
  intros Hx. rewrite (take_S_r _ _ _ Hx). unfold entries. rewrite omap_app.
  by destruct x.
Qed.

Lemma elem_of_entries t k v : (k, v) ∈ entries t ↔ holds t k v.
Proof using Type.
  clear probe_lt.
  unfold entries. rewrite list_elem_of_omap. split.
  - intros (x & Hx & E). simpl in E. subst x.
    apply list_elem_of_lookup in Hx as [s Hs]. by exists s.
  - intros [s Hs]. exists (Some (k, v)). split; [|done].
    apply list_elem_of_lookup. by exists s.
Qed.

Lemma entries_insert t s x :
  t !! s = Some None → entries (<[s := Some x]> t) ≡ₚ x :: entries t.
Proof using Type.
  clear probe_lt.
  intros Hs. unfold entries. rewrite <-(take_drop_middle t s None Hs) at 2.
  rewrite insert_take_drop by (by apply lookup_lt_Some in Hs).
  rewrite !omap_app. simpl. by rewrite Permutation_middle.
Qed.

Lemma NoDup_keys_entries t : table_inv t → NoDup (entries t).*1.
Proof.
  intros Hinv.
  assert (∀ l, (∀ s s' k v v', l !! s = Some (Some (k, v)) → l !! s' = Some (Some (k, v')) → s = s') →
    NoDup (entries l).*1) as Hgen; [|by apply Hgen, Hinv].
  induction l as [|[[k v]|] l IH]; intros Hu;
    rewrite ?entries_cons_Some, ?entries_cons_None; [constructor| |].
  - rewrite fmap_cons. constructor.
    + intros Hin. apply list_elem_of_fmap in Hin as ([k' v'] & Heq & Hin).
      simpl in Heq. subst k'.
      apply elem_of_entries in Hin as [s Hs].
      by pose proof (Hu 0%nat (S s) _ _ _ eq_refl Hs).
    + apply IH. intros s s' k' v1 v2 H1 H2.
      pose proof (Hu (S s) (S s') _ _ _ H1 H2). lia.
  - apply IH. intros s s' k' v1 v2 H1 H2.
    pose proof (Hu (S s) (S s') _ _ _ H1 H2). lia.
Qed.

(** Fewer entries than slots leave an empty slot, which stops every scan. *)
Lemma length_entries_le t : (length (entries t) ≤ length t)%nat.
Proof using Type.
  clear probe_lt.
  induction t as [|[x|] t IH]; rewrite ?entries_cons_Some, ?entries_cons_None;
    cbn [length]; [done|lia..].
Qed.

Lemma vacant_exists t :
  (length (entries t) < length t)%nat → ∃ s, (s < length t)%nat ∧ t !! s = Some None.
Proof using Type.
  clear probe_lt.
  induction t as [|[x|] t IH]; rewrite ?entries_cons_Some, ?entries_cons_None;
    cbn [length]; intros Hl; [cbn in Hl; lia| |].
  - destruct IH as (s & Hs & E); [lia|]. exists (S s). split; [lia|done].
  - exists 0%nat. split; [lia|done].
Qed.

Lemma scan_not_Exhausted t k :
  (∀ s, (s < cap)%nat → ∃ i, (i < cap)%nat ∧ probe k i = s) →
  table_inv t → (length (entries t) < cap)%nat → scan t k cap 0 ≠ Exhausted.
Proof.
  intros Hsurj Hinv Hl E. pose proof (scan_spec t k Hinv) as H. rewrite E in H.
  destruct (vacant_exists t) as (s & Hs & Hn); rewrite (inv_length _ Hinv) in *; [done|].
  destruct (Hsurj s Hs) as (i & Hi & <-).
  destruct (proj1 H i Hi) as (k' & v' & Hkv & _). congruence.
Qed.
End ProbeTable.

Arguments Found {V} s v.
Arguments Vacant {V} s.
Arguments Exhausted {V}.

(** ** Linear probing *)

Section Linear.
Context {K V : Type} `{EqDecision K}.
Context (cap : nat) (home : K → nat).
Hypothesis cap_pos : (0 < cap)%nat.

Implicit Types (t : list (option (K * V))) (k : K) (v : V) (s i j : nat).

Definition linear_probe k i : nat := (home k + i) mod cap.

Lemma linear_probe_lt k i : (linear_probe k i < cap)%nat.
Proof. apply Nat.mod_upper_bound. lia. Qed.

(** The first [cap] probes of a key visit every slot, each once. *)
Lemma linear_probe_surj k s : (s < cap)%nat → ∃ i, (i < cap)%nat ∧ linear_probe k i = s.
Proof.
  intros Hs. exists ((s + (cap - home k mod cap)) mod cap)%nat.
  split; [apply Nat.mod_upper_bound; lia|]. unfold linear_probe.
  pose proof (Nat.mod_upper_bound (home k) cap ltac:(lia)).
  rewrite <-Nat.Div0.add_mod_idemp_l, Nat.Div0.add_mod_idemp_r.
  replace (home k mod cap + (s + (cap - home k mod cap)))%nat with (s + 1 * cap)%nat by lia.
  rewrite Nat.Div0.mod_add. by apply Nat.mod_small.
Qed.

Lemma linear_probe_inj k i j :
  (i < cap)%nat → (j < cap)%nat → linear_probe k i = linear_probe k j → i = j.
Proof.
  unfold linear_probe. intros Hi Hj Heq.
  pose proof (Nat.div_mod_eq (home k + i) cap).
  pose proof (Nat.div_mod_eq (home k + j) cap).
  assert ((home k + i) / cap = (home k + j) / cap)%nat by nia. nia.
Qed.

(** With unique keys, a linear probe sequence that is full before a key's
    slot is full of other keys. *)
Lemma linear_reachable t k v s :
  (∀ s' k' v1 v2, t !! s = Some (Some (k', v1)) → t !! s' = Some (Some (k', v2)) → s = s') →
  t !! s = Some (Some (k, v)) →
  (∃ i, (i < cap)%nat ∧ s = linear_probe k i
    ∧ ∀ j, (j < i)%nat → ∃ e, t !! linear_probe k j = Some (Some e)) ↔
  (∃ i, (i < cap)%nat ∧ s = linear_probe k i
    ∧ ∀ j, (j < i)%nat → occupied_by_other linear_probe t k j).
Proof.
  intros Huniq Hs. split; intros (i & Hi & -> & Hpre); exists i; split_and!; try done; intros j Hj.
  - destruct (Hpre j Hj) as [[k' v'] He]. exists k', v'. split; [done|]. intros ->.
    pose proof (Huniq _ _ _ _ Hs He) as Heq. apply linear_probe_inj in Heq; lia.
  - destruct (Hpre j Hj) as (k' & v' & He & _). eauto.
Qed.
End Linear.
