(* ===== verification/FrozenIndex.v ===== *)
(** * The frozen primary-key index: [src/store/frozen_primary_key_index.{h,cc}]

    A byte image of a swiss-table-like index: an 80-byte header, one control
    byte per slot (7 bits of the key's hash, or [0x80] for an empty slot)
    followed by a mirror of the first group, the keys and the row offsets.
    [BuildFrozenPrimaryKeyIndex] writes it, [Validate] accepts or rejects
    arbitrary bytes, [Lookup] and [Entries] read a validated view. *)

From S2P Require Import Prelude Status ByteIo Hash.

Record FrozenPrimaryKeyIndexEntry : Type := MkEntry { primary_key : Z; row_offset : Z }.

Record FrozenPrimaryKeyIndexBuildOptions : Type := MkBuildOptions {
  opt_hash_seed : Z;
  opt_hash_version : Z;
  opt_group_width : Z;
}.

Record FrozenPrimaryKeyIndexMetadata : Type := MkMetadata {
  row_count : Z;
  capacity : Z;
  hash_seed : Z;
  hash_version : Z;
  group_width : Z;
  control_offset : Z;
  key_offset : Z;
  row_offset_offset : Z;
  total_size : Z;
}.

Definition kMagic : Z := 0x315844494b50564b.
Definition kFormatVersion : Z := 1.
Definition kDefaultGroupWidth : Z := 16.

Definition kMagicOffset : Z := 0.
Definition kFormatVersionOffset : Z := 8.
Definition kHeaderSizeOffset : Z := 12.
Definition kRowCountOffset : Z := 16.
Definition kCapacityOffset : Z := 24.
Definition kHashSeedOffset : Z := 32.
Definition kHashVersionOffset : Z := 40.
Definition kGroupWidthOffset : Z := 44.
Definition kControlOffsetOffset : Z := 48.
Definition kKeyOffsetOffset : Z := 56.
Definition kRowOffsetOffsetOffset : Z := 64.
Definition kTotalSizeOffset : Z := 72.
Definition kSerializedHeaderSize : Z := 80.

Definition kEmptyControl : Z := 0x80.

Definition H2 (hash : Z) : Z := Z.land (Z.shiftr hash 57) 0x7f.

Definition HasBytes (size offset byte_count : Z) : bool :=
  if size <? offset then false else byte_count <=? size - offset.

Definition CheckedAdd (lhs rhs : Z) : StatusOr Z :=
  if u64_max - rhs <? lhs
  then InvalidArgument "frozen primary-key index size overflows"
  else Ok (lhs + rhs).

Definition CheckedMul (lhs rhs : Z) : StatusOr Z :=
  if negb (lhs =? 0) && (u64_max / lhs <? rhs)
  then InvalidArgument "frozen primary-key index size overflows"
  else Ok (lhs * rhs).

(** [while (capacity < min_for_load) { ...; capacity *= 2; }] *)
Fixpoint grow_capacity (fuel : nat) (capacity min_for_load : Z) : StatusOr Z :=
  if capacity <? min_for_load then
    match fuel with
    | O => Fault Diverges
    | S fuel' =>
        if u64_max / 2 <? capacity
        then InvalidArgument "frozen index capacity is too large"
        else grow_capacity fuel' (wrap64 (capacity * 2)) min_for_load
    end
  else Ok capacity.

Definition CalculateCapacity (row_count group_width : Z) : StatusOr Z :=
  if (group_width =? 0) || negb (group_width =? kDefaultGroupWidth) then
    InvalidArgument "unsupported frozen index group width"
  else if (u64_max - 6) / 8 <? row_count then
    InvalidArgument "frozen index row count is too large"
  else
    let min_for_load := wrap64 (wrap64 (row_count * 8) + 6) / 7 in
    grow_capacity 64 group_width min_for_load.

(** ** Header *)

Definition WriteHeader (m : FrozenPrimaryKeyIndexMetadata)
    : stateful (list byte) Status unit :=
  do* _ := WriteLittleEndian uint64_t kMagic kMagicOffset in
  do* _ := WriteLittleEndian uint32_t kFormatVersion kFormatVersionOffset in
  do* _ := WriteLittleEndian uint32_t (wrap32 kSerializedHeaderSize) kHeaderSizeOffset in
  do* _ := WriteLittleEndian uint64_t (row_count m) kRowCountOffset in
  do* _ := WriteLittleEndian uint64_t (capacity m) kCapacityOffset in
  do* _ := WriteLittleEndian uint64_t (hash_seed m) kHashSeedOffset in
  do* _ := WriteLittleEndian uint32_t (hash_version m) kHashVersionOffset in
  do* _ := WriteLittleEndian uint32_t (group_width m) kGroupWidthOffset in
  do* _ := WriteLittleEndian uint64_t (control_offset m) kControlOffsetOffset in
  do* _ := WriteLittleEndian uint64_t (key_offset m) kKeyOffsetOffset in
  do* _ := WriteLittleEndian uint64_t (row_offset_offset m) kRowOffsetOffsetOffset in
  WriteLittleEndian uint64_t (total_size m) kTotalSizeOffset.

Definition ReadHeaderField (t : int_type) (bytes : list byte) (offset : Z) : StatusOr Z :=
  match ReadLittleEndian t bytes offset with
  | Ok v => Ok v
  | Err e => InvalidArgument (status_message e)
  | Fault f => Fault f
  end.

Definition ReadMetadata (bytes : list byte) : StatusOr FrozenPrimaryKeyIndexMetadata :=
  if Zlen bytes <? kSerializedHeaderSize then
    InvalidArgument "frozen primary-key index header is truncated"
  else
  let* magic := ReadHeaderField uint64_t bytes kMagicOffset in
  if negb (magic =? kMagic) then
    InvalidArgument "frozen primary-key index magic is invalid"
  else
  let* format_version := ReadHeaderField uint32_t bytes kFormatVersionOffset in
  if negb (format_version =? kFormatVersion) then
    InvalidArgument "frozen primary-key index version is unsupported"
  else
  let* header_size := ReadHeaderField uint32_t bytes kHeaderSizeOffset in
  if negb (header_size =? kSerializedHeaderSize) then
    InvalidArgument "frozen primary-key index header size is invalid"
  else
  let* row_count := ReadHeaderField uint64_t bytes kRowCountOffset in
  let* capacity := ReadHeaderField uint64_t bytes kCapacityOffset in
  let* hash_seed := ReadHeaderField uint64_t bytes kHashSeedOffset in
  let* hash_version := ReadHeaderField uint32_t bytes kHashVersionOffset in
  let* group_width := ReadHeaderField uint32_t bytes kGroupWidthOffset in
  let* control_offset := ReadHeaderField uint64_t bytes kControlOffsetOffset in
  let* key_offset := ReadHeaderField uint64_t bytes kKeyOffsetOffset in
  let* row_offset_offset := ReadHeaderField uint64_t bytes kRowOffsetOffsetOffset in
  let* total_size := ReadHeaderField uint64_t bytes kTotalSizeOffset in
  Ok (MkMetadata row_count capacity hash_seed hash_version group_width
        control_offset key_offset row_offset_offset total_size).

Definition ValidateMetadata (m : FrozenPrimaryKeyIndexMetadata) (byte_size : Z) : StatusM :=
  if negb (group_width m =? kDefaultGroupWidth) then
    InvalidArgument "frozen primary-key index group width is invalid"
  else if (capacity m =? 0) || negb (single_bit (capacity m)) then
    InvalidArgument "frozen primary-key index capacity is invalid"
  else if capacity m <? group_width m then
    InvalidArgument "frozen primary-key index capacity is smaller than group width"
  else
  let max_loaded_rows := wrap64 (capacity m / 8 * 7) in
  if max_loaded_rows <? row_count m then
    InvalidArgument "frozen primary-key index capacity is too small for row count"
  else
  let* control_bytes := CheckedAdd (capacity m) (group_width m) in
  let* key_bytes := CheckedMul (capacity m) 8 in
  let* row_offset_bytes := CheckedMul (capacity m) 8 in
  let* expected_key_offset := CheckedAdd (control_offset m) control_bytes in
  let* expected_row_offset := CheckedAdd (key_offset m) key_bytes in
  let* expected_total := CheckedAdd (row_offset_offset m) row_offset_bytes in
  if negb (control_offset m =? kSerializedHeaderSize)
     || negb (key_offset m =? expected_key_offset)
     || negb (row_offset_offset m =? expected_row_offset)
     || negb (total_size m =? expected_total) then
    InvalidArgument "frozen primary-key index section offsets are invalid"
  else if negb (total_size m =? byte_size) then
    InvalidArgument "frozen primary-key index byte size is invalid"
  else if negb (HasBytes byte_size (control_offset m) control_bytes)
     || negb (HasBytes byte_size (key_offset m) key_bytes)
     || negb (HasBytes byte_size (row_offset_offset m) row_offset_bytes) then
    InvalidArgument "frozen primary-key index section is truncated"
  else Ok tt.

Definition SlotOffset (section_offset slot : Z) : Z :=
  wrap64 (section_offset + wrap64 (slot * 8)).

(** ** Views *)

Record FrozenPrimaryKeyIndexView : Type := MkView {
  view_bytes : list byte;
  metadata : FrozenPrimaryKeyIndexMetadata;
}.

(** [std::to_integer<uint8_t>(bytes_[control_offset + slot])] *)
Definition control_at (bytes : list byte) (control_offset slot : Z) : StatusOr Z :=
  let* b := at_ bytes (control_offset + slot) in Ok (byte_to_Z b).

Definition ReadSlot (error : string) (v : FrozenPrimaryKeyIndexView) (section slot : Z)
    : StatusOr Z :=
  if capacity (metadata v) <=? slot then InvalidArgument error
  else match ReadLittleEndian uint64_t (view_bytes v) (SlotOffset section slot) with
       | Ok x => Ok x
       | Err e => InvalidArgument (status_message e)
       | Fault f => Fault f
       end.

Definition ReadKey (v : FrozenPrimaryKeyIndexView) (slot : Z) : StatusOr Z :=
  ReadSlot "frozen primary-key index key slot is invalid" v (key_offset (metadata v)) slot.

Definition ReadRowOffset (v : FrozenPrimaryKeyIndexView) (slot : Z) : StatusOr Z :=
  ReadSlot "frozen primary-key index row-offset slot is invalid" v
    (row_offset_offset (metadata v)) slot.

(** The loop of [Validate] that walks from the key's bucket to its slot. *)
Fixpoint check_reachable (bytes : list byte) (control_offset mask slot : Z)
    (scans : nat) (probe : Z) : StatusM :=
  match scans with
  | O => Ok tt
  | S scans' =>
      let* probe_control := control_at bytes control_offset probe in
      if probe =? slot then Ok tt
      else if probe_control =? kEmptyControl then
        InvalidArgument "frozen primary-key index key is unreachable from its hash bucket"
      else check_reachable bytes control_offset mask slot scans'
             (Z.land (wrap64 (probe + 1)) mask)
  end.

(** One slot of the main loop of [Validate]: the keys seen so far and the
    number of occupied slots. *)
Definition validate_slot (v : FrozenPrimaryKeyIndexView) (st : gset Z * Z) (slot : Z)
    : StatusOr (gset Z * Z) :=
  let m := metadata v in
  let '(seen_keys, occupied_count) := st in
  let* control := control_at (view_bytes v) (control_offset m) slot in
  if control =? kEmptyControl then Ok st
  else if negb (Z.land control kEmptyControl =? 0) then
    InvalidArgument "frozen primary-key index control byte is invalid"
  else
  let* key := ReadKey v slot in
  if decide (key ∈ seen_keys) then
    InvalidArgument "frozen primary-key index contains duplicate primary keys"
  else
  let hash := StableHash64 key (hash_seed m) (hash_version m) in
  if negb (control =? H2 hash) then
    InvalidArgument "frozen primary-key index control byte does not match key hash"
  else
  let mask := wrap64 (capacity m - 1) in
  let* _ := check_reachable (view_bytes v) (control_offset m) mask slot
              (Z.to_nat (capacity m)) (Z.land hash mask) in
  Ok ({[key]} ∪ seen_keys, wrap64 (occupied_count + 1)).

Definition check_mirrored (bytes : list byte) (m : FrozenPrimaryKeyIndexMetadata)
    (_ : unit) (i : Z) : StatusM :=
  let* mirror := at_ bytes (control_offset m + capacity m + i) in
  let* original := at_ bytes (control_offset m + i) in
  if decide (mirror = original) then Ok tt
  else InvalidArgument "frozen primary-key index control bytes are not mirrored".

Definition Validate (bytes : list byte) : StatusOr FrozenPrimaryKeyIndexView :=
  let* m := ReadMetadata bytes in
  let* _ := ValidateMetadata m (Zlen bytes) in
  let view := MkView bytes m in
  let* _ := ofold (check_mirrored bytes m) (seqZ 0 (group_width m)) tt in
  let* st := ofold (validate_slot view) (seqZ 0 (capacity m)) (∅, 0) in
  if negb (st.2 =? row_count m) then
    InvalidArgument "frozen primary-key index row count does not match occupied slots"
  else Ok view.

Fixpoint lookup_loop (v : FrozenPrimaryKeyIndexView) (key h2 mask : Z)
    (scans : nat) (slot : Z) : StatusOr (option Z) :=
  match scans with
  | O => InvalidArgument "frozen primary-key index lookup exhausted every slot"
  | S scans' =>
      let* control := control_at (view_bytes v) (control_offset (metadata v)) slot in
      if control =? kEmptyControl then Ok None
      else
        let next := lookup_loop v key h2 mask scans' (Z.land (wrap64 (slot + 1)) mask) in
        if control =? h2 then
          let* k := ReadKey v slot in
          if k =? key then
            let* off := ReadRowOffset v slot in Ok (Some off)
          else next
        else next
  end.

Definition Lookup (v : FrozenPrimaryKeyIndexView) (key : Z) : StatusOr (option Z) :=
  let m := metadata v in
  if capacity m =? 0 then InvalidArgument "frozen primary-key index view is invalid"
  else
  let hash := StableHash64 key (hash_seed m) (hash_version m) in
  let mask := wrap64 (capacity m - 1) in
  lookup_loop v key (H2 hash) mask (Z.to_nat (capacity m)) (Z.land hash mask).

Definition entries_slot (v : FrozenPrimaryKeyIndexView)
    (acc : list FrozenPrimaryKeyIndexEntry) (slot : Z)
    : StatusOr (list FrozenPrimaryKeyIndexEntry) :=
  let* control := control_at (view_bytes v) (control_offset (metadata v)) slot in
  if control =? kEmptyControl then Ok acc
  else
  let* key := ReadKey v slot in
  let* off := ReadRowOffset v slot in
  Ok (acc ++ [MkEntry key off]).

Definition Entries (v : FrozenPrimaryKeyIndexView)
    : StatusOr (list FrozenPrimaryKeyIndexEntry) :=
  if capacity (metadata v) =? 0 then
    InvalidArgument "frozen primary-key index view is invalid"
  else ofold (entries_slot v) (seqZ 0 (capacity (metadata v))) [].

(** ** Building *)

Definition check_duplicate (seen_keys : gset Z) (e : FrozenPrimaryKeyIndexEntry)
    : StatusOr (gset Z) :=
  if decide (primary_key e ∈ seen_keys) then
    InvalidArgument "duplicate primary key in frozen index build"
  else Ok ({[primary_key e]} ∪ seen_keys).

(** [while (control != kEmptyControl) slot = (slot + 1) & mask] *)
Fixpoint find_empty_slot (bytes : list byte) (control_offset mask : Z)
    (fuel : nat) (slot : Z) : StatusOr Z :=
  let* control := control_at bytes control_offset slot in
  if control =? kEmptyControl then Ok slot
  else match fuel with
       | O => Fault Diverges
       | S fuel' =>
           find_empty_slot bytes control_offset mask fuel' (Z.land (wrap64 (slot + 1)) mask)
       end.

Definition insert_entry (m : FrozenPrimaryKeyIndexMetadata) (bytes : list byte)
    (e : FrozenPrimaryKeyIndexEntry) : StatusOr (list byte) :=
  let mask := wrap64 (capacity m - 1) in
  let hash := StableHash64 (primary_key e) (hash_seed m) (hash_version m) in
  let* slot := find_empty_slot bytes (control_offset m) mask
                 (Z.to_nat (capacity m)) (Z.land hash mask) in
  let* bytes := set_at bytes (control_offset m + slot) (byte_of_Z (H2 hash)) in
  let* bytes := run_write (WriteLittleEndian uint64_t (primary_key e)
                             (SlotOffset (key_offset m) slot)) bytes in
  run_write (WriteLittleEndian uint64_t (row_offset e)
               (SlotOffset (row_offset_offset m) slot)) bytes.

Definition fill_control (m : FrozenPrimaryKeyIndexMetadata) (bytes : list byte) (i : Z)
    : StatusOr (list byte) :=
  set_at bytes (control_offset m + i) (byte_of_Z kEmptyControl).

Definition mirror_control (m : FrozenPrimaryKeyIndexMetadata) (bytes : list byte) (i : Z)
    : StatusOr (list byte) :=
  let* b := at_ bytes (control_offset m + i) in
  set_at bytes (control_offset m + capacity m + i) b.

Definition BuildFrozenPrimaryKeyIndex (entries : list FrozenPrimaryKeyIndexEntry)
    (options : FrozenPrimaryKeyIndexBuildOptions) : StatusOr (list byte) :=
  let* cap := CalculateCapacity (Zlen entries) (opt_group_width options) in
  let* _ := ofold check_duplicate entries ∅ in
  let* control_bytes := CheckedAdd cap (opt_group_width options) in
  let* key_bytes := CheckedMul cap 8 in
  let* row_offset_bytes := CheckedMul cap 8 in
  let control_offset := kSerializedHeaderSize in
  let* key_offset := CheckedAdd control_offset control_bytes in
  let* row_offset_offset := CheckedAdd key_offset key_bytes in
  let* total_size := CheckedAdd row_offset_offset row_offset_bytes in
  if u64_max <? total_size then
    InvalidArgument "frozen primary-key index is too large"
  else
  let m := MkMetadata (Zlen entries) cap (opt_hash_seed options)
             (opt_hash_version options) (opt_group_width options)
             control_offset key_offset row_offset_offset total_size in
  let bytes := replicate (Z.to_nat total_size) Byte.x00 in
  let* bytes := run_write (WriteHeader m) bytes in
  let* bytes := ofold (fill_control m) (seqZ 0 (cap + group_width m)) bytes in
  let* bytes := ofold (insert_entry m) entries bytes in
  ofold (mirror_control m) (seqZ 0 (group_width m)) bytes.
