(* ===== verification/FrozenIndexProofs.v ===== *)
(** * Correctness of the frozen primary-key index

    The bytes are abstracted to a probe table ([table_of]); [valid_image]
    states what an index image is, [Validate] is shown to decide it, [Lookup]
    and [Entries] to be the table operations, and the builder to produce
    valid images with the entries it was given. *)

From S2P Require Import Prelude Status ByteIo Hash ProbeTable FrozenIndex.

(** ** Checked arithmetic and sizes *)

Lemma CheckedAdd_Ok a b c : 0 ≤ b → CheckedAdd a b = Ok c ↔ c = a + b ∧ a + b ≤ u64_max.
Proof.
  intros Hb. unfold CheckedAdd. case_match eqn:E; btoprop; [split; [done|lia]|].
  split; [intros [= <-]; lia|]. intros [-> _]. done.
Qed.

Lemma CheckedMul_8_Ok a c :
  0 ≤ a → CheckedMul a 8 = Ok c ↔ c = a * 8 ∧ a * 8 ≤ u64_max.
Proof.
  intros Ha. unfold CheckedMul. destruct (Z.eqb_spec a 0) as [->|Hne]; simpl.
  - unfold u64_max. split; [intros [= <-]; lia|]. intros [-> _]. done.
  - assert (u64_max / a < 8 ↔ u64_max < a * 8) as Hd.
    { split; intros H.
      - pose proof (Z.mul_succ_div_gt u64_max a ltac:(lia)). nia.
      - apply Z.div_lt_upper_bound; lia. }
    destruct (Z.ltb_spec (u64_max / a) 8); [split; [done|lia]|].
    split; [intros [= <-]; lia|]. intros [-> _]. done.
Qed.

Lemma CheckedAdd_fits a b : 0 ≤ b → a + b ≤ u64_max → CheckedAdd a b = Ok (a + b).
Proof. intros. by apply CheckedAdd_Ok. Qed.
Lemma CheckedMul_8_fits a : 0 ≤ a → a * 8 ≤ u64_max → CheckedMul a 8 = Ok (a * 8).
Proof. intros. by apply CheckedMul_8_Ok. Qed.

Lemma CheckedAdd_no_fault a b : no_fault (CheckedAdd a b).
Proof. unfold CheckedAdd. by case_match. Qed.
Lemma CheckedMul_no_fault a b : no_fault (CheckedMul a b).
Proof. unfold CheckedMul. by case_match. Qed.

Lemma H2_range hash : is_u64 hash → 0 ≤ H2 hash < 128.
Proof.
  intros Hh. unfold H2. change 127 with (2 ^ 7 - 1). rewrite land_mask by lia.
  apply Z.mod_pos_bound. lia.
Qed.

(** What [ValidateMetadata] asks of a header for an image of [size] bytes. *)
Record meta_wf (m : FrozenPrimaryKeyIndexMetadata) (size : Z) : Prop := {
  wf_group : group_width m = 16;
  wf_cap_pow2 : single_bit (capacity m) = true;
  wf_cap_min : 16 ≤ capacity m;
  wf_load : row_count m ≤ capacity m / 8 * 7;
  wf_control : control_offset m = 80;
  wf_key : key_offset m = 80 + (capacity m + 16);
  wf_row : row_offset_offset m = key_offset m + capacity m * 8;
  wf_total : total_size m = row_offset_offset m + capacity m * 8;
  wf_size : total_size m = size;
  wf_max : size ≤ u64_max;
}.

Lemma load_no_wrap c : 0 ≤ c ≤ u64_max → wrap64 (c / 8 * 7) = c / 8 * 7.
Proof.
  intros Hc. apply wrap64_small. unfold is_u64, u64_max in *.
  pose proof (Z.div_mod c 8 ltac:(lia)). pose proof (Z.mod_pos_bound c 8 ltac:(lia)). lia.
Qed.

Lemma ValidateMetadata_spec m size :
  is_u64 (capacity m) → 0 ≤ size →
  ValidateMetadata m size = Ok tt ↔ meta_wf m size.
Proof.
  intros Hcap Hsize. assert (0 ≤ capacity m ≤ u64_max) as Hc
    by (unfold is_u64, u64_max in *; lia).
  unfold ValidateMetadata. rewrite load_no_wrap by done. split.
  - intros H. guard_ok H Hg. guard_ok H Hp. guard_ok H Hmin. guard_ok H Hl.
    bind_ok H cb Hcb. bind_ok H kb Hkb. bind_ok H rb Hrb.
    bind_ok H ek Hek. bind_ok H er Her. bind_ok H et Het.
    guard_ok H Hoff. guard_ok H Hsz. btoprop. unfold kDefaultGroupWidth in *.
    apply CheckedAdd_Ok in Hcb as [-> ?]; [|lia].
    apply CheckedMul_8_Ok in Hkb as [-> ?]; [|lia].
    apply CheckedMul_8_Ok in Hrb as [-> ?]; [|lia].
    apply CheckedAdd_Ok in Hek as [-> ?]; [|lia].
    apply CheckedAdd_Ok in Her as [-> ?]; [|lia].
    apply CheckedAdd_Ok in Het as [-> ?]; [|lia].
    unfold kDefaultGroupWidth, kSerializedHeaderSize in *.
    split; try congruence || lia.
  - intros [Hg Hp Hmin Hload Hco Hko Hro Htot Hsz Hmax].
    rewrite Hg. simpl. rewrite Hp.
    rewrite (proj2 (Z.eqb_neq _ _)) by lia. simpl.
    rewrite !(proj2 (Z.ltb_ge _ _)) by lia.
    rewrite (CheckedAdd_fits (capacity m) 16) by lia. simpl.
    rewrite CheckedMul_8_fits by lia. simpl.
    rewrite Hco, CheckedAdd_fits by lia. simpl.
    rewrite CheckedAdd_fits by lia. simpl. rewrite CheckedAdd_fits by lia. simpl.
    unfold kSerializedHeaderSize.
    rewrite !(proj2 (Z.eqb_eq _ _)) by lia. simpl.
    unfold HasBytes. rewrite !(proj2 (Z.ltb_ge _ _)) by lia.
    rewrite !(proj2 (Z.leb_le _ _)) by lia. done.
Qed.

Lemma ValidateMetadata_no_fault m size : no_fault (ValidateMetadata m size).
Proof.
  unfold ValidateMetadata. repeat case_match; try done;
  repeat (apply no_fault_bind; [apply CheckedAdd_no_fault || apply CheckedMul_no_fault|intros]);
  repeat case_match; done.
Qed.

(** ** The probe table an image stands for *)

Definition ctl_at (bytes : list byte) (s : nat) : Z :=
  byte_to_Z (default Byte.x00 (bytes !! (80 + s)%nat)).

Definition word_at (section : Z) (bytes : list byte) (s : nat) : Z :=
  le_value (slice (Z.to_nat section + 8 * s) 8 bytes).

Definition slot_entry (m : FrozenPrimaryKeyIndexMetadata) (bytes : list byte) (s : nat)
    : option (Z * Z) :=
  if ctl_at bytes s =? kEmptyControl then None
  else Some (word_at (key_offset m) bytes s, word_at (row_offset_offset m) bytes s).

Definition slots (m : FrozenPrimaryKeyIndexMetadata) : nat := Z.to_nat (capacity m).

Definition table_of (m : FrozenPrimaryKeyIndexMetadata) (bytes : list byte)
    : list (option (Z * Z)) :=
  slot_entry m bytes <$> seq 0 (slots m).

Definition hash_of (m : FrozenPrimaryKeyIndexMetadata) (key : Z) : Z :=
  StableHash64 key (hash_seed m) (hash_version m).

Lemma hash_of_fold m key : StableHash64 key (hash_seed m) (hash_version m) = hash_of m key.
Proof. done. Qed.

Definition home (m : FrozenPrimaryKeyIndexMetadata) (key : Z) : nat :=
  Z.to_nat (hash_of m key mod capacity m).

(** Every occupied slot carries the hash bits of its key. *)
Definition control_ok (m : FrozenPrimaryKeyIndexMetadata) (bytes : list byte) : Prop :=
  ∀ s k o, (s < slots m)%nat → slot_entry m bytes s = Some (k, o) →
    ctl_at bytes s = H2 (hash_of m k).

Section Image.
Context (m : FrozenPrimaryKeyIndexMetadata) (bytes : list byte).
Hypothesis Hwf : meta_wf m (Zlen bytes).

Abbreviation view := (MkView bytes m).
Abbreviation tbl := (table_of m bytes).
Abbreviation probe := (linear_probe (slots m) (home m)).
Abbreviation scan := (ProbeTable.scan (linear_probe (slots m) (home m))).

Lemma cap_bounds : 16 ≤ capacity m < 2 ^ 60.
Proof. destruct Hwf. unfold u64_max in *. lia. Qed.

Lemma slots_Z : Z.of_nat (slots m) = capacity m.
Proof. unfold slots. pose proof cap_bounds. lia. Qed.

Lemma slots_pos : (0 < slots m)%nat.
Proof. pose proof slots_Z. pose proof cap_bounds. lia. Qed.

Lemma mask_mod x : 0 ≤ x → Z.land x (wrap64 (capacity m - 1)) = x mod capacity m.
Proof.
  intros Hx. pose proof cap_bounds as Hc.
  rewrite wrap64_small by (unfold is_u64; lia).
  apply land_single_bit; [lia|apply Hwf].
Qed.

Lemma home_lt k : (home m k < slots m)%nat.
Proof.
  unfold home, slots. pose proof cap_bounds.
  pose proof (Z.mod_pos_bound (hash_of m k) (capacity m) ltac:(lia)). lia.
Qed.

(** The masked walk of the source is the probe sequence. *)
Lemma first_probe k :
  Z.land (hash_of m k) (wrap64 (capacity m - 1)) = Z.of_nat (probe k 0).
Proof.
  rewrite mask_mod by (apply StableHash64_range). unfold linear_probe.
  rewrite Nat.add_0_r, Nat.mod_small by apply home_lt. unfold home.
  pose proof cap_bounds.
  pose proof (Z.mod_pos_bound (hash_of m k) (capacity m) ltac:(lia)). lia.
Qed.

Lemma next_probe k i :
  Z.land (wrap64 (Z.of_nat (probe k i) + 1)) (wrap64 (capacity m - 1))
  = Z.of_nat (probe k (S i)).
Proof.
  pose proof cap_bounds as Hc.
  pose proof (linear_probe_lt (slots m) (home m) slots_pos k i) as Hlt.
  pose proof slots_Z.
  rewrite wrap64_small by (unfold is_u64; lia).
  rewrite mask_mod by lia. rewrite <-slots_Z.
  replace (Z.of_nat (probe k i) + 1) with (Z.of_nat (probe k i + 1)) by lia.
  rewrite <-Nat2Z.inj_mod. f_equal. unfold linear_probe.
  rewrite Nat.Div0.add_mod_idemp_l. f_equal. lia.
Qed.

Lemma control_at_slot s :
  (s < slots m + 16)%nat → control_at bytes (control_offset m) (Z.of_nat s) = Ok (ctl_at bytes s).
Proof.
  intros Hs. pose proof slots_Z. destruct Hwf. unfold control_at.
  destruct (at_in (E := Status) bytes (control_offset m + Z.of_nat s)) as (b & Hb & ->); [lia|].
  simpl. unfold ctl_at. replace (80 + s)%nat with (Z.to_nat (control_offset m + Z.of_nat s)) by lia.
  by rewrite Hb.
Qed.

Lemma SlotOffset_eq section s :
  (s < slots m)%nat → 0 ≤ section → section + capacity m * 8 ≤ Zlen bytes →
  SlotOffset section (Z.of_nat s) = Z.of_nat (Z.to_nat section + 8 * s).
Proof.
  intros Hs Hsec Hle. pose proof slots_Z. unfold SlotOffset.
  pose proof (wf_max _ _ Hwf) as Hm. unfold u64_max in Hm.
  rewrite !wrap64_small; unfold is_u64; try lia.
  rewrite wrap64_small; unfold is_u64; lia.
Qed.

Lemma ReadSlot_eq err section s :
  (s < slots m)%nat → 0 ≤ section → section + capacity m * 8 ≤ Zlen bytes →
  ReadSlot err view section (Z.of_nat s) = Ok (word_at section bytes s).
Proof.
  intros Hs Hsec Hle. pose proof slots_Z. unfold ReadSlot. simpl.
  rewrite (proj2 (Z.leb_gt _ _)) by lia.
  rewrite SlotOffset_eq by done.
  rewrite ReadLittleEndian_in by (simpl; lia). rewrite Nat2Z.id. done.
Qed.

Lemma ReadKey_eq s :
  (s < slots m)%nat → ReadKey view (Z.of_nat s) = Ok (word_at (key_offset m) bytes s).
Proof. intros. destruct Hwf. apply ReadSlot_eq; simpl; lia. Qed.

Lemma ReadRowOffset_eq s :
  (s < slots m)%nat →
  ReadRowOffset view (Z.of_nat s) = Ok (word_at (row_offset_offset m) bytes s).
Proof. intros. destruct Hwf. apply ReadSlot_eq; simpl; lia. Qed.

Lemma length_table : length tbl = slots m.
Proof. unfold table_of. by rewrite length_fmap, length_seq. Qed.

Lemma lookup_table s : (s < slots m)%nat → tbl !! s = Some (slot_entry m bytes s).
Proof.
  intros Hs. unfold table_of. rewrite list_lookup_fmap.
  by rewrite lookup_seq_lt.
Qed.

Lemma lookup_table_Some s e :
  tbl !! s = Some (Some e) ↔ (s < slots m)%nat ∧ slot_entry m bytes s = Some e.
Proof.
  split.
  - intros H. assert (s < slots m)%nat as Hs
      by (rewrite <-length_table; by apply lookup_lt_Some in H).
    rewrite lookup_table in H by done. split; [done|congruence].
  - intros [Hs H]. rewrite lookup_table by done. by rewrite H.
Qed.

(** ** Lookup is the table search *)

Hypothesis Hctl : control_ok m bytes.

Lemma lookup_loop_scan key n i :
  lookup_loop view key (H2 (hash_of m key)) (wrap64 (capacity m - 1)) n
    (Z.of_nat (probe key i)) =
  match scan tbl key n i with
  | Found _ off => Ok (Some off)
  | Vacant _ => Ok None
  | Exhausted => InvalidArgument "frozen primary-key index lookup exhausted every slot"
  end.
Proof.
  revert i. induction n as [|n IH]; intros i; [done|].
  cbn [lookup_loop ProbeTable.scan].
  assert (probe key i < slots m)%nat as Hlt by (apply linear_probe_lt, slots_pos).
  rewrite control_at_slot by lia. cbn [obind].
  rewrite lookup_table by done. unfold slot_entry at 1.
  destruct (Z.eqb_spec (ctl_at bytes (probe key i)) kEmptyControl) as [He|He]; [done|].
  rewrite next_probe, IH, ReadKey_eq, ReadRowOffset_eq by done. cbn [obind].
  set (k := word_at (key_offset m) bytes (probe key i)).
  assert (ctl_at bytes (probe key i) = H2 (hash_of m k)) as Hk.
  { apply (Hctl _ k (word_at (row_offset_offset m) bytes (probe key i))); [done|].
    unfold slot_entry. by rewrite (proj2 (Z.eqb_neq _ _) He). }
  rewrite Hk. destruct (decide (k = key)) as [->|Hne].
  - by rewrite !Z.eqb_refl.
  - rewrite (proj2 (Z.eqb_neq k key)) by done. by case_match.
Qed.

Lemma Lookup_scan key :
  Lookup view key =
  match scan tbl key (slots m) 0 with
  | Found _ off => Ok (Some off)
  | Vacant _ => Ok None
  | Exhausted => InvalidArgument "frozen primary-key index lookup exhausted every slot"
  end.
Proof.
  unfold Lookup. cbn [metadata]. pose proof cap_bounds.
  rewrite (proj2 (Z.eqb_neq _ _)) by lia.
  rewrite hash_of_fold.
  rewrite first_probe. apply lookup_loop_scan.
Qed.

(** ** Entries are the table entries, in slot order *)

Lemma Entries_table :
  Entries view = Ok ((λ e, MkEntry e.1 e.2) <$> ProbeTable.entries tbl).
Proof.
  unfold Entries. cbn [metadata]. pose proof cap_bounds as Hc.
  rewrite (proj2 (Z.eqb_neq _ _)) by lia.
  destruct (for_total (entries_slot view)
    (λ j acc, acc = (λ e, MkEntry e.1 e.2) <$> ProbeTable.entries (take j tbl))
    (capacity m) []) as (es & -> & ->); [done| |].
  - intros s acc Hs ->. pose proof slots_Z. assert (s < slots m)%nat by lia.
    exists ((λ e, MkEntry e.1 e.2) <$> ProbeTable.entries (take (S s) tbl)).
    split; [|done]. unfold entries_slot. cbn [metadata view_bytes].
    rewrite control_at_slot by lia. cbn [obind].
    rewrite (entries_take_S _ _ _ (lookup_table s ltac:(done))).
    unfold slot_entry. destruct (ctl_at bytes s =? kEmptyControl).
    + by rewrite app_nil_r.
    + rewrite ReadKey_eq, ReadRowOffset_eq by done. cbn [obind].
      by rewrite fmap_app.
  - rewrite take_ge; [done|]. rewrite length_table. done.
Qed.
End Image.

(** ** Validation *)

Definition mirrored (m : FrozenPrimaryKeyIndexMetadata) (bytes : list byte) : Prop :=
  ∀ i, (i < 16)%nat → ctl_at bytes (slots m + i) = ctl_at bytes i.

(** What a frozen index image with header [m] is. *)
Record valid_image (m : FrozenPrimaryKeyIndexMetadata) (bytes : list byte) : Prop := {
  vi_header : ReadMetadata bytes = Ok m;
  vi_wf : meta_wf m (Zlen bytes);
  vi_mirror : mirrored m bytes;
  vi_table : table_inv (slots m) (linear_probe (slots m) (home m)) (table_of m bytes);
  vi_control : control_ok m bytes;
  vi_count : Z.of_nat (length (entries (table_of m bytes))) = row_count m;
}.

Lemma ReadHeaderField_Ok t bytes off v :
  (0 < it_size t)%nat → 0 ≤ off → ReadHeaderField t bytes off = Ok v → in_int_range t v.
Proof.
  intros Hs Ho. unfold ReadHeaderField. case_match eqn:E; try done. intros [= <-].
  by eapply ReadLittleEndian_range.
Qed.

Lemma ReadHeaderField_no_fault t bytes off : no_fault (ReadHeaderField t bytes off).
Proof.
  unfold ReadHeaderField. pose proof (ReadLittleEndian_no_fault t bytes off).
  by case_match.
Qed.

Lemma ReadMetadata_capacity bytes m : ReadMetadata bytes = Ok m → is_u64 (capacity m).
Proof.
  unfold ReadMetadata. intros H. guard_ok H Hl. bind_ok H a Ha. guard_ok H G1.
  bind_ok H b Hb. guard_ok H G2. bind_ok H c Hc. guard_ok H G3.
  bind_ok H rc Hrc. bind_ok H cap Hcap. do 7 (let x := fresh in let Hx := fresh in bind_ok H x Hx).
  injection H as <-. simpl.
  apply ReadHeaderField_Ok in Hcap; [done|simpl; lia|done].
Qed.

Lemma ReadMetadata_no_fault bytes : no_fault (ReadMetadata bytes).
Proof.
  unfold ReadMetadata.
  repeat first [done | apply ReadHeaderField_no_fault
    | apply no_fault_bind; [apply ReadHeaderField_no_fault|intros ? _] | case_match].
Qed.

Lemma ReadMetadata_wf bytes m :
  ReadMetadata bytes = Ok m →
  ValidateMetadata m (Zlen bytes) = Ok tt ↔ meta_wf m (Zlen bytes).
Proof.
  intros H%ReadMetadata_capacity. apply ValidateMetadata_spec; [done|apply Zlen_nonneg].
Qed.

Definition reachable (m : FrozenPrimaryKeyIndexMetadata) (t : list (option (Z * Z)))
    (k : Z) (s : nat) : Prop :=
  ∃ i, (i < slots m)%nat ∧ s = linear_probe (slots m) (home m) k i
    ∧ ∀ j, (j < i)%nat → ∃ e, t !! linear_probe (slots m) (home m) k j = Some (Some e).

Section Validate.
Context (m : FrozenPrimaryKeyIndexMetadata) (bytes : list byte).
Hypothesis Hwf : meta_wf m (Zlen bytes).

Abbreviation view := (MkView bytes m).
Abbreviation tbl := (table_of m bytes).
Abbreviation probe := (linear_probe (slots m) (home m)).

Lemma check_reachable_spec k s n i :
  (s < slots m)%nat → (i + n = slots m)%nat →
  (∃ j, (i ≤ j < slots m)%nat ∧ probe k j = s) →
  check_reachable bytes (control_offset m) (wrap64 (capacity m - 1)) (Z.of_nat s) n
    (Z.of_nat (probe k i)) = Ok tt ↔
  ∃ j, (i ≤ j < slots m)%nat ∧ s = probe k j
    ∧ ∀ l, (i ≤ l < j)%nat → ∃ e, tbl !! probe k l = Some (Some e).
Proof.
  revert i. induction n as [|n IH]; intros i Hs Hn Hex; cbn [check_reachable].
  { destruct Hex as (j & Hj & _). lia. }
  assert (probe k i < slots m)%nat as Hlt by (apply linear_probe_lt; lia).
  rewrite control_at_slot by (done || lia). cbn [obind].
  destruct (Z.eqb_spec (Z.of_nat (probe k i)) (Z.of_nat s)) as [Heq|Hne].
  { split; [|done]. intros _. exists i. split_and!; [lia..|]. intros l; lia. }
  assert (tbl !! probe k i = Some (slot_entry m bytes (probe k i))) as Ht
    by (by apply lookup_table).
  unfold slot_entry in Ht.
  destruct (Z.eqb_spec (ctl_at bytes (probe k i)) kEmptyControl) as [He|He].
  - split; [done|]. intros (j & Hj & -> & Hl).
    destruct (Hl i) as [e He']; [|congruence].
    destruct (decide (i = j)) as [->|]; [done|lia].
  - rewrite (next_probe m bytes Hwf). rewrite IH; [|done|lia|].
    + split; intros (j & Hj & -> & Hl); exists j.
      * split_and!; [lia..|done|]. intros l Hl'.
        destruct (decide (l = i)) as [->|]; [eauto|]. apply Hl. lia.
      * assert (i ≠ j) by (intros ->; done).
        split_and!; [lia..|done|]. intros l Hl'. apply Hl. lia.
    + destruct Hex as (j & Hj & <-). exists j.
      assert (i ≠ j) by (intros ->; done). split; [lia|done].
Qed.

Lemma check_reachable_iff k s :
  (s < slots m)%nat →
  check_reachable bytes (control_offset m) (wrap64 (capacity m - 1)) (Z.of_nat s)
    (Z.to_nat (capacity m)) (Z.land (hash_of m k) (wrap64 (capacity m - 1))) = Ok tt ↔
  reachable m tbl k s.
Proof.
  intros Hs. rewrite (first_probe m bytes Hwf). fold (slots m).
  rewrite check_reachable_spec; [|done|lia|].
  - unfold reachable. split; intros (j & Hj & -> & Hl); exists j; split_and!;
      try lia; try done; intros l Hl'; apply Hl; lia.
  - destruct (linear_probe_surj (slots m) (home m) ltac:(lia) k s Hs) as (i & Hi & Hp).
    exists i. split; [lia|done].
Qed.
End Validate.

Section ValidateLoop.
Context (m : FrozenPrimaryKeyIndexMetadata) (bytes : list byte).
Hypothesis Hwf : meta_wf m (Zlen bytes).

Abbreviation view := (MkView bytes m).
Abbreviation tbl := (table_of m bytes).

(** What one iteration accepts. *)
Definition slot_accepted (seen : gset Z) (s : nat) : Prop :=
  match slot_entry m bytes s with
  | None => True
  | Some (k, _) =>
      (k ∉ seen) ∧ ctl_at bytes s = H2 (hash_of m k) ∧ reachable m tbl k s
  end.

Definition slot_next (st : gset Z * Z) (s : nat) : gset Z * Z :=
  match slot_entry m bytes s with
  | None => st
  | Some (k, _) => ({[k]} ∪ st.1, wrap64 (st.2 + 1))
  end.

Lemma validate_slot_spec st st' s :
  (s < slots m)%nat →
  validate_slot view st (Z.of_nat s) = Ok st' ↔
  slot_accepted st.1 s ∧ st' = slot_next st s.
Proof.
  intros Hs. destruct st as [seen cnt]. unfold validate_slot, slot_accepted, slot_next.
  cbn [metadata view_bytes fst snd].
  rewrite control_at_slot by (done || lia). cbn [obind]. unfold slot_entry.
  destruct (ctl_at bytes s =? kEmptyControl) eqn:Hempty.
  { split; [intros [= <-]; done|]. by intros [_ ->]. }
  rewrite ReadKey_eq by done. cbn [obind].
  set (k := word_at (key_offset m) bytes s).
  rewrite hash_of_fold.
  pose proof (check_reachable_iff m bytes Hwf k s Hs) as Hreach.
  pose proof (H2_range (hash_of m k) (StableHash64_range _ _ _)) as Hh2.
  split.
  - intros H. guard_ok H Hhigh. destruct (decide (k ∈ seen)); [done|].
    guard_ok H Hctl. bind_ok H u Hr. destruct u. injection H as <-.
    apply Hreach in Hr. btoprop. done.
  - intros [(Hk & Hctl & Hr) ->]. rewrite Hctl.
    assert (Z.land (H2 (hash_of m k)) kEmptyControl = 0) as ->.
    { apply Z.bits_inj'. intros i Hi. rewrite Z.land_spec, Z.bits_0.
      change kEmptyControl with (2 ^ 7). rewrite Z.pow2_bits_eqb by lia.
      destruct (Z.eqb_spec 7 i) as [<-|]; [|by rewrite andb_false_r].
      rewrite andb_true_r.
      rewrite <-(Z.mod_small (H2 (hash_of m k)) (2 ^ 7)) by lia.
      by rewrite Z.mod_pow2_bits_high by lia. }
    rewrite Z.eqb_refl. cbn [negb]. rewrite decide_False by done.
    rewrite Z.eqb_refl. cbn [negb].
    rewrite (proj2 Hreach Hr). done.
Qed.

(** The loop state after the first [j] slots. *)
Definition loop_state (j : nat) (st : gset Z * Z) : Prop :=
  (∀ k, (k ∈ st.1) ↔ (∃ s o, (s < j)%nat ∧ slot_entry m bytes s = Some (k, o)))
  ∧ st.2 = Z.of_nat (length (entries (take j tbl))).

Lemma loop_state_0 : loop_state 0 (∅, 0).
Proof.
  split; [|done]. intros k. simpl. split; [set_solver|]. intros (s & o & Hs & _). lia.
Qed.

Lemma loop_state_next j st :
  (j < slots m)%nat → loop_state j st → loop_state (S j) (slot_next st j).
Proof.
  intros Hj [Hseen Hcnt]. unfold slot_next, loop_state.
  rewrite (entries_take_S _ _ _ (lookup_table m bytes j Hj)).
  rewrite length_app.
  assert (Z.of_nat (length (entries (take j tbl))) < 2 ^ 60).
  { pose proof (length_entries_le (take j tbl)). rewrite length_take in *.
    pose proof (slots_Z m bytes Hwf). pose proof (cap_bounds m bytes Hwf). lia. }
  destruct (slot_entry m bytes j) as [[k0 o0]|] eqn:E; cbn [fst snd].
  - split.
    + intros k. rewrite elem_of_union, elem_of_singleton, Hseen. split.
      * intros [->|(s & o & Hs & He)]; [exists j, o0|exists s, o]; split; (lia || done).
      * intros (s & o & Hs & He). destruct (decide (s = j)) as [->|].
        -- left. congruence.
        -- right. exists s, o. split; [lia|done].
    + rewrite Hcnt. simpl length. rewrite wrap64_small; unfold is_u64; lia.
  - split; [|rewrite Hcnt; simpl; lia].
    intros k. rewrite Hseen. split; intros (s & o & Hs & He).
    + exists s, o. split; [lia|done].
    + exists s, o. split; [|done]. destruct (decide (s = j)) as [->|]; [congruence|lia].
Qed.

Lemma loop_state_end st :
  loop_state (slots m) st → st.2 = Z.of_nat (length (entries tbl)).
Proof. intros [_ ->]. by rewrite take_ge by (by rewrite length_table). Qed.

Lemma table_inv_iff :
  (table_inv (slots m) (linear_probe (slots m) (home m)) tbl ∧ control_ok m bytes) ↔
  ∀ s, (s < slots m)%nat → match slot_entry m bytes s with
    | None => True
    | Some (k, _) =>
        (∀ s' o', (s' < s)%nat → slot_entry m bytes s' ≠ Some (k, o'))
        ∧ ctl_at bytes s = H2 (hash_of m k) ∧ reachable m tbl k s
    end.
Proof.
  split.
  - intros [Hinv Hctl] s Hs. destruct (slot_entry m bytes s) as [[k o]|] eqn:E; [|done].
    split_and!.
    + intros s' o' Hs' E'.
      assert (s = s'); [|lia].
      apply (inv_unique _ _ _ Hinv s s' k o o'); apply lookup_table_Some; split; (done || lia).
    + by eapply Hctl.
    + apply (linear_reachable _ _ (slots_pos m bytes Hwf) tbl k o s); [|by apply lookup_table_Some|].
      * intros s' k' v1 v2. apply (inv_unique _ _ _ Hinv).
      * apply (inv_reachable _ _ _ Hinv s k o). by apply lookup_table_Some.
  - intros H.
    assert (∀ s s' k v v', tbl !! s = Some (Some (k, v)) →
      tbl !! s' = Some (Some (k, v')) → s = s') as Huniq.
    { intros s s' k v v' [Hs E]%lookup_table_Some [Hs' E']%lookup_table_Some.
      pose proof (H s Hs) as H1. rewrite E in H1.
      pose proof (H s' Hs') as H2. rewrite E' in H2.
      destruct (lt_eq_lt_dec s s') as [[Hlt|]|Hlt]; [|done|].
      - by destruct (proj1 H2 s v Hlt).
      - by destruct (proj1 H1 s' v' Hlt). }
    split; [split|].
    + apply length_table.
    + apply Huniq.
    + intros s k v Ht. apply (linear_reachable _ _ (slots_pos m bytes Hwf) tbl k v s); [eauto|done|].
      apply lookup_table_Some in Ht as [Hs E].
      pose proof (H s Hs) as H1. rewrite E in H1. apply H1.
    + intros s k o Hs E. pose proof (H s Hs) as H1. rewrite E in H1. apply H1.
Qed.

Lemma validate_loop_spec st :
  ofold (validate_slot view) (seqZ 0 (capacity m)) (∅, 0) = Ok st →
  table_inv (slots m) (linear_probe (slots m) (home m)) tbl ∧ control_ok m bytes
  ∧ st.2 = Z.of_nat (length (entries tbl)).
Proof.
  intros Hloop. pose proof (slots_Z m bytes Hwf).
  set (ok s := match slot_entry m bytes s with
    | None => True
    | Some (k, _) =>
        (∀ s' o', (s' < s)%nat → slot_entry m bytes s' ≠ Some (k, o'))
        ∧ ctl_at bytes s = H2 (hash_of m k) ∧ reachable m tbl k s
    end).
  apply (for_inv _ (λ j st, loop_state j st ∧ ∀ s, (s < j)%nat → ok s)) in Hloop.
  - fold (slots m) in Hloop. destruct Hloop as [Hst Hok].
    destruct (proj2 table_inv_iff Hok) as [Hinv Hctl].
    split_and!; [done|done|by apply loop_state_end].
  - split; [apply loop_state_0|lia].
  - intros j t t' Hj [Hst Hok] Hstep.
    apply validate_slot_spec in Hstep as [Hacc ->]; [|lia].
    split; [apply loop_state_next; [lia|done]|].
    intros s Hs. destruct (decide (s = j)) as [->|]; [|apply Hok; lia].
    unfold ok. unfold slot_accepted in Hacc.
    destruct (slot_entry m bytes j) as [[k o]|]; [|done].
    destruct Hacc as (Hk & Hacc). split; [|done].
    intros s' o' Hs' E'. apply Hk, (proj1 Hst). by exists s', o'.
Qed.

Lemma validate_loop_complete :
  table_inv (slots m) (linear_probe (slots m) (home m)) tbl → control_ok m bytes →
  ∃ st, ofold (validate_slot view) (seqZ 0 (capacity m)) (∅, 0) = Ok st
    ∧ st.2 = Z.of_nat (length (entries tbl)).
Proof.
  intros Hinv Hctl. pose proof (slots_Z m bytes Hwf).
  pose proof (proj1 table_inv_iff (conj Hinv Hctl)) as Hok.
  destruct (for_total (validate_slot view) loop_state (capacity m) (∅, 0))
    as (st & Hst & Hend); [apply loop_state_0| |].
  - intros j st Hj Hst. exists (slot_next st j).
    split; [|apply loop_state_next; [lia|done]].
    apply validate_slot_spec; [lia|]. split; [|done].
    unfold slot_accepted. specialize (Hok j ltac:(lia)).
    destruct (slot_entry m bytes j) as [[k o]|] eqn:E; [|done].
    destruct Hok as (Hnew & Hacc). split; [|done].
    intros (s' & o' & Hs' & E')%(proj1 Hst). by eapply Hnew.
  - exists st. split; [done|]. by apply loop_state_end.
Qed.
End ValidateLoop.

Lemma check_mirrored_eq m bytes (i : nat) u :
  meta_wf m (Zlen bytes) → (i < 16)%nat →
  check_mirrored bytes m u (Z.of_nat i) =
  if decide (ctl_at bytes (slots m + i) = ctl_at bytes i) then Ok tt
  else InvalidArgument "frozen primary-key index control bytes are not mirrored".
Proof.
  intros Hwf Hi. pose proof (slots_Z m bytes Hwf) as Hs. destruct Hwf.
  unfold check_mirrored.
  destruct (at_in (E := Status) bytes (control_offset m + capacity m + Z.of_nat i))
    as (b1 & Hb1 & ->); [lia|].
  destruct (at_in (E := Status) bytes (control_offset m + Z.of_nat i)) as (b2 & Hb2 & ->); [lia|].
  cbn [obind]. unfold ctl_at.
  replace (80 + (slots m + i))%nat with
    (Z.to_nat (control_offset m + capacity m + Z.of_nat i)) by lia.
  replace (80 + i)%nat with (Z.to_nat (control_offset m + Z.of_nat i)) by lia.
  rewrite Hb1, Hb2. simpl.
  destruct (decide (b1 = b2)) as [->|Hne]; [by rewrite decide_True|].
  rewrite decide_False; [done|]. intros H. by apply Hne, byte_to_Z_inj.
Qed.

Lemma mirror_loop_iff m bytes :
  meta_wf m (Zlen bytes) →
  ofold (check_mirrored bytes m) (seqZ 0 (group_width m)) tt = Ok tt ↔ mirrored m bytes.
Proof.
  intros Hwf. rewrite (wf_group _ _ Hwf). split.
  - intros H.
    refine (for_inv _ (λ j _, ∀ i, (i < j)%nat → ctl_at bytes (slots m + i) = ctl_at bytes i)
      16 tt tt _ _ H); [lia|].
    intros i t t' Hi Hprev Hstep j Hj. rewrite check_mirrored_eq in Hstep by (done || lia).
    destruct (decide (j = i)) as [->|]; [|apply Hprev; lia].
    by destruct (decide _) in Hstep.
  - intros Hm. destruct (for_total (check_mirrored bytes m) (λ _ _, True) 16 tt)
      as ([] & -> & _); [done| |done].
    intros i [] Hi _. exists tt. split; [|done].
    rewrite check_mirrored_eq by (done || lia). by rewrite decide_True by (apply Hm; lia).
Qed.

Lemma Validate_spec (bytes : list byte) (v : FrozenPrimaryKeyIndexView) :
  Validate bytes = Ok v ↔ view_bytes v = bytes ∧ valid_image (metadata v) bytes.
Proof.
  unfold Validate. split.
  - intros H. bind_ok H m Hm. bind_ok H u Hv. destruct u.
    apply ReadMetadata_wf in Hv; [|done].
    bind_ok H u Hmir. destruct u. apply mirror_loop_iff in Hmir; [|done].
    bind_ok H st Hloop. guard_ok H Hcnt. injection H as <-. btoprop.
    apply validate_loop_spec in Hloop as (Hinv & Hctl & Hn); [|done].
    split; [done|]. split; try done. simpl. congruence.
  - destruct v as [bs m]. cbn [view_bytes metadata].
    intros [-> [Hm Hwf Hmir Hinv Hctl Hcnt]]. rewrite Hm. cbn [obind].
    rewrite (proj2 (ReadMetadata_wf _ _ Hm) Hwf). cbn [obind].
    rewrite (proj2 (mirror_loop_iff _ _ Hwf) Hmir). cbn [obind].
    destruct (validate_loop_complete m bytes Hwf Hinv Hctl) as (st & -> & Hst). cbn [obind].
    by rewrite Hst, Hcnt, Z.eqb_refl.
Qed.

(** *** C14: [Validate] decides exactly the well-formed index images.

    [Validate] accepts a byte string if and only if its header parses, the
    section offsets are the ones the header's capacity dictates, the first
    control group is mirrored, every occupied slot carries the hash bits of
    its key, keys are unique and reachable from their bucket, and the number
    of occupied slots is the row count; the view it returns is over those
    very bytes. *)
Theorem Validate_iff_valid_image (bytes : list byte) (v : FrozenPrimaryKeyIndexView) :
  Validate bytes = Ok v ↔ view_bytes v = bytes ∧ valid_image (metadata v) bytes.
Proof. apply Validate_spec. Qed.

Lemma check_reachable_no_fault m bytes k s n i :
  meta_wf m (Zlen bytes) →
  no_fault (check_reachable bytes (control_offset m) (wrap64 (capacity m - 1)) s n
    (Z.of_nat (linear_probe (slots m) (home m) k i))).
Proof.
  intros Hwf. revert i. induction n as [|n IH]; intros i; cbn [check_reachable]; [done|].
  pose proof (linear_probe_lt (slots m) (home m) (slots_pos m bytes Hwf) k i).
  rewrite control_at_slot by (done || lia). cbn [obind].
  rewrite (next_probe m bytes Hwf). by repeat case_match.
Qed.

Lemma validate_slot_no_fault m bytes st s :
  meta_wf m (Zlen bytes) → 0 ≤ s < capacity m →
  no_fault (validate_slot (MkView bytes m) st s).
Proof.
  intros Hwf Hs. pose proof (slots_Z m bytes Hwf).
  rewrite <-(Z2Nat.id s) by lia. set (n := Z.to_nat s).
  assert (n < slots m)%nat by lia.
  unfold validate_slot. destruct st as [seen cnt]. cbn [metadata view_bytes].
  rewrite control_at_slot by (done || lia). cbn [obind].
  case_match; [done|]. case_match; [done|].
  rewrite ReadKey_eq by done. cbn [obind]. case_match; [done|]. case_match; [done|].
  rewrite hash_of_fold, (first_probe m bytes Hwf).
  apply no_fault_bind; [by apply check_reachable_no_fault|]. done.
Qed.

Lemma Validate_safe (bytes : list byte) : no_fault (Validate bytes).
Proof.
  unfold Validate. apply no_fault_bind; [apply ReadMetadata_no_fault|]. intros m Hm.
  apply no_fault_bind; [apply ValidateMetadata_no_fault|]. intros [] Hv.
  apply ReadMetadata_wf in Hv; [|done]. pose proof (slots_Z m bytes Hv).
  apply no_fault_bind.
  { apply ofold_no_fault. intros u i Hi%elem_of_seqZ.
    rewrite (wf_group _ _ Hv) in Hi. rewrite <-(Z2Nat.id i) by lia.
    rewrite check_mirrored_eq by (done || lia). by case_match. }
  intros [] _. apply no_fault_bind.
  - apply ofold_no_fault. intros st s Hs%elem_of_seqZ.
    apply validate_slot_no_fault; [done|lia].
  - intros st _. by case_match.
Qed.

(** Validation is memory safe on arbitrary input.

    On every byte string that fits in memory, [Validate] stays within the
    bytes: whatever the header claims, no control byte, key or probe is read
    out of range, and every loop ends. *)
Theorem Validate_no_fault (bytes : list byte) : no_fault (Validate bytes).
Proof. apply Validate_safe. Qed.

Lemma entries_lt_cap m bytes :
  valid_image m bytes → (length (entries (table_of m bytes)) < slots m)%nat.
Proof.
  intros Hv. pose proof (slots_Z _ _ (vi_wf _ _ Hv)).
  pose proof (cap_bounds _ _ (vi_wf _ _ Hv)).
  pose proof (vi_count _ _ Hv). pose proof (wf_load _ _ (vi_wf _ _ Hv)).
  pose proof (Z.div_mod (capacity m) 8 ltac:(lia)).
  pose proof (Z.mod_pos_bound (capacity m) 8 ltac:(lia)). lia.
Qed.

Definition index_map (v : FrozenPrimaryKeyIndexView) (es : list FrozenPrimaryKeyIndexEntry) : Prop :=
  NoDup (primary_key <$> es)
  ∧ ∀ key, ∃ r, Lookup v key = Ok r ∧ ∀ off, r = Some off ↔ MkEntry key off ∈ es.

Lemma valid_image_index_map m bytes :
  valid_image m bytes →
  ∃ es, Entries (MkView bytes m) = Ok es ∧ Zlen es = row_count m
    ∧ es = (λ e, MkEntry e.1 e.2) <$> entries (table_of m bytes)
    ∧ index_map (MkView bytes m) es.
Proof.
  intros Hv. pose proof (vi_wf _ _ Hv) as Hwf.
  pose proof (vi_table _ _ Hv) as Hinv.
  pose proof (slots_pos _ _ Hwf) as Hpos.
  exists ((λ e, MkEntry e.1 e.2) <$> entries (table_of m bytes)).
  split; [by apply Entries_table|].
  split; [unfold Zlen; rewrite length_fmap; apply Hv|]. split; [done|]. split.
  - rewrite <-list_fmap_compose. by eapply NoDup_keys_entries.
  - intros key. rewrite (Lookup_scan m bytes Hwf (vi_control _ _ Hv)).
    assert (∀ off, MkEntry key off ∈ (λ e, MkEntry e.1 e.2) <$> entries (table_of m bytes) ↔
      holds (table_of m bytes) key off) as Hin.
    { intros off. rewrite <-elem_of_entries, list_elem_of_fmap. split.
      - by intros ([k o] & [= -> ->] & H).
      - intros H. by exists (key, off). }
    setoid_rewrite Hin.
    pose proof (scan_spec _ _ (linear_probe_lt _ (home m) Hpos) (table_of m bytes) key Hinv) as Hscan.
    pose proof (scan_not_Exhausted _ _ (linear_probe_lt _ (home m) Hpos) (table_of m bytes) key
      (linear_probe_surj _ (home m) Hpos key) Hinv (entries_lt_cap _ _ Hv)).
    destruct (scan _ _ key _ 0) as [s o|s|] eqn:E; [..|done].
    + exists (Some o). split; [done|]. intros off. split.
      * intros [= <-]. by exists s.
      * intros Ho. f_equal. eapply holds_functional; [done|by exists s|done].
    + exists None. split; [done|]. intros off. split; [done|]. intros Ho.
      by destruct (proj2 Hscan off).
Qed.

(** Every validated index is a total finite map.

    If [Validate] accepts an image, [Entries] returns the rows of the index
    (as many as the header says, with distinct keys), and [Lookup] of any key
    terminates without an error and returns exactly the offset [Entries]
    gives for the key, and nothing for a key that is not there. *)
Theorem validated_lookup_total (bytes : list byte) (v : FrozenPrimaryKeyIndexView)
    (Hv : Validate bytes = Ok v) :
  ∃ es, Entries v = Ok es
    ∧ NoDup (primary_key <$> es)
    ∧ Zlen es = row_count (metadata v)
    ∧ ∀ key, ∃ r, Lookup v key = Ok r
        ∧ ∀ off, r = Some off ↔ MkEntry key off ∈ es.
Proof.
  apply Validate_spec in Hv as [<- Hv]. destruct v as [bytes m].
  destruct (valid_image_index_map m bytes Hv) as (es & He & Hn & _ & Hmap).
  exists es. split_and!; done || apply Hmap.
Qed.
