(* ===== verification/FrozenBuildProofs.v ===== *)
(** * The index builder produces valid images

    [CalculateCapacity] is minimal and never overflows; the header is written
    and parsed back; each insertion of the builder is an insertion into the
    probe table; and the finished bytes pass [Validate] and hold exactly the
    entries they were built from. *)

From S2P Require Import Prelude Status ByteIo Hash ProbeTable FrozenIndex FrozenIndexProofs.

(** ** Capacity *)

Lemma grow_capacity_spec fuel a need :
  0 ≤ a ≤ 62 → 62 - a ≤ Z.of_nat fuel → need ≤ 2 ^ 62 →
  ∃ b, a ≤ b ≤ 62 ∧ grow_capacity fuel (2 ^ a) need = Ok (2 ^ b)
    ∧ need ≤ 2 ^ b ∧ (b = a ∨ 2 ^ (b - 1) < need).
Proof.
  revert a. induction fuel as [|fuel IH]; intros a Ha Hf Hneed; cbn [grow_capacity].
  - assert (a = 62) as -> by lia. exists 62. split; [lia|].
    rewrite (proj2 (Z.ltb_ge _ _)) by lia. split_and!; [done|lia|by left].
  - destruct (Z.ltb_spec (2 ^ a) need) as [Hlt|Hge].
    + assert (a < 62) by (destruct (Z.eq_dec a 62) as [->|]; lia).
      assert (2 ^ a ≤ 2 ^ 61) by (apply Z.pow_le_mono_r; lia).
      assert (2 ^ (a + 1) = 2 ^ a * 2) as Hp by (rewrite Z.pow_add_r; lia).
      assert (2 ^ (a + 1) ≤ 2 ^ 62) by (apply Z.pow_le_mono_r; lia).
      assert (0 < 2 ^ a) by (apply Z.pow_pos_nonneg; lia).
      change (u64_max / 2) with (2 ^ 63 - 1).
      rewrite (proj2 (Z.ltb_ge _ _)) by lia.
      rewrite wrap64_small by (unfold is_u64; lia). rewrite <-Hp.
      destruct (IH (a + 1)) as (b & Hb & -> & Hle & Hmin); [lia..|].
      exists b. split_and!; [lia..|done|lia|]. right.
      destruct Hmin as [->|]; [|done]. by replace (a + 1 - 1) with a by lia.
    + exists a. split_and!; [lia..|done|lia|by left].
Qed.

Lemma min_for_load_no_wrap r :
  0 ≤ r → r ≤ (u64_max - 6) / 8 ->
  wrap64 (wrap64 (r * 8) + 6) / 7 = (r * 8 + 6) / 7 ∧ (r * 8 + 6) / 7 ≤ 2 ^ 62.
Proof.
  intros H0 Hr. assert (r * 8 + 6 ≤ u64_max) as Hb.
  { pose proof (Z.mul_div_le (u64_max - 6) 8 ltac:(lia)). lia. }
  unfold u64_max in Hb. rewrite !wrap64_small; unfold is_u64; try lia.
  - split; [done|]. apply Z.div_le_upper_bound; lia.
  - rewrite wrap64_small; unfold is_u64; lia.
Qed.

Lemma CalculateCapacity_spec rows (Hrows : is_u64 rows) :
  match CalculateCapacity rows 16 with
  | Ok cap =>
      single_bit cap = true ∧ 16 ≤ cap ≤ 2 ^ 62 ∧ rows ≤ cap / 8 * 7
      ∧ (cap = 16 ∨ cap / 2 / 8 * 7 < rows)
  | Err e => status_code e = kInvalidArgument ∧ (u64_max - 6) / 8 < rows
  | Fault _ => False
  end.
Proof.
  unfold CalculateCapacity. cbn [Z.eqb orb negb kDefaultGroupWidth Pos.eqb].
  destruct (Z.ltb_spec ((u64_max - 6) / 8) rows) as [Hbig|Hok]; [done|].
  destruct Hrows as [Hr0 Hr].
  destruct (min_for_load_no_wrap rows Hr0 Hok) as [-> Hneed].
  destruct (grow_capacity_spec 64 4 ((rows * 8 + 6) / 7)) as (b & Hb & Hg & Hle & Hmin);
    [lia..|].
  change (2 ^ 4) with 16 in Hg. rewrite Hg.
  assert (2 ^ b = 8 * 2 ^ (b - 3)) as Hb3.
  { change 8 with (2 ^ 3). rewrite <-Z.pow_add_r by lia. f_equal. lia. }
  assert (2 ^ 4 ≤ 2 ^ b) by (apply Z.pow_le_mono_r; lia).
  assert (2 ^ b ≤ 2 ^ 62) by (apply Z.pow_le_mono_r; lia).
  pose proof (Z.mul_succ_div_gt (rows * 8 + 6) 7 ltac:(lia)).
  pose proof (Z.mul_div_le (rows * 8 + 6) 7 ltac:(lia)).
  split_and!; [|lia..| |].
  - apply single_bit_spec; [lia|]. exists b. split; [lia|done].
  - rewrite Hb3, (Z.mul_comm 8), Z.div_mul by lia. lia.
  - destruct (Z.eq_dec b 4) as [->|Hne]; [by left|right].
    destruct Hmin as [|Hmin]; [lia|].
    assert (2 ^ b / 2 = 2 ^ (b - 1)) as ->.
    { replace b with (b - 1 + 1) at 1 by lia.
      rewrite Z.pow_add_r, Z.div_mul by lia. done. }
    assert (2 ^ (b - 1) = 8 * 2 ^ (b - 4)) as Hb4.
    { change 8 with (2 ^ 3). rewrite <-Z.pow_add_r by lia. f_equal. lia. }
    rewrite Hb4 in *. rewrite (Z.mul_comm 8 (2 ^ (b - 4))), Z.div_mul by lia. lia.
Qed.

(** The capacity is the least power of two with 7/8 load.

    For any 64-bit row count [CalculateCapacity] terminates: it refuses only
    counts whose size computation would overflow, and otherwise returns a
    power of two of at least one group that keeps the load at or below seven
    eighths, and whose half would not. *)
Theorem CalculateCapacity_minimal (rows : Z) (Hrows : is_u64 rows) :
  match CalculateCapacity rows 16 with
  | Ok cap =>
      single_bit cap = true ∧ 16 ≤ cap ≤ 2 ^ 62 ∧ rows ≤ cap / 8 * 7
      ∧ (cap = 16 ∨ cap / 2 / 8 * 7 < rows)
  | Err e => status_code e = kInvalidArgument ∧ (u64_max - 6) / 8 < rows
  | Fault _ => False
  end.
Proof. by apply CalculateCapacity_spec. Qed.

Lemma CalculateCapacity_minimal_witness :
  match CalculateCapacity 15 16 with
  | Ok cap =>
      single_bit cap = true ∧ 16 ≤ cap ≤ 2 ^ 62 ∧ 15 ≤ cap / 8 * 7
      ∧ (cap = 16 ∨ cap / 2 / 8 * 7 < 15)
  | Err e => status_code e = kInvalidArgument ∧ (u64_max - 6) / 8 < 15
  | Fault _ => False
  end.
Proof. apply (CalculateCapacity_minimal 15). unfold is_u64. lia. Defined.

(** ** Header *)

Definition header_bytes (m : FrozenPrimaryKeyIndexMetadata) : list byte :=
  le_bytes 8 kMagic ++ le_bytes 4 kFormatVersion ++ le_bytes 4 80
  ++ le_bytes 8 (row_count m) ++ le_bytes 8 (capacity m)
  ++ le_bytes 8 (hash_seed m) ++ le_bytes 4 (hash_version m)
  ++ le_bytes 4 (group_width m) ++ le_bytes 8 (control_offset m)
  ++ le_bytes 8 (key_offset m) ++ le_bytes 8 (row_offset_offset m)
  ++ le_bytes 8 (total_size m).

Record meta_ranges (m : FrozenPrimaryKeyIndexMetadata) : Prop := {
  mr_rows : is_u64 (row_count m);
  mr_cap : is_u64 (capacity m);
  mr_seed : is_u64 (hash_seed m);
  mr_version : is_u32 (hash_version m);
  mr_group : is_u32 (group_width m);
  mr_control : is_u64 (control_offset m);
  mr_key : is_u64 (key_offset m);
  mr_row : is_u64 (row_offset_offset m);
  mr_total : is_u64 (total_size m);
}.

Lemma length_header_bytes m : length (header_bytes m) = 80%nat.
Proof. done. Qed.

(** A write that follows the bytes already written extends them. *)
Lemma write_next t v offset (done_ bytes : list byte) :
  0 ≤ v < it_modulus t → offset = Z.of_nat (length done_) →
  (length done_ + it_size t ≤ length bytes)%nat →
  WriteLittleEndian t v offset (splice 0 done_ bytes) =
  (Ok tt, splice 0 (done_ ++ le_bytes (it_size t) v) bytes).
Proof.
  intros Hv -> Hl. rewrite WriteLittleEndian_in by len.
  rewrite to_unsigned_id by done. f_equal. rewrite Nat2Z.id.
  change (length done_) with (0 + length done_)%nat.
  apply splice_splice_adjacent. rewrite length_le_bytes. lia.
Qed.

Lemma WriteHeader_splice m bytes :
  meta_ranges m → (80 ≤ length bytes)%nat →
  WriteHeader m bytes = (Ok tt, splice 0 (header_bytes m) bytes).
Proof.
  intros [] Hl. change bytes with (splice 0 [] bytes) at 1.
  unfold WriteHeader, sbind.
  rewrite write_next by (first [done | cbn [length]; len]). rewrite app_nil_l.
  do 11 (rewrite write_next by (first [done | len]); rewrite <-?app_assoc).
  done.
Qed.

Lemma ReadHeaderField_slice t v offset bytes header :
  (0 < it_size t)%nat → it_signed t = false → 0 ≤ v < it_modulus t → 0 ≤ offset →
  offset + Z.of_nat (it_size t) ≤ Zlen header →
  (length header ≤ length bytes)%nat → slice 0 (length header) bytes = header →
  slice (Z.to_nat offset) (it_size t) header = le_bytes (it_size t) v →
  ReadHeaderField t bytes offset = Ok v.
Proof.
  intros Hs Hsig Hv Ho Hin Hlen Hh Hsl. unfold ReadHeaderField, Zlen in *.
  rewrite ReadLittleEndian_in by (unfold Zlen; lia).
  assert (slice (Z.to_nat offset) (it_size t) bytes = le_bytes (it_size t) v) as ->.
  { rewrite <-Hsl, <-Hh at 1. rewrite slice_slice by lia. done. }
  rewrite le_value_bytes. fold (it_modulus t). rewrite Z.mod_small by done.
  unfold of_unsigned. by rewrite Hsig.
Qed.

Ltac read_field t v off header Hl Hh :=
  rewrite (ReadHeaderField_slice t v off _ header ltac:(simpl; lia) eq_refl
    ltac:(done) ltac:(done) ltac:(vm_compute; congruence) Hl Hh eq_refl);
  cbn [obind].

Lemma ReadMetadata_header m bytes :
  meta_ranges m → (80 ≤ length bytes)%nat → slice 0 80 bytes = header_bytes m →
  ReadMetadata bytes = Ok m.
Proof.
  intros [] Hl Hh. unfold ReadMetadata, Zlen.
  rewrite (proj2 (Z.ltb_ge _ _)) by (unfold kSerializedHeaderSize; lia).
 
  read_field uint64_t kMagic kMagicOffset (header_bytes m) Hl Hh. rewrite Z.eqb_refl. cbn [negb].
  read_field uint32_t kFormatVersion kFormatVersionOffset (header_bytes m) Hl Hh. rewrite Z.eqb_refl. cbn [negb].
  read_field uint32_t 80 kHeaderSizeOffset (header_bytes m) Hl Hh. change (80 =? kSerializedHeaderSize) with true. cbn [negb].
  read_field uint64_t (row_count m) kRowCountOffset (header_bytes m) Hl Hh.
  read_field uint64_t (capacity m) kCapacityOffset (header_bytes m) Hl Hh.
  read_field uint64_t (hash_seed m) kHashSeedOffset (header_bytes m) Hl Hh.
  read_field uint32_t (hash_version m) kHashVersionOffset (header_bytes m) Hl Hh.
  read_field uint32_t (group_width m) kGroupWidthOffset (header_bytes m) Hl Hh.
  read_field uint64_t (control_offset m) kControlOffsetOffset (header_bytes m) Hl Hh.
  read_field uint64_t (key_offset m) kKeyOffsetOffset (header_bytes m) Hl Hh.
  read_field uint64_t (row_offset_offset m) kRowOffsetOffsetOffset (header_bytes m) Hl Hh.
  read_field uint64_t (total_size m) kTotalSizeOffset (header_bytes m) Hl Hh. by destruct m.
Qed.

(** ** Writing into one section leaves the others alone *)

Section Sections.
Context (m : FrozenPrimaryKeyIndexMetadata) (bytes : list byte).
Hypothesis Hwf : meta_wf m (Zlen bytes).

Lemma set_control i b :
  (i < slots m + 16)%nat →
  set_at (E := Status) bytes (control_offset m + Z.of_nat i) b
  = Ok (<[(80 + i)%nat := b]> bytes).
Proof.
  intros Hi. pose proof (slots_Z m bytes Hwf). destruct Hwf.
  rewrite set_at_in by lia. f_equal. f_equal. lia.
Qed.

Lemma ctl_at_insert i b s :
  (80 + i < length bytes)%nat →
  ctl_at (<[(80 + i)%nat := b]> bytes) s = if decide (s = i) then byte_to_Z b else ctl_at bytes s.
Proof.
  intros Hi. unfold ctl_at. destruct (decide (s = i)) as [->|Hne].
  - by rewrite list_lookup_insert_eq.
  - rewrite list_lookup_insert_ne by lia. done.
Qed.

Lemma word_at_insert section i b s :
  (i < slots m + 16)%nat → 80 + (capacity m + 16) ≤ section →
  word_at section (<[(80 + i)%nat := b]> bytes) s = word_at section bytes s.
Proof.
  intros Hi Hsec. pose proof (slots_Z m bytes Hwf). unfold word_at.
  by rewrite slice_insert_ne by lia.
Qed.

Lemma write_word section s w :
  (s < slots m)%nat → 0 ≤ section → section + capacity m * 8 ≤ Zlen bytes → is_u64 w →
  run_write (WriteLittleEndian uint64_t w (SlotOffset section (Z.of_nat s))) bytes
  = Ok (splice (Z.to_nat section + 8 * s) (le_bytes 8 w) bytes).
Proof.
  intros Hs Hsec Hle Hw. pose proof (slots_Z m bytes Hwf).
  rewrite (SlotOffset_eq m bytes Hwf) by done. unfold run_write.
  rewrite WriteLittleEndian_in by len. rewrite Nat2Z.id. by rewrite to_unsigned_id.
Qed.

Lemma ctl_at_splice off new s :
  (80 + s < off)%nat → (off + length new ≤ length bytes)%nat →
  ctl_at (splice off new bytes) s = ctl_at bytes s.
Proof. intros. unfold ctl_at. by rewrite lookup_splice_out by lia. Qed.

Lemma word_at_splice section s w s' :
  (Z.to_nat section + 8 * s + 8 ≤ length bytes)%nat → is_u64 w →
  word_at section (splice (Z.to_nat section + 8 * s) (le_bytes 8 w) bytes) s'
  = if decide (s' = s) then w else word_at section bytes s'.
Proof.
  intros Hl Hw. unfold word_at. destruct (decide (s' = s)) as [->|Hne].
  - replace 8%nat with (length (le_bytes 8 w)) at 2 by apply length_le_bytes.
    rewrite slice_splice_same by len. rewrite le_value_bytes. by apply Z.mod_small.
  - rewrite slice_splice_disjoint by len. done.
Qed.

Lemma word_at_splice_other section off new s :
  (off + length new ≤ length bytes)%nat →
  (Z.to_nat section + 8 * s + 8 ≤ off ∨ off + length new ≤ Z.to_nat section + 8 * s)%nat →
  word_at section (splice off new bytes) s = word_at section bytes s.
Proof. intros. unfold word_at. rewrite slice_splice_disjoint by lia. done. Qed.
End Sections.

(** ** One insertion *)

Lemma find_empty_slot_scan m bytes k n i s :
  meta_wf m (Zlen bytes) →
  scan (linear_probe (slots m) (home m)) (table_of m bytes) k n i = Vacant s →
  find_empty_slot bytes (control_offset m) (wrap64 (capacity m - 1)) n
    (Z.of_nat (linear_probe (slots m) (home m) k i)) = Ok (Z.of_nat s).
Proof.
  intros Hwf. revert i. induction n as [|n IH]; intros i; cbn [scan find_empty_slot]; [done|].
  pose proof (linear_probe_lt (slots m) (home m) (slots_pos m bytes Hwf) k i) as Hp.
  rewrite control_at_slot by (done || lia). cbn [obind].
  rewrite lookup_table by done. unfold slot_entry at 1.
  destruct (ctl_at bytes _ =? kEmptyControl); [by intros [= <-]|].
  case_decide; [done|]. intros Hs. rewrite (next_probe m bytes Hwf). by apply IH.
Qed.

(** The image while the builder fills it: what later steps rely on. *)
Record partial_image (m : FrozenPrimaryKeyIndexMetadata) (bytes : list byte)
    (t : list (option (Z * Z))) : Prop := {
  pi_wf : meta_wf m (Zlen bytes);
  pi_header : slice 0 80 bytes = header_bytes m;
  pi_table : table_of m bytes = t;
  pi_control : control_ok m bytes;
}.

(** Storing an entry in one slot, seen slot by slot. *)
Lemma insert_image m bytes bytes' e s :
  partial_image m bytes (table_of m bytes) → length bytes' = length bytes →
  slice 0 80 bytes' = slice 0 80 bytes →
  (∀ s', (s' < slots m)%nat → ctl_at bytes' s' =
    if decide (s' = s) then H2 (hash_of m (primary_key e)) else ctl_at bytes s') →
  (∀ s', (s' < slots m)%nat → word_at (key_offset m) bytes' s' =
    if decide (s' = s) then primary_key e else word_at (key_offset m) bytes s') →
  (∀ s', (s' < slots m)%nat → word_at (row_offset_offset m) bytes' s' =
    if decide (s' = s) then row_offset e else word_at (row_offset_offset m) bytes s') →
  partial_image m bytes' (<[s := Some (primary_key e, row_offset e)]> (table_of m bytes)).
Proof.
  intros [Hwf Hhdr _ Hctl] Hlen Hh Hc Hk Ho.
  pose proof (H2_range (hash_of m (primary_key e)) (StableHash64_range _ _ _)) as Hh2.
  assert (∀ s', (s' < slots m)%nat → slot_entry m bytes' s' =
    if decide (s' = s) then Some (primary_key e, row_offset e) else slot_entry m bytes s') as Hslot.
  { intros s' Hs'. unfold slot_entry. rewrite Hc, Hk, Ho by done.
    case_decide; [|done].
    rewrite (proj2 (Z.eqb_neq _ _)); [done|]. unfold kEmptyControl. lia. }
  split.
  - unfold Zlen. by rewrite Hlen.
  - by rewrite Hh.
  - apply list_eq. intros s'. destruct (decide (s' < slots m)%nat) as [Hs'|Hs'].
    + rewrite lookup_table, Hslot by done. case_decide as Heq.
      * subst s'. by rewrite list_lookup_insert_eq by (by rewrite length_table).
      * rewrite list_lookup_insert_ne by done. by rewrite lookup_table.
    + rewrite !lookup_ge_None_2; [done|rewrite length_insert, length_table|rewrite length_table]; lia.
  - intros s' k o Hs' He. rewrite Hslot in He by done. rewrite Hc by done.
    case_decide as Heq; [|by eapply Hctl].
    injection He as <- <-. done.
Qed.

Lemma insert_entry_spec m bytes t e s :
  partial_image m bytes t → is_u64 (primary_key e) → is_u64 (row_offset e) →
  scan (linear_probe (slots m) (home m)) t (primary_key e) (slots m) 0 = Vacant s →
  ∃ bytes', insert_entry m bytes e = Ok bytes'
    ∧ partial_image m bytes' (<[s := Some (primary_key e, row_offset e)]> t).
Proof.
  intros [Hwf Hhdr <- Hctl] Hk Ho Hscan.
  pose proof (slots_Z m bytes Hwf) as Hcap.
  assert (s < slots m)%nat as Hs.
  { pose proof (slots_pos _ _ Hwf).
    apply scan_Vacant in Hscan as (j & _ & -> & _). by apply linear_probe_lt. }
  unfold insert_entry. rewrite hash_of_fold, (first_probe m bytes Hwf). fold (slots m).
  rewrite (find_empty_slot_scan m bytes _ _ _ s Hwf Hscan). cbn [obind].
  pose proof (H2_range (hash_of m (primary_key e)) (StableHash64_range _ _ _)) as Hh2.
  set (b := byte_of_Z (H2 (hash_of m (primary_key e)))).
  rewrite (set_control m bytes Hwf) by lia. cbn [obind].
  set (bytes1 := <[(80 + s)%nat := b]> bytes).
  assert (length bytes1 = length bytes) as Hl1 by apply length_insert.
  assert (meta_wf m (Zlen bytes1)) as Hwf1 by (unfold Zlen; by rewrite Hl1).
  pose proof Hwf as [_ _ _ _ Hco Hko Hro Htot Hsz _].
  rewrite (write_word m bytes1 Hwf1) by (done || unfold Zlen in *; lia). cbn [obind].
  set (bytes2 := splice _ (le_bytes 8 (primary_key e)) bytes1).
  assert (length bytes2 = length bytes) as Hl2 by (unfold bytes2; len).
  assert (meta_wf m (Zlen bytes2)) as Hwf2 by (unfold Zlen; by rewrite Hl2).
  rewrite (write_word m bytes2 Hwf2) by (done || unfold Zlen in *; lia).
  set (bytes3 := splice _ (le_bytes 8 (row_offset e)) bytes2).
  assert (length bytes3 = length bytes) as Hl3 by (unfold bytes3; len).
  assert (meta_wf m (Zlen bytes3)) as Hwf3 by (unfold Zlen; by rewrite Hl3).
  exists bytes3. split; [done|].
  assert (byte_to_Z b = H2 (hash_of m (primary_key e))) as Hb.
  { unfold b. rewrite byte_to_of_Z. apply Z.mod_small. lia. }
  apply insert_image; [by split|done|..].
  - unfold bytes3. rewrite slice_splice_disjoint by len.
    unfold bytes2. rewrite slice_splice_disjoint by len.
    unfold bytes1. by rewrite slice_insert_ne by lia.
  - intros s' Hs'. rewrite <-Hb. unfold bytes3. rewrite ctl_at_splice by len.
    unfold bytes2. rewrite ctl_at_splice by len. unfold bytes1.
    apply ctl_at_insert. len.
  - intros s' Hs'. unfold bytes3. rewrite word_at_splice_other by len.
    unfold bytes2. rewrite word_at_splice by (done || len).
    case_decide; [done|]. apply (word_at_insert m bytes Hwf); lia.
  - intros s' Hs'. unfold bytes3. rewrite word_at_splice by (done || len).
    case_decide; [done|]. unfold bytes2. rewrite word_at_splice_other by len.
    apply (word_at_insert m bytes Hwf); lia.
Qed.


(** ** The three loops of the builder *)

Section BuildLoops.
Context (m : FrozenPrimaryKeyIndexMetadata).

Lemma set_slot_control bytes i b :
  meta_wf m (Zlen bytes) → slice 0 80 bytes = header_bytes m → (i < slots m + 16)%nat →
  let bytes' := <[(80 + i)%nat := b]> bytes in
  meta_wf m (Zlen bytes') ∧ slice 0 80 bytes' = header_bytes m
  ∧ (∀ s, ctl_at bytes' s = if decide (s = i) then byte_to_Z b else ctl_at bytes s)
  ∧ (∀ s, word_at (key_offset m) bytes' s = word_at (key_offset m) bytes s)
  ∧ (∀ s, word_at (row_offset_offset m) bytes' s = word_at (row_offset_offset m) bytes s).
Proof.
  intros Hwf Hhdr Hi. cbn zeta. pose proof (slots_Z m bytes Hwf).
  pose proof Hwf as [_ _ _ _ Hco Hko Hro Htot Hsz _]. unfold Zlen in *.
  split_and!.
  - by rewrite length_insert.
  - by rewrite slice_insert_ne by lia.
  - intros s. apply ctl_at_insert. lia.
  - intros s. apply (word_at_insert m bytes Hwf); lia.
  - intros s. apply (word_at_insert m bytes Hwf); lia.
Qed.

(** After the first loop every slot is empty. *)
Lemma fill_control_loop bytes :
  meta_wf m (Zlen bytes) → slice 0 80 bytes = header_bytes m →
  ∃ bytes', ofold (fill_control m) (seqZ 0 (capacity m + group_width m)) bytes = Ok bytes'
    ∧ partial_image m bytes' (replicate (slots m) None).
Proof.
  intros Hwf Hhdr. pose proof (slots_Z m bytes Hwf) as Hcap.
  rewrite (wf_group _ _ Hwf).
  destruct (for_total (fill_control m) (λ j b, meta_wf m (Zlen b)
    ∧ slice 0 80 b = header_bytes m
    ∧ ∀ s, (s < j)%nat → ctl_at b s = kEmptyControl) (capacity m + 16) bytes)
    as (bytes' & Hf & Hwf' & Hhdr' & Hempty).
  - split_and!; [done|done|lia].
  - intros j b Hj (Hwfb & Hhdrb & He). eexists. unfold fill_control.
    rewrite (set_control m b Hwfb) by lia. split; [done|].
    destruct (set_slot_control b j (byte_of_Z kEmptyControl) Hwfb Hhdrb ltac:(lia))
      as (? & ? & Hc & _). split_and!; [done..|].
    intros s Hs. rewrite Hc. case_decide; [done|]. apply He. lia.
  - exists bytes'. split; [done|].
    assert (∀ s, (s < slots m)%nat → slot_entry m bytes' s = None) as Hnone.
    { intros s Hs. unfold slot_entry. by rewrite Hempty by lia. }
    split; [done..| |].
    + apply list_eq. intros s. destruct (decide (s < slots m)%nat).
      * by rewrite lookup_table, Hnone, lookup_replicate_2 by done.
      * by rewrite !lookup_ge_None_2 by (rewrite ?length_table, ?length_replicate; lia).
    + intros s k o Hs He. rewrite Hnone in He; done.
Qed.

Definition entry_pair (e : FrozenPrimaryKeyIndexEntry) : Z * Z :=
  (primary_key e, row_offset e).

(** Each entry goes to the first vacant slot of its probe sequence. *)
Lemma insert_entries_loop es bytes :
  partial_image m bytes (replicate (slots m) None) →
  NoDup (primary_key <$> es) → (length es < slots m)%nat →
  Forall (λ e, is_u64 (primary_key e) ∧ is_u64 (row_offset e)) es →
  ∃ bytes' t, ofold (insert_entry m) es bytes = Ok bytes'
    ∧ partial_image m bytes' t ∧ table_inv (slots m) (linear_probe (slots m) (home m)) t
    ∧ entries t ≡ₚ entry_pair <$> es.
Proof.
  intros Hpi Hnd Hlen Hrange.
  pose proof (slots_pos _ _ (pi_wf _ _ _ Hpi)) as Hpos.
  destruct (ofold_total (insert_entry m) (λ done b, ∃ t, partial_image m b t
    ∧ table_inv (slots m) (linear_probe (slots m) (home m)) t ∧ entries t ≡ₚ entry_pair <$> done) es bytes)
    as (bytes' & Hf & t & Ht); [| |by exists bytes', t].
  - exists (replicate (slots m) None). split_and!; [done|by apply empty_table_inv|].
    by rewrite entries_replicate_None.
  - intros done e rest b Hes (t & Hpib & Hinv & Hperm).
    assert (length (entries t) < slots m)%nat as Hroom.
    { rewrite Hperm, length_fmap. rewrite Hes, length_app in Hlen. lia. }
    assert (∀ v, ¬ holds t (primary_key e) v) as Hnew.
    { intros v Hv. apply elem_of_entries in Hv. rewrite Hperm in Hv.
      apply list_elem_of_fmap in Hv as (e' & [= Hk _] & Hin).
      rewrite Hes, fmap_app, fmap_cons in Hnd.
      apply NoDup_app in Hnd as (_ & Hd & _). apply (Hd (primary_key e)).
      - apply list_elem_of_fmap. by exists e'.
      - left. }
    rewrite Hes in Hrange. apply Forall_app in Hrange as [_ [[Hk Ho] _]%Forall_cons].
    pose proof (scan_spec _ _ (linear_probe_lt _ (home m) Hpos) t (primary_key e) Hinv) as Hsc.
    destruct (scan _ t (primary_key e) _ 0) as [s v|s|] eqn:E.
    + destruct (Hnew v). by exists s.
    + destruct (insert_entry_spec m b t e s Hpib Hk Ho E) as (b' & -> & Hpib').
      exists b'. split; [done|]. exists (<[s:=Some (entry_pair e)]> t).
      split_and!; [done|by apply insert_inv; [apply linear_probe_lt|..]|].
      rewrite entries_insert by apply Hsc. rewrite Hperm, fmap_app. simpl.
      by rewrite Permutation_cons_append.
    + by destruct (scan_not_Exhausted _ _ (linear_probe_lt _ (home m) Hpos) t (primary_key e)
        (linear_probe_surj _ (home m) Hpos _) Hinv Hroom).
Qed.

(** The last loop copies the first group behind the table. *)
Lemma mirror_control_loop bytes t :
  partial_image m bytes t →
  ∃ bytes', ofold (mirror_control m) (seqZ 0 (group_width m)) bytes = Ok bytes'
    ∧ partial_image m bytes' t ∧ mirrored m bytes'.
Proof.
  intros Hpi. pose proof (pi_wf _ _ _ Hpi) as Hwf. rewrite (wf_group _ _ Hwf).
  pose proof (slots_Z m bytes Hwf) as Hcap. pose proof (cap_bounds m bytes Hwf).
  destruct (for_total (mirror_control m) (λ j b, partial_image m b t
    ∧ ∀ i, (i < j)%nat → ctl_at b (slots m + i) = ctl_at b i) 16 bytes)
    as (bytes' & Hf & Hpi' & Hm); [split; [done|lia]| |by exists bytes'].
  intros j b Hj [[Hwfb Hhdr Ht Hctl] Hm]. unfold mirror_control.
  destruct (at_in (E := Status) b (control_offset m + Z.of_nat j)) as (x & Hx & ->);
    [destruct Hwfb; lia|]. cbn [obind].
  replace (control_offset m + capacity m + Z.of_nat j)
    with (control_offset m + Z.of_nat (slots m + j)) by lia.
  rewrite (set_control m b Hwfb) by lia. eexists. split; [done|].
  destruct (set_slot_control b (slots m + j) x Hwfb Hhdr ltac:(lia))
    as (Hwf' & Hhdr' & Hc & Hk & Ho).
  assert (ctl_at b j = byte_to_Z x) as Hxj.
  { unfold ctl_at. rewrite (wf_control _ _ Hwfb) in Hx.
    replace (Z.to_nat (80 + Z.of_nat j)) with (80 + j)%nat in Hx by lia. by rewrite Hx. }
  assert (∀ s, (s < slots m)%nat →
    slot_entry m (<[(80 + (slots m + j))%nat := x]> b) s = slot_entry m b s) as Hslot.
  { intros s Hs. unfold slot_entry. rewrite Hc, Hk, Ho.
    by rewrite decide_False by lia. }
  split; [split; [done..| |]|].
  - rewrite <-Ht. unfold table_of. apply list_fmap_ext. intros i s Hs.
    apply lookup_seq in Hs as [-> Hs]. by apply Hslot.
  - intros s k o Hs He. rewrite Hslot in He by done.
    rewrite Hc, decide_False by lia. by eapply Hctl.
  - intros i Hi. rewrite !Hc. destruct (decide (i = j)) as [->|Hne].
    + by rewrite decide_True, decide_False by lia.
    + rewrite !decide_False by lia. apply Hm. lia.
Qed.
End BuildLoops.

(** ** The whole builder *)

Lemma check_duplicate_loop es seen :
  match ofold check_duplicate es seen with
  | Ok _ => NoDup (primary_key <$> es) ∧ ∀ e, e ∈ es → primary_key e ∉ seen
  | Err e => status_code e = kInvalidArgument
             ∧ ¬ (NoDup (primary_key <$> es) ∧ ∀ e, e ∈ es → primary_key e ∉ seen)
  | Fault _ => False
  end.
Proof.
  revert seen. induction es as [|e es IH]; intros seen; cbn [ofold].
  - split; [constructor|]. intros e He. by apply not_elem_of_nil in He.
  - unfold check_duplicate at 1. case_decide as Hk; cbn [obind].
    + split; [done|]. intros [_ H]. by apply (H e); [left|].
    + specialize (IH ({[primary_key e]} ∪ seen)).
      assert ((NoDup (primary_key <$> es)
          ∧ ∀ e', e' ∈ es → primary_key e' ∉ {[primary_key e]} ∪ seen) ↔
        NoDup (primary_key <$> e :: es)
          ∧ ∀ e', e' ∈ e :: es → primary_key e' ∉ seen) as Hiff.
      { rewrite fmap_cons, NoDup_cons, list_elem_of_fmap. setoid_rewrite elem_of_union.
        setoid_rewrite elem_of_singleton. setoid_rewrite elem_of_cons.
        clear IH. split.
        - intros [Hn H]. split_and!; [|done|].
          + intros (e' & Heq & He'). apply (H e' He'). by left.
          + intros e' [->|He'] Hs; [done|]. apply (H e' He'). by right.
        - intros [[Hne Hn] H]. split; [done|]. intros e' He' [Heq|Hs].
          + apply Hne. by exists e'.
          + by apply (H e'); [right|]. }
      destruct (ofold check_duplicate es _); [by apply Hiff| |done].
      split; [apply IH|]. intros H%Hiff. by apply IH.
Qed.

Definition build_metadata (rows cap : Z) (o : FrozenPrimaryKeyIndexBuildOptions) :=
  MkMetadata rows cap (opt_hash_seed o) (opt_hash_version o) 16
    80 (80 + (cap + 16)) (80 + (cap + 16) + cap * 8) (80 + (cap + 16) + cap * 8 + cap * 8).

(** The bytes written for a layout that fits are a valid image. *)
Lemma build_image es o cap :
  single_bit cap = true → 16 ≤ cap ≤ 2 ^ 59 → Zlen es ≤ cap / 8 * 7 →
  is_u64 (opt_hash_seed o) → is_u32 (opt_hash_version o) →
  NoDup (primary_key <$> es) →
  Forall (λ e, is_u64 (primary_key e) ∧ is_u64 (row_offset e)) es →
  let m := build_metadata (Zlen es) cap o in
  ∃ bytes,
    (let* bytes := run_write (WriteHeader m) (replicate (Z.to_nat (total_size m)) Byte.x00) in
     let* bytes := ofold (fill_control m) (seqZ 0 (cap + group_width m)) bytes in
     let* bytes := ofold (insert_entry m) es bytes in
     ofold (mirror_control m) (seqZ 0 (group_width m)) bytes) = Ok bytes
    ∧ valid_image m bytes ∧ entries (table_of m bytes) ≡ₚ entry_pair <$> es.
Proof.
  intros Hp Hcap Hload Hseed Hver Hnd Hrange m.
  set (zeros := replicate _ _).
  assert (Z.of_nat (length zeros) = total_size m) as Hz.
  { unfold zeros. rewrite length_replicate. simpl. lia. }
  assert (meta_ranges m) as Hmr.
  { pose proof (Zlen_nonneg es). pose proof (Z.div_mod cap 8 ltac:(lia)).
    pose proof (Z.mod_pos_bound cap 8 ltac:(lia)).
    split; unfold is_u64, is_u32 in *; simpl; lia. }
  unfold run_write. rewrite WriteHeader_splice by (done || simpl in Hz; lia). cbn [obind].
  set (b0 := splice 0 (header_bytes m) zeros).
  assert (length b0 = length zeros) as Hl0.
  { apply length_splice. rewrite length_header_bytes. simpl in Hz. lia. }
  assert (meta_wf m (Zlen b0)) as Hwf0.
  { unfold Zlen. rewrite Hl0, Hz. split; try done; simpl; unfold u64_max; lia. }
  assert (slice 0 80 b0 = header_bytes m) as Hh0.
  { apply (slice_splice_same 0 (header_bytes m) zeros).
    rewrite length_header_bytes. simpl in Hz. lia. }
  destruct (fill_control_loop m b0 Hwf0 Hh0) as (b1 & E1 & Hp1).
  change (capacity m) with cap in E1. rewrite E1. cbn [obind].
  destruct (insert_entries_loop m es b1 Hp1 Hnd) as (b2 & t & -> & Hp2 & Hinv & Hperm);
    [|done|].
  { pose proof (slots_Z m b0 Hwf0) as Hs. simpl in Hs.
    pose proof (Z.div_mod cap 8 ltac:(lia)). pose proof (Z.mod_pos_bound cap 8 ltac:(lia)).
    unfold Zlen in Hload. lia. }
  cbn [obind].
  destruct (mirror_control_loop m b2 t Hp2) as (b3 & -> & [Hwf3 Hh3 Ht3 Hc3] & Hmir).
  exists b3. split; [done|]. rewrite Ht3. split; [|done].
  split; try done.
  - apply ReadMetadata_header; [done| |done].
    pose proof (wf_size _ _ Hwf3) as Hs3.
    unfold Zlen in *. simpl in *. lia.
  - by rewrite Ht3.
  - rewrite Ht3, Hperm, length_fmap. done.
Qed.

Lemma single_bit_next cap :
  single_bit cap = true → 0 ≤ cap → 2 ^ 59 < cap → 2 ^ 60 ≤ cap.
Proof.
  intros Hp Hc Hb. apply single_bit_spec in Hp as (n & Hn & ->); [|done].
  apply Z.pow_le_mono_r; [lia|]. apply (Z.pow_lt_mono_r_iff 2 59 n) in Hb; lia.
Qed.

(** The section sizes of [BuildFrozenPrimaryKeyIndex], checked one by one. *)
Definition with_layout {A} (cap : Z) (k : Z → Z → Z → StatusOr A) : StatusOr A :=
  let* control_bytes := CheckedAdd cap 16 in
  let* key_bytes := CheckedMul cap 8 in
  let* row_offset_bytes := CheckedMul cap 8 in
  let* key_offset := CheckedAdd kSerializedHeaderSize control_bytes in
  let* row_offset_offset := CheckedAdd key_offset key_bytes in
  let* total_size := CheckedAdd row_offset_offset row_offset_bytes in
  k key_offset row_offset_offset total_size.

Lemma with_layout_fits {A} cap (k : Z → Z → Z → StatusOr A) :
  0 ≤ cap ≤ 2 ^ 59 →
  with_layout cap k
  = k (80 + (cap + 16)) (80 + (cap + 16) + cap * 8) (80 + (cap + 16) + cap * 8 + cap * 8).
Proof.
  intros Hc. unfold with_layout, kSerializedHeaderSize.
  rewrite CheckedAdd_fits by (unfold u64_max; lia). cbn [obind].
  rewrite CheckedMul_8_fits by (unfold u64_max; lia). cbn [obind].
  do 3 (rewrite CheckedAdd_fits by (unfold u64_max; lia); cbn [obind]). done.
Qed.

Lemma with_layout_overflows {A} cap (k : Z → Z → Z → StatusOr A) :
  single_bit cap = true → 2 ^ 59 < cap →
  with_layout cap k = InvalidArgument "frozen primary-key index size overflows".
Proof.
  intros Hp Hbig. pose proof (single_bit_next cap Hp ltac:(lia) Hbig) as Hc.
  assert (∀ a b, CheckedAdd a b = Ok (a + b) ∨ CheckedAdd a b =
    InvalidArgument "frozen primary-key index size overflows") as Hadd.
  { intros a b. unfold CheckedAdd. case_match; auto. }
  assert (CheckedMul cap 8 = Ok (cap * 8) ∨ CheckedMul cap 8 =
    InvalidArgument "frozen primary-key index size overflows") as Hmul.
  { unfold CheckedMul. case_match; auto. }
  unfold with_layout.
  destruct (Hadd cap 16) as [-> | ->]; cbn [obind]; [|done].
  destruct Hmul as [-> | ->]; cbn [obind]; [|done].
  destruct (Hadd kSerializedHeaderSize (cap + 16)) as [-> | ->]; cbn [obind]; [|done].
  destruct (Hadd (kSerializedHeaderSize + (cap + 16)) (cap * 8)) as [-> | ->];
    cbn [obind]; [|done].
  unfold CheckedAdd. case_match eqn:E; [done|]. btoprop.
  unfold kSerializedHeaderSize, u64_max in E. lia.
Qed.

(** What the builder promises of the bytes it returns. *)
Definition built_from (es : list FrozenPrimaryKeyIndexEntry)
    (o : FrozenPrimaryKeyIndexBuildOptions) (bytes : list byte) : Prop :=
  ∃ v found, Validate bytes = Ok v ∧ Entries v = Ok found ∧ found ≡ₚ es
    ∧ hash_seed (metadata v) = opt_hash_seed o
    ∧ hash_version (metadata v) = opt_hash_version o
    ∧ ∀ key, ∃ r, Lookup v key = Ok r ∧ ∀ off, r = Some off ↔ MkEntry key off ∈ es.

Lemma valid_image_built_from es o cap bytes :
  let m := build_metadata (Zlen es) cap o in
  valid_image m bytes → entries (table_of m bytes) ≡ₚ entry_pair <$> es → built_from es o bytes.
Proof.
  intros m Hv Hperm.
  destruct (valid_image_index_map _ _ Hv) as (found & He & _ & Hf & _ & Hmap).
  assert (found ≡ₚ es) as Hfound.
  { rewrite Hf, Hperm, <-list_fmap_compose.
    rewrite <-(list_fmap_id es) at 2.
    erewrite list_fmap_ext; [done|]. by intros ? []. }
  exists (MkView bytes m), found. split_and!; try done; [by apply Validate_spec|].
  intros key. destruct (Hmap key) as (r & Hr & Hoff). exists r. split; [done|].
  intros off. by rewrite Hoff, Hfound.
Qed.

Lemma build_spec (es : list FrozenPrimaryKeyIndexEntry)
    (o : FrozenPrimaryKeyIndexBuildOptions)
    (Hlen : is_u64 (Zlen es))
    (Hseed : is_u64 (opt_hash_seed o)) (Hver : is_u32 (opt_hash_version o))
    (Hrange : Forall (λ e, is_u64 (primary_key e) ∧ is_u64 (row_offset e)) es) :
  match BuildFrozenPrimaryKeyIndex es o with
  | Ok bytes =>
      NoDup (primary_key <$> es) ∧ built_from es o bytes
  | Err e => status_code e = kInvalidArgument
      ∧ (opt_group_width o ≠ 16 ∨ ¬ NoDup (primary_key <$> es) ∨ 2 ^ 58 < Zlen es)
  | Fault _ => False
  end.
Proof.
  unfold BuildFrozenPrimaryKeyIndex.
  destruct (Z.eq_dec (opt_group_width o) 16) as [Hg|Hg].
  2: { unfold CalculateCapacity, kDefaultGroupWidth. rewrite (proj2 (Z.eqb_neq _ 16) Hg), orb_true_r.
       split; [done|by left]. }
  rewrite Hg. pose proof (CalculateCapacity_spec (Zlen es) Hlen) as Hcap.
  destruct (CalculateCapacity (Zlen es) 16) as [cap|e|]; cbn [obind]; [|split; [apply Hcap|]|done].
  2: { right; right. destruct Hcap as [_ H]. eapply Z.lt_trans, H. done. }
  destruct Hcap as (Hp & Hc & Hload & Hmin).
  pose proof (check_duplicate_loop es ∅) as Hdup.
  destruct (ofold check_duplicate es ∅) as [seen|e|]; cbn [obind]; [|split; [apply Hdup|]|done].
  2: { right; left. intros Hn. apply Hdup. set_solver. }
  destruct Hdup as [Hnd _].
  match goal with |- match ?c with Ok _ => _ | Err _ => _ | Fault _ => _ end =>
    change c with (with_layout cap (λ ko ro total,
      if u64_max <? total then InvalidArgument "frozen primary-key index is too large" else
      let m := MkMetadata (Zlen es) cap (opt_hash_seed o) (opt_hash_version o) 16 80 ko ro total in
      let* bytes := run_write (WriteHeader m) (replicate (Z.to_nat total) Byte.x00) in
      let* bytes := ofold (fill_control m) (seqZ 0 (cap + group_width m)) bytes in
      let* bytes := ofold (insert_entry m) es bytes in
      ofold (mirror_control m) (seqZ 0 (group_width m)) bytes)) end.
  destruct (Z.le_gt_cases cap (2 ^ 59)) as [Hfit|Hbig].
  - rewrite with_layout_fits by lia. rewrite (proj2 (Z.ltb_ge _ _)) by (unfold u64_max; lia).
    destruct (build_image es o cap Hp ltac:(lia) Hload Hseed Hver Hnd Hrange)
      as (bytes & Hb & Hv & Hperm).
    match type of Hb with ?lhs = _ => match goal with
      |- match ?c with Ok _ => _ | Err _ => _ | Fault _ => _ end => change c with lhs
    end end.
    rewrite Hb. split; [done|]. by apply (valid_image_built_from es o cap).
  - rewrite with_layout_overflows by done. split; [done|]. right; right.
    pose proof (single_bit_next cap Hp ltac:(lia) Hbig).
    destruct Hmin as [|Hmin]; [lia|].
    assert (2 ^ 56 ≤ cap / 2 / 8); [|lia].
    apply Z.div_le_lower_bound; [lia|]. apply Z.div_le_lower_bound; lia.
Qed.

(** *** C6: Building and validating an index is a round trip.

    For up to [2^58] entries and a group width of 16, the builder fails only
    on duplicate primary keys, with [kInvalidArgument], and never leaves the
    buffer it allocated.  When it succeeds the bytes pass [Validate], the view
    carries the requested hash seed and version, and the index is exactly the
    map of the entries: [Entries] is a permutation of them and [Lookup] of a
    key answers the offset of its entry, and nothing for any other key. *)
Theorem build_validate_roundtrip (es : list FrozenPrimaryKeyIndexEntry)
    (o : FrozenPrimaryKeyIndexBuildOptions)
    (Hlen : is_u64 (Zlen es))
    (Hseed : is_u64 (opt_hash_seed o)) (Hver : is_u32 (opt_hash_version o))
    (Hrange : Forall (λ e, is_u64 (primary_key e) ∧ is_u64 (row_offset e)) es) :
  match BuildFrozenPrimaryKeyIndex es o with
  | Ok bytes =>
      ∃ v found, Validate bytes = Ok v ∧ Entries v = Ok found ∧ found ≡ₚ es
        ∧ hash_seed (metadata v) = opt_hash_seed o
        ∧ hash_version (metadata v) = opt_hash_version o
        ∧ ∀ key, ∃ r, Lookup v key = Ok r ∧ ∀ off, r = Some off ↔ MkEntry key off ∈ es
  | Err e => status_code e = kInvalidArgument
      ∧ (opt_group_width o ≠ 16 ∨ ¬ NoDup (primary_key <$> es) ∨ 2 ^ 58 < Zlen es)
  | Fault _ => False
  end.
Proof.
  pose proof (build_spec es o Hlen Hseed Hver Hrange) as H.
  destruct (BuildFrozenPrimaryKeyIndex es o); [|done..]. apply H.
Qed.

(** A small index, built and validated. *)
Definition sample_entries : list FrozenPrimaryKeyIndexEntry :=
  [MkEntry 7 1; MkEntry 99 2; MkEntry 18446744073709551615 3].
Definition sample_options : FrozenPrimaryKeyIndexBuildOptions := MkBuildOptions 42 1 16.

Lemma build_validate_roundtrip_witness :
  is_u64 (Zlen sample_entries)
  ∧ match BuildFrozenPrimaryKeyIndex sample_entries sample_options with
    | Ok bytes =>
        ∃ v found, Validate bytes = Ok v ∧ Entries v = Ok found ∧ found ≡ₚ sample_entries
          ∧ hash_seed (metadata v) = opt_hash_seed sample_options
          ∧ hash_version (metadata v) = opt_hash_version sample_options
          ∧ ∀ key, ∃ r, Lookup v key = Ok r
              ∧ ∀ off, r = Some off ↔ MkEntry key off ∈ sample_entries
    | Err e => status_code e = kInvalidArgument
        ∧ (opt_group_width sample_options ≠ 16
           ∨ ¬ NoDup (primary_key <$> sample_entries) ∨ 2 ^ 58 < Zlen sample_entries)
    | Fault _ => False
    end.
Proof.
  assert (is_u64 (Zlen sample_entries)) as H by (unfold is_u64, Zlen; simpl; lia).
  split; [exact H|]. apply (build_validate_roundtrip sample_entries sample_options H).
  - unfold is_u64; simpl; lia.
  - unfold is_u32; simpl; lia.
  - unfold sample_entries, is_u64. repeat constructor; simpl; lia.
Defined.

Definition sample_image : list byte :=
  match BuildFrozenPrimaryKeyIndex sample_entries sample_options with
  | Ok bytes => bytes
  | _ => []
  end.

Lemma validated_lookup_total_witness :
  ∃ v, Validate sample_image = Ok v
    ∧ ∃ es, Entries v = Ok es ∧ NoDup (primary_key <$> es)
      ∧ Zlen es = row_count (metadata v)
      ∧ ∀ key, ∃ r, Lookup v key = Ok r ∧ ∀ off, r = Some off ↔ MkEntry key off ∈ es.
Proof.
  destruct (Validate sample_image) as [v|e|f] eqn:E; [|exfalso..].
  - exists v. split; [reflexivity|]. exact (validated_lookup_total sample_image v E).
  - vm_compute in E. discriminate E.
  - vm_compute in E. discriminate E.
Defined.
