(* ===== verification/Schema.v ===== *)
(** * Schemas and row layouts: [include/kv_index/schema.h], [src/model/schema.cc]

    A [RuntimeSchema] is the history of a table's fields; [Compile] turns its
    active fields into a [CompiledRowLayout]: presence bits, then the fixed
    width slots in field-id order, then the 16-byte value references, and a
    fingerprint of all of it. *)

From S2P Require Import Prelude Status ByteIo Types.

Inductive FieldType : Type := kInt8 | kInt32 | kInt64 | kUInt64 | kBool | kString.

Inductive FieldEncoding : Type :=
| kFixed | kArena | kDictionary | kListDictionary | kElementDictionary.

#[export] Instance FieldType_eq_dec : EqDecision FieldType.
Proof. solve_decision. Defined.
#[export] Instance FieldEncoding_eq_dec : EqDecision FieldEncoding.
Proof. solve_decision. Defined.

(** The enumerators' underlying values. *)
Definition FieldType_value (t : FieldType) : Z :=
  match t with
  | kInt8 => 1 | kInt32 => 2 | kInt64 => 3 | kUInt64 => 4 | kBool => 5 | kString => 6
  end.
Definition FieldEncoding_value (e : FieldEncoding) : Z :=
  match e with
  | kFixed => 1 | kArena => 2 | kDictionary => 3
  | kListDictionary => 4 | kElementDictionary => 5
  end.

(** [Row::ScalarValue] and [Row::ListValue] *)
Inductive ScalarValue : Type :=
| SInt8 (v : Z) | SInt32 (v : Z) | SInt64 (v : Z) | SUInt64 (v : Z)
| SBool (v : bool) | SString (v : cpp_string).

Inductive ListValue : Type :=
| LInt8 (vs : list Z) | LInt32 (vs : list Z) | LInt64 (vs : list Z) | LUInt64 (vs : list Z)
| LBool (vs : list bool) | LString (vs : list cpp_string).

(** [FieldDefaultValue]: the monostate, a scalar alternative or a list one. *)
Inductive FieldDefaultValue : Type :=
| DMonostate
| DScalar (v : ScalarValue)
| DList (v : ListValue).

Definition scalar_type (v : ScalarValue) : FieldType :=
  match v with
  | SInt8 _ => kInt8 | SInt32 _ => kInt32 | SInt64 _ => kInt64
  | SUInt64 _ => kUInt64 | SBool _ => kBool | SString _ => kString
  end.

Definition list_type (v : ListValue) : FieldType :=
  match v with
  | LInt8 _ => kInt8 | LInt32 _ => kInt32 | LInt64 _ => kInt64
  | LUInt64 _ => kUInt64 | LBool _ => kBool | LString _ => kString
  end.

(** [std::variant::index()], in the declaration order of the alternatives. *)
Definition default_index (d : FieldDefaultValue) : Z :=
  match d with
  | DMonostate => 0
  | DScalar v => FieldType_value (scalar_type v)
  | DList v => 6 + FieldType_value (list_type v)
  end.

Record FieldSpec : Type := MkFieldSpec {
  spec_field_id : Z;
  spec_name : cpp_string;
  spec_type : FieldType;
  spec_is_list : bool;
  spec_nullable : bool;
  spec_encoding : FieldEncoding;
  spec_default_value : FieldDefaultValue;
  deleted : bool;
}.

Definition HasDefault (d : FieldDefaultValue) : bool :=
  match d with DMonostate => false | _ => true end.

Record FieldLayout : Type := MkFieldLayout {
  field_id : Z;
  name : cpp_string;
  type : FieldType;
  is_list : bool;
  nullable : bool;
  encoding : FieldEncoding;
  default_value : FieldDefaultValue;
  presence_bit_index : Z;
  slot_offset : Z;
  value_width : Z;
  uses_ref : bool;
}.

Record RuntimeSchema : Type := MkRuntimeSchema {
  version : Z;
  active_fields : list FieldSpec;
  deleted_fields : list FieldSpec;
}.

Record CompiledRowLayout : Type := MkCompiledRowLayout {
  schema_version : Z;
  layout_fingerprint : Z;
  presence_bitmap_bytes : Z;
  fixed_area_offset : Z;
  ref_area_offset : Z;
  row_slot_size : Z;
  fields : list FieldLayout;
}.

(** ** Field types and encodings *)

Definition kValueRef16Size : Z := 16.

Definition IsRefField (is_list : bool) (type : FieldType) : bool :=
  is_list || bool_decide (type = kString).

Definition FieldTypeSize (type : FieldType) : Z :=
  match type with
  | kInt8 | kBool => 1
  | kInt32 => 4
  | kInt64 | kUInt64 => 8
  | kString => kValueRef16Size
  end.

Definition FieldTypeAlignment (type : FieldType) : Z :=
  match type with
  | kInt8 | kBool => 1
  | kInt32 => 4
  | kInt64 | kUInt64 | kString => 8
  end.

Definition FieldEncodingConfigName (encoding : FieldEncoding) : string :=
  match encoding with
  | kFixed => "fixed"
  | kArena => "arena"
  | kDictionary | kListDictionary => "dictionary"
  | kElementDictionary => "element_dictionary"
  end.

Definition ParseFieldEncoding (name : string) (is_list : bool) (type : FieldType)
    : StatusOr FieldEncoding :=
  let is_string := bool_decide (type = kString) in
  if decide (name = "fixed"%string) then
    if negb is_list && negb is_string then Ok kFixed
    else InvalidArgument "fixed encoding is only valid for scalar numeric and bool fields"
  else if decide (name = "arena"%string) then
    if is_list || is_string then Ok kArena
    else InvalidArgument "arena encoding is only valid for strings and lists"
  else if decide (name = "dictionary"%string) then
    if is_list then Ok kListDictionary
    else if is_string then Ok kDictionary
    else InvalidArgument "dictionary encoding is only valid for scalar strings and lists"
  else if decide (name = "element_dictionary"%string) then
    if is_list && is_string then Ok kElementDictionary
    else InvalidArgument "element_dictionary encoding is only valid for list<string> fields"
  else InvalidArgument "unknown field encoding".

Definition DefaultMatchesField (field : FieldSpec) : bool :=
  match spec_default_value field with
  | DMonostate => true
  | DScalar v => negb (spec_is_list field) && bool_decide (scalar_type v = spec_type field)
  | DList v => spec_is_list field && bool_decide (list_type v = spec_type field)
  end.

Definition ValidateEncodingPolicy (field : FieldSpec) : StatusM :=
  match spec_name field with
  | [] => InvalidArgument "field name must not be empty"
  | _ =>
  if deleted field then InvalidArgument "new fields must not be marked deleted"
  else if negb (DefaultMatchesField field) then
    InvalidArgument "field default does not match field type"
  else if spec_is_list field then
    match spec_encoding field with
    | kArena | kListDictionary => Ok tt
    | kElementDictionary =>
        if decide (spec_type field = kString) then Ok tt
        else InvalidArgument "element dictionary lists are only supported for strings"
    | kFixed | kDictionary => InvalidArgument "list field has invalid encoding"
    end
  else if decide (spec_type field = kString) then
    match spec_encoding field with
    | kArena | kDictionary => Ok tt
    | kFixed | kListDictionary | kElementDictionary =>
        InvalidArgument "string field has invalid encoding"
    end
  else if decide (spec_encoding field = kFixed) then Ok tt
  else InvalidArgument "fixed scalar field has invalid encoding"
  end.

(** ** RuntimeSchema *)

Definition find_spec (id : Z) (l : list FieldSpec) : option (nat * FieldSpec) :=
  list_find (λ field, spec_field_id field = id) l.

Definition RuntimeSchema_FindField (schema : RuntimeSchema) (id : Z) : option FieldSpec :=
  snd <$> find_spec id (active_fields schema).

Definition FindDeletedField (schema : RuntimeSchema) (id : Z) : option FieldSpec :=
  snd <$> find_spec id (deleted_fields schema).

Definition AddField (field : FieldSpec) : stateful RuntimeSchema Status unit := λ schema,
  match RuntimeSchema_FindField schema (spec_field_id field),
        FindDeletedField schema (spec_field_id field) with
  | None, None =>
      match ValidateEncodingPolicy field with
      | Ok _ => (Ok tt, MkRuntimeSchema (version schema)
                          (active_fields schema ++ [field]) (deleted_fields schema))
      | Err e => (Err e, schema)
      | Fault f => (Fault f, schema)
      end
  | _, _ => (FailedPrecondition "field id already exists in schema history", schema)
  end.

Definition set_deleted (f : FieldSpec) : FieldSpec :=
  MkFieldSpec (spec_field_id f) (spec_name f) (spec_type f) (spec_is_list f)
    (spec_nullable f) (spec_encoding f) (spec_default_value f) true.

Definition DeleteField (id : Z) : stateful RuntimeSchema Status unit := λ schema,
  match find_spec id (active_fields schema) with
  | None => (NotFound "field id is not active", schema)
  | Some (i, field) =>
      (Ok tt, MkRuntimeSchema (version schema) (delete i (active_fields schema))
                (deleted_fields schema ++ [set_deleted field]))
  end.

(** ** The layout fingerprint *)

Definition kFnvOffsetBasis : Z := 14695981039346656037.
Definition kFnvPrime : Z := 1099511628211.

Definition FingerprintByte (hash b : Z) : Z := wrap64 (Z.lxor hash b * kFnvPrime).

Fixpoint fingerprint_word_bytes (hash value : Z) (i n : nat) : Z :=
  match n with
  | O => hash
  | S n' =>
      fingerprint_word_bytes
        (FingerprintByte hash (Z.land (Z.shiftr value (8 * Z.of_nat i)) 0xff))
        value (S i) n'
  end.

(** [value] converted to [uint64_t] by the caller's [static_cast]. *)
Definition FingerprintUInt64 (hash value : Z) : Z :=
  fingerprint_word_bytes hash (wrap64 value) 0 8.

Definition FingerprintString (hash : Z) (value : cpp_string) : Z :=
  foldl (λ h c, FingerprintByte h (byte_to_Z c)) (FingerprintUInt64 hash (Zlen value)) value.

Definition FingerprintBool (hash : Z) (b : bool) : Z := FingerprintByte hash (if b then 1 else 0).

Definition FingerprintVector {T} (element : Z → T → Z) (hash : Z) (values : list T) : Z :=
  foldl element (FingerprintUInt64 hash (Zlen values)) values.

Definition FingerprintDefault (hash : Z) (value : FieldDefaultValue) : Z :=
  let hash := FingerprintUInt64 hash (default_index value) in
  match value with
  | DMonostate => hash
  | DScalar (SInt8 v | SInt32 v | SInt64 v | SUInt64 v) => FingerprintUInt64 hash v
  | DScalar (SBool v) => FingerprintBool hash v
  | DScalar (SString v) => FingerprintString hash v
  | DList (LInt8 vs | LInt32 vs | LInt64 vs | LUInt64 vs) =>
      FingerprintVector FingerprintUInt64 hash vs
  | DList (LBool vs) => FingerprintVector FingerprintBool hash vs
  | DList (LString vs) => FingerprintVector FingerprintString hash vs
  end.

Definition fingerprint_field (hash : Z) (field : FieldLayout) : Z :=
  let hash := FingerprintUInt64 hash (field_id field) in
  let hash := FingerprintString hash (name field) in
  let hash := FingerprintUInt64 hash (FieldType_value (type field)) in
  let hash := FingerprintBool hash (is_list field) in
  let hash := FingerprintBool hash (nullable field) in
  let hash := FingerprintUInt64 hash (FieldEncoding_value (encoding field)) in
  let hash := FingerprintDefault hash (default_value field) in
  let hash := FingerprintUInt64 hash (presence_bit_index field) in
  let hash := FingerprintUInt64 hash (slot_offset field) in
  let hash := FingerprintUInt64 hash (value_width field) in
  FingerprintBool hash (uses_ref field).

Definition BuildFingerprint (layout : CompiledRowLayout) : Z :=
  let hash := kFnvOffsetBasis in
  let hash := FingerprintString hash (str "kv_index_row_layout_v1") in
  let hash := FingerprintUInt64 hash (schema_version layout) in
  let hash := FingerprintUInt64 hash (presence_bitmap_bytes layout) in
  let hash := FingerprintUInt64 hash (fixed_area_offset layout) in
  let hash := FingerprintUInt64 hash (ref_area_offset layout) in
  let hash := FingerprintUInt64 hash (row_slot_size layout) in
  let hash := FingerprintUInt64 hash (Zlen (fields layout)) in
  foldl fingerprint_field hash (fields layout).

(** ** Compile *)

Definition by_field_id (lhs rhs : FieldSpec) : Prop := spec_field_id lhs ≤ spec_field_id rhs.

#[export] Instance by_field_id_dec : RelDecision by_field_id.
Proof. intros x y. unfold by_field_id. apply _. Defined.

(** [std::sort] by field id: the ids of a schema are distinct
    ([reachable_ids] below), so every sorting algorithm gives this list. *)
Definition sort_fields (l : list FieldSpec) : list FieldSpec := merge_sort by_field_id l.

Definition layout_field (i : nat) (field : FieldSpec) : FieldLayout :=
  let ref := IsRefField (spec_is_list field) (spec_type field) in
  MkFieldLayout (spec_field_id field) (spec_name field) (spec_type field)
    (spec_is_list field) (spec_nullable field) (spec_encoding field)
    (spec_default_value field) (Z.of_nat i) 0
    (if ref then kValueRef16Size else FieldTypeSize (spec_type field)) ref.

Definition set_slot_offset (o : Z) (f : FieldLayout) : FieldLayout :=
  MkFieldLayout (field_id f) (name f) (type f) (is_list f) (nullable f) (encoding f)
    (default_value f) (presence_bit_index f) o (value_width f) (uses_ref f).

(** The loop over the fixed-width fields, with its cursor. *)
Fixpoint assign_fixed (cursor : Z) (l : list FieldLayout) : list FieldLayout * Z :=
  match l with
  | [] => ([], cursor)
  | field :: l' =>
      if uses_ref field then
        let '(rest, last) := assign_fixed cursor l' in (field :: rest, last)
      else
        let at_ := AlignUp cursor (FieldTypeAlignment (type field)) in
        let '(rest, last) := assign_fixed (wrap64 (at_ + value_width field)) l' in
        (set_slot_offset at_ field :: rest, last)
  end.

(** The loop over the fields stored behind a reference. *)
Fixpoint assign_ref (cursor : Z) (l : list FieldLayout) : list FieldLayout * Z :=
  match l with
  | [] => ([], cursor)
  | field :: l' =>
      if uses_ref field then
        let '(rest, last) := assign_ref (wrap64 (cursor + kValueRef16Size)) l' in
        (set_slot_offset cursor field :: rest, last)
      else
        let '(rest, last) := assign_ref cursor l' in (field :: rest, last)
  end.

Definition set_fingerprint (l : CompiledRowLayout) (h : Z) : CompiledRowLayout :=
  MkCompiledRowLayout (schema_version l) h (presence_bitmap_bytes l)
    (fixed_area_offset l) (ref_area_offset l) (row_slot_size l) (fields l).

Definition compile_layout (schema : RuntimeSchema) : CompiledRowLayout :=
  let sorted := sort_fields (active_fields schema) in
  let presence := AlignUp ((Zlen sorted + 7) / 8) 8 in
  let '(fixed_done, fixed_cursor) := assign_fixed presence (imap layout_field sorted) in
  let ref_area := AlignUp fixed_cursor 8 in
  let '(all_done, ref_cursor) := assign_ref ref_area fixed_done in
  let layout := MkCompiledRowLayout (version schema) 0 presence presence ref_area
                  (AlignUp ref_cursor 8) all_done in
  set_fingerprint layout (BuildFingerprint layout).

(** [Compile] has no failing path. *)
Definition Compile (schema : RuntimeSchema) : StatusOr CompiledRowLayout :=
  Ok (compile_layout schema).

Definition FindField (layout : CompiledRowLayout) (id : Z) : option FieldLayout :=
  snd <$> list_find (λ field, field_id field = id) (fields layout).
