(* ===== verification/SchemaProofs.v ===== *)
(** * Schemas are consistent and layouts are sound

    Field ids are unique over the whole history of a schema and a deleted id
    never comes back; [Compile] places every active field in a slot of its
    own; configuration names round-trip through [ParseFieldEncoding]. *)

From S2P Require Import Prelude Status ByteIo Types Schema.

(** ** The history of a schema *)

Definition history_ids (s : RuntimeSchema) : list Z :=
  spec_field_id <$> (active_fields s ++ deleted_fields s).

Record schema_ok (s : RuntimeSchema) : Prop := {
  so_ids : NoDup (history_ids s);
  so_range : Forall is_u32 (history_ids s);
  so_policy : Forall (λ f, ValidateEncodingPolicy f = Ok tt) (active_fields s);
}.

(** One call on a schema, successful or not. *)
Inductive schema_step : RuntimeSchema → RuntimeSchema → Prop :=
| step_add f s o s' :
    is_u32 (spec_field_id f) → AddField f s = (o, s') → schema_step s s'
| step_delete id s o s' : DeleteField id s = (o, s') → schema_step s s'.

Definition reachable_schema (v : Z) (s : RuntimeSchema) : Prop :=
  rtc schema_step (MkRuntimeSchema v [] []) s.

Lemma RuntimeSchema_FindField_key s id :
  RuntimeSchema_FindField s id = find_key spec_field_id id (active_fields s).
Proof. done. Qed.
Lemma FindDeletedField_key s id :
  FindDeletedField s id = find_key spec_field_id id (deleted_fields s).
Proof. done. Qed.

Lemma AddField_inv f s o s' :
  AddField f s = (o, s') →
  (o = Ok tt ∧ (spec_field_id f ∉ history_ids s) ∧ ValidateEncodingPolicy f = Ok tt
     ∧ s' = MkRuntimeSchema (version s) (active_fields s ++ [f]) (deleted_fields s))
  ∨ (s' = s ∧ ∃ e, o = Err e
      ∧ (status_code e = kFailedPrecondition ∧ spec_field_id f ∈ history_ids s
         ∨ status_code e = kInvalidArgument ∧ (spec_field_id f ∉ history_ids s)
        ∧ ValidateEncodingPolicy f = Err e)).
Proof.
  assert (match ValidateEncodingPolicy f with
          | Ok _ => True | Err e => status_code e = kInvalidArgument | Fault _ => False end) as Hv.
  { unfold ValidateEncodingPolicy. repeat (case_inner; simpl); done. }
  unfold AddField. rewrite RuntimeSchema_FindField_key, FindDeletedField_key.
  unfold history_ids. rewrite fmap_app.
  destruct (find_key _ _ (active_fields s)) as [g|] eqn:Ea.
  { intros [= <- <-]. right. split; [done|]. eexists. split; [done|]. left. split; [done|]. apply elem_of_app. left.
    apply find_key_Some_1 in Ea as [Hin <-]. apply list_elem_of_fmap. by exists g. }
  apply find_key_None in Ea.
  destruct (find_key _ _ (deleted_fields s)) as [g|] eqn:Ed.
  { intros [= <- <-]. right. split; [done|]. eexists. split; [done|]. left. split; [done|]. apply elem_of_app. right.
    apply find_key_Some_1 in Ed as [Hin <-]. apply list_elem_of_fmap. by exists g. }
  apply find_key_None in Ed.
  destruct (ValidateEncodingPolicy f) as [[]|e|] eqn:E; intros [= <- <-]; [..|done].
  - left. rewrite elem_of_app. split_and!; [done|naive_solver|done..].
  - right. split; [done|]. eexists. split; [done|]. right.
    rewrite elem_of_app. split_and!; [done|naive_solver|done].
Qed.

Lemma DeleteField_inv id s o s' :
  DeleteField id s = (o, s') →
  (∃ i f, o = Ok tt ∧ active_fields s !! i = Some f ∧ spec_field_id f = id
     ∧ s' = MkRuntimeSchema (version s) (delete i (active_fields s))
              (deleted_fields s ++ [set_deleted f]))
  ∨ (s' = s ∧ ∃ e, o = Err e ∧ status_code e = kNotFound
      ∧ id ∉ spec_field_id <$> active_fields s).
Proof.
  unfold DeleteField, find_spec.
  destruct (list_find _ _) as [[i f]|] eqn:E; intros [= <- <-].
  - left. apply list_find_Some in E as (Hi & Hf & _). by exists i, f.
  - right. split; [done|]. eexists. split_and!; [done..|].
    apply list_find_None in E. rewrite list_elem_of_fmap. rewrite Forall_forall in E.
    naive_solver.
Qed.

(** Deleting only moves an id from one list to the other. *)
Lemma delete_history_ids s i f :
  active_fields s !! i = Some f →
  spec_field_id <$> (delete i (active_fields s) ++ deleted_fields s ++ [set_deleted f])
  ≡ₚ history_ids s.
Proof.
  intros Hi. unfold history_ids. rewrite (delete_Permutation _ _ _ Hi) at 2.
  rewrite !fmap_app, fmap_cons. simpl. solve_Permutation.
Qed.

Lemma schema_ok_step s s' : schema_ok s → schema_step s s' → schema_ok s'.
Proof.
  intros [Hnd Hr Hp] Hstep. destruct Hstep as [f s o s' Hf Hadd|id s o s' Hdel].
  - apply AddField_inv in Hadd as [(_ & Hnew & Hpol & ->)|[-> _]]; [|done].
    assert (spec_field_id <$> ((active_fields s ++ [f]) ++ deleted_fields s)
      ≡ₚ spec_field_id f :: history_ids s) as Hperm.
    { unfold history_ids. rewrite !fmap_app. simpl. solve_Permutation. }
    split; unfold history_ids; simpl; rewrite ?Hperm.
    + by constructor.
    + by constructor.
    + apply Forall_app. split; [done|by constructor].
  - apply DeleteField_inv in Hdel as [(i & f & _ & Hi & _ & ->)|[-> _]]; [|done].
    split; unfold history_ids; simpl; rewrite ?delete_history_ids by done; [done..|].
    by apply Forall_delete.
Qed.

Lemma schema_ok_steps s s' : schema_ok s → rtc schema_step s s' → schema_ok s'.
Proof. intros H. induction 1; eauto using schema_ok_step. Qed.

Lemma reachable_schema_ok v s : reachable_schema v s → schema_ok s.
Proof. apply schema_ok_steps. by split; constructor. Qed.

Lemma deleted_grows_step s s' :
  schema_step s s' → ∃ more, deleted_fields s' = deleted_fields s ++ more.
Proof.
  intros [f t o t' _ Hadd|id t o t' Hdel].
  - exists []. rewrite app_nil_r.
    by apply AddField_inv in Hadd as [(_ & _ & _ & ->)|[-> _]].
  - apply DeleteField_inv in Hdel as [(i & f & _ & _ & _ & ->)|[-> _]]; [by eexists|].
    exists []. by rewrite app_nil_r.
Qed.

Lemma deleted_grows s s' :
  rtc schema_step s s' → ∃ more, deleted_fields s' = deleted_fields s ++ more.
Proof.
  induction 1 as [s|s s1 s' [m1 H1]%deleted_grows_step _ [m2 H2]].
  - exists []. by rewrite app_nil_r.
  - exists (m1 ++ m2). by rewrite H2, H1, app_assoc.
Qed.

Definition add_fields (fs : list FieldSpec) (s : RuntimeSchema) : RuntimeSchema :=
  foldl (λ s f, (AddField f s).2) s fs.

Lemma rtc_add_fields fs s :
  Forall (λ f, is_u32 (spec_field_id f)) fs → rtc schema_step s (add_fields fs s).
Proof.
  revert s. induction fs as [|f fs IH]; intros s Hf; [done|].
  apply Forall_cons in Hf as [Hf Hfs].
  eapply rtc_l; [|by apply IH].
  eapply step_add; [done|apply surjective_pairing].
Qed.

(** The history of a schema is consistent.

    Whatever calls of [AddField] and [DeleteField] built a schema, field ids
    are unique over its active and deleted fields, and every active field
    satisfies the encoding policy.  From then on a deleted field stays
    deleted: its id is never active again, and adding a field with that id
    fails with [kFailedPrecondition] and leaves the schema as it was. *)
Theorem schema_history_invariant (v : Z) (s s' : RuntimeSchema)
    (Hs : reachable_schema v s) (Hs' : rtc schema_step s s') :
  NoDup (history_ids s')
  ∧ Forall (λ f, ValidateEncodingPolicy f = Ok tt) (active_fields s')
  ∧ ∀ g, g ∈ deleted_fields s →
      FindDeletedField s' (spec_field_id g) = Some g
      ∧ RuntimeSchema_FindField s' (spec_field_id g) = None
      ∧ ∀ f, spec_field_id f = spec_field_id g →
          ∃ e, AddField f s' = (Err e, s') ∧ status_code e = kFailedPrecondition.
Proof.
  pose proof (schema_ok_steps _ _ (reachable_schema_ok _ _ Hs) Hs') as [Hnd _ Hp].
  destruct (deleted_grows _ _ Hs') as [more Hmore].
  split; [done|]. split; [done|]. intros g Hg.
  assert (g ∈ deleted_fields s') as Hg' by (rewrite Hmore; set_solver).
  assert (spec_field_id g ∈ history_ids s') as Hid.
  { unfold history_ids. rewrite fmap_app. apply elem_of_app. right.
    apply list_elem_of_fmap. by exists g. }
  pose proof Hnd as Hnd'. unfold history_ids in Hnd'. rewrite fmap_app in Hnd'.
  apply NoDup_app in Hnd' as (_ & Hdisj & Hndd).
  split_and!.
  - rewrite FindDeletedField_key. by apply find_key_Some.
  - rewrite RuntimeSchema_FindField_key. apply find_key_None. intros Hin.
    apply (Hdisj _ Hin). apply list_elem_of_fmap. by exists g.
  - intros f Hf. destruct (AddField f s') as [o s''] eqn:E.
    apply AddField_inv in E as [(_ & Hnew & _)|(-> & e & -> & [[Hc _]|(_ & Hnew & _)])].
    + by rewrite Hf in Hnew.
    + by exists e.
    + by rewrite Hf in Hnew.
Qed.

(** ** Encodings *)

(** The encodings the policy allows for a field of this shape. *)
Definition encoding_allowed (is_list : bool) (t : FieldType) (e : FieldEncoding) : bool :=
  match is_list, t, e with
  | true, _, (kArena | kListDictionary) => true
  | true, kString, kElementDictionary => true
  | false, kString, (kArena | kDictionary) => true
  | false, (kInt8 | kInt32 | kInt64 | kUInt64 | kBool), kFixed => true
  | _, _, _ => false
  end.

Lemma ValidateEncodingPolicy_Ok f :
  ValidateEncodingPolicy f = Ok tt ↔
  spec_name f ≠ [] ∧ deleted f = false ∧ DefaultMatchesField f = true
  ∧ encoding_allowed (spec_is_list f) (spec_type f) (spec_encoding f) = true.
Proof.
  unfold ValidateEncodingPolicy.
  destruct (spec_name f); [naive_solver|].
  destruct (deleted f); [naive_solver|].
  destruct (DefaultMatchesField f); [|naive_solver]. cbn [negb].
  destruct (spec_is_list f), (spec_type f), (spec_encoding f); simpl; naive_solver.
Qed.

(** Configuration names round-trip.

    Parsing the configuration name of an encoding gives the encoding back
    exactly for the field shapes the schema accepts it for, and every
    encoding [ParseFieldEncoding] returns is one the schema accepts: a parsed
    field is never refused by [AddField] for its encoding. *)
Theorem encoding_name_roundtrip (l : bool) (t : FieldType) (e : FieldEncoding) :
  (ParseFieldEncoding (FieldEncodingConfigName e) l t = Ok e
     ↔ encoding_allowed l t e = true)
  ∧ ∀ config e', ParseFieldEncoding config l t = Ok e' →
      config = FieldEncodingConfigName e'
      ∧ ∀ f, spec_is_list f = l → spec_type f = t → spec_encoding f = e' →
          spec_name f ≠ [] → deleted f = false → DefaultMatchesField f = true →
          ValidateEncodingPolicy f = Ok tt.
Proof.
  split; [by destruct l, t, e|]. intros config e' H.
  assert (config = FieldEncodingConfigName e' ∧ encoding_allowed l t e' = true) as [-> Ha].
  { revert H. unfold ParseFieldEncoding.
    destruct l, t; cbn [negb bool_decide decide_rel andb orb];
      repeat case_decide; subst; simpl; naive_solver. }
  split; [done|]. intros f <- <- <- Hn Hd Hm. by apply ValidateEncodingPolicy_Ok.
Qed.

(** ** Placing fields behind a cursor *)

Definition field_align (f : FieldLayout) : Z :=
  if uses_ref f then 8 else FieldTypeAlignment (type f).

(** [placed b c l l' d]: [l'] is [l] with the fields whose [uses_ref] is [b]
    given slots one after the other between [c] and [d]. *)
Inductive placed (b : bool) : Z → list FieldLayout → list FieldLayout → Z → Prop :=
| placed_nil c : placed b c [] [] c
| placed_skip c f l l' d :
    uses_ref f ≠ b → placed b c l l' d → placed b c (f :: l) (f :: l') d
| placed_take c o f l l' d :
    uses_ref f = b → c ≤ o → (field_align f | o) → 0 < value_width f →
    placed b (o + value_width f) l l' d →
    placed b c (f :: l) (set_slot_offset o f :: l') d.

Lemma placed_le b c l l' d : placed b c l l' d → c ≤ d.
Proof. induction 1; lia. Qed.

Lemma placed_fields b c l l' d :
  placed b c l l' d →
  Forall2 (λ f f', f' = set_slot_offset (slot_offset f') f ∧ (uses_ref f ≠ b → f' = f)) l l'.
Proof.
  induction 1 as [|c f l l' d Hf _ IH|c o f l l' d Hf]; constructor; try done.
  split; [by destruct f|done].
Qed.

Lemma placed_bounds b c l l' d f :
  placed b c l l' d → f ∈ l' → uses_ref f = b →
  c ≤ slot_offset f ∧ slot_offset f + value_width f ≤ d ∧ (field_align f | slot_offset f).
Proof.
  induction 1 as [|c g l l' d Hg Hp IH|c o g l l' d Hg Ho Hal Hw Hp IH]; intros Hin Hf.
  - by apply elem_of_nil in Hin.
  - apply elem_of_cons in Hin as [->|Hin]; [done|by apply IH].
  - apply placed_le in Hp as Hle. apply elem_of_cons in Hin as [->|Hin].
    + simpl. split_and!; [lia..|]. done.
    + destruct (IH Hin Hf) as (? & ? & ?). split_and!; [lia..|done].
Qed.

Lemma placed_ordered b c l l' d i j f g :
  placed b c l l' d → (i < j)%nat → l' !! i = Some f → l' !! j = Some g →
  uses_ref f = b → uses_ref g = b → slot_offset f + value_width f ≤ slot_offset g.
Proof.
  intros H. revert i j. induction H as [|c h l l' d Hh Hp IH|c o h l l' d Hh Ho Hal Hw Hp IH];
    intros i j Hij Hi Hj Hf Hg; [done|..]; destruct i as [|i], j as [|j]; try lia; simpl in *.
  - congruence.
  - apply (IH i j); (done || lia).
  - injection Hi as <-. simpl.
    apply (placed_bounds _ _ _ _ _ g) in Hp; [|by eapply list_elem_of_lookup_2|done].
    apply Hp.
  - apply (IH i j); (done || lia).
Qed.

Lemma FieldTypeAlignment_cases t :
  FieldTypeAlignment t = 1 ∨ FieldTypeAlignment t = 4 ∨ FieldTypeAlignment t = 8.
Proof. destruct t; simpl; auto. Qed.

(** Both loops of [Compile] place their fields, without wrapping. *)
Lemma assign_fixed_placed l c :
  0 ≤ c → c + 24 * Zlen l ≤ 2 ^ 60 →
  Forall (λ f, uses_ref f = false → 0 < value_width f ≤ 16) l →
  ∃ l' d, assign_fixed c l = (l', d) ∧ placed false c l l' d ∧ d ≤ c + 24 * Zlen l.
Proof.
  revert c. induction l as [|f l IH]; intros c Hc Hmax Hw; cbn [assign_fixed].
  - exists [], c. split; [done|]. split; [constructor|]. unfold Zlen. simpl. lia.
  - apply Forall_cons in Hw as [Hwf Hw]. rewrite Zlen_cons in *. pose proof (Zlen_nonneg l).
    destruct (uses_ref f) eqn:Hf.
    + destruct (IH c) as (l' & d & -> & Hp & Hd); [lia|lia|done|].
      exists (f :: l'), d. split; [done|]. split; [|lia]. constructor; [congruence|done].
    + specialize (Hwf eq_refl). pose proof (FieldTypeAlignment_cases (type f)).
      destruct (AlignUp_spec c (FieldTypeAlignment (type f))) as [Ha Hdiv]; [lia..|].
      set (o := AlignUp c _) in *.
      rewrite wrap64_small by (unfold is_u64; lia).
      destruct (IH (o + value_width f)) as (l' & d & -> & Hp & Hd); [lia|lia|done|].
      exists (set_slot_offset o f :: l'), d. split; [done|]. split; [|lia].
      apply placed_take; [done|lia| |lia|done]. unfold field_align. by rewrite Hf.
Qed.

Lemma assign_ref_placed l c :
  0 ≤ c → (8 | c) → c + 24 * Zlen l ≤ 2 ^ 60 →
  Forall (λ f, uses_ref f = true → value_width f = 16) l →
  ∃ l' d, assign_ref c l = (l', d) ∧ placed true c l l' d ∧ d ≤ c + 24 * Zlen l.
Proof.
  revert c. induction l as [|f l IH]; intros c Hc Hdiv Hmax Hw; cbn [assign_ref].
  - exists [], c. split; [done|]. split; [constructor|]. unfold Zlen. simpl. lia.
  - apply Forall_cons in Hw as [Hwf Hw]. rewrite Zlen_cons in *. pose proof (Zlen_nonneg l).
    unfold kValueRef16Size. destruct (uses_ref f) eqn:Hf.
    + specialize (Hwf eq_refl). rewrite wrap64_small by (unfold is_u64; lia).
      destruct (IH (c + 16)) as (l' & d & -> & Hp & Hd);
        [lia|apply Z.divide_add_r; [done|by exists 2]|lia|done|].
      exists (set_slot_offset c f :: l'), d. split; [done|]. split; [|lia].
      apply placed_take; [done|lia| |lia|by rewrite Hwf].
      unfold field_align. by rewrite Hf.
    + destruct (IH c) as (l' & d & -> & Hp & Hd); [lia|done|lia|done|].
      exists (f :: l'), d. split; [done|]. split; [|lia]. constructor; [congruence|done].
Qed.

(** ** The compiled layout *)

(** What readers and writers of rows rely on. *)
Record layout_wf (L : CompiledRowLayout) : Prop := {
  lw_ids : NoDup (field_id <$> fields L);
  lw_bits : ∀ i f, fields L !! i = Some f → presence_bit_index f = Z.of_nat i;
  lw_bitmap : Zlen (fields L) ≤ 8 * presence_bitmap_bytes L;
  lw_slot : ∀ f, f ∈ fields L →
    presence_bitmap_bytes L ≤ slot_offset f
    ∧ slot_offset f + value_width f ≤ row_slot_size L
    ∧ (field_align f | slot_offset f);
  lw_disjoint : ∀ i j f g, i ≠ j → fields L !! i = Some f → fields L !! j = Some g →
    slot_offset f + value_width f ≤ slot_offset g
    ∨ slot_offset g + value_width g ≤ slot_offset f;
  lw_shape : ∀ f, f ∈ fields L →
    uses_ref f = IsRefField (is_list f) (type f)
    ∧ value_width f = (if uses_ref f then 16 else FieldTypeSize (type f))
    ∧ encoding_allowed (is_list f) (type f) (encoding f) = true
    ∧ match default_value f with
      | DMonostate => True
      | DScalar v => is_list f = false ∧ scalar_type v = type f
      | DList v => is_list f = true ∧ list_type v = type f
      end;
  lw_size : presence_bitmap_bytes L ≤ row_slot_size L ≤ 2 ^ 60;
}.

(** A layout field is the field of the schema, but for its position. *)
Definition layout_of_spec (f : FieldLayout) (g : FieldSpec) : Prop :=
  field_id f = spec_field_id g ∧ name f = spec_name g ∧ type f = spec_type g
  ∧ is_list f = spec_is_list g ∧ nullable f = spec_nullable g
  ∧ encoding f = spec_encoding g ∧ default_value f = spec_default_value g.

Lemma sort_fields_perm l : sort_fields l ≡ₚ l.
Proof. apply merge_sort_Permutation. Qed.

#[export] Instance by_field_id_total : Total by_field_id.
Proof. intros x y. unfold by_field_id. lia. Qed.
#[export] Instance by_field_id_trans : Transitive by_field_id.
Proof. intros x y z. unfold by_field_id. lia. Qed.

Lemma sort_fields_sorted l : StronglySorted by_field_id (sort_fields l).
Proof. apply StronglySorted_merge_sort; apply _. Qed.

(** With distinct ids there is only one sorted list, whatever the algorithm. *)
Lemma sorted_unique l1 l2 :
  NoDup (spec_field_id <$> l1) → StronglySorted by_field_id l1 →
  StronglySorted by_field_id l2 → l1 ≡ₚ l2 → l1 = l2.
Proof.
  intros Hnd H1 H2 Hp. apply (StronglySorted_unique_strong by_field_id); try done.
  intros x y Hx Hy Hxy Hyx. unfold by_field_id in *. rewrite <-Hp in Hy.
  assert (find_key spec_field_id (spec_field_id x) l1 = Some x) as Ex by (by apply find_key_Some).
  assert (find_key spec_field_id (spec_field_id x) l1 = Some y) as Ey
    by (apply find_key_Some; [done|split; [done|lia]]).
  congruence.
Qed.

Lemma NoDup_u32_length ids : NoDup ids → Forall is_u32 ids → Zlen ids ≤ 2 ^ 32.
Proof.
  intros Hnd Hr.
  assert (ids ⊆+ seqZ 0 (2 ^ 32)) as Hsub%submseteq_length.
  { apply NoDup_submseteq; [done|]. intros z Hz. apply elem_of_seqZ.
    rewrite Forall_forall in Hr. specialize (Hr z Hz). unfold is_u32 in Hr. lia. }
  rewrite length_seqZ in Hsub. unfold Zlen. lia.
Qed.

Lemma active_ids_ok s :
  schema_ok s →
  NoDup (spec_field_id <$> active_fields s) ∧ Zlen (active_fields s) ≤ 2 ^ 32.
Proof.
  intros [Hnd Hr _]. unfold history_ids in *. rewrite fmap_app in Hnd, Hr.
  apply NoDup_app in Hnd as (Hnd & _). apply Forall_app in Hr as [Hr _].
  split; [done|]. pose proof (NoDup_u32_length _ Hnd Hr) as H.
  unfold Zlen in *. by rewrite length_fmap in H.
Qed.

(** The fields before the slots are assigned. *)
Lemma layout_field_spec i g :
  layout_of_spec (layout_field i g) g ∧ presence_bit_index (layout_field i g) = Z.of_nat i
  ∧ uses_ref (layout_field i g) = IsRefField (is_list (layout_field i g)) (type (layout_field i g))
  ∧ value_width (layout_field i g)
    = (if uses_ref (layout_field i g) then 16 else FieldTypeSize (type (layout_field i g))).
Proof. done. Qed.

(** What both loops leave alone: everything but the slot. *)
Definition same_field (f f' : FieldLayout) : Prop := f' = set_slot_offset (slot_offset f') f.

Lemma assigned_fields (s : RuntimeSchema) :
  schema_ok s →
  let sorted := sort_fields (active_fields s) in
  let L := compile_layout s in
  ∃ mid fixed_end ref_end,
    placed false (fixed_area_offset L) (imap layout_field sorted) mid fixed_end
    ∧ placed true (ref_area_offset L) mid (fields L) ref_end
    ∧ fixed_end ≤ ref_area_offset L ∧ ref_end ≤ row_slot_size L ≤ 2 ^ 60
    ∧ fixed_area_offset L = presence_bitmap_bytes L
    ∧ 0 ≤ presence_bitmap_bytes L ∧ Zlen sorted ≤ 8 * presence_bitmap_bytes L.
Proof.
  intros Hok sorted L. destruct (active_ids_ok s Hok) as [_ Hlen].
  assert (Zlen sorted = Zlen (active_fields s)) as Hn.
  { unfold Zlen, sorted. by rewrite (Permutation_length (sort_fields_perm _)). }
  rewrite <-Hn in Hlen. pose proof (Zlen_nonneg sorted) as Hpos.
  set (pre := imap layout_field sorted).
  assert (Zlen pre = Zlen sorted) as Hpre by (unfold Zlen, pre; by rewrite length_imap).
  assert (∀ f, f ∈ pre → value_width f = if uses_ref f then 16 else FieldTypeSize (type f)) as Hw.
  { intros f [i Hi]%list_elem_of_lookup. unfold pre in Hi.
    rewrite list_lookup_imap in Hi. apply fmap_Some in Hi as (g & _ & ->). done. }
  pose proof (Z.div_mod (Zlen sorted + 7) 8 ltac:(lia)).
  pose proof (Z.mod_pos_bound (Zlen sorted + 7) 8 ltac:(lia)).
  destruct (AlignUp_spec ((Zlen sorted + 7) / 8) 8) as [Hb _]; [lia..|].
  assert (presence_bitmap_bytes L = AlignUp ((Zlen sorted + 7) / 8) 8
    ∧ fixed_area_offset L = AlignUp ((Zlen sorted + 7) / 8) 8) as [Hpb Hfa].
  { unfold L, compile_layout. fold sorted pre.
    destruct (assign_fixed _ _). by destruct (assign_ref _ _). }
  set (presence := AlignUp ((Zlen sorted + 7) / 8) 8) in *.
  destruct (assign_fixed_placed pre presence) as (mid & fe & Ef & Hp1 & He1); [lia..| |].
  { apply Forall_forall. intros f Hf Hr. rewrite (Hw f Hf), Hr. by destruct (type f). }
  destruct (AlignUp_spec fe 8) as [Hr1 Hr2]; [apply placed_le in Hp1; lia|lia..|].
  pose proof (placed_fields _ _ _ _ _ Hp1) as Hall.
  assert (Zlen mid = Zlen pre) as Hmid by (unfold Zlen; by rewrite (Forall2_length _ _ _ Hall)).
  destruct (assign_ref_placed mid (AlignUp fe 8)) as (done_ & re & Er & Hp2 & He2);
    [apply placed_le in Hp1; lia|done|lia| |].
  { apply Forall_forall. intros f' [i Hi]%list_elem_of_lookup Hr.
    destruct (Forall2_lookup_r _ _ _ _ _ Hall Hi) as (f & Hf & Heq & _).
    rewrite Heq. simpl. rewrite (Hw f) by (by eapply list_elem_of_lookup_2).
    rewrite Heq in Hr. simpl in Hr. by rewrite Hr. }
  destruct (AlignUp_spec re 8) as [Hs1 _];
    [apply placed_le in Hp1, Hp2; lia|lia|apply placed_le in Hp1, Hp2; lia|].
  exists mid, fe, re. rewrite Hfa, Hpb.
  assert (ref_area_offset L = AlignUp fe 8 ∧ row_slot_size L = AlignUp re 8 ∧ fields L = done_)
    as (-> & -> & ->).
  { unfold L, compile_layout. fold sorted pre presence. rewrite Ef, Er. done. }
  split_and!; (done || lia).
Qed.

(** The [i]-th field of the layout is the [i]-th field by id. *)
Lemma compiled_field s i f :
  schema_ok s → fields (compile_layout s) !! i = Some f →
  ∃ g, sort_fields (active_fields s) !! i = Some g
    ∧ f = set_slot_offset (slot_offset f) (layout_field i g).
Proof.
  intros Hok Hi. destruct (assigned_fields s Hok) as (mid & fe & re & Hp1 & Hp2 & _).
  apply placed_fields in Hp1, Hp2.
  destruct (Forall2_lookup_r _ _ _ _ _ Hp2 Hi) as (f1 & H1 & Hf & _).
  destruct (Forall2_lookup_r _ _ _ _ _ Hp1 H1) as (f0 & H0 & Hf1 & _).
  rewrite list_lookup_imap in H0. apply fmap_Some in H0 as (g & Hg & ->).
  exists g. split; [done|]. rewrite Hf, Hf1. by destruct f1.
Qed.

Lemma compiled_length s :
  schema_ok s → length (fields (compile_layout s)) = length (sort_fields (active_fields s)).
Proof.
  intros Hok. destruct (assigned_fields s Hok) as (mid & fe & re & Hp1 & Hp2 & _).
  apply placed_fields, Forall2_length in Hp1, Hp2. by rewrite <-Hp2, <-Hp1, length_imap.
Qed.

Lemma compiled_ids s :
  schema_ok s →
  field_id <$> fields (compile_layout s) = spec_field_id <$> sort_fields (active_fields s).
Proof.
  intros Hok. apply list_eq. intros i. rewrite !list_lookup_fmap.
  destruct (fields _ !! i) as [f|] eqn:E.
  - destruct (compiled_field s i f Hok E) as (g & -> & ->). done.
  - apply lookup_ge_None in E. rewrite compiled_length in E by done.
    by rewrite lookup_ge_None_2.
Qed.

(** The encoding and the default of a layout field fit its type. *)
Lemma compiled_shape s f :
  schema_ok s → f ∈ fields (compile_layout s) →
  uses_ref f = IsRefField (is_list f) (type f)
  ∧ value_width f = (if uses_ref f then 16 else FieldTypeSize (type f))
  ∧ encoding_allowed (is_list f) (type f) (encoding f) = true
  ∧ match default_value f with
    | DMonostate => True
    | DScalar v => is_list f = false ∧ scalar_type v = type f
    | DList v => is_list f = true ∧ list_type v = type f
    end.
Proof.
  intros Hok [i Hi]%list_elem_of_lookup.
  destruct (compiled_field s i f Hok Hi) as (g & Hg & ->).
  assert (ValidateEncodingPolicy g = Ok tt) as Hpol.
  { pose proof (so_policy s Hok) as Hp. rewrite Forall_forall in Hp. apply Hp.
    rewrite <-(sort_fields_perm (active_fields s)). by eapply list_elem_of_lookup_2. }
  apply ValidateEncodingPolicy_Ok in Hpol as (_ & _ & Hd & He).
  split_and!; try done. unfold DefaultMatchesField in Hd. simpl.
  destruct (spec_default_value g); try done; apply andb_true_iff in Hd as [Hl Ht];
    apply bool_decide_eq_true in Ht; destruct (spec_is_list g); done.
Qed.

Lemma compile_layout_wf s : schema_ok s → layout_wf (compile_layout s).
Proof.
  intros Hok. destruct (active_ids_ok s Hok) as [Hnd _].
  destruct (assigned_fields s Hok) as (mid & fe & re & Hp1 & Hp2 & Hfe & Hre & Hfa & Hpb & Hbm).
  pose proof (placed_le _ _ _ _ _ Hp1). pose proof (placed_le _ _ _ _ _ Hp2).
  pose proof (placed_fields _ _ _ _ _ Hp2) as Hall.
  (* a fixed field keeps the slot of the first loop *)
  assert (∀ i f, fields (compile_layout s) !! i = Some f → uses_ref f = false →
    mid !! i = Some f) as Hfixed.
  { intros i f Hi Hf. destruct (Forall2_lookup_r _ _ _ _ _ Hall Hi) as (f1 & H1 & Heq & Hsame).
    rewrite Hsame; [done|]. rewrite Heq in Hf. simpl in Hf. congruence. }
  assert (∀ i f, fields (compile_layout s) !! i = Some f → uses_ref f = false →
    fixed_area_offset (compile_layout s) ≤ slot_offset f
    ∧ slot_offset f + value_width f ≤ fe ∧ (field_align f | slot_offset f)) as Hfb.
  { intros i f Hi Hf. apply (placed_bounds _ _ _ _ _ f Hp1); [|done].
    eapply list_elem_of_lookup_2. by apply Hfixed. }
  assert (∀ i f, fields (compile_layout s) !! i = Some f → uses_ref f = true →
    ref_area_offset (compile_layout s) ≤ slot_offset f
    ∧ slot_offset f + value_width f ≤ re ∧ (field_align f | slot_offset f)) as Hrb.
  { intros i f Hi Hf. apply (placed_bounds _ _ _ _ _ f Hp2); [|done].
    by eapply list_elem_of_lookup_2. }
  split.
  - rewrite compiled_ids by done. by rewrite sort_fields_perm.
  - intros i f Hi. by destruct (compiled_field s i f Hok Hi) as (g & _ & ->).
  - unfold Zlen in *. rewrite compiled_length by done. lia.
  - intros f [i Hi]%list_elem_of_lookup. destruct (uses_ref f) eqn:Hf.
    + destruct (Hrb i f Hi Hf) as (? & ? & ?). split_and!; [lia..|done].
    + destruct (Hfb i f Hi Hf) as (? & ? & ?). split_and!; [lia..|done].
  - assert (∀ i j f g, (i < j)%nat → fields (compile_layout s) !! i = Some f →
      fields (compile_layout s) !! j = Some g →
      slot_offset f + value_width f ≤ slot_offset g
      ∨ slot_offset g + value_width g ≤ slot_offset f) as Hord.
    { intros i j f g Hij Hi Hj. destruct (uses_ref f) eqn:Hf, (uses_ref g) eqn:Hg.
      - left. by apply (placed_ordered _ _ _ _ _ i j f g Hp2).
      - right. destruct (Hrb i f Hi Hf), (Hfb j g Hj Hg). lia.
      - left. destruct (Hfb i f Hi Hf), (Hrb j g Hj Hg). lia.
      - left. apply (placed_ordered _ _ _ _ _ i j f g Hp1); try done; by apply Hfixed. }
    intros i j f g Hne Hi Hj. destruct (lt_eq_lt_dec i j) as [[Hlt|]|Hlt]; [|done|].
    + by eapply Hord.
    + destruct (Hord j i g f Hlt Hj Hi); auto.
  - intros f. by apply compiled_shape.
  - lia.
Qed.

(** *** C18: Compiled layouts are sound.

    For every schema the program can build, [Compile] returns a layout whose
    fields are the active fields in increasing order of their ids, with their
    types, encodings and defaults; each has a presence bit of its own inside
    the bitmap and an aligned slot of its own between the bitmap and the row
    size, so that no two fields overlap; and looking up a field id in the
    layout finds it exactly when the schema has it active. *)
Theorem Compile_sound (v : Z) (s : RuntimeSchema) (Hs : reachable_schema v s) :
  ∃ L, Compile s = Ok L ∧ layout_wf L
    ∧ schema_version L = version s
    ∧ StronglySorted Z.le (field_id <$> fields L)
    ∧ ∀ id, match FindField L id, RuntimeSchema_FindField s id with
            | Some f, Some g => layout_of_spec f g
            | None, None => True
            | _, _ => False
            end.
Proof.
  apply reachable_schema_ok in Hs. exists (compile_layout s).
  destruct (active_ids_ok s Hs) as [Hnd _].
  split_and!; [done|by apply compile_layout_wf| | |].
  - unfold compile_layout. destruct (assign_fixed _ _). by destruct (assign_ref _ _).
  - rewrite compiled_ids by done. pose proof (sort_fields_sorted (active_fields s)) as H.
    induction H; [constructor|]. rewrite fmap_cons. constructor; [done|by apply Forall_fmap].
  - intros id. change (FindField (compile_layout s) id)
      with (find_key field_id id (fields (compile_layout s))).
    rewrite RuntimeSchema_FindField_key.
    destruct (find_key field_id id _) as [f|] eqn:Ef.
    + apply find_key_Some_1 in Ef as [[i Hi]%list_elem_of_lookup <-].
      destruct (compiled_field s i f Hs Hi) as (g & Hg & ->).
      replace (find_key _ _ _) with (Some g); [done|]. symmetry.
      apply find_key_Some; [done|]. split; [|done].
      rewrite <-(sort_fields_perm (active_fields s)). by eapply list_elem_of_lookup_2.
    + apply find_key_None in Ef. rewrite compiled_ids in Ef by done.
      rewrite sort_fields_perm in Ef. apply find_key_None in Ef. by rewrite Ef.
Qed.

(** Two lists of the same fields compile to the same layout. *)
Lemma compile_layout_perm s1 s2 :
  NoDup (spec_field_id <$> active_fields s1) → version s1 = version s2 →
  active_fields s1 ≡ₚ active_fields s2 → compile_layout s1 = compile_layout s2.
Proof.
  intros Hnd Hv Hperm.
  assert (sort_fields (active_fields s1) = sort_fields (active_fields s2)) as Hs.
  { apply sorted_unique; [by rewrite sort_fields_perm|apply sort_fields_sorted..|].
    by rewrite !sort_fields_perm. }
  unfold compile_layout. by rewrite Hs, Hv.
Qed.

Lemma reachable_version v s : reachable_schema v s → version s = v.
Proof.
  assert (∀ s s', rtc schema_step s s' → version s' = version s) as H.
  { intros t t'. induction 1 as [|t t1 t' Hstep _ IH]; [done|]. rewrite IH.
    destruct Hstep as [f t o t1 _ Hadd|id t o t1 Hdel].
    - by apply AddField_inv in Hadd as [(_ & _ & _ & ->)|[-> _]].
    - by apply DeleteField_inv in Hdel as [(i & f & _ & _ & _ & ->)|[-> _]]. }
  apply H.
Qed.

(** A layout depends only on the set of active fields.

    Two schemas of one version with the same active fields, added in any
    order and whatever was deleted in between, compile to the same layout,
    fingerprint included: rows written under one can be read under the
    other. *)
Theorem Compile_order_independent (v1 v2 : Z) (s1 s2 : RuntimeSchema)
    (H1 : reachable_schema v1 s1) (H2 : reachable_schema v2 s2)
    (Hv : version s1 = version s2) (Hperm : active_fields s1 ≡ₚ active_fields s2) :
  Compile s1 = Compile s2.
Proof.
  apply reachable_schema_ok, active_ids_ok in H1 as [Hnd _].
  unfold Compile. by rewrite (compile_layout_perm s1 s2).
Qed.

(** ** A sample schema *)

Definition sample_spec (id : Z) (l : bool) (t : FieldType) (e : FieldEncoding)
    (d : FieldDefaultValue) : FieldSpec :=
  MkFieldSpec id (str "f") t l true e d false.

Definition spec_a := sample_spec 30 false kInt32 kFixed (DScalar (SInt32 7)).
Definition spec_b := sample_spec 10 true kInt64 kArena DMonostate.
Definition spec_c := sample_spec 20 false kBool kFixed DMonostate.

(** [spec_b] was deleted; the active fields are the ones given. *)
Definition sample_schema (l : list FieldSpec) : RuntimeSchema :=
  MkRuntimeSchema 1 l [set_deleted spec_b].

Lemma sample_steps_before :
  reachable_schema 1 (MkRuntimeSchema 1 [spec_a; spec_c; spec_b] []).
Proof.
  unfold reachable_schema.
  eapply rtc_l; [eapply (step_add spec_a); [unfold is_u32; simpl; lia|reflexivity]|].
  eapply rtc_l; [eapply (step_add spec_c); [unfold is_u32; simpl; lia|reflexivity]|].
  eapply rtc_l; [eapply (step_add spec_b); [unfold is_u32; simpl; lia|reflexivity]|].
  apply rtc_refl.
Qed.

Lemma sample_reachable : reachable_schema 1 (sample_schema [spec_a; spec_c]).
Proof.
  eapply rtc_r; [apply sample_steps_before|]. by apply (step_delete 10) with (o := Ok tt).
Qed.

Lemma sample_reachable_swapped : reachable_schema 1 (sample_schema [spec_c; spec_a]).
Proof.
  unfold reachable_schema.
  eapply rtc_l; [eapply (step_add spec_b); [unfold is_u32; simpl; lia|reflexivity]|].
  eapply rtc_l; [apply (step_delete 10) with (o := Ok tt); reflexivity|].
  eapply rtc_l; [eapply (step_add spec_c); [unfold is_u32; simpl; lia|reflexivity]|].
  eapply rtc_l; [eapply (step_add spec_a); [unfold is_u32; simpl; lia|reflexivity]|].
  apply rtc_refl.
Qed.

Lemma schema_history_invariant_witness :
  FindDeletedField (sample_schema [spec_a; spec_c]) 10 = Some (set_deleted spec_b)
  ∧ ∃ e, AddField spec_b (sample_schema [spec_a; spec_c]) = (Err e, sample_schema [spec_a; spec_c])
    ∧ status_code e = kFailedPrecondition.
Proof.
  destruct (schema_history_invariant 1 (sample_schema [spec_a; spec_c])
    (sample_schema [spec_a; spec_c]) sample_reachable (rtc_refl _ _)) as (_ & _ & H).
  destruct (H (set_deleted spec_b)) as (H1 & _ & H3); [left|].
  split; [exact H1|]. apply H3. reflexivity.
Defined.

Lemma Compile_sound_witness :
  ∃ L, Compile (sample_schema [spec_a; spec_c]) = Ok L ∧ layout_wf L
    ∧ field_id <$> fields L = [20; 30] ∧ row_slot_size L = 16.
Proof.
  destruct (Compile_sound 1 (sample_schema [spec_a; spec_c]) sample_reachable)
    as (L & HL & Hwf & _).
  exists L. split; [exact HL|]. split; [exact Hwf|].
  injection HL as <-. split; vm_compute; reflexivity.
Defined.

Lemma Compile_order_independent_witness :
  Compile (sample_schema [spec_a; spec_c]) = Compile (sample_schema [spec_c; spec_a]).
Proof.
  apply (Compile_order_independent 1 1 _ _ sample_reachable sample_reachable_swapped eq_refl).
  apply perm_swap.
Defined.
