(* ===== verification/RowStorage.v ===== *)
(** * Encoded rows: [src/model/row_storage.{h,cc}], [include/kv_index/row.h]

    An [EncodedRow] is a fixed-size slot (presence bits, fixed-width values,
    16-byte references) plus an arena and dictionaries the references point
    into.  The writers take an [EncodedRow*], modelled as a state of type
    [option EncodedRow]; a template argument [T] is the [FieldType] it stands
    for.  Reading a [Row] may meet any bytes: nothing here assumes that the
    row was produced by the writers. *)

From S2P Require Import Prelude Status ByteIo Types Schema.

Record EncodedRow : Type := MkEncodedRow {
  row_schema_version : Z;
  row_layout_fingerprint : Z;
  row_slot : list byte;
  arena : list byte;
  string_dictionary : list cpp_string;
  scalar_list_dictionary : list (list byte);
  string_list_dictionary : list (list cpp_string);
  string_element_dictionary : list cpp_string;
}.

Record Row : Type := MkRow {
  row_layout : option CompiledRowLayout;
  row_encoded : option EncodedRow;
}.

Definition set_row_slot (b : list byte) (r : EncodedRow) : EncodedRow :=
  MkEncodedRow (row_schema_version r) (row_layout_fingerprint r) b (arena r)
    (string_dictionary r) (scalar_list_dictionary r) (string_list_dictionary r)
    (string_element_dictionary r).

Definition set_arena (b : list byte) (r : EncodedRow) : EncodedRow :=
  MkEncodedRow (row_schema_version r) (row_layout_fingerprint r) (row_slot r) b
    (string_dictionary r) (scalar_list_dictionary r) (string_list_dictionary r)
    (string_element_dictionary r).

(** ** Writing *)

Abbreviation writer A := (stateful (option EncodedRow) Status A).

Definition check_not_null : writer unit := λ p,
  match p with
  | None => (InvalidArgument "encoded row must not be null", p)
  | Some _ => (Ok tt, p)
  end.

(** [*encoded]; without a check a null pointer is a fault. *)
Definition get_row : writer EncodedRow := λ p,
  match p with
  | None => (Fault NullDereference, p)
  | Some r => (Ok r, p)
  end.

Definition on_row_slot {A} (c : stateful (list byte) Status A) : writer A := λ p,
  match p with
  | None => (Fault NullDereference, p)
  | Some r => let '(o, b) := c (row_slot r) in (o, Some (set_row_slot b r))
  end.

Definition on_arena {A} (c : stateful (list byte) Status A) : writer A := λ p,
  match p with
  | None => (Fault NullDereference, p)
  | Some r => let '(o, b) := c (arena r) in (o, Some (set_arena b r))
  end.

(** [arena.insert(arena.end(), ...)] *)
Definition append_arena (new : list byte) : writer unit :=
  on_arena (λ a, (Ok tt, a ++ new)).

Definition CreateEncodedRow (layout : CompiledRowLayout) : EncodedRow :=
  MkEncodedRow (schema_version layout) (layout_fingerprint layout)
    (replicate (Z.to_nat (row_slot_size layout)) Byte.x00) [] [] [] [] [].

Definition set_presence_bit (byte_index bit_index : Z) : stateful (list byte) Status unit :=
  λ slot,
    if Zlen slot <=? byte_index then
      (InvalidArgument "presence bit is out of row-slot bounds", slot)
    else match at_ slot byte_index with
         | Ok b =>
             let b' := Z.lor (byte_to_Z b) (wrap8 (Z.shiftl 1 bit_index)) in
             match set_at (E := Status) slot byte_index (byte_of_Z b') with
             | Ok slot' => (Ok tt, slot')
             | Err e => (Err e, slot)
             | Fault f => (Fault f, slot)
             end
         | Err e => (Err e, slot)
         | Fault f => (Fault f, slot)
         end.

Definition SetFieldPresent (field : FieldLayout) : writer unit :=
  do* _ := check_not_null in
  on_row_slot (set_presence_bit (presence_bit_index field / 8) (presence_bit_index field mod 8)).

Definition WriteValueRefField (field : FieldLayout) (ref : ValueRef16) : writer unit :=
  do* _ := check_not_null in
  if negb (uses_ref field) then serr (Status_make kInvalidArgument "field does not use a value ref")
  else
  do* _ := on_row_slot (WriteValueRef16 ref (slot_offset field)) in
  SetFieldPresent field.

Definition WriteArenaStringField (field : FieldLayout) (value : cpp_string) : writer unit :=
  do* _ := check_not_null in
  if is_list field || negb (bool_decide (type field = kString))
     || negb (bool_decide (encoding field = kArena)) then
    serr (Status_make kInvalidArgument "arena string writer does not match field")
  else if u32_max <? Zlen value then
    serr (Status_make kInvalidArgument "string value is too large")
  else
  do* r := get_row in
  let offset := Zlen (arena r) in
  do* _ := append_arena value in
  WriteValueRefField field (MkValueRef16 offset (wrap32 (Zlen value)) 0).

Definition WriteDictionaryStringField (field : FieldLayout) (dictionary_id : Z) : writer unit :=
  if is_list field || negb (bool_decide (type field = kString))
     || negb (bool_decide (encoding field = kDictionary)) then
    serr (Status_make kInvalidArgument "dictionary string writer does not match field")
  else WriteValueRefField field (MkValueRef16 dictionary_id 0 0).

Definition WriteListDictionaryField (field : FieldLayout) (dictionary_id element_count : Z)
    : writer unit :=
  if negb (is_list field) || negb (bool_decide (encoding field = kListDictionary)) then
    serr (Status_make kInvalidArgument "list dictionary writer does not match field")
  else WriteValueRefField field (MkValueRef16 dictionary_id 0 element_count).

(** [for (i...) if (!WriteLittleEndian<T>(values[i], bytes, base + i * width).ok()) return;] *)
Fixpoint write_words (t : int_type) (base width : Z) (i : nat) (values : list Z)
    : stateful (list byte) Status unit :=
  match values with
  | [] => sret tt
  | v :: values' =>
      do* _ := WriteLittleEndian t v (base + Z.of_nat i * width) in
      write_words t base width (S i) values'
  end.

Definition WriteElementDictionaryStringListField (field : FieldLayout)
    (dictionary_ids : list Z) : writer unit :=
  do* _ := check_not_null in
  if negb (is_list field) || negb (bool_decide (type field = kString))
     || negb (bool_decide (encoding field = kElementDictionary)) then
    serr (Status_make kInvalidArgument
            "element dictionary string-list writer does not match field")
  else if u32_max <? Zlen dictionary_ids then
    serr (Status_make kInvalidArgument "string-list dictionary id count is too large")
  else
  do* r := get_row in
  let offset := Zlen (arena r) in
  let byte_length := Zlen dictionary_ids * 4 in
  do* _ := append_arena (replicate (Z.to_nat byte_length) Byte.x00) in
  do* _ := on_arena (write_words uint32_t offset 4 0 dictionary_ids) in
  WriteValueRefField field
    (MkValueRef16 offset (wrap32 byte_length) (wrap32 (Zlen dictionary_ids))).

(** The C++ integer type a value of the field type is stored as; strings
    have none. *)
Definition field_int_type (t : FieldType) : int_type :=
  match t with
  | kInt8 => int8_t
  | kInt32 => int32_t
  | kInt64 => int64_t
  | kUInt64 => uint64_t
  | kBool | kString => uint8_t
  end.

Definition bool_word (b : bool) : Z := if b then 1 else 0.

(** The words of a list; [list<string>] has none. *)
Definition list_words (values : ListValue) : option (list Z) :=
  match values with
  | LInt8 vs | LInt32 vs | LInt64 vs | LUInt64 vs => Some vs
  | LBool vs => Some (bool_word <$> vs)
  | LString _ => None
  end.

Definition EncodeScalarListSpan (values : ListValue) : StatusOr (list byte) :=
  match list_words values with
  | None => InvalidArgument "string lists require ref-based encoding"
  | Some words =>
      let width := FieldTypeSize (list_type values) in
      run_write (write_words (field_int_type (list_type values)) 0 width 0 words)
        (replicate (Z.to_nat (Zlen words * width)) Byte.x00)
  end.

(** The word [WriteScalarField<T>] stores; the template cannot be
    instantiated for [std::string]. *)
Definition scalar_word (value : ScalarValue) : option Z :=
  match value with
  | SInt8 v | SInt32 v | SInt64 v | SUInt64 v => Some v
  | SBool b => Some (bool_word b)
  | SString _ => None
  end.

Definition WriteScalarField (field : FieldLayout) (value : ScalarValue) : writer unit :=
  do* _ := check_not_null in
  if is_list field || uses_ref field || negb (bool_decide (type field = scalar_type value)) then
    serr (Status_make kInvalidArgument "scalar field writer does not match field")
  else
  do* r := get_row in
  if (Zlen (row_slot r) <? slot_offset field)
     || (Zlen (row_slot r) - slot_offset field <? value_width field) then
    serr (Status_make kInvalidArgument "scalar field offset is out of row-slot bounds")
  else match scalar_word value with
  | None => slift (Fault BadVariantAccess)
  | Some w =>
      do* _ := on_row_slot (WriteLittleEndian (field_int_type (scalar_type value)) w
                              (slot_offset field)) in
      SetFieldPresent field
  end.

Definition list_size (values : ListValue) : Z :=
  match values with
  | LInt8 vs | LInt32 vs | LInt64 vs | LUInt64 vs => Zlen vs
  | LBool vs => Zlen vs
  | LString vs => Zlen vs
  end.

Definition WriteArenaListField (field : FieldLayout) (values : ListValue) : writer unit :=
  do* _ := check_not_null in
  if negb (is_list field) || negb (bool_decide (encoding field = kArena))
     || negb (bool_decide (type field = list_type values)) then
    serr (Status_make kInvalidArgument "arena list writer does not match field")
  else match values with
  | LString _ =>
      serr (Status_make kInvalidArgument "arena list<string> builder is not implemented")
  | _ =>
      do* payload := slift (EncodeScalarListSpan values) in
      do* r := get_row in
      if u64_max <? Zlen (arena r) then
        serr (Status_make kInvalidArgument "arena offset is too large")
      else
      let offset := Zlen (arena r) in
      let byte_length := wrap32 (Zlen payload) in
      let element_count := wrap32 (list_size values) in
      do* _ := append_arena payload in
      WriteValueRefField field (MkValueRef16 offset byte_length element_count)
  end.

(** ** Materialising *)

Definition HasBytes (size offset byte_count : Z) : bool :=
  (offset <=? size) && (byte_count <=? size - offset).

Definition FieldPresent (field : FieldLayout) (row : EncodedRow) : StatusOr bool :=
  let byte_index := presence_bit_index field / 8 in
  let bit_index := presence_bit_index field mod 8 in
  if Zlen (row_slot row) <=? byte_index then Ok false
  else
  let* b := at_ (row_slot row) byte_index in
  Ok (negb (Z.land (byte_to_Z b) (Z.shiftl 1 bit_index) =? 0)).

Definition check_required (row : EncodedRow) (_ : unit) (field : FieldLayout) : StatusM :=
  if nullable field || HasDefault (default_value field) then Ok tt
  else
  let* present := FieldPresent field row in
  if present then Ok tt
  else FailedPrecondition "required field is absent in encoded row".

Definition MaterializeRow (layout : option CompiledRowLayout) (encoded : EncodedRow)
    : StatusOr Row :=
  match layout with
  | None => InvalidArgument "compiled row layout must not be null"
  | Some l =>
      if negb (row_schema_version encoded =? schema_version l)
         || negb (row_layout_fingerprint encoded =? layout_fingerprint l) then
        FailedPrecondition "encoded row metadata does not match layout"
      else if Zlen (row_slot encoded) <? row_slot_size l then
        InvalidArgument "encoded row slot is shorter than layout"
      else
      let* _ := ofold (check_required encoded) (fields l) tt in
      Ok (MkRow layout (Some encoded))
  end.

(** ** Reading *)

Record AccessorMetadata : Type := MkAccessorMetadata {
  acc_schema_version : Z;
  acc_layout_fingerprint : Z;
  acc_field_id : Z;
  acc_is_list : bool;
  acc_physical_type : FieldType;
  acc_encoding : FieldEncoding;
  acc_offset : Z;
  acc_presence_bit_index : Z;
}.

(** [FieldAccessor<T>]; [T] is its [acc_physical_type]. *)
Record FieldAccessor : Type := MkFieldAccessor {
  accessor_metadata : AccessorMetadata;
  acc_nullable : bool;
  acc_has_default : bool;
}.

Definition field_accessor (layout : CompiledRowLayout) (is_list : bool) (field : FieldLayout)
    : FieldAccessor :=
  MkFieldAccessor
    (MkAccessorMetadata (schema_version layout) (layout_fingerprint layout)
       (field_id field) is_list (type field) (encoding field) (slot_offset field)
       (presence_bit_index field))
    (nullable field) (HasDefault (default_value field)).

Definition MakeFieldAccessor (T : FieldType) (layout : CompiledRowLayout) (id : Z)
    : StatusOr FieldAccessor :=
  match FindField layout id with
  | None => NotFound "field is not active in layout"
  | Some field =>
      if is_list field then InvalidArgument "field is a list, not a scalar"
      else if decide (type field ≠ T) then
        InvalidArgument "field scalar type does not match accessor"
      else Ok (field_accessor layout false field)
  end.

Definition MakeListFieldAccessor (T : FieldType) (layout : CompiledRowLayout) (id : Z)
    : StatusOr FieldAccessor :=
  match FindField layout id with
  | None => NotFound "field is not active in layout"
  | Some field =>
      if negb (is_list field) then InvalidArgument "field is a scalar, not a list"
      else if decide (type field ≠ T) then
        InvalidArgument "field list element type does not match accessor"
      else Ok (field_accessor layout true field)
  end.

(** The accessor was made for this row's schema version and layout. *)
Definition accessor_version_mismatch (a : AccessorMetadata) (row : EncodedRow)
    (layout : CompiledRowLayout) : bool :=
  negb (acc_schema_version a =? row_schema_version row)
  || negb (acc_schema_version a =? schema_version layout)
  || negb (acc_layout_fingerprint a =? row_layout_fingerprint row)
  || negb (acc_layout_fingerprint a =? layout_fingerprint layout).

Definition ValidateAccessor (accessor : option AccessorMetadata) (field : FieldLayout)
    (row : EncodedRow) (layout : CompiledRowLayout) (expected_type : FieldType)
    (expected_list : bool) : StatusM :=
  match accessor with
  | None => Ok tt
  | Some a =>
      if accessor_version_mismatch a row layout
         || negb (acc_field_id a =? field_id field)
         || negb (Bool.eqb (acc_is_list a) expected_list)
         || negb (bool_decide (acc_physical_type a = expected_type))
         || negb (bool_decide (acc_encoding a = encoding field))
         || negb (acc_offset a =? slot_offset field)
         || negb (acc_presence_bit_index a =? presence_bit_index field) then
        FailedPrecondition "field accessor does not match this row layout"
      else Ok tt
  end.

Definition ResolveField (layout : option CompiledRowLayout) (row : option EncodedRow)
    (id : Z) (expected_type : FieldType) (expected_list : bool)
    (accessor : option AccessorMetadata) : StatusOr FieldLayout :=
  match layout, row with
  | Some l, Some r =>
      if negb (row_schema_version r =? schema_version l)
         || negb (row_layout_fingerprint r =? layout_fingerprint l) then
        FailedPrecondition "row backing does not match compiled layout"
      else if match accessor with
              | Some a => accessor_version_mismatch a r l
              | None => false
              end then
        FailedPrecondition "field accessor does not match this row layout"
      else
      match FindField l id with
      | None =>
          match accessor with
          | Some _ => FailedPrecondition "field accessor does not match this row layout"
          | None => NotFound "field is not active in row layout"
          end
      | Some field =>
          if negb (Bool.eqb (is_list field) expected_list) then
            InvalidArgument "field scalar/list shape does not match read"
          else if decide (type field ≠ expected_type) then
            InvalidArgument "field physical type does not match read"
          else
          let* _ := ValidateAccessor accessor field r l expected_type expected_list in
          Ok field
      end
  | _, _ => FailedPrecondition "row has no materialized backing"
  end.

Definition ReadRef (field : FieldLayout) (row : EncodedRow) : StatusOr ValueRef16 :=
  if negb (HasBytes (Zlen (row_slot row)) (slot_offset field) 16) then
    InvalidArgument "value ref is out of row-slot bounds"
  else DecodeValueRef16 (row_slot row) (slot_offset field).

Definition ValidateRefBounds (ref : ValueRef16) (payload_size : Z) : StatusM :=
  if payload_size <? ref_offset ref then
    InvalidArgument "value ref offset is out of bounds"
  else if payload_size - ref_offset ref <? byte_length ref then
    InvalidArgument "value ref length is out of bounds"
  else Ok tt.

Definition DefaultScalarValue (field : FieldLayout) : StatusOr ScalarValue :=
  match default_value field with
  | DMonostate =>
      if nullable field then NotFound "field is absent and has no default"
      else FailedPrecondition "required field is missing"
  | DScalar v => if decide (scalar_type v = type field) then Ok v else Fault BadVariantAccess
  | DList _ => Fault BadVariantAccess
  end.

Definition DefaultListValue (field : FieldLayout) : StatusOr ListValue :=
  match default_value field with
  | DMonostate =>
      if nullable field then NotFound "list field is absent and has no default"
      else FailedPrecondition "required list field is missing"
  | DList v => if decide (list_type v = type field) then Ok v else Fault BadVariantAccess
  | DScalar _ => Fault BadVariantAccess
  end.

(** [span.subspan(offset, count)], or [std::string(data + offset, count)] *)
Definition subspan (l : list byte) (offset count : Z) : StatusOr (list byte) :=
  if (0 <=? offset) && (0 <=? count) && (offset + count <=? Zlen l)
  then Ok (slice (Z.to_nat offset) (Z.to_nat count) l)
  else Fault OutOfRange.

Definition decode_bool (v : Z) (error : string) : StatusOr bool :=
  if 1 <? v then InvalidArgument error else Ok (negb (v =? 0)).

(** [DecodeScalarListBytes<T>] for the integer types, then for [bool]. *)
Definition DecodeScalarListBytes {A} (T : FieldType) (of_word : Z → StatusOr A)
    (bytes : list byte) (element_count : Z) : StatusOr (list A) :=
  let width := FieldTypeSize T in
  if negb (Zlen bytes =? element_count * width) then
    InvalidArgument "list byte length does not match element count"
  else
  omapM (λ i, let* v := ReadLittleEndian (field_int_type T) bytes (i * width) in of_word v)
    (seqZ 0 element_count).

Definition DecodeScalarListByType (type : FieldType) (bytes : list byte) (element_count : Z)
    : StatusOr ListValue :=
  match type with
  | kInt8 => let* vs := DecodeScalarListBytes kInt8 Ok bytes element_count in Ok (LInt8 vs)
  | kInt32 => let* vs := DecodeScalarListBytes kInt32 Ok bytes element_count in Ok (LInt32 vs)
  | kInt64 => let* vs := DecodeScalarListBytes kInt64 Ok bytes element_count in Ok (LInt64 vs)
  | kUInt64 => let* vs := DecodeScalarListBytes kUInt64 Ok bytes element_count in Ok (LUInt64 vs)
  | kBool =>
      let* vs := DecodeScalarListBytes kBool
                   (λ v, decode_bool v "encoded bool list value is invalid")
                   bytes element_count in
      Ok (LBool vs)
  | kString => InvalidArgument "string list is not a scalar byte list"
  end.

Definition DecodeArenaStringList (ref : ValueRef16) (row : EncodedRow) : StatusOr ListValue :=
  let ref_bytes := element_count_or_flags ref * 16 in
  if negb (byte_length ref =? ref_bytes) then
    InvalidArgument "string list ref payload has invalid length"
  else
  let* _ := ValidateRefBounds ref (Zlen (arena row)) in
  let* values := omapM (λ i,
      let* element_ref := DecodeValueRef16 (arena row)
                            (wrap64 (ref_offset ref + wrap32 (i * 16))) in
      let* _ := ValidateRefBounds element_ref (Zlen (arena row)) in
      subspan (arena row) (ref_offset element_ref) (byte_length element_ref))
    (seqZ 0 (element_count_or_flags ref)) in
  Ok (LString values).

Definition Row_Has (row : Row) (id : Z) : StatusOr bool :=
  match row_layout row, row_encoded row with
  | Some l, Some r =>
      match FindField l id with
      | None => Ok false
      | Some field => FieldPresent field r
      end
  | _, _ => Ok false
  end.

Definition read_scalar_word (field : FieldLayout) (r : EncodedRow) : StatusOr ScalarValue :=
  let* v := ReadLittleEndian (field_int_type (type field)) (row_slot r) (slot_offset field) in
  match type field with
  | kInt8 => Ok (SInt8 v)
  | kInt32 => Ok (SInt32 v)
  | kInt64 => Ok (SInt64 v)
  | kUInt64 => Ok (SUInt64 v)
  | kBool => let* b := decode_bool v "encoded bool value is invalid" in Ok (SBool b)
  | kString => InvalidArgument "unsupported scalar field type"
  end.

(** [ReadScalarValue] once the field is resolved. *)
Definition scalar_field_value (field : FieldLayout) (r : EncodedRow) : StatusOr ScalarValue :=
  let* present := FieldPresent field r in
  if negb present then DefaultScalarValue field
  else if decide (type field = kString) then
    let* ref := ReadRef field r in
    match encoding field with
    | kArena =>
        let* _ := ValidateRefBounds ref (Zlen (arena r)) in
        let* s := subspan (arena r) (ref_offset ref) (byte_length ref) in
        Ok (SString s)
    | kDictionary =>
        if Zlen (string_dictionary r) <=? ref_offset ref then
          InvalidArgument "string dictionary id is out of bounds"
        else
        let* s := at_ (string_dictionary r) (ref_offset ref) in
        Ok (SString s)
    | _ => InvalidArgument "string field has unsupported encoding"
    end
  else if negb (HasBytes (Zlen (row_slot r)) (slot_offset field) (value_width field)) then
    InvalidArgument "scalar field is out of row-slot bounds"
  else read_scalar_word field r.

Definition ReadScalarValue (row : Row) (id : Z) (expected_type : FieldType)
    (accessor : option AccessorMetadata) : StatusOr ScalarValue :=
  let* field := ResolveField (row_layout row) (row_encoded row) id expected_type false accessor in
  match row_encoded row with
  | None => Fault NullDereference
  | Some r => scalar_field_value field r
  end.

Definition read_list_dictionary (field : FieldLayout) (ref : ValueRef16) (r : EncodedRow)
    : StatusOr ListValue :=
  if decide (type field = kString) then
    if Zlen (string_list_dictionary r) <=? ref_offset ref then
      InvalidArgument "string-list dictionary id is out of bounds"
    else
    let* values := at_ (string_list_dictionary r) (ref_offset ref) in
    if negb (Zlen values =? element_count_or_flags ref) then
      InvalidArgument "string-list dictionary count does not match ref"
    else Ok (LString values)
  else if Zlen (scalar_list_dictionary r) <=? ref_offset ref then
    InvalidArgument "scalar-list dictionary id is out of bounds"
  else
  let* payload := at_ (scalar_list_dictionary r) (ref_offset ref) in
  DecodeScalarListByType (type field) payload (element_count_or_flags ref).

Definition read_element_dictionary (field : FieldLayout) (ref : ValueRef16) (r : EncodedRow)
    : StatusOr ListValue :=
  if decide (type field ≠ kString) then
    InvalidArgument "element dictionary lists are only supported for strings"
  else
  let* _ := ValidateRefBounds ref (Zlen (arena r)) in
  if negb (byte_length ref =? wrap32 (element_count_or_flags ref * 4)) then
    InvalidArgument "element dictionary ref length does not match element count"
  else
  let* values := omapM (λ i,
      let* dictionary_id := ReadLittleEndian uint32_t (arena r) (wrap64 (ref_offset ref + i * 4)) in
      if Zlen (string_element_dictionary r) <=? dictionary_id then
        InvalidArgument "element dictionary string id is out of bounds"
      else at_ (string_element_dictionary r) dictionary_id)
    (seqZ 0 (element_count_or_flags ref)) in
  Ok (LString values).

(** [ReadListValue] once the field is resolved. *)
Definition list_field_value (field : FieldLayout) (r : EncodedRow) : StatusOr ListValue :=
  let* present := FieldPresent field r in
  if negb present then DefaultListValue field
  else
  let* ref := ReadRef field r in
  match encoding field with
  | kArena =>
      let* _ := ValidateRefBounds ref (Zlen (arena r)) in
      let* payload := subspan (arena r) (ref_offset ref) (byte_length ref) in
      if decide (type field = kString) then DecodeArenaStringList ref r
      else DecodeScalarListByType (type field) payload (element_count_or_flags ref)
  | kListDictionary => read_list_dictionary field ref r
  | kElementDictionary => read_element_dictionary field ref r
  | kFixed | kDictionary => InvalidArgument "list field has unsupported encoding"
  end.

Definition ReadListValue (row : Row) (id : Z) (expected_type : FieldType)
    (accessor : option AccessorMetadata) : StatusOr ListValue :=
  let* field := ResolveField (row_layout row) (row_encoded row) id expected_type true accessor in
  match row_encoded row with
  | None => Fault NullDereference
  | Some r => list_field_value field r
  end.

(** ** The typed getters *)

Definition ThrowStatus {A} (s : Status) : StatusOr A :=
  Fault (Thrown (if decide (status_message s = ""%string) then "row access failed"
                 else status_message s)).

(** [Row::Get<T>(field_id)] and [Row::Get<T>(accessor)] *)
Definition Row_Get (T : FieldType) (row : Row) (id : Z) (accessor : option AccessorMetadata)
    : StatusOr (option ScalarValue) :=
  match ReadScalarValue row id T accessor with
  | Ok v => if decide (scalar_type v = T) then Ok (Some v)
            else Fault (Thrown "row decoder returned an unexpected scalar type")
  | Err e => if decide (status_code e = kNotFound) then Ok None else ThrowStatus e
  | Fault f => Fault f
  end.

Definition Row_Get_accessor (row : Row) (a : FieldAccessor) : StatusOr (option ScalarValue) :=
  Row_Get (acc_physical_type (accessor_metadata a)) row
    (acc_field_id (accessor_metadata a)) (Some (accessor_metadata a)).

Definition empty_list (T : FieldType) : ListValue :=
  match T with
  | kInt8 => LInt8 [] | kInt32 => LInt32 [] | kInt64 => LInt64 []
  | kUInt64 => LUInt64 [] | kBool => LBool [] | kString => LString []
  end.

(** [Row::GetList<T>]: an absent field is an empty list. *)
Definition Row_GetList (T : FieldType) (row : Row) (id : Z) (accessor : option AccessorMetadata)
    : StatusOr ListValue :=
  match ReadListValue row id T accessor with
  | Ok v => if decide (list_type v = T) then Ok v
            else Fault (Thrown "row decoder returned an unexpected list type")
  | Err e => if decide (status_code e = kNotFound) then Ok (empty_list T) else ThrowStatus e
  | Fault f => Fault f
  end.

Definition Row_GetList_accessor (row : Row) (a : FieldAccessor) : StatusOr ListValue :=
  Row_GetList (acc_physical_type (accessor_metadata a)) row
    (acc_field_id (accessor_metadata a)) (Some (accessor_metadata a)).
