(* ===== verification/RowSafety.v ===== *)
(** * Reading rows is memory safe

    Whatever bytes a row holds, every read of it stays inside its slot, arena
    and dictionaries, and every [std::get] meets the alternative it names. *)

From S2P Require Import Prelude Status ByteIo Types Schema SchemaProofs RowStorage.

(** ** Bounds checks *)

Lemma ValidateRefBounds_Ok ref n :
  ValidateRefBounds ref n = Ok tt ↔ ref_offset ref ≤ n ∧ byte_length ref ≤ n - ref_offset ref.
Proof.
  unfold ValidateRefBounds.
  destruct (Z.ltb_spec n (ref_offset ref)); [split; [done|lia]|].
  destruct (Z.ltb_spec (n - ref_offset ref) (byte_length ref)); split; (done || lia).
Qed.

Lemma ValidateRefBounds_no_fault ref n : no_fault (ValidateRefBounds ref n).
Proof. unfold ValidateRefBounds. by repeat case_inner. Qed.

Lemma subspan_in l offset count :
  0 ≤ offset → 0 ≤ count → offset + count ≤ Zlen l →
  subspan l offset count = Ok (slice (Z.to_nat offset) (Z.to_nat count) l).
Proof. intros. unfold subspan. by rewrite !(proj2 (Z.leb_le _ _)) by lia. Qed.

Lemma subspan_ref l ref :
  ref_wf ref → ValidateRefBounds ref (Zlen l) = Ok tt →
  subspan l (ref_offset ref) (byte_length ref)
  = Ok (slice (Z.to_nat (ref_offset ref)) (Z.to_nat (byte_length ref)) l).
Proof.
  intros (? & ? & ?) Hb%ValidateRefBounds_Ok. unfold is_u64, is_u32 in *.
  apply subspan_in; lia.
Qed.

Lemma at_no_fault {A} (l : list A) i : 0 ≤ i < Zlen l → no_fault (E := Status) (at_ l i).
Proof. intros H. by destruct (at_in (E := Status) l i H) as (x & _ & ->). Qed.

Lemma ReadRef_Ok field r ref :
  0 ≤ slot_offset field → ReadRef field r = Ok ref → ref_wf ref.
Proof.
  unfold ReadRef. intros Ho H. guard_ok H Hb.
  apply DecodeValueRef16_Ok_bounds in H; [apply H|done].
Qed.

Lemma ReadRef_no_fault field r : no_fault (ReadRef field r).
Proof. unfold ReadRef. case_inner; [done|]. apply DecodeValueRef16_no_fault. Qed.

Lemma FieldPresent_no_fault field r :
  0 ≤ presence_bit_index field → no_fault (FieldPresent field r).
Proof.
  intros Hb. unfold FieldPresent.
  destruct (Z.leb_spec (Zlen (row_slot r)) (presence_bit_index field / 8)); [done|].
  destruct (at_in (E := Status) (row_slot r) (presence_bit_index field / 8)) as (b & _ & ->);
    [|done]. split; [apply Z.div_pos; lia|done].
Qed.

(** ** Fields of a well-formed layout *)

Lemma FindField_key L id : FindField L id = find_key field_id id (fields L).
Proof. done. Qed.

Lemma FindField_in L f : layout_wf L → f ∈ fields L → FindField L (field_id f) = Some f.
Proof. intros Hwf Hf. rewrite FindField_key. apply find_key_Some; [apply Hwf|done]. Qed.

Lemma field_bit L f :
  layout_wf L → f ∈ fields L →
  0 ≤ presence_bit_index f < 8 * presence_bitmap_bytes L.
Proof.
  intros Hwf [i Hi]%list_elem_of_lookup. rewrite (lw_bits L Hwf i f Hi).
  pose proof (lw_bitmap L Hwf). apply lookup_lt_Some in Hi. unfold Zlen in *. lia.
Qed.

Lemma bitmap_nonneg L : layout_wf L → 0 ≤ presence_bitmap_bytes L.
Proof. intros Hwf. pose proof (lw_bitmap L Hwf). pose proof (Zlen_nonneg (fields L)). lia. Qed.

Lemma field_slot_nonneg L f : layout_wf L → f ∈ fields L → 0 ≤ slot_offset f.
Proof.
  intros Hwf Hf. pose proof (bitmap_nonneg L Hwf). destruct (lw_slot L Hwf f Hf). lia.
Qed.

Lemma ResolveField_Ok L R id T l a f :
  ResolveField L R id T l a = Ok f →
  ∃ L' R', L = Some L' ∧ R = Some R' ∧ f ∈ fields L' ∧ field_id f = id
    ∧ is_list f = l ∧ type f = T.
Proof.
  unfold ResolveField. destruct L as [L|], R as [R|]; try done. intros H.
  guard_ok H H1. guard_ok H H2. rewrite FindField_key in H.
  destruct (find_key _ _ _) as [g|] eqn:E; [|by destruct a].
  guard_ok H H3. destruct (decide (type g ≠ T)) as [|Ht]; [done|].
  bind_ok H u Hu. injection H as <-.
  apply find_key_Some_1 in E as [Hin Hid]. exists L, R.
  btoprop. apply eqb_prop in H3. apply dec_stable in Ht. done.
Qed.

Lemma ResolveField_no_fault L R id T l a : no_fault (ResolveField L R id T l a).
Proof.
  unfold ResolveField. destruct L, R; try done. case_inner; [done|].
  destruct (match a with Some _ => _ | None => _ end); [done|].
  destruct (FindField _ _); [|by destruct a]. case_inner; [done|]. case_inner; [done|].
  apply no_fault_bind; [|done]. unfold ValidateAccessor.
  destruct a; [|done]. by case_inner.
Qed.

(** ** Lists *)

Lemma decode_bool_no_fault v e : no_fault (decode_bool v e).
Proof. unfold decode_bool. by case_inner. Qed.

Lemma DecodeScalarListBytes_no_fault {A} T (w : Z → StatusOr A) bytes n :
  (∀ v, no_fault (w v)) → no_fault (DecodeScalarListBytes T w bytes n).
Proof.
  intros Hw. unfold DecodeScalarListBytes. case_inner; [done|].
  apply omapM_no_fault. intros i _. apply no_fault_bind; [apply ReadLittleEndian_no_fault|].
  intros v _. apply Hw.
Qed.

Lemma DecodeScalarListByType_no_fault T bytes n : no_fault (DecodeScalarListByType T bytes n).
Proof.
  destruct T; cbn [DecodeScalarListByType]; try done;
    (apply no_fault_bind; [|done]); apply DecodeScalarListBytes_no_fault; try done.
  intros v. apply decode_bool_no_fault.
Qed.

Lemma DecodeArenaStringList_no_fault ref r : no_fault (DecodeArenaStringList ref r).
Proof.
  unfold DecodeArenaStringList. case_inner; [done|].
  apply no_fault_bind; [apply ValidateRefBounds_no_fault|]. intros [] _.
  apply no_fault_bind; [|done]. apply omapM_no_fault. intros i _.
  apply no_fault_bind; [apply DecodeValueRef16_no_fault|]. intros e He.
  apply DecodeValueRef16_Ok_bounds in He as [_ He]; [|apply wrap64_range].
  apply no_fault_bind; [apply ValidateRefBounds_no_fault|]. intros [] Hb.
  by rewrite subspan_ref.
Qed.

Lemma read_list_dictionary_no_fault f ref r :
  ref_wf ref → no_fault (read_list_dictionary f ref r).
Proof.
  intros (Ho & _). unfold is_u64 in Ho. unfold read_list_dictionary.
  case_inner.
  - case_inner; [done|]. btoprop. apply no_fault_bind; [apply at_no_fault; lia|].
    intros vs _. by case_inner.
  - case_inner; [done|]. btoprop. apply no_fault_bind; [apply at_no_fault; lia|].
    intros vs _. apply DecodeScalarListByType_no_fault.
Qed.

Lemma read_element_dictionary_no_fault f ref r : no_fault (read_element_dictionary f ref r).
Proof.
  unfold read_element_dictionary. case_inner; [done|].
  apply no_fault_bind; [apply ValidateRefBounds_no_fault|]. intros [] _.
  case_inner; [done|]. apply no_fault_bind; [|done].
  apply omapM_no_fault. intros i _. apply no_fault_bind; [apply ReadLittleEndian_no_fault|].
  intros d Hd. apply ReadLittleEndian_range in Hd; [|simpl; lia|apply wrap64_range].
  change (0 ≤ d < 2 ^ 32) in Hd.
  case_inner; [done|]. btoprop. apply at_no_fault. lia.
Qed.

Definition row_layout_wf (row : Row) : Prop :=
  match row_layout row with Some L => layout_wf L | None => True end.

Lemma ReadScalarValue_no_fault row id T a :
  row_layout_wf row → no_fault (ReadScalarValue row id T a).
Proof.
  unfold row_layout_wf, ReadScalarValue. intros Hwf.
  apply no_fault_bind; [apply ResolveField_no_fault|]. intros f Hf.
  apply ResolveField_Ok in Hf as (L & R & HL & -> & Hin & _ & Hlist & Ht).
  rewrite HL in Hwf. pose proof (field_bit L f Hwf Hin).
  unfold scalar_field_value, list_field_value.
  apply no_fault_bind; [apply FieldPresent_no_fault; lia|]. intros p _.
  destruct (lw_shape L Hwf f Hin) as (_ & _ & _ & Hdef). destruct p; cbn [negb].
  - case_inner.
    + apply no_fault_bind; [apply ReadRef_no_fault|]. intros ref Href.
      apply ReadRef_Ok in Href as Hr; [|by eapply field_slot_nonneg].
      destruct (encoding f); try done.
      * apply no_fault_bind; [apply ValidateRefBounds_no_fault|]. intros [] Hb.
        by rewrite subspan_ref.
      * case_inner; [done|]. btoprop. destruct Hr as (Ho & _). unfold is_u64 in Ho.
        apply no_fault_bind; [apply at_no_fault; lia|done].
    + case_inner; [done|]. unfold read_scalar_word.
      apply no_fault_bind; [apply ReadLittleEndian_no_fault|]. intros v _.
      destruct (type f); try done. apply no_fault_bind; [apply decode_bool_no_fault|done].
  - unfold DefaultScalarValue. destruct (default_value f).
    + by destruct (nullable f).
    + destruct Hdef as [_ Hdef]. by rewrite decide_True.
    + destruct Hdef as [Hdef _]. congruence.
Qed.

Lemma ReadListValue_no_fault row id T a :
  row_layout_wf row → no_fault (ReadListValue row id T a).
Proof.
  unfold row_layout_wf, ReadListValue. intros Hwf.
  apply no_fault_bind; [apply ResolveField_no_fault|]. intros f Hf.
  apply ResolveField_Ok in Hf as (L & R & HL & -> & Hin & _ & Hlist & Ht).
  rewrite HL in Hwf. pose proof (field_bit L f Hwf Hin).
  unfold scalar_field_value, list_field_value.
  apply no_fault_bind; [apply FieldPresent_no_fault; lia|]. intros p _.
  destruct (lw_shape L Hwf f Hin) as (_ & _ & _ & Hdef). destruct p; cbn [negb].
  - apply no_fault_bind; [apply ReadRef_no_fault|]. intros ref Href.
    apply ReadRef_Ok in Href as Hr; [|by eapply field_slot_nonneg].
    destruct (encoding f); try done.
    + apply no_fault_bind; [apply ValidateRefBounds_no_fault|]. intros [] Hb.
      rewrite subspan_ref by done. cbn [obind].
      case_inner; [apply DecodeArenaStringList_no_fault|apply DecodeScalarListByType_no_fault].
    + by apply read_list_dictionary_no_fault.
    + apply read_element_dictionary_no_fault.
  - unfold DefaultListValue. destruct (default_value f).
    + by destruct (nullable f).
    + destruct Hdef as [Hdef _]. congruence.
    + destruct Hdef as [_ Hdef]. by rewrite decide_True.
Qed.

(** *** C30: Reading a row is memory safe for any row bytes.

    For a row over the layout of any schema the program can build, and
    arbitrary slot, arena and dictionary contents, [ReadScalarValue],
    [ReadListValue] and [Has] never leave the row's buffers, never take a
    wrong variant alternative and never dereference a null pointer: damaged
    bytes give an error status. *)
Theorem row_reads_memory_safe (v : Z) (s : RuntimeSchema) (L : CompiledRowLayout)
    (encoded : option EncodedRow) (id : Z) (T : FieldType) (a : option AccessorMetadata)
    (Hs : reachable_schema v s) (HL : Compile s = Ok L) :
  let row := MkRow (Some L) encoded in
  no_fault (ReadScalarValue row id T a)
  ∧ no_fault (ReadListValue row id T a)
  ∧ no_fault (Row_Has row id).
Proof.
  injection HL as <-. pose proof (compile_layout_wf s (reachable_schema_ok _ _ Hs)) as Hwf.
  intros row. split_and!; [by apply ReadScalarValue_no_fault|by apply ReadListValue_no_fault|].
  unfold Row_Has. simpl. destruct encoded as [r|]; [|done].
  rewrite FindField_key. destruct (find_key _ _ _) as [f|] eqn:E; [|done].
  apply find_key_Some_1 in E as [Hin _]. apply FieldPresent_no_fault.
  by apply (field_bit _ f Hwf).
Qed.

(** A row whose reference points far outside its arena. *)
Definition damaged_schema : RuntimeSchema := MkRuntimeSchema 1 [spec_a; spec_c; spec_b] [].
Abbreviation damaged_layout := (compile_layout damaged_schema).
Definition damaged_row : EncodedRow :=
  MkEncodedRow 1 (layout_fingerprint damaged_layout) (replicate 64 Byte.xff) [] [] [] [] [].

Lemma row_reads_memory_safe_witness :
  no_fault (ReadListValue (MkRow (Some damaged_layout) (Some damaged_row)) 10 kInt64 None)
  ∧ ReadListValue (MkRow (Some damaged_layout) (Some damaged_row)) 10 kInt64 None
    = InvalidArgument "value ref offset is out of bounds".
Proof.
  split.
  - pose proof (row_reads_memory_safe 1 damaged_schema damaged_layout (Some damaged_row)
      10 kInt64 None sample_steps_before eq_refl) as H.
    cbv zeta in H. exact (proj1 (proj2 H)).
  - vm_compute. reflexivity.
Defined.
