(* ===== verification/RowProofs.v ===== *)
(** * Rows round-trip through their encoding

    Each writer stores one field: reading that field afterwards gives the
    value written, and reading any other field gives what it gave before.
    Accessors read what lookups by id read, and only on rows of their own
    layout. *)

From S2P Require Import Prelude Status ByteIo Types Schema SchemaProofs RowStorage RowSafety.

(** ** Presence bits *)

Definition presence_bit (f : FieldLayout) (slot : list byte) : bool :=
  match slot !! Z.to_nat (presence_bit_index f / 8) with
  | Some b => Z.testbit (byte_to_Z b) (presence_bit_index f mod 8)
  | None => false
  end.

Lemma land_bit_testbit x k : 0 ≤ k → negb (Z.land x (Z.shiftl 1 k) =? 0) = Z.testbit x k.
Proof.
  intros Hk. rewrite Z.shiftl_1_l. destruct (Z.testbit x k) eqn:E.
  - apply negb_true_iff, Z.eqb_neq. intros H.
    apply (f_equal (λ z, Z.testbit z k)) in H.
    by rewrite Z.land_spec, E, Z.pow2_bits_true, Z.bits_0 in H.
  - apply negb_false_iff, Z.eqb_eq. apply Z.bits_inj'. intros i Hi.
    rewrite Z.land_spec, Z.bits_0, Z.pow2_bits_eqb by done.
    destruct (Z.eqb_spec k i) as [->|]; [by rewrite E|by rewrite andb_false_r].
Qed.

Lemma FieldPresent_bit f r :
  0 ≤ presence_bit_index f → FieldPresent f r = Ok (presence_bit f (row_slot r)).
Proof.
  intros Hb. unfold FieldPresent, presence_bit.
  pose proof (Z.div_pos (presence_bit_index f) 8 Hb ltac:(lia)).
  pose proof (Z.mod_pos_bound (presence_bit_index f) 8 ltac:(lia)).
  destruct (Z.leb_spec (Zlen (row_slot r)) (presence_bit_index f / 8)).
  - rewrite lookup_ge_None_2; [done|]. unfold Zlen in *. lia.
  - destruct (at_in (E := Status) (row_slot r) (presence_bit_index f / 8)) as (b & -> & ->);
      [lia|]. cbn [obind]. rewrite land_bit_testbit by lia. done.
Qed.

(** The slot with the field's presence bit set. *)
Definition with_bit (f : FieldLayout) (slot : list byte) : list byte :=
  let n := Z.to_nat (presence_bit_index f / 8) in
  match slot !! n with
  | Some b => <[n := byte_of_Z (Z.lor (byte_to_Z b) (2 ^ (presence_bit_index f mod 8)))]> slot
  | None => slot
  end.

Lemma length_with_bit f slot : length (with_bit f slot) = length slot.
Proof. unfold with_bit. case_match; [apply length_insert|done]. Qed.

Lemma SetFieldPresent_bit f r :
  0 ≤ presence_bit_index f → presence_bit_index f / 8 < Zlen (row_slot r) →
  SetFieldPresent f (Some r) = (Ok tt, Some (set_row_slot (with_bit f (row_slot r)) r)).
Proof.
  intros Hb Hl. pose proof (Z.div_pos (presence_bit_index f) 8 Hb ltac:(lia)).
  pose proof (Z.mod_pos_bound (presence_bit_index f) 8 ltac:(lia)).
  unfold SetFieldPresent, sbind. cbn [check_not_null on_row_slot].
  unfold set_presence_bit, with_bit. rewrite (proj2 (Z.leb_gt _ _)) by done.
  destruct (at_in (E := Status) (row_slot r) (presence_bit_index f / 8)) as (b & -> & ->); [lia|].
  rewrite set_at_in by lia. rewrite Z.shiftl_1_l. unfold wrap8.
  rewrite (Z.mod_small (2 ^ _) (2 ^ 8)); [done|].
  split; [apply Z.pow_nonneg; lia|apply Z.pow_lt_mono_r; lia].
Qed.

Lemma lor_byte_bit b k i :
  0 ≤ k < 8 → 0 ≤ i < 8 →
  Z.testbit (byte_to_Z (byte_of_Z (Z.lor (byte_to_Z b) (2 ^ k)))) i
  = Z.testbit (byte_to_Z b) i || (k =? i).
Proof.
  intros Hk Hi. rewrite byte_to_of_Z. change 256 with (2 ^ 8).
  rewrite Z.mod_pow2_bits_low by lia. rewrite Z.lor_spec, Z.pow2_bits_eqb by lia. done.
Qed.

Lemma presence_bit_with_bit f g slot :
  0 ≤ presence_bit_index f → 0 ≤ presence_bit_index g →
  presence_bit_index f / 8 < Zlen slot →
  presence_bit g (with_bit f slot)
  = presence_bit g slot || (presence_bit_index f =? presence_bit_index g).
Proof.
  intros Hf Hg Hl. unfold presence_bit, with_bit.
  pose proof (Z.div_pos _ 8 Hf ltac:(lia)). pose proof (Z.div_pos _ 8 Hg ltac:(lia)).
  pose proof (Z.div_mod (presence_bit_index f) 8 ltac:(lia)).
  pose proof (Z.div_mod (presence_bit_index g) 8 ltac:(lia)).
  pose proof (Z.mod_pos_bound (presence_bit_index f) 8 ltac:(lia)).
  pose proof (Z.mod_pos_bound (presence_bit_index g) 8 ltac:(lia)).
  destruct (at_in (E := Status) slot (presence_bit_index f / 8)) as (b & Hb & _); [lia|].
  rewrite Hb. destruct (Z.eq_dec (presence_bit_index f / 8) (presence_bit_index g / 8)) as [Heq|Hne].
  - rewrite <-Heq. rewrite list_lookup_insert_eq by (by eapply lookup_lt_Some). rewrite Hb.
    rewrite lor_byte_bit by lia. f_equal. apply Bool.eq_iff_eq_true. rewrite !Z.eqb_eq. lia.
  - rewrite list_lookup_insert_ne by lia.
    rewrite (proj2 (Z.eqb_neq _ _)) by congruence. by rewrite orb_false_r.
Qed.

(** ** Storing one field *)

(** The slot after a writer has stored [bytes] as the field. *)
Definition store_field (f : FieldLayout) (bytes slot : list byte) : list byte :=
  with_bit f (splice (Z.to_nat (slot_offset f)) bytes slot).

(** The bytes of a field inside a slot. *)
Definition field_bytes (f : FieldLayout) (slot : list byte) : list byte :=
  slice (Z.to_nat (slot_offset f)) (Z.to_nat (value_width f)) slot.

Section Store.
Context (L : CompiledRowLayout) (Hwf : layout_wf L).

Lemma slot_room f : f ∈ fields L →
  0 ≤ slot_offset f ∧ 0 < value_width f
  ∧ presence_bit_index f / 8 < presence_bitmap_bytes L ≤ slot_offset f
  ∧ slot_offset f + value_width f ≤ row_slot_size L.
Proof.
  intros Hf. destruct (lw_slot L Hwf f Hf) as (? & ? & _).
  pose proof (field_bit L f Hwf Hf). pose proof (field_slot_nonneg L f Hwf Hf).
  destruct (lw_shape L Hwf f Hf) as (_ & Hw & _).
  split_and!; [lia| |apply Z.div_lt_upper_bound; lia|lia..].
  rewrite Hw. destruct (uses_ref f); [lia|]. by destruct (type f).
Qed.

Lemma presence_bit_splice f g bytes slot :
  f ∈ fields L → g ∈ fields L → Zlen bytes = value_width f → row_slot_size L ≤ Zlen slot →
  presence_bit g (splice (Z.to_nat (slot_offset f)) bytes slot) = presence_bit g slot.
Proof.
  intros Hf Hg Hb Hs. destruct (slot_room f Hf) as (? & ? & ? & ?).
  destruct (slot_room g Hg) as (? & ? & [Hpg _] & ?).
  pose proof (field_bit L g Hwf Hg).
  pose proof (Z.div_pos (presence_bit_index g) 8 ltac:(lia) ltac:(lia)).
  unfold presence_bit. rewrite lookup_splice_out; [done|unfold Zlen in *; lia..].
Qed.

Lemma slice_with_bit f g slot off n :
  f ∈ fields L → g ∈ fields L → (Z.to_nat (presence_bitmap_bytes L) ≤ off)%nat →
  slice off n (with_bit f slot) = slice off n slot.
Proof.
  intros Hf Hg Ho. destruct (slot_room f Hf) as (? & ? & ? & ?).
  pose proof (field_bit L f Hwf Hf).
  pose proof (Z.div_pos (presence_bit_index f) 8 ltac:(lia) ltac:(lia)).
  unfold with_bit. case_match; [|done]. apply slice_insert_ne. lia.
Qed.

(** A stored field is present with its bytes; every other field of the
    layout keeps its presence bit and its bytes. *)
Lemma store_field_spec f bytes slot :
  f ∈ fields L → Zlen bytes = value_width f → row_slot_size L ≤ Zlen slot →
  let slot' := store_field f bytes slot in
  length slot' = length slot
  ∧ presence_bit f slot' = true ∧ field_bytes f slot' = bytes
  ∧ ∀ g, g ∈ fields L → field_id g ≠ field_id f →
      presence_bit g slot' = presence_bit g slot ∧ field_bytes g slot' = field_bytes g slot.
Proof.
  intros Hf Hb Hs. cbn zeta. pose proof (slot_room f Hf) as (Hf1 & Hf2 & [Hf3 Hf4] & Hf5).
  pose proof (field_bit L f Hwf Hf) as Hbit.
  assert (Z.to_nat (slot_offset f) + length bytes ≤ length slot)%nat as Hfit
    by (unfold Zlen in *; lia).
  assert (presence_bit_index f / 8 < Zlen (splice (Z.to_nat (slot_offset f)) bytes slot)) as Hpb.
  { unfold Zlen in *. rewrite length_splice by done. lia. }
  unfold store_field, field_bytes. split_and!.
  - by rewrite length_with_bit, length_splice.
  - rewrite presence_bit_with_bit, Z.eqb_refl, orb_true_r by lia. done.
  - rewrite (slice_with_bit f f) by (done || lia).
    replace (Z.to_nat (value_width f)) with (length bytes) by (unfold Zlen in *; lia).
    by rewrite slice_splice_same.
  - intros g Hg Hne. pose proof (slot_room g Hg) as (Hg1 & Hg2 & Hg3 & Hg5).
    pose proof (field_bit L g Hwf Hg).
    apply list_elem_of_lookup in Hf as Hf', Hg as Hg'.
    destruct Hf' as [i Hi], Hg' as [j Hj].
    assert (i ≠ j) as Hij by (intros ->; congruence).
    split.
    + rewrite presence_bit_with_bit by lia. rewrite presence_bit_splice by done.
      rewrite (lw_bits L Hwf i f Hi), (lw_bits L Hwf j g Hj).
      rewrite (proj2 (Z.eqb_neq _ _)) by lia. by rewrite orb_false_r.
    + rewrite (slice_with_bit f g) by (done || lia).
      apply slice_splice_disjoint; [done|].
      destruct (lw_disjoint L Hwf i j f g Hij Hi Hj); unfold Zlen in *; lia.
Qed.
End Store.

(** ** Reads that survive a write *)

(** [keeps c c']: a call that succeeded, or found nothing, still does so with
    the same answer. *)
Definition keeps {A} (c c' : StatusOr A) : Prop :=
  match c with
  | Ok v => c' = Ok v
  | Err e => status_code e = kNotFound → c' = Err e
  | Fault _ => True
  end.

Lemma keeps_refl {A} (c : StatusOr A) : keeps c c.
Proof. by destruct c. Qed.

Lemma keeps_bind {A B} (c c' : StatusOr A) (k k' : A → StatusOr B) :
  keeps c c' → (∀ a, c = Ok a → keeps (k a) (k' a)) → keeps (obind c k) (obind c' k').
Proof.
  destruct c as [a|e|f]; simpl; [intros -> H; by apply H| |done].
  intros H _ He. by rewrite H.
Qed.

Lemma keeps_omapM {A B} (f g : A → StatusOr B) l :
  (∀ x, x ∈ l → keeps (f x) (g x)) → keeps (omapM f l) (omapM g l).
Proof.
  induction l as [|x l IH]; intros H; simpl; [done|].
  apply keeps_bind; [apply H; left|]. intros y _.
  apply keeps_bind; [|done]. apply IH. intros z Hz. apply H. by right.
Qed.

Lemma keeps_trans {A} (c1 c2 c3 : StatusOr A) : keeps c1 c2 → keeps c2 c3 → keeps c1 c3.
Proof. destruct c1; simpl; [intros ->; done| |done]. intros H H' He. by rewrite H in H' by done; apply H'. Qed.

(** What a field's reads depend on: its own bytes, and an arena and
    dictionaries that may only have grown. *)
Record extends (f : FieldLayout) (r r' : EncodedRow) : Prop := {
  ex_length : length (row_slot r') = length (row_slot r);
  ex_bit : presence_bit f (row_slot r') = presence_bit f (row_slot r);
  ex_bytes : field_bytes f (row_slot r') = field_bytes f (row_slot r);
  ex_arena : ∃ more, arena r' = arena r ++ more;
  ex_strings : string_dictionary r `prefix_of` string_dictionary r';
  ex_scalar_lists : scalar_list_dictionary r `prefix_of` scalar_list_dictionary r';
  ex_string_lists : string_list_dictionary r `prefix_of` string_list_dictionary r';
  ex_elements : string_element_dictionary r `prefix_of` string_element_dictionary r';
}.

Lemma ReadLittleEndian_ext t b1 b2 off :
  0 ≤ off → length b1 = length b2 →
  slice (Z.to_nat off) (it_size t) b1 = slice (Z.to_nat off) (it_size t) b2 →
  ReadLittleEndian t b1 off = ReadLittleEndian t b2 off.
Proof.
  intros Ho Hl Hs. destruct (Z.le_gt_cases (off + Z.of_nat (it_size t)) (Zlen b1)) as [H|H].
  - rewrite !ReadLittleEndian_in by (unfold Zlen in *; lia). by rewrite Hs.
  - unfold ReadLittleEndian, Zlen in *. rewrite <-Hl.
    destruct (CheckSpanBounds_cases (Z.of_nat (length b1)) off (Z.of_nat (it_size t)))
      as [E| ->]; [|done].
    apply CheckSpanBounds_Ok in E; lia.
Qed.

Lemma slice_sub {A} off n off' n' (l1 l2 : list A) :
  slice off n l1 = slice off n l2 → (off ≤ off')%nat → (off' + n' ≤ off + n)%nat →
  slice off' n' l1 = slice off' n' l2.
Proof.
  intros H Ho Hn. replace off' with (off + (off' - off))%nat by lia.
  rewrite <-!(slice_slice off n (off' - off) n') by lia. by rewrite H.
Qed.

Lemma DecodeValueRef16_ext b1 b2 off :
  0 ≤ off → length b1 = length b2 →
  slice (Z.to_nat off) 16 b1 = slice (Z.to_nat off) 16 b2 →
  DecodeValueRef16 b1 off = DecodeValueRef16 b2 off.
Proof.
  intros Ho Hl Hs. unfold DecodeValueRef16, Zlen. rewrite Hl.
  rewrite !(ReadLittleEndian_ext _ b1 b2) by
    (first [lia | done | eapply slice_sub; [exact Hs|simpl; lia..]]). done.
Qed.

Lemma ReadLittleEndian_keeps t b more off :
  0 ≤ off → keeps (ReadLittleEndian t b off) (ReadLittleEndian t (b ++ more) off).
Proof.
  intros Ho. destruct (Z.le_gt_cases (off + Z.of_nat (it_size t)) (Zlen b)) as [H|H].
  - rewrite ReadLittleEndian_app by done. apply keeps_refl.
  - unfold ReadLittleEndian at 1.
    destruct (CheckSpanBounds_cases (Zlen b) off (Z.of_nat (it_size t))) as [E| ->]; [|done].
    apply CheckSpanBounds_Ok in E; lia.
Qed.

Lemma CheckSpanBounds_keeps b (more : list byte) off n :
  0 ≤ off → 0 ≤ n → keeps (CheckSpanBounds (Zlen b) off n) (CheckSpanBounds (Zlen (b ++ more)) off n).
Proof.
  intros Ho Hn. destruct (CheckSpanBounds_cases (Zlen b) off n) as [E|E]; rewrite E; [|done].
  simpl. apply CheckSpanBounds_Ok; [done..|]. apply CheckSpanBounds_Ok in E; [|done..].
  rewrite Zlen_app. pose proof (Zlen_nonneg more). lia.
Qed.

Lemma DecodeValueRef16_keeps b more off :
  0 ≤ off → keeps (DecodeValueRef16 b off) (DecodeValueRef16 (b ++ more) off).
Proof.
  intros Ho. unfold DecodeValueRef16.
  apply keeps_bind; [by apply CheckSpanBounds_keeps|]. intros _ _.
  apply keeps_bind; [by apply ReadLittleEndian_keeps|]. intros ? _.
  apply keeps_bind; [apply ReadLittleEndian_keeps; lia|]. intros ? _.
  apply keeps_bind; [apply ReadLittleEndian_keeps; lia|]. intros ? _. done.
Qed.

Lemma ValidateRefBounds_keeps ref b (more : list byte) :
  keeps (ValidateRefBounds ref (Zlen b)) (ValidateRefBounds ref (Zlen (b ++ more))).
Proof.
  destruct (ValidateRefBounds ref (Zlen b)) as [[]|e|] eqn:E; simpl; [| |done].
  - apply ValidateRefBounds_Ok. apply ValidateRefBounds_Ok in E.
    rewrite Zlen_app. pose proof (Zlen_nonneg more). lia.
  - revert E. unfold ValidateRefBounds. case_inner; [by intros [= <-]|].
    case_inner; by intros [= <-].
Qed.

Lemma subspan_keeps b more off n : keeps (subspan b off n) (subspan (b ++ more) off n).
Proof.
  unfold subspan. pose proof (Zlen_nonneg more).
  destruct (_ && _ && (off + n <=? Zlen b)) eqn:E; [|done]. btoprop. rewrite Zlen_app.
  rewrite !(proj2 (Z.leb_le _ _)) by lia. simpl. rewrite slice_app_l; [done|].
  unfold Zlen in *. lia.
Qed.

(** An entry of a dictionary stays where it is. *)
Lemma dictionary_keeps {A B} (l l' : list A) i m (k : A → StatusOr B) :
  l `prefix_of` l' →
  keeps (if Zlen l <=? i then InvalidArgument m else obind (at_ l i) k)
        (if Zlen l' <=? i then InvalidArgument m else obind (at_ l' i) k).
Proof.
  intros [more ->]. destruct (Z.leb_spec (Zlen l) i); [done|].
  rewrite Zlen_app. pose proof (Zlen_nonneg more). rewrite (proj2 (Z.leb_gt _ _)) by lia.
  apply keeps_bind; [|intros; apply keeps_refl].
  destruct (at_ l i) as [x|e|f] eqn:E; [|by unfold at_ in E; repeat case_match|done].
  apply at_Ok in E as [Hi Hx]. apply at_Ok. split; [done|]. by apply lookup_app_l_Some.
Qed.

Lemma obind_ret {E A} (c : outcome E A) : obind c Ok = c.
Proof. by destruct c. Qed.

Section Keeps.
Context (L : CompiledRowLayout) (Hwf : layout_wf L).
Context (f : FieldLayout) (r r' : EncodedRow).
Hypotheses (Hf : f ∈ fields L) (Hext : extends f r r').

Lemma FieldPresent_extends : FieldPresent f r' = FieldPresent f r.
Proof.
  pose proof (field_bit L f Hwf Hf). rewrite !FieldPresent_bit by lia.
  by rewrite (ex_bit _ _ _ Hext).
Qed.

Lemma ReadRef_extends : uses_ref f = true → ReadRef f r' = ReadRef f r.
Proof.
  intros Hr. destruct (lw_shape L Hwf f Hf) as (_ & Hw & _). rewrite Hr in Hw.
  unfold ReadRef, Zlen. rewrite (ex_length _ _ _ Hext). case_inner; [done|].
  apply DecodeValueRef16_ext; [by eapply field_slot_nonneg|apply Hext|].
  pose proof (ex_bytes _ _ _ Hext) as H. unfold field_bytes in H. by rewrite Hw in H.
Qed.

Lemma list_decode_extends T bytes n :
  keeps (DecodeScalarListByType T bytes n) (DecodeScalarListByType T bytes n).
Proof. apply keeps_refl. Qed.

Lemma string_list_extends ref :
  keeps (DecodeArenaStringList ref r) (DecodeArenaStringList ref r').
Proof.
  destruct (ex_arena _ _ _ Hext) as [more Ha]. unfold DecodeArenaStringList. rewrite Ha.
  case_inner; [done|]. apply keeps_bind; [apply ValidateRefBounds_keeps|]. intros _ _.
  apply keeps_bind; [|done]. apply keeps_omapM. intros i _.
  apply keeps_bind; [apply DecodeValueRef16_keeps, wrap64_range|]. intros e _.
  apply keeps_bind; [apply ValidateRefBounds_keeps|]. intros _ _. apply subspan_keeps.
Qed.

Lemma element_list_extends ref :
  keeps (read_element_dictionary f ref r) (read_element_dictionary f ref r').
Proof.
  destruct (ex_arena _ _ _ Hext) as [more Ha]. unfold read_element_dictionary.
  rewrite Ha.
  case_inner; [done|]. apply keeps_bind; [apply ValidateRefBounds_keeps|]. intros _ _.
  case_inner; [done|]. apply keeps_bind; [|done]. apply keeps_omapM. intros i _.
  apply keeps_bind; [apply ReadLittleEndian_keeps, wrap64_range|]. intros d _.
  rewrite <-(obind_ret (at_ (string_element_dictionary r) d)),
    <-(obind_ret (at_ (string_element_dictionary r') d)).
  apply dictionary_keeps, Hext.
Qed.

Lemma scalar_field_keeps :
  is_list f = false → keeps (scalar_field_value f r) (scalar_field_value f r').
Proof.
  intros Hl. destruct (lw_shape L Hwf f Hf) as (Hu & Hw & _).
  destruct (ex_arena _ _ _ Hext) as [more Ha].
  unfold scalar_field_value. rewrite FieldPresent_extends.
  apply keeps_bind; [apply keeps_refl|]. intros p _. destruct p; cbn [negb]; [|apply keeps_refl].
  rewrite Hl in Hu. unfold IsRefField in Hu. cbn [orb] in Hu.
  destruct (decide (type f = kString)) as [Ht|Ht].
  - rewrite bool_decide_eq_true_2 in Hu by done. rewrite (ReadRef_extends Hu).
    apply keeps_bind; [apply keeps_refl|]. intros ref _.
    destruct (encoding f); try apply keeps_refl.
    + rewrite Ha. apply keeps_bind; [apply ValidateRefBounds_keeps|]. intros _ _.
      apply keeps_bind; [apply subspan_keeps|done].
    + apply dictionary_keeps, Hext.
  - rewrite bool_decide_eq_false_2 in Hu by done. rewrite Hu in Hw.
    unfold Zlen. rewrite (ex_length _ _ _ Hext). case_inner; [done|].
    unfold read_scalar_word.
    rewrite (ReadLittleEndian_ext _ (row_slot r') (row_slot r)); [apply keeps_refl|..].
    + by eapply field_slot_nonneg.
    + apply Hext.
    + pose proof (ex_bytes _ _ _ Hext) as H. unfold field_bytes in H. rewrite Hw in H.
      by destruct (type f).
Qed.

Lemma list_field_keeps :
  is_list f = true → keeps (list_field_value f r) (list_field_value f r').
Proof.
  intros Hl. destruct (lw_shape L Hwf f Hf) as (Hu & _).
  destruct (ex_arena _ _ _ Hext) as [more Ha].
  unfold list_field_value. rewrite FieldPresent_extends.
  apply keeps_bind; [apply keeps_refl|]. intros p _. destruct p; cbn [negb]; [|apply keeps_refl].
  rewrite Hl in Hu. rewrite (ReadRef_extends Hu).
  apply keeps_bind; [apply keeps_refl|]. intros ref _.
  destruct (encoding f); try apply keeps_refl.
  - rewrite Ha at 1. apply keeps_bind; [apply ValidateRefBounds_keeps|]. intros _ _.
    rewrite Ha. apply keeps_bind; [apply subspan_keeps|]. intros payload _.
    case_inner; [apply string_list_extends|apply keeps_refl].
  - unfold read_list_dictionary. case_inner; apply dictionary_keeps, Hext.
  - apply element_list_extends.
Qed.
End Keeps.

(** ** Rows of a layout *)

(** The row was created for the layout (and possibly written to since); its
    slot may be longer than the layout needs. *)
Record row_ok (L : CompiledRowLayout) (r : EncodedRow) : Prop := {
  ro_version : row_schema_version r = schema_version L;
  ro_fingerprint : row_layout_fingerprint r = layout_fingerprint L;
  ro_slot : row_slot_size L ≤ Zlen (row_slot r);
}.

Definition row_of (L : CompiledRowLayout) (r : EncodedRow) : Row := MkRow (Some L) (Some r).

(** Reading any other field is unaffected: what could be read reads the
    same, and what was absent is still absent. *)
Definition others_kept (L : CompiledRowLayout) (f : FieldLayout) (r r' : EncodedRow) : Prop :=
  ∀ id T a, id ≠ field_id f →
    keeps (ReadScalarValue (row_of L r) id T a) (ReadScalarValue (row_of L r') id T a)
    ∧ keeps (ReadListValue (row_of L r) id T a) (ReadListValue (row_of L r') id T a)
    ∧ Row_Has (row_of L r') id = Row_Has (row_of L r) id.

Lemma ResolveField_by_id L r f :
  layout_wf L → row_ok L r → f ∈ fields L →
  ResolveField (Some L) (Some r) (field_id f) (type f) (is_list f) None = Ok f.
Proof.
  intros Hwf [Hv Hfp _] Hf. unfold ResolveField. rewrite Hv, Hfp, !Z.eqb_refl. cbn [negb orb].
  rewrite FindField_in by done. rewrite eqb_reflx. cbn [negb].
  destruct (decide (type f ≠ type f)); done.
Qed.

Lemma ReadScalarValue_by_id L r f :
  layout_wf L → row_ok L r → f ∈ fields L → is_list f = false →
  ReadScalarValue (row_of L r) (field_id f) (type f) None = scalar_field_value f r.
Proof.
  intros Hwf Hr Hf Hl. unfold ReadScalarValue. cbn [row_layout row_encoded row_of].
  rewrite <-Hl, ResolveField_by_id by done. done.
Qed.

Lemma ReadListValue_by_id L r f :
  layout_wf L → row_ok L r → f ∈ fields L → is_list f = true →
  ReadListValue (row_of L r) (field_id f) (type f) None = list_field_value f r.
Proof.
  intros Hwf Hr Hf Hl. unfold ReadListValue. cbn [row_layout row_encoded row_of].
  rewrite <-Hl, ResolveField_by_id by done. done.
Qed.

Lemma ResolveField_versions L r r' id T l a :
  row_schema_version r' = row_schema_version r →
  row_layout_fingerprint r' = row_layout_fingerprint r →
  ResolveField (Some L) (Some r') id T l a = ResolveField (Some L) (Some r) id T l a.
Proof.
  intros Hv Hf. unfold ResolveField, ValidateAccessor, accessor_version_mismatch.
  by rewrite Hv, Hf.
Qed.

Lemma extends_others_kept L f r r' :
  layout_wf L → row_ok L r → row_ok L r' →
  (∀ g, g ∈ fields L → field_id g ≠ field_id f → extends g r r') →
  others_kept L f r r'.
Proof.
  intros Hwf [Hv Hfp _] [Hv' Hfp' _] Hext id T a Hne.
  assert (∀ T l a g, ResolveField (Some L) (Some r) id T l a = Ok g →
    g ∈ fields L ∧ is_list g = l ∧ extends g r r') as Hres.
  { intros T' l a' g Hg. apply ResolveField_Ok in Hg as (L' & R' & [= <-] & _ & Hin & Hid & Hl & _).
    split_and!; [done..|]. apply Hext; [done|congruence]. }
  split_and!.
  - unfold ReadScalarValue. cbn [row_layout row_encoded row_of].
    rewrite (ResolveField_versions L r r') by congruence.
    apply keeps_bind; [apply keeps_refl|]. intros g (Hin & Hl & Hg)%Hres.
    by eapply scalar_field_keeps.
  - unfold ReadListValue. cbn [row_layout row_encoded row_of].
    rewrite (ResolveField_versions L r r') by congruence.
    apply keeps_bind; [apply keeps_refl|]. intros g (Hin & Hl & Hg)%Hres.
    by eapply list_field_keeps.
  - unfold Row_Has. cbn [row_layout row_encoded row_of]. rewrite FindField_key.
    destruct (find_key _ _ _) as [g|] eqn:E; [|done].
    apply find_key_Some_1 in E as [Hin Hid].
    eapply FieldPresent_extends; [done..|]. apply Hext; [done|congruence].
Qed.

(** ** The writers *)

(** The row after a writer stored [bytes] in the field's slot and appended
    [more] to the arena. *)
Definition stored (f : FieldLayout) (bytes more : list byte) (r : EncodedRow) : EncodedRow :=
  set_row_slot (store_field f bytes (row_slot r)) (set_arena (arena r ++ more) r).

Lemma le_word_back t w :
  (0 < it_size t)%nat → in_int_range t w →
  of_unsigned t (le_value (le_bytes (it_size t) (to_unsigned t w))) = w.
Proof.
  intros Hs Hw. rewrite le_value_bytes. fold (it_modulus t).
  rewrite Z.mod_small by (apply Z.mod_pos_bound, it_modulus_pos). by apply of_to_unsigned.
Qed.

Section Writers.
Context (L : CompiledRowLayout) (Hwf : layout_wf L).
Context (f : FieldLayout) (r : EncodedRow).
Hypotheses (Hf : f ∈ fields L) (Hr : row_ok L r).

Lemma stored_row_ok bytes more :
  Zlen bytes = value_width f → row_ok L (stored f bytes more r).
Proof.
  intros Hb. destruct Hr as [Hv Hfp Hs].
  destruct (store_field_spec L Hwf f bytes (row_slot r) Hf Hb ltac:(lia)) as (Hl & _).
  split; [done|done|]. simpl. unfold Zlen in *. by rewrite Hl.
Qed.

Lemma stored_others_kept bytes more :
  Zlen bytes = value_width f → others_kept L f r (stored f bytes more r).
Proof.
  intros Hb. apply extends_others_kept; [done..|by apply stored_row_ok|].
  intros g Hg Hne.
  destruct (store_field_spec L Hwf f bytes (row_slot r) Hf Hb) as (Hl & _ & _ & Hk);
    [destruct Hr; lia|].
  destruct (Hk g Hg Hne) as [Hbit Hby].
  split; try done. by exists more.
Qed.

Lemma stored_present bytes more :
  Zlen bytes = value_width f → FieldPresent f (stored f bytes more r) = Ok true.
Proof.
  intros Hb. pose proof (field_bit L f Hwf Hf). rewrite FieldPresent_bit by lia.
  destruct (store_field_spec L Hwf f bytes (row_slot r) Hf Hb) as (_ & Hbit & _);
    [destruct Hr; lia|]. simpl. by rewrite Hbit.
Qed.

Lemma stored_slice bytes more :
  Zlen bytes = value_width f →
  slice (Z.to_nat (slot_offset f)) (length bytes) (row_slot (stored f bytes more r)) = bytes.
Proof.
  intros Hb.
  destruct (store_field_spec L Hwf f bytes (row_slot r) Hf Hb) as (_ & _ & Hby & _);
    [destruct Hr; lia|].
  unfold field_bytes in Hby. rewrite <-Hb in Hby. unfold Zlen in Hby.
  by rewrite Nat2Z.id in Hby.
Qed.

(** A word or reference written to the slot, then marked present. *)
Lemma write_then_present (bytes more : list byte) r0 :
  Zlen bytes = value_width f → row_slot r0 = splice (Z.to_nat (slot_offset f)) bytes (row_slot r) →
  SetFieldPresent f (Some r0) = (Ok tt, Some (set_row_slot (store_field f bytes (row_slot r)) r0)).
Proof.
  intros Hb Hs. destruct (slot_room L Hwf f Hf) as (? & ? & ? & ?).
  pose proof (field_bit L f Hwf Hf). destruct Hr.
  rewrite SetFieldPresent_bit; [by rewrite Hs|lia|].
  rewrite Hs. unfold Zlen in *. rewrite length_splice; lia.
Qed.

Lemma WriteValueRefField_stored ref more :
  uses_ref f = true → ref_wf ref →
  WriteValueRefField f ref (Some (set_arena (arena r ++ more) r))
  = (Ok tt, Some (stored f (ref_bytes ref) more r)).
Proof.
  intros Hu Hwfr. destruct (slot_room L Hwf f Hf) as (? & ? & ? & ?).
  destruct (lw_shape L Hwf f Hf) as (_ & Hw & _). rewrite Hu in Hw.
  unfold WriteValueRefField, sbind. cbn [check_not_null]. rewrite Hu. cbn [negb on_row_slot].
  cbn [row_slot set_arena]. destruct Hr. rewrite WriteValueRef16_in by (done || lia).
  rewrite (write_then_present (ref_bytes ref) more); [done|by rewrite Hw|done].
Qed.

Lemma WriteScalarField_stored v w :
  is_list f = false → type f = scalar_type v → scalar_word v = Some w →
  WriteScalarField f v (Some r)
  = (Ok tt, Some (stored f (le_bytes (it_size (field_int_type (type f)))
      (to_unsigned (field_int_type (type f)) w)) [] r)).
Proof.
  intros Hl Ht Hword. destruct (slot_room L Hwf f Hf) as (? & ? & ? & ?).
  destruct (lw_shape L Hwf f Hf) as (Hu & Hw & _). destruct Hr.
  assert (uses_ref f = false) as Hu'.
  { rewrite Hu, Hl, Ht. by destruct v. }
  rewrite Hu' in Hw.
  assert (Z.of_nat (it_size (field_int_type (type f))) = value_width f) as Hsz.
  { rewrite Hw, Ht. by destruct v. }
  unfold WriteScalarField, sbind. cbn [check_not_null get_row].
  rewrite Hl, Hu', bool_decide_eq_true_2 by done. cbn [orb negb get_row].
  rewrite (proj2 (Z.ltb_ge _ _)), (proj2 (Z.ltb_ge _ _)) by lia. cbn [orb].
  rewrite Hword. cbn [on_row_slot]. rewrite <-Ht. rewrite WriteLittleEndian_in by lia.
  rewrite (write_then_present (le_bytes (it_size (field_int_type (type f)))
    (to_unsigned (field_int_type (type f)) w)) []).
  - unfold stored. rewrite app_nil_r. by destruct r.
  - unfold Zlen. by rewrite length_le_bytes.
  - done.
Qed.

Lemma stored_ref ref more :
  uses_ref f = true → ref_wf ref →
  ReadRef f (stored f (ref_bytes ref) more r) = Ok ref.
Proof.
  intros Hu Hwfr. destruct (slot_room L Hwf f Hf) as (? & ? & ? & ?).
  destruct (lw_shape L Hwf f Hf) as (_ & Hw & _). rewrite Hu in Hw.
  destruct (stored_row_ok (ref_bytes ref) more) as [_ _ Hsz]; [by rewrite Hw|]. unfold ReadRef.
  unfold HasBytes. rewrite !(proj2 (Z.leb_le _ _)) by lia. cbn [andb negb].
  apply DecodeValueRef16_slice; [done|lia..|].
  apply (stored_slice (ref_bytes ref) more). by rewrite Hw.
Qed.
End Writers.

(** The values a field of an integer or boolean type can hold. *)
Definition scalar_ok (v : ScalarValue) : Prop :=
  match v with
  | SInt8 w => in_int_range int8_t w
  | SInt32 w => in_int_range int32_t w
  | SInt64 w => in_int_range int64_t w
  | SUInt64 w => in_int_range uint64_t w
  | SBool _ => True
  | SString _ => False
  end.

Lemma scalar_word_range v :
  scalar_ok v → ∃ w, scalar_word v = Some w ∧ in_int_range (field_int_type (scalar_type v)) w.
Proof.
  destruct v as [w|w|w|w|b|s]; simpl; intros H; try done; try by exists w.
  exists (bool_word b). split; [done|]. unfold in_int_range, it_modulus. destruct b; simpl; lia.
Qed.

Lemma Row_Get_Ok T row id a v :
  ReadScalarValue row id T a = Ok v → scalar_type v = T → Row_Get T row id a = Ok (Some v).
Proof. intros H Ht. unfold Row_Get. rewrite H. by rewrite decide_True. Qed.

Lemma Row_GetList_Ok T row id a v :
  ReadListValue row id T a = Ok v → list_type v = T → Row_GetList T row id a = Ok v.
Proof. intros H Ht. unfold Row_GetList. rewrite H. by rewrite decide_True. Qed.

(** ** What a write leaves *)

(** The field is present and reads as the value. *)
Definition holds_scalar (L : CompiledRowLayout) (f : FieldLayout) (v : ScalarValue)
    (r : EncodedRow) : Prop :=
  is_list f = false ∧ type f = scalar_type v
  ∧ Row_Has (row_of L r) (field_id f) = Ok true
  ∧ ReadScalarValue (row_of L r) (field_id f) (type f) None = Ok v.

Definition holds_list (L : CompiledRowLayout) (f : FieldLayout) (vs : ListValue)
    (r : EncodedRow) : Prop :=
  is_list f = true ∧ type f = list_type vs
  ∧ Row_Has (row_of L r) (field_id f) = Ok true
  ∧ ReadListValue (row_of L r) (field_id f) (type f) None = Ok vs.

Definition dictionaries (r : EncodedRow)
    : list cpp_string * list (list byte) * list (list cpp_string) * list cpp_string :=
  (string_dictionary r, scalar_list_dictionary r, string_list_dictionary r,
   string_element_dictionary r).

(** A row [r] became [r'] by storing field [f], which now satisfies [R]; the
    arena grew by at most [n] bytes. *)
Record stores (L : CompiledRowLayout) (f : FieldLayout) (R : EncodedRow → Prop) (n : Z)
    (r r' : EncodedRow) : Prop := {
  st_row : row_ok L r';
  st_holds : R r';
  st_others : others_kept L f r r';
  st_slot : length (row_slot r') = length (row_slot r);
  st_arena : Zlen (arena r') ≤ Zlen (arena r) + n;
  st_dictionaries : dictionaries r' = dictionaries r;
}.

Section Stored.
Context (L : CompiledRowLayout) (Hwf : layout_wf L).
Context (f : FieldLayout) (r : EncodedRow).
Hypotheses (Hf : f ∈ fields L) (Hr : row_ok L r).

Lemma stored_stores bytes more R :
  Zlen bytes = value_width f → R (stored f bytes more r) →
  stores L f R (Zlen more) r (stored f bytes more r).
Proof.
  intros Hb HR. split; [by apply stored_row_ok|done|by apply stored_others_kept| | |done].
  - destruct Hr. by apply (store_field_spec L Hwf f bytes (row_slot r) Hf Hb ltac:(lia)).
  - simpl. rewrite Zlen_app. lia.
Qed.

Lemma stored_has bytes more :
  Zlen bytes = value_width f → Row_Has (row_of L (stored f bytes more r)) (field_id f) = Ok true.
Proof.
  intros Hb. unfold Row_Has, row_of. cbn [row_layout row_encoded].
  rewrite FindField_in by done. by eapply stored_present.
Qed.

(** A scalar value of the field's type, written to its slot. *)
Lemma scalar_write_stores v :
  is_list f = false → type f = scalar_type v → scalar_ok v →
  ∃ r', WriteScalarField f v (Some r) = (Ok tt, Some r')
    ∧ stores L f (holds_scalar L f v) 0 r r'.
Proof.
  intros Hlist Ht Hv. destruct (scalar_word_range v Hv) as (w & Hword & Hrange).
  rewrite <-Ht in Hrange.
  rewrite (WriteScalarField_stored _ Hwf f r Hf Hr v w Hlist Ht Hword).
  set (t := field_int_type (type f)) in *.
  set (bytes := le_bytes (it_size t) (to_unsigned t w)).
  destruct (lw_shape _ Hwf f Hf) as (Hu & Hw & _). rewrite Hlist, Ht in Hu.
  assert (uses_ref f = false) as Hu' by (rewrite Hu; by destruct v). rewrite Hu' in Hw.
  assert (Zlen bytes = value_width f) as Hb.
  { unfold Zlen, bytes. rewrite length_le_bytes, Hw. unfold t. rewrite Ht. by destruct v. }
  eexists. split; [done|]. apply (stored_stores bytes []); [done|].
  split_and!; [done..|by apply stored_has|].
  rewrite ReadScalarValue_by_id by (done || by apply stored_row_ok).
  unfold scalar_field_value. rewrite (stored_present _ Hwf f r Hf Hr bytes [] Hb).
  cbn [obind negb]. rewrite decide_False by (rewrite Ht; by destruct v).
  destruct (stored_row_ok _ Hwf f r Hf Hr bytes [] Hb) as [_ _ Hsz].
  destruct (slot_room _ Hwf f Hf) as (? & ? & ? & ?).
  unfold HasBytes. rewrite !(proj2 (Z.leb_le _ _)) by lia. cbn [andb negb].
  unfold read_scalar_word. fold t.
  assert (Z.of_nat (it_size t) = value_width f) as Hsize.
  { rewrite <-Hb. unfold Zlen, bytes. by rewrite length_le_bytes. }
  rewrite ReadLittleEndian_in by lia.
  pose proof (stored_slice _ Hwf f r Hf Hr bytes [] Hb) as Hsl.
  replace (length bytes) with (it_size t) in Hsl by (unfold bytes; by rewrite length_le_bytes).
  rewrite Hsl. unfold bytes. rewrite le_word_back by (done || lia). cbn [obind].
  rewrite Ht. destruct v as [x|x|x|x|b|x]; simpl in Hword |- *; try congruence.
  injection Hword as <-. by destruct b.
Qed.
End Stored.

(** A scalar field written is the scalar read.

    On a row of any compiled layout, writing an integer or boolean value that
    fits its field's type succeeds; [Get] then returns that value, and every
    other field, scalar or list, reads as it did before the write. *)
Theorem scalar_field_roundtrip (ver : Z) (s : RuntimeSchema) (L : CompiledRowLayout)
    (r : EncodedRow) (f : FieldLayout) (v : ScalarValue)
    (Hs : reachable_schema ver s) (HL : Compile s = Ok L) (Hr : row_ok L r)
    (Hf : f ∈ fields L) (Hlist : is_list f = false) (Ht : type f = scalar_type v)
    (Hv : scalar_ok v) :
  ∃ r', WriteScalarField f v (Some r) = (Ok tt, Some r')
    ∧ row_ok L r'
    ∧ Row_Get (type f) (row_of L r') (field_id f) None = Ok (Some v)
    ∧ others_kept L f r r'.
Proof.
  injection HL as <-. pose proof (compile_layout_wf s (reachable_schema_ok _ _ Hs)) as Hwf.
  destruct (scalar_write_stores _ Hwf f r Hf Hr v Hlist Ht Hv) as (r' & Hw & [Hok Hh Hk _ _ _]).
  exists r'. split_and!; [done..| |done]. by apply Row_Get_Ok; [apply Hh|].
Qed.
