(* ===== verification/RowListProofs.v ===== *)
(** * Strings and lists round-trip through the arena and the dictionaries *)

From S2P Require Import Prelude Status ByteIo Types Schema SchemaProofs RowStorage RowSafety RowProofs.

(** ** Sequences of words *)

Definition words_bytes (t : int_type) (ws : list Z) : list byte :=
  concat ((λ w, le_bytes (it_size t) (to_unsigned t w)) <$> ws).

Lemma words_bytes_cons t w ws :
  words_bytes t (w :: ws) = le_bytes (it_size t) (to_unsigned t w) ++ words_bytes t ws.
Proof. done. Qed.

Lemma length_words_bytes t ws : length (words_bytes t ws) = (length ws * it_size t)%nat.
Proof.
  induction ws as [|w ws IH]; [done|].
  rewrite words_bytes_cons, length_app, length_le_bytes, IH. simpl. lia.
Qed.

Lemma write_words_splice t base i (ws : list Z) bytes :
  (base + i * it_size t + length ws * it_size t ≤ length bytes)%nat →
  write_words t (Z.of_nat base) (Z.of_nat (it_size t)) i ws bytes
  = (Ok tt, splice (base + i * it_size t) (words_bytes t ws) bytes).
Proof.
  revert i bytes. induction ws as [|w ws IH]; intros i bytes Hl; cbn [write_words].
  - unfold sret, splice, words_bytes. simpl. by rewrite Nat.add_0_r, take_drop.
  - unfold sbind. cbn [length] in Hl.
    rewrite WriteLittleEndian_in by (unfold Zlen; lia).
    rewrite IH by (rewrite length_splice by (rewrite length_le_bytes; lia); lia).
    replace (Z.to_nat (Z.of_nat base + Z.of_nat i * Z.of_nat (it_size t)))
      with (base + i * it_size t)%nat by lia.
    rewrite words_bytes_cons. f_equal.
    replace (base + S i * it_size t)%nat
      with (base + i * it_size t + length (le_bytes (it_size t) (to_unsigned t w)))%nat
      by (rewrite length_le_bytes; lia).
    apply splice_splice_adjacent. rewrite length_le_bytes, length_words_bytes. lia.
Qed.

Lemma slice_words_bytes t ws i w :
  ws !! i = Some w →
  slice (i * it_size t) (it_size t) (words_bytes t ws) = le_bytes (it_size t) (to_unsigned t w).
Proof.
  revert i. induction ws as [|w' ws IH]; intros i Hi; [done|].
  rewrite words_bytes_cons. destruct i as [|i]; simpl in Hi.
  - injection Hi as ->. rewrite slice_app_l by (rewrite length_le_bytes; lia).
    unfold slice. rewrite drop_0. apply take_ge. by rewrite length_le_bytes.
  - rewrite <-(IH i Hi). unfold slice. simpl.
    rewrite drop_app_ge by (rewrite length_le_bytes; lia).
    do 2 f_equal. rewrite length_le_bytes. lia.
Qed.

(** Reading the words back, wherever they lie in a buffer. *)
Lemma read_words {B} t (k : Z → StatusOr B) (ws : list Z) (bytes post : list byte) ys :
  (0 < it_size t)%nat → Forall (in_int_range t) ws →
  Forall2 (λ w y, k w = Ok y) ws ys →
  omapM (λ i, let* v := ReadLittleEndian t (bytes ++ words_bytes t ws ++ post)
                          (Zlen bytes + i * Z.of_nat (it_size t)) in k v)
    (seqZ 0 (Zlen ws)) = Ok ys.
Proof.
  intros Hs Hr Hk. apply omapM_Ok. apply Forall2_same_length_lookup_2.
  - rewrite length_seqZ. unfold Zlen. rewrite Nat2Z.id. by eapply Forall2_length.
  - intros i z y Hi Hy. apply lookup_seqZ in Hi as [-> Hi].
    destruct (Forall2_lookup_r _ _ _ _ _ Hk Hy) as (w & Hw & Hkw).
    rewrite Forall_lookup in Hr. specialize (Hr i w Hw).
    apply lookup_lt_Some in Hw as Hlt.
    rewrite ReadLittleEndian_in.
    + replace (Z.to_nat _) with (length bytes + i * it_size t)%nat by (unfold Zlen; lia).
      assert (slice (length bytes + i * it_size t) (it_size t) (bytes ++ words_bytes t ws ++ post)
        = le_bytes (it_size t) (to_unsigned t w)) as ->.
      { rewrite <-(slice_words_bytes t ws i w Hw). unfold slice.
        rewrite drop_app_ge by lia.
        replace (length bytes + i * it_size t - length bytes)%nat with (i * it_size t)%nat by lia.
        apply (slice_app_l (i * it_size t)). rewrite length_words_bytes. nia. }
      by rewrite le_word_back.
    + unfold Zlen. lia.
    + unfold Zlen. rewrite !length_app, length_words_bytes. nia.
Qed.

Lemma splice_replicate_all n (new : list byte) :
  length new = n → splice 0 new (replicate n Byte.x00) = new.
Proof.
  intros <-. unfold splice. rewrite take_0, drop_ge by (rewrite length_replicate; lia).
  by rewrite app_nil_r.
Qed.

(** ** Encoding and decoding scalar lists *)

Definition list_ok (vs : ListValue) : Prop :=
  match list_words vs with
  | Some ws => Forall (in_int_range (field_int_type (list_type vs))) ws
  | None => False
  end.

Lemma list_width vs :
  list_ok vs → Z.of_nat (it_size (field_int_type (list_type vs))) = FieldTypeSize (list_type vs).
Proof. by destruct vs. Qed.

Lemma EncodeScalarListSpan_words vs ws :
  list_words vs = Some ws →
  EncodeScalarListSpan vs = Ok (words_bytes (field_int_type (list_type vs)) ws).
Proof.
  intros Hw. unfold EncodeScalarListSpan, run_write. rewrite Hw.
  set (t := field_int_type (list_type vs)).
  assert (FieldTypeSize (list_type vs) = Z.of_nat (it_size t)) as -> by (by destruct vs).
  change 0 with (Z.of_nat 0). rewrite write_words_splice.
  - simpl. rewrite splice_replicate_all; [done|]. rewrite length_words_bytes.
    unfold Zlen. lia.
  - rewrite length_replicate. unfold Zlen. lia.
Qed.

Lemma decode_bool_word b e : decode_bool (bool_word b) e = Ok b.
Proof. by destruct b. Qed.

Lemma list_size_words vs ws : list_words vs = Some ws → list_size vs = Zlen ws.
Proof.
  destruct vs; simpl; intros [= <-]; try done. unfold Zlen. by rewrite length_fmap.
Qed.

Lemma DecodeScalarListBytes_words {A} T (k : Z → StatusOr A) ws ys :
  T ≠ kString → Forall (in_int_range (field_int_type T)) ws →
  Forall2 (λ w y, k w = Ok y) ws ys →
  DecodeScalarListBytes T k (words_bytes (field_int_type T) ws) (Zlen ws) = Ok ys.
Proof.
  intros HT Hr Hk. unfold DecodeScalarListBytes.
  assert (FieldTypeSize T = Z.of_nat (it_size (field_int_type T))) as -> by (by destruct T).
  assert (Zlen (words_bytes (field_int_type T) ws)
    = Zlen ws * Z.of_nat (it_size (field_int_type T))) as ->.
  { unfold Zlen. rewrite length_words_bytes. lia. }
  rewrite Z.eqb_refl. cbn [negb].
  rewrite <-(read_words (field_int_type T) k ws [] [] ys); [|destruct T; simpl; lia|done..].
  apply omapM_ext. intros i _. by rewrite app_nil_l, app_nil_r.
Qed.

(** Decoding what [EncodeScalarListSpan] wrote. *)
Lemma decode_encode_list vs ws :
  list_ok vs → list_words vs = Some ws →
  DecodeScalarListByType (list_type vs) (words_bytes (field_int_type (list_type vs)) ws) (Zlen ws)
  = Ok vs.
Proof.
  unfold list_ok. intros Hr Hw. rewrite Hw in Hr.
  assert (∀ l : list Z, Forall2 (λ w y, Ok (E := Status) w = Ok y) l l) as Hid.
  { intros l. induction l; by constructor. }
  destruct vs as [vs|vs|vs|vs|vs|vs]; cbn [list_type list_words] in *; try done;
    injection Hw as <-; cbn [DecodeScalarListByType].
  1-4: by rewrite (DecodeScalarListBytes_words _ _ _ vs).
  rewrite (DecodeScalarListBytes_words kBool _ _ vs); [done..|].
  clear Hr. induction vs; simpl; constructor; [apply decode_bool_word|done].
Qed.

(** ** Fields behind a reference *)

Section RefFields.
Context (L : CompiledRowLayout) (Hwf : layout_wf L).
Context (f : FieldLayout) (r : EncodedRow).
Hypotheses (Hf : f ∈ fields L) (Hr : row_ok L r) (Hu : uses_ref f = true).

Lemma ref_width ref : Zlen (ref_bytes ref) = value_width f.
Proof.
  destruct (lw_shape L Hwf f Hf) as (_ & Hw & _). rewrite Hu in Hw. by rewrite Hw.
Qed.

Lemma stored_ref_row_ok ref more : row_ok L (stored f (ref_bytes ref) more r).
Proof. apply stored_row_ok; try done. apply ref_width. Qed.

Lemma stored_ref_others ref more : others_kept L f r (stored f (ref_bytes ref) more r).
Proof. apply stored_others_kept; try done. apply ref_width. Qed.

Lemma scalar_value_stored ref more :
  ref_wf ref → type f = kString →
  scalar_field_value f (stored f (ref_bytes ref) more r) =
  match encoding f with
  | kArena =>
      let* _ := ValidateRefBounds ref (Zlen (arena r ++ more)) in
      let* s := subspan (arena r ++ more) (ref_offset ref) (byte_length ref) in
      Ok (SString s)
  | kDictionary =>
      if Zlen (string_dictionary r) <=? ref_offset ref then
        InvalidArgument "string dictionary id is out of bounds"
      else
      let* s := at_ (string_dictionary r) (ref_offset ref) in Ok (SString s)
  | _ => InvalidArgument "string field has unsupported encoding"
  end.
Proof.
  intros Hrw Ht. unfold scalar_field_value.
  rewrite (stored_present L Hwf f r Hf Hr) by apply ref_width. cbn [obind negb].
  rewrite decide_True by done. by rewrite (stored_ref L Hwf f r Hf Hr ref more Hu Hrw).
Qed.

Lemma list_value_stored ref more :
  ref_wf ref →
  list_field_value f (stored f (ref_bytes ref) more r) =
  let r' := stored f (ref_bytes ref) more r in
  match encoding f with
  | kArena =>
      let* _ := ValidateRefBounds ref (Zlen (arena r ++ more)) in
      let* payload := subspan (arena r ++ more) (ref_offset ref) (byte_length ref) in
      if decide (type f = kString) then DecodeArenaStringList ref r'
      else DecodeScalarListByType (type f) payload (element_count_or_flags ref)
  | kListDictionary => read_list_dictionary f ref r'
  | kElementDictionary => read_element_dictionary f ref r'
  | kFixed | kDictionary => InvalidArgument "list field has unsupported encoding"
  end.
Proof.
  intros Hrw. unfold list_field_value.
  rewrite (stored_present L Hwf f r Hf Hr) by apply ref_width. cbn [obind negb].
  by rewrite (stored_ref L Hwf f r Hf Hr ref more Hu Hrw).
Qed.
End RefFields.

(** The reference to what was appended to the arena. *)
Lemma subspan_appended a new :
  ValidateRefBounds (MkValueRef16 (Zlen a) (Zlen new) 0) (Zlen (a ++ new)) = Ok tt
  ∧ subspan (a ++ new) (Zlen a) (Zlen new) = Ok new.
Proof.
  pose proof (Zlen_nonneg a). pose proof (Zlen_nonneg new). split.
  - apply ValidateRefBounds_Ok. simpl. rewrite Zlen_app. lia.
  - rewrite subspan_in by (rewrite ?Zlen_app; lia). unfold Zlen. rewrite !Nat2Z.id.
    by rewrite slice_app_r.
Qed.

Lemma ValidateRefBounds_count ref n c :
  ValidateRefBounds (MkValueRef16 (ref_offset ref) (byte_length ref) c) n = ValidateRefBounds ref n.
Proof. done. Qed.

Lemma uses_ref_string L f :
  layout_wf L → f ∈ fields L → type f = kString → uses_ref f = true.
Proof.
  intros Hwf Hf Ht. destruct (lw_shape L Hwf f Hf) as (-> & _). unfold IsRefField.
  rewrite bool_decide_eq_true_2 by done. apply orb_true_r.
Qed.

Lemma uses_ref_list L f :
  layout_wf L → f ∈ fields L → is_list f = true → uses_ref f = true.
Proof. intros Hwf Hf Hl. destruct (lw_shape L Hwf f Hf) as (-> & _). by rewrite Hl. Qed.

Lemma WriteArenaStringField_stored L f r s :
  layout_wf L → f ∈ fields L → row_ok L r →
  is_list f = false → type f = kString → encoding f = kArena →
  Zlen s ≤ u32_max → is_u64 (Zlen (arena r)) →
  WriteArenaStringField f s (Some r)
  = (Ok tt, Some (stored f (ref_bytes (MkValueRef16 (Zlen (arena r)) (Zlen s) 0)) s r)).
Proof.
  intros Hwf Hf Hr Hl Ht He Hs Ha. pose proof (Zlen_nonneg s). unfold u32_max in Hs.
  unfold WriteArenaStringField, sbind. cbn [check_not_null].
  rewrite Hl, !bool_decide_eq_true_2 by done. cbn [orb negb].
  rewrite (proj2 (Z.ltb_ge _ _)) by (unfold u32_max; lia). cbn [get_row append_arena on_arena].
  rewrite wrap32_small by (unfold is_u32; lia).
  apply WriteValueRefField_stored with (L := L); try done.
  - by eapply uses_ref_string.
  - split_and!; [done|unfold is_u32; simpl; lia|unfold is_u32; simpl; lia].
Qed.

Lemma WriteArenaListField_stored L f r vs ws :
  layout_wf L → f ∈ fields L → row_ok L r →
  is_list f = true → type f = list_type vs → encoding f = kArena →
  list_ok vs → list_words vs = Some ws → is_u64 (Zlen (arena r)) →
  let payload := words_bytes (field_int_type (list_type vs)) ws in
  WriteArenaListField f vs (Some r)
  = (Ok tt, Some (stored f (ref_bytes
      (MkValueRef16 (Zlen (arena r)) (wrap32 (Zlen payload)) (wrap32 (Zlen ws)))) payload r)).
Proof.
  intros Hwf Hf Hr Hl Ht He Hok Hw Ha payload.
  unfold WriteArenaListField, sbind. cbn [check_not_null].
  rewrite Hl, !bool_decide_eq_true_2 by done. cbn [orb negb].
  rewrite (list_size_words _ _ Hw), (EncodeScalarListSpan_words _ _ Hw).
  assert (is_u32 (wrap32 (Zlen payload)) ∧ is_u32 (wrap32 (Zlen ws))) as [H1 H2].
  { split; apply Z.mod_pos_bound; lia. }
  destruct vs; try done; cbn [slift get_row]; rewrite (proj2 (Z.ltb_ge _ _)) by
    (unfold is_u64, u64_max in *; lia); cbn [append_arena on_arena];
    (apply WriteValueRefField_stored with (L := L); [done..|by eapply uses_ref_list|done]).
Qed.

(** ** What the writers of referenced fields leave *)

Section RefStores.
Context (L : CompiledRowLayout) (Hwf : layout_wf L).
Context (f : FieldLayout) (r : EncodedRow).
Hypotheses (Hf : f ∈ fields L) (Hr : row_ok L r).

Lemma string_stores ref more str :
  ref_wf ref → is_list f = false → type f = kString →
  scalar_field_value f (stored f (ref_bytes ref) more r) = Ok (SString str) →
  stores L f (holds_scalar L f (SString str)) (Zlen more) r (stored f (ref_bytes ref) more r).
Proof.
  intros Hrw Hl Ht Hv. pose proof (uses_ref_string _ _ Hwf Hf Ht) as Hu.
  pose proof (ref_width L Hwf f Hf Hu ref) as Hw.
  apply stored_stores; [done..|]. split_and!; [done..|by apply stored_has|].
  by rewrite ReadScalarValue_by_id by (done || by apply stored_row_ok).
Qed.

Lemma list_stores ref more vs :
  ref_wf ref → is_list f = true → type f = list_type vs →
  list_field_value f (stored f (ref_bytes ref) more r) = Ok vs →
  stores L f (holds_list L f vs) (Zlen more) r (stored f (ref_bytes ref) more r).
Proof.
  intros Hrw Hl Ht Hv. pose proof (uses_ref_list _ _ Hwf Hf Hl) as Hu.
  pose proof (ref_width L Hwf f Hf Hu ref) as Hw.
  apply stored_stores; [done..|]. split_and!; [done..|by apply stored_has|].
  by rewrite ReadListValue_by_id by (done || by apply stored_row_ok).
Qed.

Lemma arena_string_stores str :
  is_list f = false → type f = kString → encoding f = kArena →
  Zlen str ≤ u32_max → is_u64 (Zlen (arena r)) →
  ∃ r', WriteArenaStringField f str (Some r) = (Ok tt, Some r')
    ∧ stores L f (holds_scalar L f (SString str)) (Zlen str) r r'.
Proof.
  intros Hl Ht He Hlen Ha. rewrite (WriteArenaStringField_stored _ f r str Hwf) by done.
  pose proof (uses_ref_string _ _ Hwf Hf Ht) as Hu. pose proof (Zlen_nonneg str).
  set (ref := MkValueRef16 _ _ _).
  assert (ref_wf ref) as Hrw by (split_and!; [done|unfold is_u32, u32_max in *; simpl; lia..]).
  eexists. split; [done|]. apply string_stores; [done..|].
  rewrite (scalar_value_stored _ Hwf f r Hf Hr Hu ref str Hrw Ht), He.
  destruct (subspan_appended (arena r) str) as [Hv Hsub].
  fold ref in Hv. rewrite Hv. cbn [obind ref ref_offset byte_length]. by rewrite Hsub.
Qed.

(** A list of words whose reference and payload are in place. *)
Lemma arena_words_value vs ws :
  is_list f = true → type f = list_type vs → encoding f = kArena →
  list_ok vs → list_words vs = Some ws → is_u64 (Zlen (arena r)) →
  let payload := words_bytes (field_int_type (list_type vs)) ws in
  Zlen payload ≤ u32_max → Zlen ws ≤ u32_max →
  let ref := MkValueRef16 (Zlen (arena r)) (Zlen payload) (Zlen ws) in
  stores L f (holds_list L f vs) (Zlen payload) r (stored f (ref_bytes ref) payload r).
Proof.
  intros Hl Ht He Hok Hw Ha payload Hp Hws ref.
  pose proof (uses_ref_list _ _ Hwf Hf Hl) as Hu.
  pose proof (Zlen_nonneg ws). pose proof (Zlen_nonneg payload). unfold u32_max in *.
  assert (ref_wf ref) as Hrw by (split_and!; unfold is_u32; simpl; (done || lia)).
  apply list_stores; [done..|].
  rewrite (list_value_stored _ Hwf f r Hf Hr Hu ref payload Hrw). cbv zeta. rewrite He.
  destruct (subspan_appended (arena r) payload) as [Hv Hsub].
  change (ValidateRefBounds ref (Zlen (arena r ++ payload)) = Ok tt) in Hv. rewrite Hv.
  cbn [obind ref ref_offset byte_length element_count_or_flags]. rewrite Hsub. cbn [obind].
  rewrite Ht. rewrite decide_False by (by destruct vs). by apply decode_encode_list.
Qed.

Lemma payload_size vs ws :
  list_ok vs → list_words vs = Some ws →
  Zlen (words_bytes (field_int_type (list_type vs)) ws) = Zlen ws * FieldTypeSize (list_type vs)
  ∧ Zlen ws ≤ Zlen (words_bytes (field_int_type (list_type vs)) ws).
Proof.
  intros Hok Hw.
  assert (Zlen (words_bytes (field_int_type (list_type vs)) ws)
    = Zlen ws * FieldTypeSize (list_type vs)) as ->.
  { unfold Zlen. rewrite length_words_bytes, <-(list_width vs Hok). lia. }
  pose proof (Zlen_nonneg ws). assert (1 ≤ FieldTypeSize (list_type vs)) by (by destruct vs).
  nia.
Qed.

Lemma arena_list_stores vs ws :
  is_list f = true → type f = list_type vs → encoding f = kArena →
  list_ok vs → list_words vs = Some ws → is_u64 (Zlen (arena r)) →
  let payload := words_bytes (field_int_type (list_type vs)) ws in
  Zlen payload ≤ u32_max →
  ∃ r', WriteArenaListField f vs (Some r) = (Ok tt, Some r')
    ∧ stores L f (holds_list L f vs) (Zlen payload) r r'.
Proof.
  intros Hl Ht He Hok Hw Ha payload Hlen.
  rewrite (WriteArenaListField_stored _ f r vs ws Hwf) by done.
  destruct (payload_size vs ws Hok Hw) as [_ Hle]. fold payload in Hle |- *.
  pose proof (Zlen_nonneg ws). unfold u32_max in *.
  rewrite !wrap32_small by (unfold is_u32; lia).
  eexists. split; [done|]. apply arena_words_value; (done || unfold u32_max; fold payload; lia).
Qed.
End RefStores.

(** *** C16: Strings and lists round-trip through the arena.

    On a row of any compiled layout, an arena string of at most [u32] bytes
    and an arena list whose payload is at most [u32] bytes are written
    without error; reading the field returns the very string or list, and
    every other field reads as it did before. *)
Theorem arena_field_roundtrip (ver : Z) (s : RuntimeSchema) (L : CompiledRowLayout)
    (r : EncodedRow) (f : FieldLayout)
    (Hs : reachable_schema ver s) (HL : Compile s = Ok L) (Hr : row_ok L r)
    (Hf : f ∈ fields L) (He : encoding f = kArena) (Ha : is_u64 (Zlen (arena r))) :
  (∀ str, is_list f = false → type f = kString → Zlen str ≤ u32_max →
    ∃ r', WriteArenaStringField f str (Some r) = (Ok tt, Some r')
      ∧ row_ok L r'
      ∧ Row_Get kString (row_of L r') (field_id f) None = Ok (Some (SString str))
      ∧ others_kept L f r r')
  ∧ (∀ vs, is_list f = true → type f = list_type vs → list_ok vs →
      list_size vs * FieldTypeSize (list_type vs) ≤ u32_max →
    ∃ r', WriteArenaListField f vs (Some r) = (Ok tt, Some r')
      ∧ row_ok L r'
      ∧ Row_GetList (list_type vs) (row_of L r') (field_id f) None = Ok vs
      ∧ others_kept L f r r').
Proof.
  injection HL as <-. pose proof (compile_layout_wf s (reachable_schema_ok _ _ Hs)) as Hwf.
  split.
  - intros str Hl Ht Hlen.
    destruct (arena_string_stores _ Hwf f r Hf Hr str Hl Ht He Hlen Ha) as (r' & Hw & [Hok Hh Hk _ _ _]).
    exists r'. split_and!; [done..| |done].
    apply Row_Get_Ok; [rewrite <-Ht; apply Hh|done].
  - intros vs Hl Ht Hok Hlen.
    assert (∃ ws, list_words vs = Some ws) as [ws Hw].
    { unfold list_ok in Hok. destruct (list_words vs); [eauto|done]. }
    rewrite (list_size_words _ _ Hw) in Hlen.
    destruct (arena_list_stores _ Hwf f r Hf Hr vs ws Hl Ht He Hok Hw Ha) as (r' & Hwr & [Hok' Hh Hk _ _]).
    { by rewrite (proj1 (payload_size vs ws Hok Hw)). }
    exists r'. split_and!; [done..| |done].
    apply Row_GetList_Ok; [rewrite <-Ht; apply Hh|done].
Qed.

(** A list of [2^32] bytes is silently emptied.

    [WriteArenaListField] narrows the payload size and the element count to
    32 bits without a check (unlike [WriteArenaStringField]): an [int8] list
    of exactly [2^32] elements is written without an error, and reading the
    field back returns the empty list. *)
Theorem arena_list_length_truncated (ver : Z) (s : RuntimeSchema) (L : CompiledRowLayout)
    (r : EncodedRow) (f : FieldLayout) (vs : list Z)
    (Hs : reachable_schema ver s) (HL : Compile s = Ok L) (Hr : row_ok L r)
    (Hf : f ∈ fields L) (He : encoding f = kArena) (Ha : is_u64 (Zlen (arena r)))
    (Hl : is_list f = true) (Ht : type f = kInt8)
    (Hvs : Forall (in_int_range int8_t) vs) (Hlen : Zlen vs = 2 ^ 32) :
  ∃ r', WriteArenaListField f (LInt8 vs) (Some r) = (Ok tt, Some r')
    ∧ Row_GetList kInt8 (row_of L r') (field_id f) None = Ok (LInt8 []).
Proof.
  injection HL as <-. pose proof (compile_layout_wf s (reachable_schema_ok _ _ Hs)) as Hwf.
  rewrite (WriteArenaListField_stored _ f r (LInt8 vs) vs Hwf) by done.
  set (payload := words_bytes _ vs).
  pose proof (uses_ref_list _ _ Hwf Hf Hl) as Hu.
  assert (Zlen payload = 2 ^ 32) as Hpl.
  { rewrite <-Hlen. unfold Zlen, payload. rewrite length_words_bytes.
    cbn [field_int_type list_type it_size int8_t]. lia. }
  rewrite Hpl, Hlen. change (wrap32 (2 ^ 32)) with 0. set (ref := MkValueRef16 _ _ _).
  assert (ref_wf ref) as Hrw by (split_and!; [done|unfold is_u32; simpl; lia..]).
  eexists. split; [done|]. apply Row_GetList_Ok; [|done].
  rewrite <-Ht, ReadListValue_by_id by (done || by apply stored_ref_row_ok).
  rewrite (list_value_stored _ Hwf f r Hf Hr Hu ref payload Hrw). cbv zeta. rewrite He.
  pose proof (Zlen_nonneg (arena r)). pose proof (Zlen_nonneg payload).
  assert (ValidateRefBounds ref (Zlen (arena r ++ payload)) = Ok tt) as ->.
  { apply ValidateRefBounds_Ok. rewrite Zlen_app. change (byte_length ref) with 0.
    cbn [ref ref_offset]. lia. }
  cbn [obind]. rewrite subspan_in by
    (rewrite ?Zlen_app; change (byte_length ref) with 0; cbn [ref ref_offset]; lia).
  cbn [obind]. rewrite Ht, decide_False by done.
  change (Z.to_nat (byte_length ref)) with 0%nat. unfold slice. rewrite take_0. done.
Qed.

Lemma WriteValueRefField_same L f r ref :
  layout_wf L → f ∈ fields L → row_ok L r → uses_ref f = true → ref_wf ref →
  WriteValueRefField f ref (Some r) = (Ok tt, Some (stored f (ref_bytes ref) [] r)).
Proof.
  intros Hwf Hf Hr Hu Hrw.
  rewrite <-(WriteValueRefField_stored L Hwf f r Hf Hr ref [] Hu Hrw).
  rewrite app_nil_r. by destruct r.
Qed.

Lemma at_lookup {A} (l : list A) i x :
  0 ≤ i → l !! Z.to_nat i = Some x → (Zlen l <=? i) = false ∧ at_ (E := Status) l i = Ok x.
Proof.
  intros Hi Hx. apply lookup_lt_Some in Hx as Hlt. split.
  - apply Z.leb_gt. unfold Zlen. lia.
  - by apply at_Ok.
Qed.

(** The ids appended to the arena select their strings. *)
Lemma read_element_dictionary_words f r ids strs :
  type f = kString → Forall is_u32 ids → Zlen ids * 4 ≤ u32_max → Zlen (arena r) + u32_max < 2 ^ 64 →
  Forall2 (λ id str, string_element_dictionary r !! Z.to_nat id = Some str) ids strs →
  let payload := words_bytes uint32_t ids in
  let ref := MkValueRef16 (Zlen (arena r)) (Zlen ids * 4) (Zlen ids) in
  read_element_dictionary f ref (stored f (ref_bytes ref) payload r) = Ok (LString strs).
Proof.
  intros Ht Hids Hlen Ha Hstr. cbv zeta. set (payload := words_bytes uint32_t ids).
  set (ref := MkValueRef16 _ _ _). unfold u32_max in Hlen, Ha.
  assert (Zlen payload = Zlen ids * 4) as Hpl.
  { unfold Zlen, payload. rewrite length_words_bytes. cbn [it_size uint32_t]. lia. }
  pose proof (Zlen_nonneg ids). pose proof (Zlen_nonneg (arena r)).
  unfold read_element_dictionary.
  change (arena (stored f (ref_bytes ref) payload r)) with (arena r ++ payload).
  change (string_element_dictionary (stored f (ref_bytes ref) payload r))
    with (string_element_dictionary r).
  rewrite decide_False by (intros H'; done).
  assert (ValidateRefBounds ref (Zlen (arena r ++ payload)) = Ok tt) as ->.
  { apply ValidateRefBounds_Ok. rewrite Zlen_app. cbn [ref ref_offset byte_length]. lia. }
  cbn [obind ref byte_length element_count_or_flags ref_offset].
  rewrite wrap32_small by (unfold is_u32; lia). rewrite Z.eqb_refl. cbn [negb].
  rewrite (omapM_ext _ (λ i, let* v := ReadLittleEndian uint32_t (arena r ++ payload ++ [])
      (Zlen (arena r) + i * Z.of_nat (it_size uint32_t)) in
    if Zlen (string_element_dictionary r) <=? v then
      InvalidArgument "element dictionary string id is out of bounds"
    else at_ (string_element_dictionary r) v)).
  - rewrite (read_words uint32_t _ ids (arena r) [] strs); [done|simpl; lia| |].
    + eapply Forall_impl; [exact Hids|]. intros z Hz. done.
    + clear Hlen Hpl. induction Hstr as [|id str ids' strs' Hid _ IH]; constructor.
      * apply Forall_cons in Hids as [Hid' _]. unfold is_u32 in Hid'.
        destruct (at_lookup _ id str ltac:(lia) Hid) as [-> ->]. done.
      * apply Forall_cons in Hids as [_ Hids]. apply IH; [done|apply Zlen_nonneg].
  - intros i Hi%elem_of_seqZ. rewrite app_nil_r. cbn [it_size uint32_t].
    rewrite wrap64_small by (unfold is_u64; lia). done.
Qed.

Lemma WriteElementDictionary_stored L f r ids :
  layout_wf L → f ∈ fields L → row_ok L r →
  is_list f = true → type f = kString → encoding f = kElementDictionary →
  Zlen ids * 4 ≤ u32_max → is_u64 (Zlen (arena r)) →
  let ref := MkValueRef16 (Zlen (arena r)) (Zlen ids * 4) (Zlen ids) in
  WriteElementDictionaryStringListField f ids (Some r)
  = (Ok tt, Some (stored f (ref_bytes ref) (words_bytes uint32_t ids) r)).
Proof.
  intros Hwf Hf Hr Hl Ht He Hlen Ha ref. unfold u32_max in *. pose proof (Zlen_nonneg ids).
  unfold WriteElementDictionaryStringListField, sbind. cbn [check_not_null].
  rewrite Hl, !bool_decide_eq_true_2 by done. cbn [orb negb].
  rewrite (proj2 (Z.ltb_ge _ _)) by (unfold u32_max; lia).
  cbn [get_row append_arena on_arena arena set_arena].
  set (zeros := replicate _ Byte.x00).
  assert (length zeros = (length ids * it_size uint32_t)%nat) as Hz.
  { unfold zeros. rewrite length_replicate. unfold Zlen. cbn [it_size uint32_t]. lia. }
  pose proof (write_words_splice uint32_t (length (arena r)) 0 ids (arena r ++ zeros)
    ltac:(rewrite length_app; lia)) as E.
  change (Z.of_nat (it_size uint32_t)) with 4 in E.
  change (Z.of_nat (length (arena r))) with (Zlen (arena r)) in E. rewrite E. clear E.
  assert (splice (length (arena r) + 0 * it_size uint32_t) (words_bytes uint32_t ids)
      (arena r ++ zeros) = arena r ++ words_bytes uint32_t ids) as ->.
  { rewrite Nat.mul_0_l, Nat.add_0_r. unfold splice. rewrite take_app_length.
    rewrite drop_ge; [by rewrite app_nil_r|].
    rewrite length_app, length_words_bytes. lia. }
  rewrite !wrap32_small by (unfold is_u32; lia).
  rewrite <-(WriteValueRefField_stored L Hwf f r Hf Hr ref (words_bytes uint32_t ids)).
  - by destruct r.
  - by eapply uses_ref_list.
  - split_and!; [done|unfold is_u32; simpl; lia..].
Qed.

Section DictionaryFields.
Context (L : CompiledRowLayout) (Hwf : layout_wf L).
Context (f : FieldLayout) (r : EncodedRow).
Hypotheses (Hf : f ∈ fields L) (Hr : row_ok L r).

Lemma dictionary_string_stores id str :
  is_list f = false → type f = kString → encoding f = kDictionary → is_u32 id →
  string_dictionary r !! Z.to_nat id = Some str →
  ∃ r', WriteDictionaryStringField f id (Some r) = (Ok tt, Some r')
    ∧ stores L f (holds_scalar L f (SString str)) 0 r r'.
Proof.
  intros Hl Ht He Hid Hstr. pose proof (uses_ref_string _ _ Hwf Hf Ht) as Hu.
  set (ref := MkValueRef16 id 0 0).
  assert (ref_wf ref) as Hrw by (unfold ref_wf, is_u64, is_u32 in *; simpl; lia).
  unfold WriteDictionaryStringField.
  rewrite Hl, !bool_decide_eq_true_2 by done. cbn [orb negb]. fold ref.
  rewrite (WriteValueRefField_same L f r ref Hwf) by done.
  eexists. split; [done|]. apply (string_stores L Hwf f r Hf Hr ref []); [done..|].
  rewrite (scalar_value_stored _ Hwf f r Hf Hr Hu ref [] Hrw Ht), He. unfold is_u32 in Hid.
  destruct (at_lookup (string_dictionary r) id str ltac:(lia) Hstr) as [H1 H2].
  cbn [ref ref_offset]. by rewrite H1, H2.
Qed.

(** A list dictionary reference to an entry that reads as the list. *)
Lemma list_dictionary_stores id vs n :
  is_list f = true → type f = list_type vs → encoding f = kListDictionary →
  is_u32 id → is_u32 n → read_list_dictionary f (MkValueRef16 id 0 n) r = Ok vs →
  ∃ r', WriteListDictionaryField f id n (Some r) = (Ok tt, Some r')
    ∧ stores L f (holds_list L f vs) 0 r r'.
Proof.
  intros Hl Ht He Hid Hn Hd. pose proof (uses_ref_list _ _ Hwf Hf Hl) as Hu.
  set (ref := MkValueRef16 id 0 n) in *.
  assert (ref_wf ref) as Hrw by (unfold ref_wf, is_u64, is_u32 in *; simpl; lia).
  unfold WriteListDictionaryField. rewrite Hl, !bool_decide_eq_true_2 by done.
  cbn [orb negb]. fold ref. rewrite (WriteValueRefField_same L f r ref Hwf) by done.
  eexists. split; [done|]. apply (list_stores L Hwf f r Hf Hr ref []); [done..|].
  rewrite (list_value_stored _ Hwf f r Hf Hr Hu ref [] Hrw). cbv zeta. rewrite He. exact Hd.
Qed.

Lemma read_scalar_list_dictionary id vs ws :
  type f = list_type vs → is_u32 id → list_ok vs → list_words vs = Some ws →
  scalar_list_dictionary r !! Z.to_nat id = Some (words_bytes (field_int_type (list_type vs)) ws) →
  read_list_dictionary f (MkValueRef16 id 0 (Zlen ws)) r = Ok vs.
Proof.
  intros Ht Hid Hok Hw Hd. unfold read_list_dictionary. rewrite Ht, decide_False by (by destruct vs).
  unfold is_u32 in Hid.
  destruct (at_lookup (scalar_list_dictionary r) id _ ltac:(lia) Hd) as [H1 H2].
  cbn [ref_offset element_count_or_flags]. rewrite H1, H2. cbn [obind].
  by apply decode_encode_list.
Qed.

Lemma read_string_list_dictionary id strs :
  type f = kString → is_u32 id → string_list_dictionary r !! Z.to_nat id = Some strs →
  read_list_dictionary f (MkValueRef16 id 0 (Zlen strs)) r = Ok (LString strs).
Proof.
  intros Ht Hid Hd. unfold read_list_dictionary. rewrite decide_True by done.
  unfold is_u32 in Hid.
  destruct (at_lookup (string_list_dictionary r) id _ ltac:(lia) Hd) as [H1 H2].
  cbn [ref_offset element_count_or_flags]. rewrite H1, H2. cbn [obind]. by rewrite Z.eqb_refl.
Qed.

Lemma element_dictionary_stores ids strs :
  is_list f = true → type f = kString → encoding f = kElementDictionary →
  Forall is_u32 ids → Zlen ids * 4 ≤ u32_max → Zlen (arena r) + u32_max < 2 ^ 64 →
  Forall2 (λ id str, string_element_dictionary r !! Z.to_nat id = Some str) ids strs →
  ∃ r', WriteElementDictionaryStringListField f ids (Some r) = (Ok tt, Some r')
    ∧ stores L f (holds_list L f (LString strs)) (Zlen ids * 4) r r'.
Proof.
  intros Hl Ht He Hids Hlen Ha Hstr. pose proof (uses_ref_list _ _ Hwf Hf Hl) as Hu.
  pose proof (Zlen_nonneg ids). pose proof (Zlen_nonneg (arena r)). unfold u32_max in Hlen, Ha.
  rewrite (WriteElementDictionary_stored _ f r ids Hwf) by
    (done || unfold u32_max, is_u64; lia).
  set (ref := MkValueRef16 _ _ _).
  assert (ref_wf ref) as Hrw by (unfold ref_wf, is_u64, is_u32 in *; simpl; lia).
  assert (Zlen ids * 4 = Zlen (words_bytes uint32_t ids)) as ->.
  { unfold Zlen. rewrite length_words_bytes. cbn [it_size uint32_t]. lia. }
  eexists. split; [done|]. apply list_stores; [done..|].
  rewrite (list_value_stored _ Hwf f r Hf Hr Hu ref _ Hrw). cbv zeta. rewrite He.
  apply read_element_dictionary_words; (done || unfold u32_max; lia).
Qed.
End DictionaryFields.

(** Dictionary fields read the entries they name.

    A dictionary string field reads the entry of its id, a list-dictionary
    field the list stored under its id when the recorded element count is the
    list's, and an element-dictionary field the strings of its ids in order;
    every other field reads as it did before the write. *)
Theorem dictionary_field_roundtrip (ver : Z) (s : RuntimeSchema) (L : CompiledRowLayout)
    (r : EncodedRow) (f : FieldLayout)
    (Hs : reachable_schema ver s) (HL : Compile s = Ok L) (Hr : row_ok L r) (Hf : f ∈ fields L) :
  (∀ id str, is_list f = false → type f = kString → encoding f = kDictionary → is_u32 id →
    string_dictionary r !! Z.to_nat id = Some str →
    ∃ r', WriteDictionaryStringField f id (Some r) = (Ok tt, Some r') ∧ row_ok L r'
      ∧ Row_Get kString (row_of L r') (field_id f) None = Ok (Some (SString str))
      ∧ others_kept L f r r')
  ∧ (∀ id vs ws, is_list f = true → type f = list_type vs → encoding f = kListDictionary →
    is_u32 id → is_u32 (Zlen ws) → list_ok vs → list_words vs = Some ws →
    scalar_list_dictionary r !! Z.to_nat id
      = Some (words_bytes (field_int_type (list_type vs)) ws) →
    ∃ r', WriteListDictionaryField f id (Zlen ws) (Some r) = (Ok tt, Some r') ∧ row_ok L r'
      ∧ Row_GetList (list_type vs) (row_of L r') (field_id f) None = Ok vs
      ∧ others_kept L f r r')
  ∧ (∀ ids strs, is_list f = true → type f = kString → encoding f = kElementDictionary →
    Forall is_u32 ids → Zlen ids * 4 ≤ u32_max → Zlen (arena r) + u32_max < 2 ^ 64 →
    Forall2 (λ id str, string_element_dictionary r !! Z.to_nat id = Some str) ids strs →
    ∃ r', WriteElementDictionaryStringListField f ids (Some r) = (Ok tt, Some r') ∧ row_ok L r'
      ∧ Row_GetList kString (row_of L r') (field_id f) None = Ok (LString strs)
      ∧ others_kept L f r r').
Proof.
  injection HL as <-. pose proof (compile_layout_wf s (reachable_schema_ok _ _ Hs)) as Hwf.
  split; [|split].
  - intros id str Hl Ht He Hid Hstr.
    destruct (dictionary_string_stores _ Hwf f r Hf Hr id str) as (r' & Hw & [Hok Hh Hk _ _ _]);
      [done..|].
    exists r'. split_and!; [done..| |done]. apply Row_Get_Ok; [rewrite <-Ht; apply Hh|done].
  - intros id vs ws Hl Ht He Hid Hn Hok Hws Hd.
    destruct (list_dictionary_stores _ Hwf f r Hf Hr id vs (Zlen ws)) as (r' & Hw & [Hrok Hh Hk _ _ _]);
      [done..|by apply read_scalar_list_dictionary|].
    exists r'. split_and!; [done..| |done]. apply Row_GetList_Ok; [rewrite <-Ht; apply Hh|done].
  - intros ids strs Hl Ht He Hids Hlen Ha Hstr.
    destruct (element_dictionary_stores _ Hwf f r Hf Hr ids strs) as (r' & Hw & [Hok Hh Hk _ _ _]);
      [done..|].
    exists r'. split_and!; [done..| |done]. apply Row_GetList_Ok; [rewrite <-Ht; apply Hh|done].
Qed.
