(* ===== verification/RowAccess.v ===== *)
(** * Accessors and materialised rows

    A field accessor is bound to the layout it was made from; a materialised
    row answers every absent field with its default. *)

From S2P Require Import Prelude Status ByteIo Types Schema SchemaProofs RowStorage RowSafety.
From S2P Require Import RowProofs RowListProofs.

(** ** Accessors *)

(** The calls [Make[List]FieldAccessor] succeed on exactly the fields of the
    shape and type asked for. *)
Lemma field_accessor_Ok T L id l f :
  find_key field_id id (fields L) = Some f → is_list f = l → type f = T →
  ResolveField (Some L) (Some (CreateEncodedRow L)) id T l
    (Some (accessor_metadata (field_accessor L l f))) = Ok f.
Proof.
  intros E Hl Ht. apply find_key_Some_1 in E as Hin. destruct Hin as [_ Hid].
  unfold ResolveField. cbn [CreateEncodedRow row_schema_version row_layout_fingerprint].
  rewrite !Z.eqb_refl. cbn [negb orb].
  unfold ValidateAccessor, accessor_version_mismatch.
  cbn [accessor_metadata field_accessor acc_schema_version acc_layout_fingerprint acc_field_id
    acc_is_list acc_physical_type acc_encoding acc_offset acc_presence_bit_index
    row_schema_version row_layout_fingerprint].
  rewrite !Z.eqb_refl. cbn [negb orb].
  rewrite FindField_key, E, Hl, eqb_reflx. cbn [negb].
  rewrite decide_False by (by intros H; apply H).
  by rewrite !Z.eqb_refl, !bool_decide_eq_true_2.
Qed.

Lemma ResolveField_accessor T L r id l f :
  row_ok L r → find_key field_id id (fields L) = Some f → is_list f = l → type f = T →
  ResolveField (Some L) (Some r) id T l (Some (accessor_metadata (field_accessor L l f)))
  = ResolveField (Some L) (Some r) id T l None.
Proof.
  intros [Hv Hfp _] E Hl Ht.
  rewrite !(ResolveField_versions L (CreateEncodedRow L) r) by (by rewrite ?Hv, ?Hfp).
  rewrite (field_accessor_Ok T L id l f) by done.
  unfold ResolveField. cbn [CreateEncodedRow row_schema_version row_layout_fingerprint].
  rewrite !Z.eqb_refl. cbn [negb orb]. rewrite FindField_key, E, Hl, eqb_reflx. cbn [negb].
  by destruct (decide (type f ≠ T)).
Qed.

Lemma ResolveField_foreign L L' r' T id l f :
  (schema_version L', layout_fingerprint L') ≠ (schema_version L, layout_fingerprint L) →
  ∃ e, ResolveField (Some L') r' id T l (Some (accessor_metadata (field_accessor L l f))) = Err e
    ∧ status_code e = kFailedPrecondition.
Proof.
  intros Hne. unfold ResolveField. destruct r' as [r'|]; [|by eexists].
  case_inner; [by eexists|].
  assert (accessor_version_mismatch (accessor_metadata (field_accessor L l f)) r' L' = true) as ->;
    [|by eexists].
  unfold accessor_version_mismatch. simpl. rewrite !orb_true_iff, !negb_true_iff, !Z.eqb_neq.
  destruct (Z.eq_dec (schema_version L) (schema_version L')) as [H1|]; [|by auto].
  destruct (Z.eq_dec (layout_fingerprint L) (layout_fingerprint L')) as [H2|]; [|by auto].
  destruct Hne. congruence.
Qed.

Lemma MakeFieldAccessor_inv T L id a :
  MakeFieldAccessor T L id = Ok a →
  ∃ f, find_key field_id id (fields L) = Some f ∧ is_list f = false ∧ type f = T
    ∧ a = field_accessor L false f.
Proof.
  unfold MakeFieldAccessor. rewrite FindField_key.
  destruct (find_key _ _ _) as [f|] eqn:E; [|done].
  destruct (is_list f) eqn:Hl; [done|].
  destruct (decide (type f ≠ T)) as [|Ht]; [done|]. intros [= <-].
  exists f. apply dec_stable in Ht. done.
Qed.

Lemma MakeListFieldAccessor_inv T L id a :
  MakeListFieldAccessor T L id = Ok a →
  ∃ f, find_key field_id id (fields L) = Some f ∧ is_list f = true ∧ type f = T
    ∧ a = field_accessor L true f.
Proof.
  unfold MakeListFieldAccessor. rewrite FindField_key.
  destruct (find_key _ _ _) as [f|] eqn:E; [|done].
  destruct (is_list f) eqn:Hl; [|done]. cbn [negb].
  destruct (decide (type f ≠ T)) as [|Ht]; [done|]. intros [= <-].
  exists f. apply dec_stable in Ht. done.
Qed.

(** Accessors are faithful to their layout and refused elsewhere.

    An accessor made from a layout reads, on every row of that layout, what
    reading by field id and type reads.  On a row whose layout has another
    schema version or another fingerprint, whatever the row holds, the read
    is refused with [kFailedPrecondition]: a stale accessor never decodes a
    slot it does not describe. *)
Theorem accessor_reads_its_layout (T : FieldType) (L : CompiledRowLayout) (id : Z)
    (a : FieldAccessor) :
  (MakeFieldAccessor T L id = Ok a →
    (∀ r, row_ok L r →
      ReadScalarValue (row_of L r) id T (Some (accessor_metadata a))
      = ReadScalarValue (row_of L r) id T None)
    ∧ ∀ L' r', (schema_version L', layout_fingerprint L')
               ≠ (schema_version L, layout_fingerprint L) →
      ∃ e, ReadScalarValue (MkRow (Some L') r') id T (Some (accessor_metadata a)) = Err e
        ∧ status_code e = kFailedPrecondition)
  ∧ (MakeListFieldAccessor T L id = Ok a →
    (∀ r, row_ok L r →
      ReadListValue (row_of L r) id T (Some (accessor_metadata a))
      = ReadListValue (row_of L r) id T None)
    ∧ ∀ L' r', (schema_version L', layout_fingerprint L')
               ≠ (schema_version L, layout_fingerprint L) →
      ∃ e, ReadListValue (MkRow (Some L') r') id T (Some (accessor_metadata a)) = Err e
        ∧ status_code e = kFailedPrecondition).
Proof.
  split.
  - intros (f & E & Hl & Ht & ->)%MakeFieldAccessor_inv. split.
    + intros r Hr. unfold ReadScalarValue. cbn [row_layout row_encoded row_of].
      by rewrite (ResolveField_accessor T L r id false f).
    + intros L' r' Hne. unfold ReadScalarValue. cbn [row_layout row_encoded].
      destruct (ResolveField_foreign L L' r' T id false f Hne) as (e & -> & He). by exists e.
  - intros (f & E & Hl & Ht & ->)%MakeListFieldAccessor_inv. split.
    + intros r Hr. unfold ReadListValue. cbn [row_layout row_encoded row_of].
      by rewrite (ResolveField_accessor T L r id true f).
    + intros L' r' Hne. unfold ReadListValue. cbn [row_layout row_encoded].
      destruct (ResolveField_foreign L L' r' T id true f Hne) as (e & -> & He). by exists e.
Qed.

(** ** Materialised rows *)

Definition required (f : FieldLayout) : bool :=
  negb (nullable f) && negb (HasDefault (default_value f)).

Lemma check_required_spec r f :
  0 ≤ presence_bit_index f →
  check_required r tt f =
  if required f && negb (presence_bit f (row_slot r))
  then FailedPrecondition "required field is absent in encoded row" else Ok tt.
Proof.
  intros Hb. unfold check_required, required. rewrite FieldPresent_bit by done.
  destruct (nullable f), (HasDefault _); try done. cbn. by destruct (presence_bit _ _).
Qed.

Lemma required_loop r fs :
  (∀ f, f ∈ fs → 0 ≤ presence_bit_index f) →
  match ofold (check_required r) fs tt with
  | Ok _ => ∀ f, f ∈ fs → required f = true → presence_bit f (row_slot r) = true
  | Err e => status_code e = kFailedPrecondition
      ∧ ∃ f, f ∈ fs ∧ required f = true ∧ presence_bit f (row_slot r) = false
  | Fault _ => False
  end.
Proof.
  induction fs as [|f fs IH]; intros Hb; cbn [ofold].
  - intros f Hf. by apply elem_of_nil in Hf.
  - rewrite check_required_spec by (apply Hb; left).
    destruct (required f && negb (presence_bit f (row_slot r))) eqn:E; cbn [obind].
    { apply andb_true_iff in E as [Hq Hp]. apply negb_true_iff in Hp.
      split; [done|]. exists f. split_and!; [left|done..]. }
    specialize (IH ltac:(intros g Hg; apply Hb; by right)).
    destruct (ofold _ _ _) as [u|e|ft]; [| |done].
    2:{ destruct IH as (He & g & Hg & Hrest). split; [done|]. exists g.
        split; [by right|done]. }
    intros g [Hg|Hg]%elem_of_cons Hr; [subst g|by apply IH].
    rewrite Hr in E. by destruct (presence_bit f _).
Qed.

(** What an absent field reads as. *)
Definition default_scalar (f : FieldLayout) : option ScalarValue :=
  match default_value f with DScalar v => Some v | _ => None end.
Definition default_list (f : FieldLayout) : ListValue :=
  match default_value f with DList v => v | _ => empty_list (type f) end.

Lemma absent_scalar L f r :
  layout_wf L → f ∈ fields L → row_ok L r → is_list f = false →
  presence_bit f (row_slot r) = false → required f = false →
  Row_Get (type f) (row_of L r) (field_id f) None = Ok (default_scalar f).
Proof.
  intros Hwf Hf Hr Hl Hp Hreq. unfold Row_Get.
  rewrite ReadScalarValue_by_id by done. unfold scalar_field_value.
  pose proof (field_bit L f Hwf Hf). rewrite FieldPresent_bit, Hp by lia. cbn [obind negb].
  destruct (lw_shape L Hwf f Hf) as (_ & _ & _ & Hd).
  unfold DefaultScalarValue, default_scalar, required in *.
  destruct (default_value f) as [|v|v].
  - by destruct (nullable f).
  - destruct Hd as [_ Hd]. rewrite decide_True by done. by rewrite decide_True.
  - destruct Hd. congruence.
Qed.

Lemma absent_list L f r :
  layout_wf L → f ∈ fields L → row_ok L r → is_list f = true →
  presence_bit f (row_slot r) = false → required f = false →
  Row_GetList (type f) (row_of L r) (field_id f) None = Ok (default_list f).
Proof.
  intros Hwf Hf Hr Hl Hp Hreq. unfold Row_GetList.
  rewrite ReadListValue_by_id by done. unfold list_field_value.
  pose proof (field_bit L f Hwf Hf). rewrite FieldPresent_bit, Hp by lia. cbn [obind negb].
  destruct (lw_shape L Hwf f Hf) as (_ & _ & _ & Hd).
  unfold DefaultListValue, default_list, required in *.
  destruct (default_value f) as [|v|v].
  - by destruct (nullable f).
  - destruct Hd. congruence.
  - destruct Hd as [_ Hd]. rewrite decide_True by done. by rewrite decide_True.
Qed.

(** A materialised row answers every absent field with its default.

    [MaterializeRow] returns a row over the very layout and bytes it was
    given, and only when their versions match, the slot covers the layout and
    every required field is present; otherwise it fails without leaving the
    row.  On the row it returns, a field that [Has] reports absent reads as
    its default value, or as nothing (an empty list) when it has none:
    a typed read of an absent field never throws. *)
Theorem MaterializeRow_defaults (ver : Z) (s : RuntimeSchema) (L : CompiledRowLayout)
    (r : EncodedRow) (Hs : reachable_schema ver s) (HL : Compile s = Ok L) :
  match MaterializeRow (Some L) r with
  | Ok row =>
      row = row_of L r ∧ row_ok L r
      ∧ (∀ f, f ∈ fields L → required f = true → Row_Has row (field_id f) = Ok true)
      ∧ ∀ f, f ∈ fields L → Row_Has row (field_id f) = Ok false →
          if is_list f
          then Row_GetList (type f) row (field_id f) None = Ok (default_list f)
          else Row_Get (type f) row (field_id f) None = Ok (default_scalar f)
  | Err e =>
      status_code e = kFailedPrecondition
      ∨ status_code e = kInvalidArgument ∧ Zlen (row_slot r) < row_slot_size L
  | Fault _ => False
  end.
Proof.
  injection HL as <-. pose proof (compile_layout_wf s (reachable_schema_ok _ _ Hs)) as Hwf.
  unfold MaterializeRow. set (L := compile_layout s) in *.
  destruct (negb (row_schema_version r =? schema_version L)
    || negb (row_layout_fingerprint r =? layout_fingerprint L)) eqn:Ever; [by left|].
  destruct (Z.ltb_spec (Zlen (row_slot r)) (row_slot_size L)) as [Hlt|Hge]; [by right|].
  assert (∀ f, f ∈ fields L → 0 ≤ presence_bit_index f) as Hbits.
  { intros f Hf. by apply (field_bit L f Hwf Hf). }
  pose proof (required_loop r (fields L) Hbits) as Hreq.
  destruct (ofold (check_required r) (fields L) tt) as [[]|e|]; cbn [obind].
  - assert (row_ok L r) as Hr by (btoprop; split; (done || lia)).
    assert (∀ f, f ∈ fields L → Row_Has (row_of L r) (field_id f)
      = Ok (presence_bit f (row_slot r))) as Hhas.
    { intros f Hf. unfold Row_Has. cbn [row_layout row_encoded row_of].
      rewrite FindField_in by done. pose proof (field_bit L f Hwf Hf).
      apply FieldPresent_bit. lia. }
    split_and!; [done|done| |].
    + intros f Hf Hrq. by rewrite Hhas, Hreq.
    + intros f Hf Hno. rewrite Hhas in Hno by done. injection Hno as Hno.
      assert (required f = false) as Hrq.
      { destruct (required f) eqn:E; [|done]. rewrite Hreq in Hno; done. }
      destruct (is_list f) eqn:Hl; [by apply absent_list|by apply absent_scalar].
  - left. apply Hreq.
  - done.
Qed.
