(* ===== verification/Snapshot.v ===== *)
(** * Snapshots: [src/store/snapshot.{h,cc}], [src/store/snapshot_builder.{h,cc}]

    A snapshot is a frozen index over rows kept by a backing.  The abstract
    class [SnapshotBacking] is a record of its virtual methods; the backing
    that owns its rows is defined here, the memory-mapped one belongs to the
    artifact component.  [SnapshotBuilder] collects rows and seals them. *)

From S2P Require Import Prelude Status ByteIo Types Schema RowStorage FrozenIndex.

Record OwnedSnapshotRowPayload : Type := MkPayload {
  payload_arena : list byte;
  payload_string_dictionary : list cpp_string;
  payload_scalar_list_dictionary : list (list byte);
  payload_string_list_dictionary : list (list cpp_string);
  payload_string_element_dictionary : list cpp_string;
}.

Record SnapshotRow : Type := MkSnapshotRow {
  snapshot_primary_key : Z;
  encoded : EncodedRow;
}.

(** The virtual methods of a backing, and the artifact id of a backing that
    is a [MmapSnapshotBacking] ([dynamic_cast] tells them apart). *)
Record SnapshotBacking : Type := MkSnapshotBacking {
  layout : option CompiledRowLayout;
  frozen_index_bytes : list byte;
  backing_row_count : Z;
  EncodedRowAt : Z → StatusOr EncodedRow;
  mmap_artifact_id : option cpp_string;
}.

(** ** OwnedSnapshotBacking *)

Record OwnedSnapshotBacking : Type := MkOwnedSnapshotBacking {
  owned_layout : option CompiledRowLayout;
  owned_frozen_index_bytes : list byte;
  row_slot_bytes : list byte;
  row_payloads : list OwnedSnapshotRowPayload;
}.

Definition OwnedEncodedRowAt (backing : OwnedSnapshotBacking) (row_offset : Z)
    : StatusOr EncodedRow :=
  match owned_layout backing with
  | None => FailedPrecondition "snapshot backing has no row layout"
  | Some l =>
      let size := row_slot_size l in
      let bytes := row_slot_bytes backing in
      if size =? 0 then InvalidArgument "snapshot row slot size is zero"
      else if Zlen bytes <? row_offset then
        InvalidArgument "snapshot row offset is out of bounds"
      else if Zlen bytes - row_offset <? size then
        InvalidArgument "snapshot row slot is truncated"
      else if negb (row_offset mod size =? 0) then
        InvalidArgument "snapshot row offset is not slot aligned"
      else if Zlen (row_payloads backing) <=? row_offset / size then
        InvalidArgument "snapshot row payload is missing"
      else
      let* payload := at_ (row_payloads backing) (row_offset / size) in
      let* slot := subspan bytes row_offset size in
      Ok (MkEncodedRow (schema_version l) (layout_fingerprint l) slot
            (payload_arena payload) (payload_string_dictionary payload)
            (payload_scalar_list_dictionary payload)
            (payload_string_list_dictionary payload)
            (payload_string_element_dictionary payload))
  end.

(** An [OwnedSnapshotBacking] as a [SnapshotBacking]. *)
Definition owned_backing (b : OwnedSnapshotBacking) : SnapshotBacking :=
  MkSnapshotBacking (owned_layout b) (owned_frozen_index_bytes b)
    (Zlen (row_payloads b)) (OwnedEncodedRowAt b) None.

(** ** Enumeration and views *)

Definition EnumerateSnapshotRows (backing : SnapshotBacking) : StatusOr (list SnapshotRow) :=
  let* index := Validate (frozen_index_bytes backing) in
  let* entries := Entries index in
  omapM (λ entry,
    let* encoded := EncodedRowAt backing (row_offset entry) in
    Ok (MkSnapshotRow (primary_key entry) encoded)) entries.

Definition ValidateBackingIndex (backing : option SnapshotBacking)
    : StatusOr FrozenPrimaryKeyIndexView :=
  match backing with
  | None => FailedPrecondition "snapshot view has no backing"
  | Some b => Validate (frozen_index_bytes b)
  end.

Record ImmutableRowSnapshotView : Type := MkImmutableRowSnapshotView {
  view_backing : option SnapshotBacking;
  view_index : StatusOr FrozenPrimaryKeyIndexView;
}.

Definition make_view (backing : option SnapshotBacking) : ImmutableRowSnapshotView :=
  MkImmutableRowSnapshotView backing (ValidateBackingIndex backing).

Definition ImmutableRowSnapshotView_Get (view : ImmutableRowSnapshotView) (primary_key : Z)
    : StatusOr (option Row) :=
  let* index := view_index view in
  let* row_offset := Lookup index primary_key in
  match row_offset with
  | None => Ok None
  | Some off =>
      match view_backing view with
      | None => Fault NullDereference
      | Some backing =>
          let* encoded := EncodedRowAt backing off in
          let* row := MaterializeRow (layout backing) encoded in
          Ok (Some row)
      end
  end.

(** [FullSnapshotView] over any backing, [CompactDeltaSnapshot] over an owned
    one; both read through an [ImmutableRowSnapshotView]. *)
Record FullSnapshotView : Type := MkFullSnapshotView {
  full_backing : option SnapshotBacking;
  full_view : ImmutableRowSnapshotView;
}.

Definition make_full (backing : option SnapshotBacking) : FullSnapshotView :=
  MkFullSnapshotView backing (make_view backing).

Definition FullSnapshotView_Get (s : FullSnapshotView) (primary_key : Z)
    : StatusOr (option Row) :=
  ImmutableRowSnapshotView_Get (full_view s) primary_key.

Record CompactDeltaSnapshot : Type := MkCompactDeltaSnapshot {
  compact_backing : option OwnedSnapshotBacking;
  compact_view : ImmutableRowSnapshotView;
}.

Definition make_compact (backing : option OwnedSnapshotBacking) : CompactDeltaSnapshot :=
  MkCompactDeltaSnapshot backing (make_view (owned_backing <$> backing)).

Definition CompactDeltaSnapshot_Get (s : CompactDeltaSnapshot) (primary_key : Z)
    : StatusOr (option Row) :=
  ImmutableRowSnapshotView_Get (compact_view s) primary_key.

(** ** SnapshotBuilder *)

Record SnapshotBuildOptions : Type := MkSnapshotBuildOptions {
  snapshot_hash_seed : Z;
  snapshot_hash_version : Z;
}.

Definition SnapshotBuildOptions_default : SnapshotBuildOptions := MkSnapshotBuildOptions 0 1.

Record SnapshotBuilder : Type := MkSnapshotBuilder {
  builder_layout : option CompiledRowLayout;
  builder_options : SnapshotBuildOptions;
  builder_primary_keys : list Z;
  builder_index_entries : list FrozenPrimaryKeyIndexEntry;
  builder_row_slot_bytes : list byte;
  builder_row_payloads : list OwnedSnapshotRowPayload;
}.

Definition make_builder (l : option CompiledRowLayout) (o : SnapshotBuildOptions)
    : SnapshotBuilder := MkSnapshotBuilder l o [] [] [] [].

Definition row_payload (r : EncodedRow) : OwnedSnapshotRowPayload :=
  MkPayload (arena r) (string_dictionary r) (scalar_list_dictionary r)
    (string_list_dictionary r) (string_element_dictionary r).

Definition AddRow (key : Z) (row : EncodedRow) : stateful SnapshotBuilder Status unit := λ b,
  match builder_layout b with
  | None => (FailedPrecondition "snapshot builder has no row layout", b)
  | Some l =>
      if negb (row_schema_version row =? schema_version l)
         || negb (row_layout_fingerprint row =? layout_fingerprint l) then
        (FailedPrecondition "encoded row metadata does not match snapshot layout", b)
      else if Zlen (row_slot row) <? row_slot_size l then
        (InvalidArgument "encoded row slot is shorter than snapshot layout", b)
      else if bool_decide (key ∈ builder_primary_keys b) then
        (InvalidArgument "duplicate primary key in snapshot build", b)
      else if u64_max <? Zlen (builder_row_slot_bytes b) then
        (InvalidArgument "snapshot row arena is too large", b)
      else
      let row_offset := Zlen (builder_row_slot_bytes b) in
      (Ok tt,
       MkSnapshotBuilder (builder_layout b) (builder_options b)
         (builder_primary_keys b ++ [key])
         (builder_index_entries b ++ [MkEntry key row_offset])
         (builder_row_slot_bytes b ++ take (Z.to_nat (row_slot_size l)) (row_slot row))
         (builder_row_payloads b ++ [row_payload row]))
  end.

(** [Seal] moves the row bytes and payloads out of the builder, which keeps
    its keys and index entries. *)
Definition Seal : stateful SnapshotBuilder Status OwnedSnapshotBacking := λ b,
  match builder_layout b with
  | None => (FailedPrecondition "snapshot builder has no row layout", b)
  | Some l =>
      match BuildFrozenPrimaryKeyIndex (builder_index_entries b)
              (MkBuildOptions (snapshot_hash_seed (builder_options b))
                 (snapshot_hash_version (builder_options b)) kDefaultGroupWidth) with
      | Ok index_bytes =>
          (Ok (MkOwnedSnapshotBacking (Some l) index_bytes
                 (builder_row_slot_bytes b) (builder_row_payloads b)),
           MkSnapshotBuilder (builder_layout b) (builder_options b)
             (builder_primary_keys b) (builder_index_entries b) [] [])
      | Err e => (Err e, b)
      | Fault f => (Fault f, b)
      end
  end.
