(* ===== verification/SnapshotProofs.v ===== *)
(** * A sealed snapshot is a finite map of rows

    [backing_ok] is the contract a backing offers its clients: the index
    bytes validate, and the rows they name are those of a finite map.  Views
    and enumeration are proved against the contract, and the builder is
    proved to establish it. *)

From S2P Require Import Prelude Status ByteIo Types Schema SchemaProofs RowStorage RowSafety.
From S2P Require Import RowProofs FrozenIndex FrozenIndexProofs FrozenBuildProofs Snapshot.

(** ** The contract of a backing *)

Record backing_ok (b : SnapshotBacking) (L : CompiledRowLayout) (rows : gmap Z EncodedRow)
    : Prop := {
  bo_layout : layout b = Some L;
  bo_index : ∃ v es, Validate (frozen_index_bytes b) = Ok v ∧ Entries v = Ok es
    ∧ index_map v es
    ∧ (∀ key off, MkEntry key off ∈ es →
         ∃ r, EncodedRowAt b off = Ok r ∧ rows !! key = Some r)
    ∧ ∀ key r, rows !! key = Some r → ∃ off, MkEntry key off ∈ es;
  bo_rows : ∀ key r, rows !! key = Some r →
    is_u64 key ∧ row_ok L r ∧ Zlen (row_slot r) = row_slot_size L;
}.

(** Reading a key of the map: the row is materialised when it is there. *)
Definition map_get (L : CompiledRowLayout) (rows : gmap Z EncodedRow) (key : Z)
    : StatusOr (option Row) :=
  match rows !! key with
  | None => Ok None
  | Some r => let* row := MaterializeRow (Some L) r in Ok (Some row)
  end.

Lemma view_Get_spec b L rows key :
  backing_ok b L rows →
  ImmutableRowSnapshotView_Get (make_view (Some b)) key = map_get L rows key.
Proof.
  intros [HL (v & es & Hv & He & (Hnd & Hmap) & Hin & Hback) Hok].
  unfold ImmutableRowSnapshotView_Get, make_view, map_get.
  cbn [view_index view_backing ValidateBackingIndex]. rewrite Hv. cbn [obind].
  destruct (Hmap key) as (r & -> & Hoff). cbn [obind].
  destruct r as [off|].
  - destruct (Hin key off) as (row & -> & ->); [by apply Hoff|]. cbn [obind]. by rewrite HL.
  - destruct (rows !! key) as [row|] eqn:E; [|done].
    apply Hback in E as [off Hin']. by apply Hoff in Hin'.
Qed.

(** Enumeration lists the bindings of the map, each key once. *)
Lemma Enumerate_spec b L rows :
  backing_ok b L rows →
  ∃ l, EnumerateSnapshotRows b = Ok l ∧ NoDup (snapshot_primary_key <$> l)
    ∧ ∀ key r, MkSnapshotRow key r ∈ l ↔ rows !! key = Some r.
Proof.
  intros [HL (v & es & Hv & He & (Hnd & Hmap) & Hin & Hback) Hok].
  unfold EnumerateSnapshotRows. rewrite Hv. cbn [obind]. rewrite He. cbn [obind].
  set (f := λ entry, let* encoded := EncodedRowAt b (row_offset entry) in
    Ok (MkSnapshotRow (primary_key entry) encoded)).
  assert (∃ l, Forall2 (λ x y, f x = Ok y) es l) as [l Hl].
  { clear Hnd Hmap Hback He. induction es as [|[k o] es IH]; [by exists []|].
    destruct IH as [l Hl]; [intros key off H; apply (Hin key off); by right|].
    destruct (Hin k o) as (r & Hr & _); [left|].
    exists (MkSnapshotRow k r :: l). constructor; [|done]. unfold f. simpl. by rewrite Hr. }
  exists l. split; [by apply omapM_Ok|].
  assert (snapshot_primary_key <$> l = primary_key <$> es) as Hkeys.
  { clear -Hl. induction Hl as [|e x es l Hx _ IH]; [done|].
    rewrite !fmap_cons, IH. f_equal. unfold f in Hx. by inv_ok. }
  split; [by rewrite Hkeys|]. intros key r. split.
  - intros [i Hi]%list_elem_of_lookup.
    destruct (Forall2_lookup_r _ _ _ _ _ Hl Hi) as ([k o] & Hk & Hx).
    unfold f in Hx. simpl in Hx. apply obind_Ok in Hx as (r' & Hr' & [= <- <-]).
    destruct (Hin k o) as (r2 & Hr2 & ->); [by eapply list_elem_of_lookup_2|]. congruence.
  - intros Hr. destruct (Hback key r Hr) as (off & Hoff).
    apply list_elem_of_lookup in Hoff as Hi. destruct Hi as [i Hi].
    destruct (Forall2_lookup_l _ _ _ _ _ Hl Hi) as (y & Hy & Hx).
    unfold f in Hx. simpl in Hx. apply obind_Ok in Hx as (r' & Hr' & [= <-]).
    destruct (Hin key off Hoff) as (r2 & Hr2 & Hr2'). assert (r' = r) as -> by congruence.
    by eapply list_elem_of_lookup_2.
Qed.

(** ** The builder *)

(** The row a snapshot keeps: the slot cut to the layout's size. *)
Definition cut_row (L : CompiledRowLayout) (r : EncodedRow) : EncodedRow :=
  set_row_slot (take (Z.to_nat (row_slot_size L)) (row_slot r)) r.

Lemma cut_row_ok L r : 0 ≤ row_slot_size L → row_ok L r → row_ok L (cut_row L r).
Proof.
  intros Hs [Hv Hf Hl]. split; [done|done|]. unfold cut_row, Zlen in *. simpl.
  rewrite length_take. lia.
Qed.

(** The state of a builder that has accepted [rows]. *)
Record builder_inv (L : CompiledRowLayout) (b : SnapshotBuilder) (rows : list (Z * EncodedRow))
    : Prop := {
  bi_layout : builder_layout b = Some L;
  bi_keys : builder_primary_keys b = rows.*1;
  bi_entries : builder_index_entries b
    = imap (λ i kr, MkEntry kr.1 (Z.of_nat i * row_slot_size L)) rows;
  bi_bytes : builder_row_slot_bytes b = concat (row_slot <$> rows.*2);
  bi_payloads : builder_row_payloads b = row_payload <$> rows.*2;
  bi_nodup : NoDup rows.*1;
  bi_range : Forall is_u64 rows.*1;
  bi_rows : Forall (λ r, row_ok L r ∧ Zlen (row_slot r) = row_slot_size L) rows.*2;
}.

Lemma concat_slots_length L (rows : list EncodedRow) :
  Forall (λ r, row_ok L r ∧ Zlen (row_slot r) = row_slot_size L) rows →
  Zlen (concat (row_slot <$> rows)) = Zlen rows * row_slot_size L.
Proof.
  induction 1 as [|r rows [_ Hr] _ IH]; [done|]. rewrite fmap_cons. cbn [concat].
  rewrite Zlen_app, Zlen_cons, IH, Hr. lia.
Qed.

Lemma make_builder_inv L o : builder_inv L (make_builder (Some L) o) [].
Proof. split; try done; constructor. Qed.

Lemma AddRow_spec L b rows key r :
  builder_inv L b rows → 0 ≤ row_slot_size L → is_u64 key →
  match AddRow key r b with
  | (Ok _, b') => row_ok L r ∧ (key ∉ rows.*1)
      ∧ builder_inv L b' (rows ++ [(key, cut_row L r)]) ∧ builder_options b' = builder_options b
  | (Err _, b') => b' = b
      ∧ (¬ row_ok L r ∨ key ∈ rows.*1 ∨ u64_max < Zlen (builder_row_slot_bytes b))
  | (Fault _, _) => False
  end.
Proof.
  intros [HL Hk He Hb Hp Hnd Hrg Hrows] Hs Hkey. unfold AddRow. rewrite HL.
  destruct (negb _ || negb _) eqn:Ever.
  { split; [done|]. left. intros [Hv Hf _]. by rewrite Hv, Hf, !Z.eqb_refl in Ever. }
  destruct (Z.ltb_spec (Zlen (row_slot r)) (row_slot_size L)) as [Hlt|Hge].
  { split; [done|]. left. intros [_ _ Hl]. lia. }
  btoprop. assert (row_ok L r) as Hr by (split; (done || lia)).
  rewrite Hk. destruct (bool_decide (key ∈ rows.*1)) eqn:Ed.
  { apply bool_decide_eq_true in Ed. split; [done|]. by right; left. }
  apply bool_decide_eq_false in Ed.
  destruct (Z.ltb_spec u64_max (Zlen (builder_row_slot_bytes b))) as [|Hmax];
    [split; [done|by right; right]|].
  split_and!; [done..| |done]. split; cbn; rewrite ?fmap_app; try done.
  - rewrite He, imap_app. f_equal. simpl. do 2 f_equal.
    rewrite Hb, (concat_slots_length L) by done. unfold Zlen. rewrite length_fmap. f_equal. lia.
  - rewrite Hb, concat_app. simpl. by rewrite app_nil_r.
  - by rewrite Hp.
  - apply NoDup_app. split_and!; [done| |apply NoDup_singleton].
    intros k Hin Hk'. apply list_elem_of_singleton in Hk' as ->. done.
  - apply Forall_app. split; [done|by constructor].
  - apply Forall_app. split; [done|]. constructor; [|done]. split; [by apply cut_row_ok|].
    unfold cut_row, Zlen in *. simpl. rewrite length_take. lia.
Qed.

Lemma slice_concat {A} n (ls : list (list A)) i x :
  Forall (λ l, length l = n) ls → ls !! i = Some x → slice (i * n) n (concat ls) = x.
Proof.
  intros Hl. revert i. induction Hl as [|l ls Hlen Hl IH]; intros i Hi; [done|].
  cbn [concat]. destruct i as [|i]; simpl in Hi.
  - injection Hi as ->. rewrite slice_app_l by lia. unfold slice. rewrite drop_0. by apply take_ge, Nat.eq_le_incl.
  - rewrite <-(IH i Hi). unfold slice. simpl. rewrite drop_app_ge by lia.
    do 2 f_equal. lia.
Qed.

(** The rows of a sealed builder, read back by offset. *)
Lemma owned_row_at L b rows index i key r :
  builder_inv L b rows → 0 < row_slot_size L → rows !! i = Some (key, r) →
  OwnedEncodedRowAt (MkOwnedSnapshotBacking (Some L) index (builder_row_slot_bytes b)
    (builder_row_payloads b)) (Z.of_nat i * row_slot_size L) = Ok r.
Proof.
  intros [HL Hk He Hb Hp Hnd Hrg Hrows] Hs Hi. unfold OwnedEncodedRowAt.
  cbn [owned_layout row_slot_bytes row_payloads]. rewrite (proj2 (Z.eqb_neq _ _)) by lia.
  assert (rows.*2 !! i = Some r) as Hi2 by (by rewrite list_lookup_fmap, Hi).
  rewrite Forall_lookup in Hrows. destruct (Hrows i r Hi2) as [[Hv Hf _] Hlen].
  assert (Zlen (builder_row_slot_bytes b) = Zlen rows * row_slot_size L) as Hbl.
  { rewrite Hb, (concat_slots_length L) by (by apply Forall_lookup). unfold Zlen. by rewrite length_fmap. }
  assert (Z.of_nat i < Zlen rows) as Hlt by (apply lookup_lt_Some in Hi; unfold Zlen; lia).
  rewrite Hbl. rewrite (proj2 (Z.ltb_ge _ _)) by nia. rewrite (proj2 (Z.ltb_ge _ _)) by nia.
  rewrite Z.mod_mul by lia. cbn [Z.eqb negb]. rewrite Z.div_mul by lia.
  assert (Zlen (builder_row_payloads b) = Zlen rows) as Hpl.
  { rewrite Hp. unfold Zlen. by rewrite !length_fmap. }
  rewrite Hpl, (proj2 (Z.leb_gt _ _)) by lia.
  assert (at_ (E := Status) (builder_row_payloads b) (Z.of_nat i) = Ok (row_payload r)) as ->.
  { apply at_Ok. split; [lia|]. by rewrite Nat2Z.id, Hp, list_lookup_fmap, Hi2. }
  cbn [obind]. rewrite subspan_in by nia. cbn [obind].
  assert (slice (Z.to_nat (Z.of_nat i * row_slot_size L)) (Z.to_nat (row_slot_size L))
    (builder_row_slot_bytes b) = row_slot r) as ->.
  { rewrite Z2Nat.inj_mul, Nat2Z.id by lia. rewrite Hb.
    apply slice_concat; [|by rewrite list_lookup_fmap, Hi2].
    apply Forall_fmap, Forall_lookup. intros j r' Hj. simpl.
    destruct (Hrows j r' Hj) as [_ Hlen']. unfold Zlen in Hlen'. lia. }
  rewrite <-Hv, <-Hf. by destruct r.
Qed.

Lemma elem_of_index_entries L (rows : list (Z * EncodedRow)) key off :
  MkEntry key off ∈ imap (λ i kr, MkEntry kr.1 (Z.of_nat i * row_slot_size L)) rows
  ↔ ∃ i r, rows !! i = Some (key, r) ∧ off = Z.of_nat i * row_slot_size L.
Proof.
  rewrite list_elem_of_lookup. split.
  - intros [i Hi]. rewrite list_lookup_imap in Hi.
    apply fmap_Some in Hi as ([k r] & Hr & [= <- ->]). by exists i, r.
  - intros (i & r & Hi & ->). exists i. by rewrite list_lookup_imap, Hi.
Qed.

Definition options_ok (o : SnapshotBuildOptions) : Prop :=
  is_u64 (snapshot_hash_seed o) ∧ is_u32 (snapshot_hash_version o).

Lemma index_entries_range L b rows :
  builder_inv L b rows → 0 ≤ row_slot_size L → is_u64 (Zlen rows * row_slot_size L) →
  Forall (λ e, is_u64 (primary_key e) ∧ is_u64 (row_offset e)) (builder_index_entries b).
Proof.
  intros [HL Hk He Hb Hp Hnd Hrg Hrows] Hs Hmem. rewrite He.
  apply Forall_lookup. intros i e Hi. rewrite list_lookup_imap in Hi.
  apply fmap_Some in Hi as ([k r] & Hr & ->). cbn [primary_key row_offset fst].
  rewrite Forall_lookup in Hrg. split.
  - apply (Hrg i). by rewrite list_lookup_fmap, Hr.
  - apply lookup_lt_Some in Hr. unfold is_u64, Zlen in *. nia.
Qed.

Lemma index_entries_keys L b rows :
  builder_inv L b rows →
  primary_key <$> builder_index_entries b = rows.*1
  ∧ Zlen (builder_index_entries b) = Zlen rows
  ∧ Zlen (builder_row_slot_bytes b) = Zlen rows * row_slot_size L.
Proof.
  intros [HL Hk He Hb Hp Hnd Hrg Hrows]. split_and!.
  - rewrite He, fmap_imap. by rewrite <-(imap_const fst rows).
  - rewrite He. unfold Zlen. by rewrite length_imap.
  - rewrite Hb, (concat_slots_length L) by done. unfold Zlen. by rewrite length_fmap.
Qed.

(** An index built from the entries, over the builder's rows. *)
Lemma sealed_backing_ok L b rows o index :
  builder_inv L b rows → 0 < row_slot_size L → built_from (builder_index_entries b) o index →
  backing_ok (owned_backing (MkOwnedSnapshotBacking (Some L) index
    (builder_row_slot_bytes b) (builder_row_payloads b))) L (list_to_map rows).
Proof.
  intros Hinv Hs (v & found & Hv & Hfound & Hperm & _ & _ & Hmap).
  destruct (index_entries_keys L b rows Hinv) as (Hkeys & _ & _).
  pose proof Hinv as [HL Hk He Hb Hp Hnd Hrg Hrows]. split; [done| |].
  - exists v, found. split_and!; [done|done|split| |].
    + by rewrite Hperm, Hkeys.
    + intros key. destruct (Hmap key) as (r & Hr & Hoff). exists r. split; [done|].
      intros off. by rewrite Hoff, Hperm.
    + intros key off Hin. rewrite Hperm, He in Hin.
      apply elem_of_index_entries in Hin as (i & r & Hi & ->). exists r.
      split; [by eapply owned_row_at|].
      apply elem_of_list_to_map; [done|]. by eapply list_elem_of_lookup_2.
    + intros key r Hr. apply elem_of_list_to_map in Hr; [|done].
      apply list_elem_of_lookup in Hr as [i Hi].
      exists (Z.of_nat i * row_slot_size L). rewrite Hperm, He.
      apply elem_of_index_entries. by exists i, r.
  - intros key r Hr. apply elem_of_list_to_map in Hr; [|done].
    rewrite Forall_forall in Hrows. rewrite Forall_forall in Hrg.
    split; [apply Hrg|apply Hrows]; apply list_elem_of_fmap; by exists (key, r).
Qed.

(** Sealing establishes the contract of a backing. *)
Lemma Seal_spec L b rows :
  builder_inv L b rows → 0 < row_slot_size L → options_ok (builder_options b) →
  is_u64 (Zlen (builder_row_slot_bytes b)) →
  match Seal b with
  | (Ok backing, _) =>
      backing_ok (owned_backing backing) L (list_to_map rows)
      ∧ backing_row_count (owned_backing backing) = Zlen rows
  | (Err e, b') => b' = b ∧ 2 ^ 58 < Zlen rows
  | (Fault _, _) => False
  end.
Proof.
  intros Hinv Hs [Hseed Hver] Hmem.
  destruct (index_entries_keys L b rows Hinv) as (Hkeys & Hlen & Hbl). rewrite Hbl in Hmem.
  pose proof (index_entries_range L b rows Hinv ltac:(lia) Hmem) as Hrange.
  pose proof (Zlen_nonneg rows).
  unfold Seal. rewrite (bi_layout _ _ _ Hinv). set (o := MkBuildOptions _ _ _).
  pose proof (build_spec (builder_index_entries b) o
    ltac:(rewrite Hlen; unfold is_u64 in *; nia) Hseed Hver Hrange) as Hbuild.
  destruct (BuildFrozenPrimaryKeyIndex (builder_index_entries b) o) as [index|e|]; [|split; [done|]|done].
  - split; [by apply (sealed_backing_ok L b rows o), Hbuild|].
    cbn. rewrite (bi_payloads _ _ _ Hinv). unfold Zlen. by rewrite !length_fmap.
  - destruct Hbuild as [_ [Hg|[Hdup|Hbig]]]; [done| |by rewrite Hlen in Hbig].
    by rewrite Hkeys in Hdup; destruct Hdup; apply Hinv.
Qed.

(** ** Building a whole snapshot *)

(** [AddRow] for each row, stopping at the first failure. *)
Fixpoint add_rows (rows : list (Z * EncodedRow)) : stateful SnapshotBuilder Status unit :=
  match rows with
  | [] => sret tt
  | (key, r) :: rows' => do* _ := AddRow key r in add_rows rows'
  end.

Lemma add_rows_inv L rows b done_ b' :
  0 ≤ row_slot_size L → builder_inv L b done_ → Forall is_u64 rows.*1 →
  add_rows rows b = (Ok tt, b') →
  builder_inv L b' (done_ ++ (prod_map id (cut_row L) <$> rows))
  ∧ builder_options b' = builder_options b.
Proof.
  intros Hs. revert b done_. induction rows as [|[key r] rows IH]; intros b done_ Hinv Hr H.
  - injection H as <-. simpl. by rewrite app_nil_r.
  - simpl in H. unfold sbind in H. apply Forall_cons in Hr as [Hkey Hr].
    pose proof (AddRow_spec L b done_ key r Hinv Hs Hkey) as Hadd.
    destruct (AddRow key r b) as [[[]|e|f] b1]; [|done|done].
    destruct Hadd as (_ & _ & Hinv1 & Hopt).
    apply (IH b1 (done_ ++ [(key, cut_row L r)])) in H as [H Hopt']; [|done|done].
    rewrite fmap_cons. rewrite <-app_assoc in H. split; [done|congruence].
Qed.

Lemma list_to_map_cut L rows key :
  list_to_map (M := gmap Z EncodedRow) (prod_map id (cut_row L) <$> rows) !! key
  = cut_row L <$> list_to_map (M := gmap Z EncodedRow) rows !! key.
Proof. by rewrite list_to_map_fmap, lookup_fmap. Qed.

(** *** C21: A sealed snapshot answers with the rows that were added.

    Rows added to a builder and sealed can be read through a snapshot view:
    [Get] of an added key materialises exactly the row added under it (its
    slot cut to the layout's size), [Get] of any other key finds nothing, and
    [EnumerateSnapshotRows] lists every added row once.  [Seal] fails only
    above [2^58] rows. *)
Theorem snapshot_build_read (L : CompiledRowLayout) (o : SnapshotBuildOptions)
    (rows : list (Z * EncodedRow)) (b : SnapshotBuilder)
    (Hsize : 0 < row_slot_size L) (Ho : options_ok o) (Hkeys : Forall is_u64 rows.*1)
    (Hadd : add_rows rows (make_builder (Some L) o) = (Ok tt, b))
    (Hmem : is_u64 (Zlen (builder_row_slot_bytes b))) :
  let stored := cut_row L <$> list_to_map (M := gmap Z EncodedRow) rows in
  match Seal b with
  | (Ok backing, _) =>
      (∀ key, CompactDeltaSnapshot_Get (make_compact (Some backing)) key = map_get L stored key)
      ∧ (∀ key, FullSnapshotView_Get (make_full (Some (owned_backing backing))) key
                = map_get L stored key)
      ∧ ∃ l, EnumerateSnapshotRows (owned_backing backing) = Ok l
          ∧ NoDup (snapshot_primary_key <$> l)
          ∧ ∀ key r, MkSnapshotRow key r ∈ l ↔ stored !! key = Some r
  | (Err _, b') => b' = b ∧ 2 ^ 58 < Zlen rows
  | (Fault _, _) => False
  end.
Proof.
  intros stored.
  destruct (add_rows_inv L rows _ [] b ltac:(lia) (make_builder_inv L o) Hkeys Hadd)
    as [Hinv Hopt]. simpl in Hinv.
  pose proof (Seal_spec L b _ Hinv Hsize ltac:(by rewrite Hopt) Hmem) as Hseal.
  assert (list_to_map (prod_map id (cut_row L) <$> rows) = stored) as Hst.
  { unfold stored. by rewrite list_to_map_fmap. }
  rewrite Hst in Hseal.
  destruct (Seal b) as [[backing|e|f] b']; [|split; [apply Hseal|]|done].
  - destruct Hseal as [Hok _]. split_and!; [intros key..|].
    + apply (view_Get_spec (owned_backing backing) L stored key Hok).
    + apply (view_Get_spec (owned_backing backing) L stored key Hok).
    + apply (Enumerate_spec (owned_backing backing) L stored Hok).
  - destruct Hseal as [_ Hseal]. unfold Zlen in *. by rewrite length_fmap in Hseal.
Qed.

(** ** Reusing a builder *)

Lemma Seal_moves b backing b' :
  Seal b = (Ok backing, b') →
  b' = MkSnapshotBuilder (builder_layout b) (builder_options b) (builder_primary_keys b)
         (builder_index_entries b) [] []
  ∧ ∃ L index, builder_layout b = Some L
    ∧ BuildFrozenPrimaryKeyIndex (builder_index_entries b)
        (MkBuildOptions (snapshot_hash_seed (builder_options b))
           (snapshot_hash_version (builder_options b)) kDefaultGroupWidth) = Ok index
    ∧ backing = MkOwnedSnapshotBacking (Some L) index (builder_row_slot_bytes b)
        (builder_row_payloads b).
Proof.
  unfold Seal. destruct (builder_layout b) as [L|]; [|done].
  destruct (BuildFrozenPrimaryKeyIndex _ _) as [i|e|f] eqn:E; [|discriminate..].
  intros H. injection H as <- <-. split; [done|]. by exists L, i.
Qed.

Lemma AddRow_Ok_inv key r b b' :
  AddRow key r b = (Ok tt, b') →
  ∃ L, builder_layout b = Some L ∧ row_ok L r ∧ (key ∉ builder_primary_keys b)
    ∧ b' = MkSnapshotBuilder (Some L) (builder_options b) (builder_primary_keys b ++ [key])
        (builder_index_entries b ++ [MkEntry key (Zlen (builder_row_slot_bytes b))])
        (builder_row_slot_bytes b ++ row_slot (cut_row L r))
        (builder_row_payloads b ++ [row_payload r]).
Proof.
  unfold AddRow. destruct (builder_layout b) as [L|]; [|done].
  destruct (negb _ || negb _) eqn:Ever; [done|].
  destruct (Z.ltb_spec (Zlen (row_slot r)) (row_slot_size L)); [done|].
  destruct (bool_decide _) eqn:Ed; [done|]. destruct (u64_max <? _); [done|].
  intros H'. injection H' as <-. apply bool_decide_eq_false in Ed. btoprop.
  exists L. split_and!; try done.
Qed.

Lemma AddRow_total L b key r :
  builder_layout b = Some L → row_ok L r → key ∉ builder_primary_keys b →
  Zlen (builder_row_slot_bytes b) ≤ u64_max →
  AddRow key r b
  = (Ok tt, MkSnapshotBuilder (Some L) (builder_options b) (builder_primary_keys b ++ [key])
        (builder_index_entries b ++ [MkEntry key (Zlen (builder_row_slot_bytes b))])
        (builder_row_slot_bytes b ++ row_slot (cut_row L r))
        (builder_row_payloads b ++ [row_payload r])).
Proof.
  intros HL [Hv Hf Hs] Hnew Hmax. unfold AddRow. rewrite HL, Hv, Hf, !Z.eqb_refl. cbn [negb orb].
  rewrite (proj2 (Z.ltb_ge _ _)) by done. rewrite bool_decide_eq_false_2 by done.
  by rewrite (proj2 (Z.ltb_ge _ _)) by done.
Qed.

(** The only row of a builder with one row. *)
Lemma single_row_at L (o : SnapshotBuildOptions) index k r :
  0 < row_slot_size L → is_u64 k → row_ok L r →
  OwnedEncodedRowAt (MkOwnedSnapshotBacking (Some L) index (row_slot (cut_row L r))
    [row_payload r]) 0 = Ok (cut_row L r).
Proof.
  intros Hs Hk Hr.
  pose proof (AddRow_spec L (make_builder (Some L) o) [] k r (make_builder_inv L o)
    ltac:(lia) Hk) as H.
  destruct (AddRow k r _) as [[[]|e|f] b'] eqn:E; [| |done].
  - destruct H as (_ & _ & Hinv & _).
    apply AddRow_Ok_inv in E as (L' & [= <-] & _ & _ & ->).
    apply (owned_row_at L _ _ index 0 k (cut_row L r)) in Hinv; done.
  - by destruct H as [_ [?|[[]%elem_of_nil|?]]].
Qed.

(** A builder reused after [Seal] serves rows under the wrong keys.

    [Seal] moves the row bytes out but keeps the index entries.  When one row
    was added and sealed, and another is added to the same builder and sealed
    again, the second snapshot still lists the first key, at the offset that
    now holds the second row: [Get] of the first key returns the second
    row. *)
Theorem reused_builder_wrong_row (L : CompiledRowLayout) (o : SnapshotBuildOptions)
    (k1 k2 : Z) (r1 r2 : EncodedRow) (b1 b2 b3 : SnapshotBuilder)
    (first second : OwnedSnapshotBacking)
    (Hsize : 0 < row_slot_size L ≤ u32_max) (Ho : options_ok o)
    (Hk1 : is_u64 k1) (Hk2 : is_u64 k2)
    (Hadd1 : AddRow k1 r1 (make_builder (Some L) o) = (Ok tt, b1))
    (Hseal1 : Seal b1 = (Ok first, b2))
    (Hadd2 : AddRow k2 r2 b2 = (Ok tt, b3))
    (Hseal2 : (Seal b3).1 = Ok second) :
  CompactDeltaSnapshot_Get (make_compact (Some second)) k1
  = let* row := MaterializeRow (Some L) (cut_row L r2) in Ok (Some row).
Proof.
  apply AddRow_Ok_inv in Hadd1 as (L1 & [= <-] & _ & _ & ->).
  apply Seal_moves in Hseal1 as [-> _].
  apply AddRow_Ok_inv in Hadd2 as (L2 & [= <-] & Hr2 & Hnew & ->).
  destruct (Seal _) as [c b4] eqn:E in Hseal2. simpl in Hseal2. subst c.
  apply Seal_moves in E as (_ & L3 & index & [= <-] & Hb & ->).
  assert (k2 ≠ k1) as Hne by (intros ->; apply Hnew; left).
  pose proof (build_spec [MkEntry k1 0; MkEntry k2 0]
    (MkBuildOptions (snapshot_hash_seed o) (snapshot_hash_version o) kDefaultGroupWidth)
    ltac:(unfold is_u64, Zlen; simpl; lia) (proj1 Ho) (proj2 Ho)
    ltac:(repeat constructor; unfold is_u64 in *; simpl; lia)) as Hspec.
  assert (BuildFrozenPrimaryKeyIndex [MkEntry k1 0; MkEntry k2 0]
    (MkBuildOptions (snapshot_hash_seed o) (snapshot_hash_version o) kDefaultGroupWidth)
    = Ok index) as Hb' by exact Hb.
  rewrite Hb' in Hspec. destruct Hspec as (_ & v & found & Hv & Hfound & _ & _ & _ & Hmap).
  unfold CompactDeltaSnapshot_Get, make_compact, ImmutableRowSnapshotView_Get, make_view.
  cbn [compact_view view_index view_backing ValidateBackingIndex option_fmap fmap option_map
    owned_backing frozen_index_bytes owned_frozen_index_bytes]. rewrite Hv. cbn [obind].
  destruct (Hmap k1) as (off & -> & Hoff). cbn [obind].
  assert (off = Some 0) as -> by (apply Hoff; left).
  cbn [owned_backing EncodedRowAt layout owned_layout builder_row_slot_bytes
    builder_row_payloads app].
  by rewrite (single_row_at L o index k2 r2) by (done || lia).
Qed.
