(* ===== verification/RealtimeDelta.v ===== *)
(** * The realtime delta: [src/store/realtime_delta.{h,cc}]

    An open-addressing hash map of atomics from primary keys to row
    references, and the table that owns the references.  A pointer to a
    [RealtimeRowRef] is its index among the references its owner holds
    ([rows_] of the table), the [heap] argument below.

    The functions here are the runs of the source's operations without
    interference: a compare-exchange on a value just read succeeds.  The
    interleaved executions are in [RealtimeConcurrent]. *)

From Stdlib Require Import SpecFloat.
From S2P Require Import Prelude Status ByteIo Hash Types Schema RowStorage.

(** ** [double]

    IEEE binary64 arithmetic with rounding to nearest, from the executable
    specification of the Standard Library. *)

Abbreviation double := spec_float.

Definition double_of_Z (z : Z) : double := binary_normalize 53 1024 z 0 false.
Definition double_div (x y : double) : double := SFdiv 53 1024 x y.
(** [x >= y], false on unordered operands. *)
Definition double_ge (x y : double) : bool := SFleb y x.
(** The literal [n / d], correctly rounded. *)
Definition double_literal (n d : Z) : double := double_div (double_of_Z n) (double_of_Z d).

Record ThresholdConfig : Type := MkThresholdConfig {
  realtime_delta_row_arena_bytes : Z;
  realtime_delta_payload_pool_bytes : Z;
  realtime_delta_unique_key_ratio : double;
  realtime_delta_load_factor : double;
  compact_delta_bytes : Z;
  compact_delta_full_snapshot_ratio : double;
  cutover_batch_size : Z;
}.

Definition ThresholdConfig_default : ThresholdConfig :=
  MkThresholdConfig (64 * 1024 * 1024) (64 * 1024 * 1024) (double_literal 5 100)
    (double_literal 60 100) (128 * 1024 * 1024) (double_literal 10 100) 1.

Record RealtimeDeltaStats : Type := MkRealtimeDeltaStats {
  hash_capacity : Z;
  unique_visible_keys : Z;
  published_row_count : Z;
  stat_row_slot_bytes : Z;
  stat_payload_pool_bytes : Z;
  stat_load_factor : double;
}.

Definition UniqueKeyRatio (stats : RealtimeDeltaStats) (full_snapshot_row_count : Z) : double :=
  if full_snapshot_row_count =? 0 then double_of_Z 0
  else double_div (double_of_Z (unique_visible_keys stats)) (double_of_Z full_snapshot_row_count).

Definition ShouldCompactRealtimeDelta (stats : RealtimeDeltaStats)
    (full_snapshot_row_count : Z) (thresholds : ThresholdConfig) : bool :=
  double_ge (stat_load_factor stats) (realtime_delta_load_factor thresholds)
  || double_ge (UniqueKeyRatio stats full_snapshot_row_count)
       (realtime_delta_unique_key_ratio thresholds)
  || (realtime_delta_row_arena_bytes thresholds <=? stat_row_slot_bytes stats)
  || (realtime_delta_payload_pool_bytes thresholds <=? stat_payload_pool_bytes stats).

(** ** Data *)

Record RealtimeRowRef : Type := MkRowRef {
  ref_primary_key : Z;
  ref_position : SourcePosition;
  ref_encoded : option EncodedRow;
  ref_row_slot_bytes : Z;
  ref_payload_pool_bytes : Z;
  sealed_visible : bool;
}.

Definition set_sealed_visible (r : RealtimeRowRef) : RealtimeRowRef :=
  MkRowRef (ref_primary_key r) (ref_position r) (ref_encoded r) (ref_row_slot_bytes r)
    (ref_payload_pool_bytes r) true.

(** [RealtimeDeltaBoundary] holds the number of rows published so far. *)
Record RealtimeDeltaBoundary : Type := MkBoundary { boundary_row_count : Z }.

Record RealtimeVisibleRow : Type := MkVisibleRow {
  visible_primary_key : Z;
  visible_position : SourcePosition;
  visible_encoded : option EncodedRow;
}.

Inductive SlotState : Type := kEmpty | kReserved | kOccupied.

#[export] Instance SlotState_eq_dec : EqDecision SlotState.
Proof. solve_decision. Defined.

Record Slot : Type := MkSlot {
  slot_state : SlotState;
  slot_primary_key : Z;
  latest_row : option nat;
}.

Definition empty_slot : Slot := MkSlot kEmpty 0 None.

Record RealtimeAtomicHashMap : Type := MkHashMap {
  slots_ : list Slot;
  capacity_ : Z;
  hash_seed_ : Z;
  hash_version_ : Z;
  unique_key_count_ : Z;
}.

Definition make_hash_map (cap seed version : Z) : RealtimeAtomicHashMap :=
  MkHashMap (replicate (Z.to_nat cap) empty_slot) cap seed version 0.

Definition load_factor (m : RealtimeAtomicHashMap) : double :=
  if capacity_ m =? 0 then double_of_Z 0
  else double_div (double_of_Z (unique_key_count_ m)) (double_of_Z (capacity_ m)).

Definition IsPowerOfTwo (value : Z) : bool :=
  negb (value =? 0) && (Z.land value (wrap64 (value - 1)) =? 0).

Definition ProbeIndex (m : RealtimeAtomicHashMap) (primary_key probe : Z) : Z :=
  let hash := StableHash64 primary_key (hash_seed_ m) (hash_version_ m) in
  if IsPowerOfTwo (capacity_ m) then
    Z.land (wrap64 (hash + probe)) (wrap64 (capacity_ m - 1))
  else wrap64 (hash + probe) mod capacity_ m.

(** [*p] for a pointer into the owner's references. *)
Definition deref (heap : list RealtimeRowRef) (p : nat) : StatusOr RealtimeRowRef :=
  at_ heap (Z.of_nat p).

Definition set_slot (i : Z) (s : Slot) (m : RealtimeAtomicHashMap) : RealtimeAtomicHashMap :=
  MkHashMap (<[Z.to_nat i := s]> (slots_ m)) (capacity_ m) (hash_seed_ m) (hash_version_ m)
    (unique_key_count_ m).

Definition add_unique_key (m : RealtimeAtomicHashMap) : RealtimeAtomicHashMap :=
  MkHashMap (slots_ m) (capacity_ m) (hash_seed_ m) (hash_version_ m)
    (wrap64 (unique_key_count_ m + 1)).

(** ** The hash map *)

Definition PublishExisting (heap : list RealtimeRowRef) (i : Z) (slot : Slot) (row_ref : nat)
    : stateful RealtimeAtomicHashMap Status bool := λ m,
  match latest_row slot with
  | None => (Internal "occupied realtime slot has no visible row", m)
  | Some current =>
      match (let* c := deref heap current in
             let* r := deref heap row_ref in
             ClassifySourcePositionUpdate (ref_position c) (ref_position r)) with
      | Ok kNewer =>
          (Ok true, set_slot i (MkSlot (slot_state slot) (slot_primary_key slot) (Some row_ref)) m)
      | Ok _ => (Ok false, m)
      | Err e => (Err e, m)
      | Fault f => (Fault f, m)
      end
  end.

(** The probe loop of [PublishAndReport], with [n] probes left. *)
Fixpoint publish_loop (heap : list RealtimeRowRef) (primary_key : Z) (row_ref : nat)
    (n : nat) (probe : Z) : stateful RealtimeAtomicHashMap Status bool := λ m,
  match n with
  | O => (FailedPrecondition "realtime hash map capacity exhausted", m)
  | S n' =>
      let i := ProbeIndex m primary_key probe in
      match at_ (E := Status) (slots_ m) i with
      | Ok slot =>
          match slot_state slot with
          | kReserved => (Unavailable "realtime hash map slot is reserved", m)
          | kOccupied =>
              if slot_primary_key slot =? primary_key
              then PublishExisting heap i slot row_ref m
              else publish_loop heap primary_key row_ref n' (probe + 1) m
          | kEmpty =>
              (Ok true, add_unique_key
                          (set_slot i (MkSlot kOccupied primary_key (Some row_ref)) m))
          end
      | Err e => (Err e, m)
      | Fault f => (Fault f, m)
      end
  end.

Definition PublishAndReport (heap : list RealtimeRowRef) (primary_key : Z)
    (row_ref : option nat) : stateful RealtimeAtomicHashMap Status bool := λ m,
  match row_ref with
  | None => (InvalidArgument "realtime row ref must not be null", m)
  | Some p =>
      match deref heap p with
      | Ok r =>
          if negb (ref_primary_key r =? primary_key) then
            (InvalidArgument "realtime row ref primary key mismatch", m)
          else if negb (IsValidSourcePosition (ref_position r)) then
            (InvalidArgument "source position is invalid", m)
          else if capacity_ m =? 0 then
            (FailedPrecondition "realtime hash map capacity exhausted", m)
          else publish_loop heap primary_key p (Z.to_nat (capacity_ m)) 0 m
      | Err e => (Err e, m)
      | Fault f => (Fault f, m)
      end
  end.

Definition HashMap_Publish (heap : list RealtimeRowRef) (primary_key : Z)
    (row_ref : option nat) : stateful RealtimeAtomicHashMap Status unit :=
  do* _ := PublishAndReport heap primary_key row_ref in sret tt.

Fixpoint get_loop (m : RealtimeAtomicHashMap) (primary_key : Z) (n : nat) (probe : Z)
    : StatusOr (option nat) :=
  match n with
  | O => Ok None
  | S n' =>
      let* slot := at_ (slots_ m) (ProbeIndex m primary_key probe) in
      match slot_state slot with
      | kReserved | kEmpty => Ok None
      | kOccupied =>
          if negb (slot_primary_key slot =? primary_key)
          then get_loop m primary_key n' (probe + 1)
          else match latest_row slot with
               | None => Internal "occupied realtime slot has no visible row"
               | Some row => Ok (Some row)
               end
      end
  end.

Definition HashMap_Get (m : RealtimeAtomicHashMap) (primary_key : Z) : StatusOr (option nat) :=
  if capacity_ m =? 0 then Ok None
  else get_loop m primary_key (Z.to_nat (capacity_ m)) 0.

Fixpoint reserve_loop (primary_key : Z) (n : nat) (probe : Z)
    : stateful RealtimeAtomicHashMap Status unit := λ m,
  match n with
  | O => (FailedPrecondition "realtime hash map capacity exhausted", m)
  | S n' =>
      let i := ProbeIndex m primary_key probe in
      match at_ (E := Status) (slots_ m) i with
      | Ok slot =>
          match slot_state slot with
          | kReserved => (Unavailable "realtime hash map slot is reserved", m)
          | kOccupied =>
              if slot_primary_key slot =? primary_key
              then (FailedPrecondition "realtime hash map slot is occupied", m)
              else reserve_loop primary_key n' (probe + 1) m
          | kEmpty =>
              (Ok tt, set_slot i (MkSlot kReserved (slot_primary_key slot) (latest_row slot)) m)
          end
      | Err e => (Err e, m)
      | Fault f => (Fault f, m)
      end
  end.

Definition HashMap_ReserveSlotForTesting (primary_key : Z)
    : stateful RealtimeAtomicHashMap Status unit := λ m,
  if capacity_ m =? 0 then (FailedPrecondition "realtime hash map capacity exhausted", m)
  else reserve_loop primary_key (Z.to_nat (capacity_ m)) 0 m.

(** ** The table *)

Record RealtimeDeltaAtomicTable : Type := MkTable {
  table_layout_ : option CompiledRowLayout;
  map_ : RealtimeAtomicHashMap;
  rows_ : list RealtimeRowRef;
  table_row_slot_bytes : Z;
  table_payload_pool_bytes : Z;
}.

Definition make_table (l : option CompiledRowLayout) (cap seed version : Z)
    : RealtimeDeltaAtomicTable := MkTable l (make_hash_map cap seed version) [] 0 0.

Definition StringBytes (values : list cpp_string) : Z :=
  foldl (λ bytes value, wrap64 (bytes + Zlen value)) 0 values.

Definition PayloadPoolBytes (encoded : EncodedRow) : Z :=
  let bytes := Zlen (arena encoded) in
  let bytes := wrap64 (bytes + StringBytes (string_dictionary encoded)) in
  let bytes := foldl (λ bytes values, wrap64 (bytes + Zlen values)) bytes
                 (scalar_list_dictionary encoded) in
  let bytes := foldl (λ bytes values, wrap64 (bytes + StringBytes values)) bytes
                 (string_list_dictionary encoded) in
  wrap64 (bytes + StringBytes (string_element_dictionary encoded)).

Definition BuildRowRef (layout : option CompiledRowLayout) (primary_key : Z)
    (position : SourcePosition) (encoded : EncodedRow) : StatusOr RealtimeRowRef :=
  match layout with
  | None => FailedPrecondition "realtime table has no row layout"
  | Some l =>
      if negb (IsValidSourcePosition position) then
        InvalidArgument "source position is invalid"
      else if negb (row_schema_version encoded =? schema_version l)
         || negb (row_layout_fingerprint encoded =? layout_fingerprint l) then
        FailedPrecondition "encoded row metadata does not match realtime layout"
      else if negb (Zlen (row_slot encoded) =? row_slot_size l) then
        InvalidArgument "encoded row slot size does not match realtime layout"
      else
      let* _ := MaterializeRow layout encoded in
      Ok (MkRowRef primary_key position (Some encoded) (Zlen (row_slot encoded))
            (PayloadPoolBytes encoded) false)
  end.

(** [Publish] appends the reference before it publishes it; the reference
    stays in [rows_] when publishing fails. *)
Definition Publish (primary_key : Z) (position : SourcePosition) (encoded : EncodedRow)
    : stateful RealtimeDeltaAtomicTable Status unit := λ t,
  match BuildRowRef (table_layout_ t) primary_key position encoded with
  | Err e => (Err e, t)
  | Fault f => (Fault f, t)
  | Ok row_ref =>
      let visible_ref := length (rows_ t) in
      let rows := rows_ t ++ [row_ref] in
      match PublishAndReport rows primary_key (Some visible_ref) (map_ t) with
      | (Ok published, m) =>
          let row_ref := if published then set_sealed_visible row_ref else row_ref in
          (Ok tt, MkTable (table_layout_ t) m (rows_ t ++ [row_ref])
             (wrap64 (table_row_slot_bytes t + ref_row_slot_bytes row_ref))
             (wrap64 (table_payload_pool_bytes t + ref_payload_pool_bytes row_ref)))
      | (Err e, m) =>
          (Err e, MkTable (table_layout_ t) m rows (table_row_slot_bytes t)
                    (table_payload_pool_bytes t))
      | (Fault f, m) =>
          (Fault f, MkTable (table_layout_ t) m rows (table_row_slot_bytes t)
                      (table_payload_pool_bytes t))
      end
  end.

Definition RealtimeDelta_Get (t : RealtimeDeltaAtomicTable) (primary_key : Z)
    : StatusOr (option Row) :=
  match table_layout_ t with
  | None => FailedPrecondition "realtime table has no row layout"
  | Some l =>
      let* row_ref := HashMap_Get (map_ t) primary_key in
      match row_ref with
      | None => Ok None
      | Some p =>
          let* ref := deref (rows_ t) p in
          match ref_encoded ref with
          | None => Internal "realtime row ref has no encoded row"
          | Some e => Ok (Some (MkRow (Some l) (Some e)))
          end
      end
  end.

Definition CaptureCompactionBoundary (t : RealtimeDeltaAtomicTable) : RealtimeDeltaBoundary :=
  MkBoundary (Zlen (rows_ t)).

(** One reference of the scan: the newest visible reference of each key. *)
Definition scan_row (latest : gmap Z RealtimeRowRef) (row : RealtimeRowRef)
    : StatusOr (gmap Z RealtimeRowRef) :=
  if negb (sealed_visible row) then Ok latest
  else match latest !! ref_primary_key row with
       | None => Ok (<[ref_primary_key row := row]> latest)
       | Some current =>
           let* decision := ClassifySourcePositionUpdate (ref_position current)
                              (ref_position row) in
           if decide (decision = kNewer) then Ok (<[ref_primary_key row := row]> latest)
           else Ok latest
       end.

Definition visible_row (kv : Z * RealtimeRowRef) : StatusOr RealtimeVisibleRow :=
  match ref_encoded kv.2 with
  | None => Internal "sealed realtime row has no encoded row"
  | Some _ => Ok (MkVisibleRow kv.1 (ref_position kv.2) (ref_encoded kv.2))
  end.

Definition by_primary_key (lhs rhs : RealtimeVisibleRow) : Prop :=
  visible_primary_key lhs ≤ visible_primary_key rhs.

#[export] Instance by_primary_key_dec : RelDecision by_primary_key.
Proof. intros x y. unfold by_primary_key. apply _. Defined.

(** The keys of [latest] are distinct, so the order of its iteration does not
    survive the sort. *)
Definition ScanVisibleRows (t : RealtimeDeltaAtomicTable) (boundary : RealtimeDeltaBoundary)
    : StatusOr (list RealtimeVisibleRow) :=
  let limit := Z.to_nat (Z.min (boundary_row_count boundary) (Zlen (rows_ t))) in
  let* latest := ofold scan_row (take limit (rows_ t)) ∅ in
  let* visible := omapM visible_row (map_to_list latest) in
  Ok (merge_sort by_primary_key visible).

Definition ReserveSlotForTesting (primary_key : Z)
    : stateful RealtimeDeltaAtomicTable Status unit := λ t,
  let '(r, m) := HashMap_ReserveSlotForTesting primary_key (map_ t) in
  (r, MkTable (table_layout_ t) m (rows_ t) (table_row_slot_bytes t)
        (table_payload_pool_bytes t)).

Definition stats (t : RealtimeDeltaAtomicTable) : RealtimeDeltaStats :=
  MkRealtimeDeltaStats (capacity_ (map_ t)) (unique_key_count_ (map_ t)) (Zlen (rows_ t))
    (table_row_slot_bytes t) (table_payload_pool_bytes t) (load_factor (map_ t)).
