(* ===== verification/RealtimeProofs.v ===== *)
(** * The realtime hash map is a map from keys to newest rows

    The slots are abstracted to a probe table; [HashMap_Get] and
    [PublishAndReport] are shown to be its lookup and its insert-or-update. *)

From S2P Require Import Prelude Status ByteIo Hash Types Schema RowStorage ProbeTable.
From S2P Require Import RealtimeDelta.

(** ** Probe sequences *)

Definition probe_of (m : RealtimeAtomicHashMap) (k : Z) (i : nat) : nat :=
  Z.to_nat (ProbeIndex m k (Z.of_nat i)).

Lemma IsPowerOfTwo_single_bit c : 0 ≤ c ≤ u64_max → IsPowerOfTwo c = single_bit c.
Proof.
  intros Hc. unfold IsPowerOfTwo, single_bit. destruct (Z.eqb_spec c 0); [done|].
  rewrite wrap64_small; [done|]. unfold is_u64, u64_max in *. lia.
Qed.

Lemma ProbeIndex_range m k i :
  0 < capacity_ m ≤ u64_max → 0 ≤ ProbeIndex m k i < capacity_ m.
Proof.
  intros Hc. unfold ProbeIndex. rewrite IsPowerOfTwo_single_bit by lia.
  pose proof (wrap64_range (StableHash64 k (hash_seed_ m) (hash_version_ m) + i)).
  destruct (single_bit (capacity_ m)) eqn:E; [|apply Z.mod_pos_bound; lia].
  rewrite (wrap64_small (_ - 1)) by (unfold is_u64, u64_max in *; lia).
  rewrite land_single_bit by (done || unfold is_u64 in *; lia).
  apply Z.mod_pos_bound. lia.
Qed.

Lemma probe_of_lt m k i :
  0 < capacity_ m ≤ u64_max → (probe_of m k i < Z.to_nat (capacity_ m))%nat.
Proof. intros Hc. pose proof (ProbeIndex_range m k (Z.of_nat i) Hc). unfold probe_of. lia. Qed.

(** With a power-of-two capacity the masked sequence is linear probing: the
    wrap-around of the 64-bit sum does not show. *)
Lemma probe_of_linear m k i :
  0 < capacity_ m ≤ u64_max → single_bit (capacity_ m) = true →
  probe_of m k i = linear_probe (Z.to_nat (capacity_ m))
    (λ k, Z.to_nat (StableHash64 k (hash_seed_ m) (hash_version_ m))) k i.
Proof.
  intros Hc Hp. unfold probe_of, ProbeIndex, linear_probe.
  rewrite IsPowerOfTwo_single_bit, Hp by lia.
  rewrite (wrap64_small (_ - 1)) by (unfold is_u64, u64_max in *; lia).
  set (h := StableHash64 k _ _).
  assert (0 ≤ h) by apply StableHash64_range.
  pose proof (wrap64_range (h + Z.of_nat i)).
  rewrite land_single_bit by (done || unfold is_u64 in *; lia).
  apply single_bit_spec in Hp as (n & Hn & Hcap); [|lia]. rewrite Hcap in *.
  assert (n < 64).
  { destruct (Z.lt_ge_cases n 64) as [|Hge]; [done|].
    pose proof (Z.pow_le_mono_r 2 64 n ltac:(lia) Hge). unfold u64_max in *. lia. }
  unfold wrap64. rewrite Z.mod_mod_divide.
  - rewrite Z2Nat.inj_mod by lia. rewrite Z2Nat.inj_add, Nat2Z.id by lia. done.
  - exists (2 ^ (64 - n)). rewrite <-Z.pow_add_r by lia. f_equal. lia.
Qed.

Lemma power_of_two_covers m k s :
  0 < capacity_ m ≤ u64_max → single_bit (capacity_ m) = true →
  (s < Z.to_nat (capacity_ m))%nat →
  ∃ i, (i < Z.to_nat (capacity_ m))%nat ∧ probe_of m k i = s.
Proof.
  intros Hc Hp Hs.
  destruct (linear_probe_surj (Z.to_nat (capacity_ m))
    (λ k, Z.to_nat (StableHash64 k (hash_seed_ m) (hash_version_ m))) ltac:(lia) k s Hs)
    as (i & Hi & E).
  exists i. split; [done|]. by rewrite probe_of_linear.
Qed.

(** ** The table of a map *)

(** Reserved slots hold no key yet. *)
Definition key_entry (s : Slot) : option (Z * nat) :=
  match slot_state s with
  | kOccupied => pair (slot_primary_key s) <$> latest_row s
  | _ => None
  end.

Definition key_table (m : RealtimeAtomicHashMap) : list (option (Z * nat)) :=
  key_entry <$> slots_ m.

(** An occupied slot points to a row of its key, with a valid position. *)
Definition slot_ok (heap : list RealtimeRowRef) (s : Slot) : Prop :=
  slot_state s = kOccupied →
  ∃ p r, latest_row s = Some p ∧ heap !! p = Some r
    ∧ ref_primary_key r = slot_primary_key s ∧ IsValidSourcePosition (ref_position r) = true.

Record map_inv (heap : list RealtimeRowRef) (m : RealtimeAtomicHashMap) : Prop := {
  mi_capacity : 0 ≤ capacity_ m ≤ u64_max;
  mi_length : length (slots_ m) = Z.to_nat (capacity_ m);
  mi_slots : Forall (slot_ok heap) (slots_ m);
  mi_table : table_inv (Z.to_nat (capacity_ m)) (probe_of m) (key_table m);
  mi_count : unique_key_count_ m = Z.of_nat (length (entries (key_table m)));
}.

(** The row a key has. *)
Definition current (m : RealtimeAtomicHashMap) (k : Z) : option nat :=
  match scan (probe_of m) (key_table m) k (Z.to_nat (capacity_ m)) 0 with
  | Found _ p => Some p
  | _ => None
  end.

Lemma key_table_empty cap seed version :
  key_table (make_hash_map cap seed version) = replicate (Z.to_nat cap) None.
Proof. unfold key_table, make_hash_map. cbn [slots_]. by rewrite fmap_replicate. Qed.

Lemma make_hash_map_inv heap cap seed version :
  0 ≤ cap ≤ u64_max → map_inv heap (make_hash_map cap seed version).
Proof.
  intros Hc. split; [done|..].
  - apply length_replicate.
  - by apply Forall_replicate.
  - rewrite key_table_empty. apply empty_table_inv.
  - by rewrite key_table_empty, entries_replicate_None.
Qed.

Section Map.
Context (heap : list RealtimeRowRef) (m : RealtimeAtomicHashMap).
Hypothesis Hinv : map_inv heap m.
Hypothesis Hpos : 0 < capacity_ m.

Lemma map_probe_lt : ∀ k i, (probe_of m k i < Z.to_nat (capacity_ m))%nat.
Proof. intros. apply probe_of_lt. destruct Hinv. lia. Qed.

(** Reading the slot of a probe. *)
Lemma at_probe k i :
  ∃ s, at_ (E := Status) (slots_ m) (ProbeIndex m k (Z.of_nat i)) = Ok s
    ∧ slots_ m !! probe_of m k i = Some s ∧ slot_ok heap s
    ∧ key_table m !! probe_of m k i = Some (key_entry s).
Proof.
  pose proof (map_probe_lt k i) as Hlt.
  destruct (at_in (E := Status) (slots_ m) (ProbeIndex m k (Z.of_nat i))) as (s & Hs & Hat).
  { pose proof (ProbeIndex_range m k (Z.of_nat i) ltac:(destruct Hinv; lia)).
    unfold Zlen. rewrite (mi_length _ _ Hinv). lia. }
  exists s. split_and!; [done|done| |].
  - apply (Forall_lookup_1 _ _ _ _ (mi_slots _ _ Hinv) Hs).
  - unfold key_table. rewrite list_lookup_fmap. unfold probe_of. by rewrite Hs.
Qed.

Lemma get_loop_scan k n i :
  get_loop m k n (Z.of_nat i)
  = Ok (match scan (probe_of m) (key_table m) k n i with Found _ p => Some p | _ => None end).
Proof.
  revert i. induction n as [|n IH]; intros i; [done|]. cbn [get_loop scan].
  destruct (at_probe k i) as (s & -> & _ & Hok & ->). cbn [obind]. unfold key_entry.
  destruct s as [st key lr]. unfold slot_ok in Hok.
  cbn [slot_state slot_primary_key latest_row] in *.
  destruct st; [done|done|]. destruct (Hok eq_refl) as (p & r & -> & _). cbn [fmap option_fmap option_map].
  replace (Z.of_nat i + 1) with (Z.of_nat (S i)) by lia. rewrite IH.
  destruct (Z.eqb_spec key k) as [->|]; cbn [negb];
    [by rewrite decide_True|by rewrite decide_False].
Qed.

End Map.

(** [HashMap_Get] is total and reads the abstract map. *)
Lemma HashMap_Get_current heap m k : map_inv heap m → HashMap_Get m k = Ok (current m k).
Proof.
  intros Hinv. unfold HashMap_Get, current.
  destruct (Z.eqb_spec (capacity_ m) 0) as [E|]; [by rewrite E|].
  apply (get_loop_scan heap m Hinv ltac:(destruct Hinv; lia) k _ 0).
Qed.

Lemma current_holds heap m k p :
  map_inv heap m → current m k = Some p ↔ holds (key_table m) k p.
Proof.
  intros Hinv. unfold current. destruct (decide (capacity_ m = 0)) as [E|].
  { split; [by rewrite E|]. intros [s Hs]. apply lookup_lt_Some in Hs.
    unfold key_table in Hs. rewrite length_fmap, (mi_length _ _ Hinv) in Hs. lia. }
  pose proof (map_probe_lt heap m Hinv ltac:(destruct Hinv; lia)) as Hlt.
  rewrite <-(scan_Found_iff _ _ Hlt _ k p (mi_table _ _ Hinv)).
  destruct (scan _ _ _ _ _) as [s q|s|]; split; try done.
  - intros [= ->]. eauto.
  - intros [s' [= _ ->]]. done.
  - by intros [s' [=]].
  - by intros [s' [=]].
Qed.

Lemma current_row heap m k p :
  map_inv heap m → current m k = Some p →
  ∃ r, heap !! p = Some r ∧ ref_primary_key r = k ∧ IsValidSourcePosition (ref_position r) = true.
Proof.
  intros Hinv Hk. apply (current_holds heap) in Hk as [s Hs]; [|done].
  unfold key_table in Hs. rewrite list_lookup_fmap in Hs.
  apply fmap_Some in Hs as (sl & Hsl & He). unfold key_entry in He.
  pose proof (Forall_lookup_1 _ _ _ _ (mi_slots _ _ Hinv) Hsl) as Hok.
  destruct (slot_state sl) eqn:Est; [done|done|].
  destruct (Hok Est) as (p' & r & Hp & Hr & Hk & Hv). rewrite Hp in He.
  injection He as -> ->. by exists r.
Qed.

(** ** Publishing *)

(** Stores a row in slot [s], under its key. *)
Definition store_row (s : nat) (k : Z) (p : nat) (m : RealtimeAtomicHashMap)
    : RealtimeAtomicHashMap := set_slot (Z.of_nat s) (MkSlot kOccupied k (Some p)) m.

Definition classify_rows (heap : list RealtimeRowRef) (q p : nat)
    : StatusOr SourcePositionUpdateDecision :=
  let* c := deref heap q in
  let* r := deref heap p in
  ClassifySourcePositionUpdate (ref_position c) (ref_position r).

(** What the search of a key makes of publishing it. *)
Definition publish_result (heap : list RealtimeRowRef) (k : Z) (p : nat)
    (m : RealtimeAtomicHashMap) (found : @scan_result nat)
    : outcome Status bool * RealtimeAtomicHashMap :=
  match found with
  | Found s q =>
      match classify_rows heap q p with
      | Ok kNewer => (Ok true, store_row s k p m)
      | Ok _ => (Ok false, m)
      | Err e => (Err e, m)
      | Fault f => (Fault f, m)
      end
  | Vacant s =>
      match slot_state <$> slots_ m !! s with
      | Some kReserved => (Unavailable "realtime hash map slot is reserved", m)
      | _ => (Ok true, add_unique_key (store_row s k p m))
      end
  | Exhausted => (FailedPrecondition "realtime hash map capacity exhausted", m)
  end.

Lemma publish_loop_scan heap m k p n i :
  map_inv heap m → 0 < capacity_ m →
  publish_loop heap k p n (Z.of_nat i) m
  = publish_result heap k p m (scan (probe_of m) (key_table m) k n i).
Proof.
  intros Hinv Hpos. revert i. induction n as [|n IH]; intros i; [done|].
  cbn [publish_loop scan].
  destruct (at_probe heap m Hinv Hpos k i) as (s & -> & Hs & Hok & ->).
  assert (ProbeIndex m k (Z.of_nat i) = Z.of_nat (probe_of m k i)) as Hi.
  { unfold probe_of. pose proof (ProbeIndex_range m k (Z.of_nat i) ltac:(destruct Hinv; lia)). lia. }
  rewrite Hi. unfold key_entry. destruct s as [st key lr]. unfold slot_ok in Hok.
  cbn [slot_state slot_primary_key latest_row] in *.
  destruct st; [by cbn [publish_result]; rewrite Hs..|].
  destruct (Hok eq_refl) as (q & c & -> & _). cbn [fmap option_fmap option_map].
  replace (Z.of_nat i + 1) with (Z.of_nat (S i)) by lia. rewrite IH.
  destruct (Z.eqb_spec key k) as [->|]; [|by rewrite decide_False].
  rewrite decide_True by done. unfold PublishExisting. cbn [latest_row slot_state slot_primary_key].
  done.
Qed.

Lemma key_table_store s k p m :
  key_table (store_row s k p m) = <[s := Some (k, p)]> (key_table m).
Proof.
  unfold key_table, store_row, set_slot. cbn [slots_]. by rewrite Nat2Z.id, list_fmap_insert.
Qed.

Lemma slots_store s k p m :
  slots_ (store_row s k p m) = <[s := MkSlot kOccupied k (Some p)]> (slots_ m).
Proof. unfold store_row, set_slot. cbn [slots_]. by rewrite Nat2Z.id. Qed.

Lemma slots_ok_store heap s k p m r :
  Forall (slot_ok heap) (slots_ m) → heap !! p = Some r → ref_primary_key r = k →
  IsValidSourcePosition (ref_position r) = true →
  Forall (slot_ok heap) (slots_ (store_row s k p m)).
Proof.
  intros Hok Hp Hk Hv. rewrite slots_store. apply Forall_insert; [done|].
  intros _. exists p, r. by rewrite <-Hk.
Qed.

(** Entries are unchanged in number by an update, one more after an insert. *)
Lemma entries_update {K V} (t : list (option (K * V))) s e e' :
  t !! s = Some (Some e) → length (entries (<[s := Some e']> t)) = length (entries t).
Proof.
  intros Hs. unfold entries. rewrite <-(take_drop_middle t s (Some e) Hs) at 2.
  rewrite insert_take_drop by (by apply lookup_lt_Some in Hs).
  rewrite !omap_app. simpl. by rewrite !length_app.
Qed.

Lemma current_insert heap m m' s k p :
  map_inv heap m → map_inv heap m' → 0 < capacity_ m →
  key_table m' = <[s := Some (k, p)]> (key_table m) →
  (scan (probe_of m) (key_table m) k (Z.to_nat (capacity_ m)) 0 = Vacant s
   ∨ ∃ q, key_table m !! s = Some (Some (k, q))) →
  ∀ k', current m' k' = if k' =? k then Some p else current m k'.
Proof.
  intros Hinv Hinv' Hpos Ht Hs k'.
  pose proof (map_probe_lt heap m Hinv Hpos) as Hlt.
  assert (∀ k1 p1, holds (key_table m') k1 p1 ↔
    (k1 = k ∧ p1 = p) ∨ (k1 ≠ k ∧ holds (key_table m) k1 p1)) as Hh.
  { intros k1 p1. rewrite Ht. destruct Hs as [Hs|[q Hs]].
    - rewrite (insert_holds _ _ Hlt _ _ _ _ _ _ (mi_table _ _ Hinv) Hs).
      pose proof (scan_spec _ _ Hlt _ k (mi_table _ _ Hinv)) as Hsp. rewrite Hs in Hsp.
      split; [|tauto]. intros [?|H1]; [tauto|]. destruct (decide (k1 = k)) as [->|]; [|tauto].
      by destruct (proj2 Hsp p1).
    - by apply (update_holds _ _ _ _ _ _ _ _ _ (mi_table _ _ Hinv) Hs). }
  destruct (current m' k') as [p1|] eqn:E'.
  - apply (current_holds heap) in E'; [|done]. apply Hh in E' as [[-> ->]|[Hne E']].
    + by rewrite Z.eqb_refl.
    + rewrite (proj2 (Z.eqb_neq _ _)) by done. symmetry. by apply (current_holds heap).
  - destruct (Z.eqb_spec k' k) as [->|Hne].
    + assert (current m' k = Some p) as E2; [|congruence].
      apply (current_holds heap); [done|]. apply Hh. by left.
    + destruct (current m k') as [p1|] eqn:E; [|done].
      apply (current_holds heap) in E; [|done].
      assert (current m' k' = Some p1) as E2; [|congruence].
      apply (current_holds heap); [done|]. apply Hh. by right.
Qed.

Lemma store_found_inv heap m s k q p r :
  map_inv heap m → 0 < capacity_ m → key_table m !! s = Some (Some (k, q)) →
  heap !! p = Some r → ref_primary_key r = k → IsValidSourcePosition (ref_position r) = true →
  map_inv heap (store_row s k p m).
Proof.
  intros Hinv Hpos Hs Hp Hk Hv.
  pose proof (map_probe_lt heap m Hinv Hpos) as Hlt. destruct Hinv as [Hc Hl Hok Ht Hn].
  split; [done| |by eapply slots_ok_store| |].
  - rewrite slots_store, length_insert. done.
  - rewrite key_table_store. by apply (update_inv _ _ _ _ _ _ _ Ht Hs).
  - rewrite key_table_store, (entries_update _ _ _ _ Hs). done.
Qed.

Lemma length_entries_lt heap m :
  map_inv heap m → Z.of_nat (length (entries (key_table m))) ≤ capacity_ m.
Proof.
  intros Hinv. pose proof (length_entries_le (key_table m)) as Hle.
  rewrite (inv_length _ _ _ (mi_table _ _ Hinv)) in Hle. destruct Hinv. lia.
Qed.

Lemma store_vacant_inv heap m s k p r :
  map_inv heap m → 0 < capacity_ m →
  scan (probe_of m) (key_table m) k (Z.to_nat (capacity_ m)) 0 = Vacant s →
  heap !! p = Some r → ref_primary_key r = k → IsValidSourcePosition (ref_position r) = true →
  map_inv heap (add_unique_key (store_row s k p m)).
Proof.
  intros Hinv Hpos Hs Hp Hk Hv.
  pose proof (map_probe_lt heap m Hinv Hpos) as Hlt. pose proof Hinv as [Hc Hl Hok Ht Hn].
  pose proof (scan_spec _ _ Hlt _ k Ht) as Hsp. rewrite Hs in Hsp. destruct Hsp as [Hsp _].
  assert (table_inv (Z.to_nat (capacity_ m)) (probe_of m)
    (key_table (add_unique_key (store_row s k p m)))) as Ht'.
  { change (key_table (add_unique_key _)) with (key_table (store_row s k p m)).
    rewrite key_table_store. by apply insert_inv. }
  assert (length (entries (key_table (store_row s k p m)))
    = S (length (entries (key_table m)))) as Hlen.
  { rewrite key_table_store. by rewrite (entries_insert _ _ (k, p) Hsp). }
  split; [done| |by eapply slots_ok_store|done|].
  - change (slots_ (add_unique_key _)) with (slots_ (store_row s k p m)).
    rewrite slots_store, length_insert. done.
  - change (key_table (add_unique_key _)) with (key_table (store_row s k p m)).
    cbn [add_unique_key unique_key_count_ store_row set_slot]. rewrite Hlen, Hn.
    pose proof (length_entries_le (key_table (store_row s k p m))) as Hle.
    pose proof (inv_length _ _ _ Ht') as Hl'.
    change (key_table (add_unique_key _)) with (key_table (store_row s k p m)) in Hl'.
    rewrite Hlen, Hl' in Hle. rewrite wrap64_small; [lia|].
    unfold is_u64, u64_max in *. lia.
Qed.

Lemma classify_rows_eq heap q p c r :
  heap !! q = Some c → heap !! p = Some r →
  classify_rows heap q p = ClassifySourcePositionUpdate (ref_position c) (ref_position r).
Proof.
  intros Hq Hp. unfold classify_rows, deref.
  rewrite (proj2 (at_Ok heap (Z.of_nat q) c)) by (rewrite Nat2Z.id; split; [lia|done]).
  cbn [obind].
  by rewrite (proj2 (at_Ok heap (Z.of_nat p) r)) by (rewrite Nat2Z.id; split; [lia|done]).
Qed.

Definition reserved_somewhere (m : RealtimeAtomicHashMap) : Prop :=
  ∃ s, s ∈ slots_ m ∧ slot_state s = kReserved.

Lemma Classify_valid a b :
  IsValidSourcePosition a = true → IsValidSourcePosition b = true →
  match ClassifySourcePositionUpdate a b with
  | Ok d => partition a = partition b
      ∧ bool_decide (d = kNewer) = (offset a <? offset b)
  | Err _ => partition a ≠ partition b
  | Fault _ => False
  end.
Proof.
  intros Ha Hb. unfold ClassifySourcePositionUpdate. rewrite Ha, Hb. cbn [negb orb].
  destruct (Z.eqb_spec (partition a) (partition b)); cbn [negb]; [|done].
  destruct (Z.ltb_spec (offset b) (offset a)), (Z.eqb_spec (offset b) (offset a)),
    (Z.ltb_spec (offset a) (offset b)); done || lia.
Qed.

Lemma reserved_store s k p m :
  reserved_somewhere (store_row s k p m) → reserved_somewhere m.
Proof.
  intros (sl & Hin & Hst). rewrite slots_store in Hin.
  apply list_elem_of_lookup in Hin as [i Hi].
  apply list_lookup_insert_Some in Hi as [(_ & <- & _)|[_ Hi]]; [done|].
  exists sl. split; [by eapply list_elem_of_lookup_2|done].
Qed.

(** The postcondition of publishing row [p] of key [k]. *)
Definition published_post heap m k p r (res : outcome Status bool * RealtimeAtomicHashMap)
    : Prop :=
  match res with
  | (Ok b, m') =>
      map_inv heap m' ∧ (∀ k', current m' k' = if b && (k' =? k) then Some p else current m k')
      ∧ (reserved_somewhere m' → reserved_somewhere m) ∧ capacity_ m' = capacity_ m
      ∧ match current m k with
        | None => b = true
        | Some q => ∃ c, heap !! q = Some c
            ∧ partition (ref_position c) = partition (ref_position r)
            ∧ b = (offset (ref_position c) <? offset (ref_position r))
        end
  | (Err e, m') =>
      m' = m ∧ match current m k with
        | None => reserved_somewhere m
            ∨ ∀ i, (i < Z.to_nat (capacity_ m))%nat → occupied_by_other (probe_of m) (key_table m) k i
        | Some q => ∃ c, heap !! q = Some c
            ∧ partition (ref_position c) ≠ partition (ref_position r)
        end
  | (Fault _, _) => False
  end.

Lemma publish_found heap m s k q p r :
  map_inv heap m → 0 < capacity_ m → key_table m !! s = Some (Some (k, q)) →
  current m k = Some q → heap !! p = Some r → ref_primary_key r = k →
  IsValidSourcePosition (ref_position r) = true →
  published_post heap m k p r (publish_result heap k p m (Found s q)).
Proof.
  intros Hinv Hpos Hs Hcur Hp Hk Hv.
  destruct (current_row heap m k q Hinv Hcur) as (c & Hc & Hck & Hcv).
  unfold publish_result, published_post. rewrite (classify_rows_eq heap q p c r Hc Hp), Hcur.
  pose proof (Classify_valid _ _ Hcv Hv) as Hcl.
  destruct (ClassifySourcePositionUpdate _ _) as [d|e|f]; [|by split; [done|exists c]|done].
  destruct Hcl as [Hpart Hd].
  destruct d; cbn in Hd; [split_and!; try done; by exists c..|].
  split_and!; [by eapply store_found_inv| |apply reserved_store|done|by exists c].
  eapply (current_insert heap); try done; [by eapply store_found_inv|apply key_table_store|].
  right. by exists q.
Qed.

Lemma publish_vacant heap m s k p r :
  map_inv heap m → 0 < capacity_ m →
  scan (probe_of m) (key_table m) k (Z.to_nat (capacity_ m)) 0 = Vacant s →
  heap !! p = Some r → ref_primary_key r = k → IsValidSourcePosition (ref_position r) = true →
  published_post heap m k p r (publish_result heap k p m (Vacant s)).
Proof.
  intros Hinv Hpos Hs Hp Hk Hv.
  assert (current m k = None) as Hcur by (unfold current; by rewrite Hs).
  pose proof (store_vacant_inv heap m s k p r Hinv Hpos Hs Hp Hk Hv) as Hinv'.
  assert (published_post heap m k p r (Ok true, add_unique_key (store_row s k p m))) as Hok.
  { unfold published_post. rewrite Hcur. split_and!; [done| |apply reserved_store|done..].
    eapply (current_insert heap); try done; [apply key_table_store|]. by left. }
  unfold publish_result. destruct (slots_ m !! s) as [sl|] eqn:Esl; [|done].
  cbn [fmap option_fmap option_map]. destruct (slot_state sl) eqn:Est; [done| |done].
  unfold published_post. rewrite Hcur. split; [done|]. left. exists sl.
  split; [by eapply list_elem_of_lookup_2|done].
Qed.

(** Publishing a row under its key, on every branch. *)
Lemma publish_spec heap m k p r :
  map_inv heap m → heap !! p = Some r → ref_primary_key r = k →
  IsValidSourcePosition (ref_position r) = true →
  published_post heap m k p r (PublishAndReport heap k (Some p) m).
Proof.
  intros Hinv Hp Hk Hv. unfold PublishAndReport.
  assert (deref heap p = Ok r) as ->.
  { unfold deref. apply at_Ok. rewrite Nat2Z.id. split; [lia|done]. }
  rewrite Hk, Z.eqb_refl, Hv. cbn [negb].
  destruct (Z.eqb_spec (capacity_ m) 0) as [E|Hne].
  { split; [done|]. unfold current. rewrite E. simpl. right. lia. }
  pose proof (mi_capacity _ _ Hinv). assert (0 < capacity_ m) as Hpos by lia.
  rewrite (publish_loop_scan heap m k p _ 0 Hinv Hpos).
  pose proof (map_probe_lt heap m Hinv Hpos) as Hlt.
  pose proof (scan_spec _ _ Hlt _ k (mi_table _ _ Hinv)) as Hsp.
  destruct (scan _ _ k _ 0) as [s q|s|] eqn:Escan.
  - apply publish_found; try done. unfold current. by rewrite Escan.
  - by apply publish_vacant.
  - cbn [publish_result]. unfold published_post, current. rewrite Escan.
    split; [done|]. right. apply Hsp.
Qed.
