(* ===== verification/RealtimeTable.v ===== *)
(** * The realtime table keeps the newest row of every key

    [visible_rows] is the finite map a table stands for.  Publishing updates
    it by source position, reading and scanning answer from it, and a scan up
    to a boundary captured earlier answers from the map of that moment. *)

From S2P Require Import Prelude Status ByteIo Hash Types Schema SchemaProofs RowStorage.
From S2P Require Import RowSafety RowProofs ProbeTable RowAccess RealtimeDelta RealtimeProofs.

(** ** The newest visible reference of each key *)

Definition note_row (latest : gmap Z RealtimeRowRef) (row : RealtimeRowRef)
    : gmap Z RealtimeRowRef :=
  if sealed_visible row then <[ref_primary_key row := row]> latest else latest.

Definition newest (rows : list RealtimeRowRef) : gmap Z RealtimeRowRef := foldl note_row ∅ rows.

Lemma newest_app rows r : newest (rows ++ [r]) = note_row (newest rows) r.
Proof. unfold newest. by rewrite foldl_app. Qed.

(** The visible rows of one key, in order of publication, advance within one
    partition. *)
Definition visible_sorted (rows : list RealtimeRowRef) : Prop :=
  ∀ i j a b, (i < j)%nat → rows !! i = Some a → rows !! j = Some b →
    sealed_visible a = true → sealed_visible b = true →
    ref_primary_key a = ref_primary_key b →
    partition (ref_position a) = partition (ref_position b)
    ∧ offset (ref_position a) < offset (ref_position b).

Definition row_wf (L : CompiledRowLayout) (r : RealtimeRowRef) : Prop :=
  IsValidSourcePosition (ref_position r) = true ∧ is_u64 (ref_primary_key r)
  ∧ ∃ e, ref_encoded r = Some e ∧ row_ok L e ∧ Zlen (row_slot e) = row_slot_size L
      ∧ MaterializeRow (Some L) e = Ok (MkRow (Some L) (Some e)).

Lemma newest_Some rows k r :
  newest rows !! k = Some r →
  ref_primary_key r = k ∧ sealed_visible r = true
  ∧ ∃ i, rows !! i = Some r
      ∧ ∀ j d, rows !! j = Some d → sealed_visible d = true → ref_primary_key d = k → (j ≤ i)%nat.
Proof.
  induction rows as [|x rows IH] using rev_ind; [done|]. rewrite newest_app. unfold note_row.
  destruct (sealed_visible x) eqn:Ex.
  - intros [(<- & <-)|[Hne H]]%lookup_insert_Some.
    + split_and!; [done..|]. exists (length rows). split; [by rewrite lookup_app_r, Nat.sub_diag|].
      intros j d Hj _ _. apply lookup_lt_Some in Hj. rewrite length_app in Hj. simpl in Hj. lia.
    + destruct (IH H) as (Hk & Hs & i & Hi & Hmax). split_and!; [done..|].
      exists i. split; [by apply lookup_app_l_Some|]. intros j d Hj Hd Hdk.
      apply lookup_app_Some in Hj as [Hj|[_ Hj]]; [by eapply Hmax|].
      apply list_lookup_singleton_Some in Hj as [_ ->]. done.
  - intros H. destruct (IH H) as (Hk & Hs & i & Hi & Hmax). split_and!; [done..|].
    exists i. split; [by apply lookup_app_l_Some|]. intros j d Hj Hd Hdk.
    apply lookup_app_Some in Hj as [Hj|[_ Hj]]; [by eapply Hmax|].
    apply list_lookup_singleton_Some in Hj as [_ ->]. congruence.
Qed.

Lemma newest_None rows k :
  newest rows !! k = None → ∀ r, r ∈ rows → sealed_visible r = true → ref_primary_key r ≠ k.
Proof.
  induction rows as [|x rows IH] using rev_ind; [by intros _ r []%elem_of_nil|].
  rewrite newest_app. unfold note_row. intros H r [Hin| ->%list_elem_of_singleton]%elem_of_app Hs.
  - apply IH; try done. destruct (sealed_visible x); [|done].
    by apply lookup_insert_None in H as [H _].
  - rewrite Hs in H. by apply lookup_insert_None in H as [_ H].
Qed.

Lemma visible_sorted_prefix rows n : visible_sorted rows → visible_sorted (take n rows).
Proof.
  intros H i j a b Hij Ha Hb. apply (H i j); [done|..].
  - by apply lookup_take_Some in Ha as [? _].
  - by apply lookup_take_Some in Hb as [? _].
Qed.

(** Appending a visible row that is newer than the newest of its key. *)
Lemma visible_sorted_snoc rows r :
  visible_sorted rows →
  (sealed_visible r = true → ∀ c, newest rows !! ref_primary_key r = Some c →
    partition (ref_position c) = partition (ref_position r)
    ∧ offset (ref_position c) < offset (ref_position r)) →
  visible_sorted (rows ++ [r]).
Proof.
  intros Hs Hnew i j a b Hij Ha Hb Hsa Hsb Hk.
  apply lookup_app_Some in Hb as [Hb|[Hlen Hb]].
  { apply (Hs i j); try done. apply lookup_lt_Some in Hb.
    rewrite lookup_app_l in Ha by lia. done. }
  apply list_lookup_singleton_Some in Hb as [Hj ->].
  rewrite lookup_app_l in Ha by lia.
  destruct (newest rows !! ref_primary_key b) as [c|] eqn:Ec.
  - destruct (newest_Some rows _ c Ec) as (Hck & Hcs & ic & Hic & Hmax).
    destruct (Hnew Hsb c eq_refl) as [Hp Ho].
    pose proof (Hmax i a Ha Hsa Hk) as Hle.
    destruct (decide (i = ic)) as [->|].
    + assert (a = c) as -> by congruence. done.
    + destruct (Hs i ic a c ltac:(lia) Ha Hic Hsa Hcs ltac:(congruence)). split; [congruence|lia].
  - exfalso. apply (newest_None rows _ Ec a); [by eapply list_elem_of_lookup_2|done..].
Qed.

(** The scan of a sorted list finds the newest row of every key. *)
Lemma scan_rows_newest L rows :
  visible_sorted rows → Forall (row_wf L) rows → ofold scan_row rows ∅ = Ok (newest rows).
Proof.
  induction rows as [|r rows IH] using rev_ind; intros Hs Hwf; [done|].
  apply Forall_app in Hwf as [Hwf Hr]. rewrite Forall_singleton in Hr.
  rewrite ofold_app, IH; [| |done].
  2: { rewrite <-(take_app_length rows [r]). by apply visible_sorted_prefix. }
  cbn [obind ofold]. rewrite newest_app. unfold scan_row, note_row.
  destruct (sealed_visible r) eqn:Er; [|done]. cbn [negb].
  destruct (newest rows !! ref_primary_key r) as [c|] eqn:Ec; [|done].
  destruct (newest_Some rows _ c Ec) as (Hck & Hcs & i & Hi & _).
  destruct (Hs i (length rows) c r) as [Hp Ho]; try done.
  { by apply lookup_lt_Some in Hi. }
  { by apply lookup_app_l_Some. }
  { by rewrite lookup_app_r, Nat.sub_diag. }
  rewrite Forall_forall in Hwf.
  destruct (Hwf c) as [Hv _]; [by eapply list_elem_of_lookup_2|]. destruct Hr as [Hvr _].
  pose proof (Classify_valid _ _ Hv Hvr) as Hcl.
  destruct (ClassifySourcePositionUpdate _ _) as [d|e|f]; [|done..]. cbn [obind].
  destruct Hcl as [_ Hd]. rewrite (proj2 (Z.ltb_lt _ _)) in Hd by done.
  apply bool_decide_eq_true in Hd as ->. by rewrite decide_True.
Qed.

(** ** The invariant of a table *)

Record table_ok (L : CompiledRowLayout) (t : RealtimeDeltaAtomicTable) : Prop := {
  to_layout : table_layout_ t = Some L;
  to_map : map_inv (rows_ t) (map_ t);
  to_current : ∀ k, current (map_ t) k ≫= (λ p, rows_ t !! p) = newest (rows_ t) !! k;
  to_sorted : visible_sorted (rows_ t);
  to_rows : Forall (row_wf L) (rows_ t);
  to_free : ¬ reserved_somewhere (map_ t);
}.

(** The finite map a table stands for. *)
Definition visible_rows (t : RealtimeDeltaAtomicTable) : gmap Z (SourcePosition * EncodedRow) :=
  omap (λ r, pair (ref_position r) <$> ref_encoded r) (newest (rows_ t)).

(** What publishing does to it: the higher offset wins. *)
Definition publish_row (k : Z) (pos : SourcePosition) (e : EncodedRow)
    (rows : gmap Z (SourcePosition * EncodedRow)) : gmap Z (SourcePosition * EncodedRow) :=
  match rows !! k with
  | Some (old, _) => if offset old <? offset pos then <[k := (pos, e)]> rows else rows
  | None => <[k := (pos, e)]> rows
  end.

(** The rows a table accepts. *)
Record accepted (L : CompiledRowLayout) (pos : SourcePosition) (e : EncodedRow) : Prop := {
  acc_position : IsValidSourcePosition pos = true;
  acc_version : row_schema_version e = schema_version L;
  acc_fingerprint : row_layout_fingerprint e = layout_fingerprint L;
  acc_size : Zlen (row_slot e) = row_slot_size L;
  acc_required : ofold (check_required e) (fields L) tt = Ok tt;
}.

Definition bits_ok (L : CompiledRowLayout) : Prop :=
  ∀ f, f ∈ fields L → 0 ≤ presence_bit_index f.

Lemma check_required_no_fault L e :
  bits_ok L → no_fault (ofold (check_required e) (fields L) tt).
Proof.
  intros Hb. pose proof (required_loop e (fields L) Hb) as H.
  by destruct (ofold _ _ _).
Qed.

Lemma BuildRowRef_spec L k pos e :
  bits_ok L → is_u64 k →
  match BuildRowRef (Some L) k pos e with
  | Ok r => accepted L pos e ∧ row_wf L r
      ∧ r = MkRowRef k pos (Some e) (Zlen (row_slot e)) (PayloadPoolBytes e) false
  | Err _ => ¬ accepted L pos e
  | Fault _ => False
  end.
Proof.
  intros Hb Hk. unfold BuildRowRef.
  destruct (IsValidSourcePosition pos) eqn:Ev; cbn [negb]; [|by intros [? _ _ _ _]; congruence].
  destruct (negb _ || negb _) eqn:Em.
  { intros [_ Hv Hf _ _]. by rewrite Hv, Hf, !Z.eqb_refl in Em. }
  destruct (Z.eqb_spec (Zlen (row_slot e)) (row_slot_size L)) as [Hsz|]; cbn [negb];
    [|by intros [_ _ _ ? _]].
  unfold MaterializeRow. rewrite Em. rewrite (proj2 (Z.ltb_ge _ _)) by lia.
  pose proof (check_required_no_fault L e Hb) as Hnf.
  destruct (ofold (check_required e) (fields L) tt) as [[]|err|] eqn:Er; cbn [obind];
    [|by intros [_ _ _ _ ?]; congruence|done].
  assert (accepted L pos e) as Hacc by (btoprop; by split). split_and!; [done| |done].
  split; [done|]. split; [done|]. exists e. split_and!; [done| |done|].
  - split; [apply Hacc|apply Hacc|lia].
  - unfold MaterializeRow. rewrite Em. rewrite (proj2 (Z.ltb_ge _ _)) by lia. by rewrite Er.
Qed.

Lemma map_inv_heap heap heap' m :
  (∀ p r, heap !! p = Some r → ∃ r', heap' !! p = Some r'
    ∧ ref_primary_key r' = ref_primary_key r ∧ ref_position r' = ref_position r) →
  map_inv heap m → map_inv heap' m.
Proof.
  intros Hh [Hc Hl Hok Ht Hn]. split; try done.
  eapply Forall_impl; [exact Hok|]. intros s Hs Hst.
  destruct (Hs Hst) as (p & r & Hp & Hr & Hk & Hv).
  destruct (Hh p r Hr) as (r' & Hr' & Hk' & Hp'). exists p, r'.
  split_and!; [done..|congruence|congruence].
Qed.

Lemma make_table_ok L cap seed version :
  0 ≤ cap ≤ u64_max → table_ok L (make_table (Some L) cap seed version).
Proof.
  intros Hc. pose proof (make_hash_map_inv [] cap seed version Hc) as Hm.
  split; [done|done| | |done|].
  - intros k. cbn [make_table map_ rows_]. by destruct (current _ k).
  - by intros i j a b _ Ha.
  - intros (s & Hs & Hst). cbn in Hs. apply elem_of_replicate in Hs as [-> _]. done.
Qed.

Lemma visible_rows_lookup t k :
  visible_rows t !! k = newest (rows_ t) !! k ≫= (λ r, pair (ref_position r) <$> ref_encoded r).
Proof. unfold visible_rows. by rewrite lookup_omap. Qed.

(** ** Publishing *)

(** Appending a reference, published ([b]) or not. *)
Lemma push_row_ok L t m' r0 e b x y :
  table_ok L t → sealed_visible r0 = false → row_wf L r0 → ref_encoded r0 = Some e →
  map_inv (rows_ t ++ [r0]) m' →
  (∀ k, current m' k = if b && (k =? ref_primary_key r0) then Some (length (rows_ t))
                       else current (map_ t) k) →
  (reserved_somewhere m' → reserved_somewhere (map_ t)) →
  (b = true → ∀ c, newest (rows_ t) !! ref_primary_key r0 = Some c →
    partition (ref_position c) = partition (ref_position r0)
    ∧ offset (ref_position c) < offset (ref_position r0)) →
  let t' := MkTable (table_layout_ t) m'
              (rows_ t ++ [if b then set_sealed_visible r0 else r0]) x y in
  table_ok L t'
  ∧ visible_rows t' = if b then <[ref_primary_key r0 := (ref_position r0, e)]> (visible_rows t)
                      else visible_rows t.
Proof.
  intros [HL Hm Hcur Hs Hr Hfree] Hseal Hwf He Hm' Hcur' Hres Hnew t'.
  set (r' := if b then set_sealed_visible r0 else r0) in *.
  assert (newest (rows_ t')
    = if b then <[ref_primary_key r0 := r']> (newest (rows_ t)) else newest (rows_ t)) as Hn.
  { unfold t'. cbn [rows_]. rewrite newest_app. unfold note_row, r'. destruct b; [done|].
    by rewrite Hseal. }
  split; [split|].
  - done.
  - eapply map_inv_heap; [|exact Hm']. intros p r [Hp|[Hlen Hp]]%lookup_app_Some.
    + exists r. split; [by apply lookup_app_l_Some|done].
    + apply list_lookup_singleton_Some in Hp as [Hp <-]. exists r'.
      split; [|by unfold r'; destruct b]. unfold t'. cbn [rows_].
      rewrite lookup_app_r by lia. by rewrite Hp.
  - intros k. rewrite Hn. unfold t'. cbn [map_ rows_]. rewrite Hcur'.
    destruct b; cbn [andb].
    + destruct (Z.eqb_spec k (ref_primary_key r0)) as [->|Hne].
      * rewrite lookup_insert_eq. cbn [mbind option_bind].
        by rewrite lookup_app_r, Nat.sub_diag.
      * rewrite lookup_insert_ne by done. rewrite <-Hcur.
        destruct (current (map_ t) k) as [q|] eqn:E; [|done]. cbn [mbind option_bind].
        destruct (current_row _ _ _ _ Hm E) as (c & Hc & _). rewrite Hc.
        by apply lookup_app_l_Some.
    + rewrite <-Hcur. destruct (current (map_ t) k) as [q|] eqn:E; [|done].
      cbn [mbind option_bind]. destruct (current_row _ _ _ _ Hm E) as (c & Hc & _).
      rewrite Hc. by apply lookup_app_l_Some.
  - apply visible_sorted_snoc; [done|]. unfold r'. destruct b; [|congruence].
    intros _. by apply Hnew.
  - apply Forall_app. split; [done|]. constructor; [|done]. unfold r'. by destruct b.
  - intros H. by apply Hfree, Hres.
  - apply map_eq. intros k. rewrite visible_rows_lookup, Hn. destruct b.
    + destruct (decide (k = ref_primary_key r0)) as [->|].
      * rewrite !lookup_insert_eq. cbn [mbind option_bind]. unfold r'. cbn. by rewrite He.
      * rewrite !lookup_insert_ne by done. by rewrite visible_rows_lookup.
    + by rewrite visible_rows_lookup.
Qed.

(** No slot is left for the key. *)
Definition no_slot_left (t : RealtimeDeltaAtomicTable) (k : Z) : Prop :=
  ∀ i, (i < Z.to_nat (capacity_ (map_ t)))%nat →
    occupied_by_other (probe_of (map_ t)) (key_table (map_ t)) k i.

Lemma current_visible L t k :
  table_ok L t →
  match current (map_ t) k with
  | None => newest (rows_ t) !! k = None ∧ visible_rows t !! k = None
  | Some q => ∃ c e, rows_ t !! q = Some c ∧ newest (rows_ t) !! k = Some c
      ∧ visible_rows t !! k = Some (ref_position c, e)
  end.
Proof.
  intros [HL Hm Hcur Hs Hr Hfree]. specialize (Hcur k).
  destruct (current (map_ t) k) as [q|] eqn:Hq; cbn [mbind option_bind] in Hcur.
  - destruct (current_row _ _ _ _ Hm Hq) as (c & Hc & _). rewrite Hc in Hcur.
    rewrite Forall_forall in Hr.
    destruct (Hr c) as (_ & _ & e & He & _); [by eapply list_elem_of_lookup_2|].
    exists c, e. split_and!; [done..|]. rewrite visible_rows_lookup, <-Hcur.
    cbn [mbind option_bind]. by rewrite He.
  - split; [done|]. by rewrite visible_rows_lookup, <-Hcur.
Qed.

Section Push.
Context (L : CompiledRowLayout) (t : RealtimeDeltaAtomicTable) (k : Z) (pos : SourcePosition)
  (e : EncodedRow) (r0 : RealtimeRowRef).
Hypothesis Hok : table_ok L t.
Hypothesis Hwf : row_wf L r0.
Hypothesis Hkey : ref_primary_key r0 = k.
Hypothesis Hpos : ref_position r0 = pos.
Hypothesis Henc : ref_encoded r0 = Some e.
Hypothesis Hseal : sealed_visible r0 = false.

Abbreviation post := (published_post (rows_ t ++ [r0]) (map_ t) k (length (rows_ t)) r0).

(** The reference the key had, seen in the rows, the newest map and the
    visible map. *)
Lemma previous_row q c' :
  current (map_ t) k = Some q → (rows_ t ++ [r0]) !! q = Some c' →
  newest (rows_ t) !! k = Some c' ∧ ∃ e0, visible_rows t !! k = Some (ref_position c', e0).
Proof.
  intros Hq Hc'. pose proof (current_visible L t k Hok) as Hv. rewrite Hq in Hv.
  destruct Hv as (c & e0 & Hc & Hn & Hv). rewrite (lookup_app_l_Some _ _ _ _ Hc) in Hc'.
  injection Hc' as <-. split; [done|]. by exists e0.
Qed.

Lemma published_ok b m' x y :
  post (Ok b, m') →
  let t' := MkTable (Some L) m' (rows_ t ++ [if b then set_sealed_visible r0 else r0]) x y in
  table_ok L t' ∧ visible_rows t' = publish_row k pos e (visible_rows t)
  ∧ (∀ old e0, visible_rows t !! k = Some (old, e0) → partition old = partition pos).
Proof.
  intros (Hm' & Hcur' & Hres & _ & Hb).
  pose proof (current_visible L t k Hok) as Hv. rewrite <-(to_layout L t Hok).
  destruct (push_row_ok L t m' r0 e b x y Hok Hseal Hwf Henc Hm' ltac:(by rewrite Hkey) Hres)
    as [Hok' Hvis].
  - rewrite Hkey. intros -> c Hc. destruct (current (map_ t) k) as [q|] eqn:Hq.
    + destruct Hb as (c' & Hc' & Hp & Hlt). destruct (previous_row q c' Hq Hc') as [Hn _].
      assert (c' = c) as -> by congruence. split; [done|].
      symmetry in Hlt. by apply Z.ltb_lt in Hlt.
    + by rewrite (proj1 Hv) in Hc.
  - split; [done|]. rewrite Hvis, Hkey, Hpos. unfold publish_row.
    destruct (current (map_ t) k) as [q|] eqn:Hq.
    + destruct Hb as (c' & Hc' & Hp & ->). destruct (previous_row q c' Hq Hc') as (_ & e0 & ->).
      rewrite Hpos in *. split; [done|]. by intros old e1 [= <- <-].
    + rewrite (proj2 Hv), Hb. done.
Qed.

Lemma published_err err m' x y :
  post (Err err, m') →
  let t' := MkTable (Some L) m' (rows_ t ++ [r0]) x y in
  table_ok L t' ∧ visible_rows t' = visible_rows t
  ∧ ((∃ old e0, visible_rows t !! k = Some (old, e0) ∧ partition old ≠ partition pos)
     ∨ (visible_rows t !! k = None ∧ no_slot_left t k)).
Proof.
  intros [-> Hb]. pose proof Hok as [HL Hm _ _ _ Hfree]. rewrite <-HL.
  assert (map_inv (rows_ t ++ [r0]) (map_ t)) as Hm1.
  { eapply map_inv_heap; [|exact Hm]. intros p r Hp. exists r.
    split; [by apply lookup_app_l_Some|done]. }
  destruct (push_row_ok L t (map_ t) r0 e false x y Hok Hseal Hwf Henc Hm1
    ltac:(done) ltac:(done) ltac:(done)) as [Hok' Hvis].
  split; [done|]. split; [done|].
  pose proof (current_visible L t k Hok) as Hv. destruct (current (map_ t) k) as [q|] eqn:Hq.
  - left. destruct Hb as (c' & Hc' & Hp). destruct (previous_row q c' Hq Hc') as (_ & e0 & ->).
    exists (ref_position c'), e0. by rewrite <-Hpos.
  - right. split; [by apply Hv|]. by destruct Hb as [?|Hb].
Qed.
End Push.

Lemma Publish_spec L t k pos e :
  table_ok L t → bits_ok L → is_u64 k →
  match Publish k pos e t with
  | (Ok _, t') =>
      accepted L pos e ∧ table_ok L t' ∧ visible_rows t' = publish_row k pos e (visible_rows t)
      ∧ (∀ old e0, visible_rows t !! k = Some (old, e0) → partition old = partition pos)
  | (Err _, t') =>
      table_ok L t' ∧ visible_rows t' = visible_rows t
      ∧ (¬ accepted L pos e
         ∨ (∃ old e0, visible_rows t !! k = Some (old, e0) ∧ partition old ≠ partition pos)
         ∨ (visible_rows t !! k = None ∧ no_slot_left t k))
  | (Fault _, _) => False
  end.
Proof.
  intros Hok Hbits Hk. pose proof Hok as [HL Hm _ _ _ _].
  unfold Publish. rewrite HL. pose proof (BuildRowRef_spec L k pos e Hbits Hk) as Hb.
  destruct (BuildRowRef (Some L) k pos e) as [r0|err|f]; [|by split_and!; [..|left]|done].
  destruct Hb as (Hacc & Hwf & Hr0).
  assert (map_inv (rows_ t ++ [r0]) (map_ t)) as Hm1.
  { eapply map_inv_heap; [|exact Hm]. intros p r Hp. exists r.
    split; [by apply lookup_app_l_Some|done]. }
  pose proof (publish_spec (rows_ t ++ [r0]) (map_ t) k (length (rows_ t)) r0 Hm1
    ltac:(by rewrite lookup_app_r, Nat.sub_diag) ltac:(by subst r0) (proj1 Hwf)) as Hpost.
  destruct (PublishAndReport _ _ _ _) as [[b|err|f] m']; [split; [done|]| |done].
  - eapply published_ok; try done; by subst r0.
  - destruct (published_err L t k pos e r0 Hok Hwf ltac:(by subst r0)
      ltac:(by subst r0) ltac:(by subst r0) err m' (table_row_slot_bytes t)
      (table_payload_pool_bytes t) Hpost) as (Hok' & Hvis & Hwhy).
    rewrite <-HL in *. split_and!; [done..|]. by right.
Qed.

(** A refused row leaves the hash map as it was. *)
Lemma Publish_refused_map L t k pos e err t' :
  table_ok L t → bits_ok L → is_u64 k → Publish k pos e t = (Err err, t') → map_ t' = map_ t.
Proof.
  intros Hok Hbits Hk. pose proof Hok as [HL Hm _ _ _ _].
  unfold Publish. rewrite HL. pose proof (BuildRowRef_spec L k pos e Hbits Hk) as Hb.
  destruct (BuildRowRef (Some L) k pos e) as [r0|err0|f]; [|by intros [= _ <-]|done].
  destruct Hb as (Hacc & Hwf & Hr0).
  assert (map_inv (rows_ t ++ [r0]) (map_ t)) as Hm1.
  { eapply map_inv_heap; [|exact Hm]. intros p r Hp. exists r.
    split; [by apply lookup_app_l_Some|done]. }
  pose proof (publish_spec (rows_ t ++ [r0]) (map_ t) k (length (rows_ t)) r0 Hm1
    ltac:(by rewrite lookup_app_r, Nat.sub_diag) ltac:(by subst r0) (proj1 Hwf)) as Hpost.
  destruct (PublishAndReport _ _ _ _) as [[b|err0|f] m']; [done| |done].
  destruct Hpost as [-> _]. by intros [= _ <-].
Qed.

(** ** Reading and scanning *)

Lemma Get_spec L t k :
  table_ok L t →
  RealtimeDelta_Get t k
  = Ok ((λ pe : SourcePosition * EncodedRow, MkRow (Some L) (Some pe.2)) <$> visible_rows t !! k).
Proof.
  intros Hok. pose proof Hok as [HL Hm _ _ Hr _]. unfold RealtimeDelta_Get. rewrite HL.
  rewrite (HashMap_Get_current _ _ _ Hm). cbn [obind].
  pose proof (current_visible L t k Hok) as Hv. rewrite visible_rows_lookup.
  destruct (current (map_ t) k) as [q|]; [|by rewrite (proj1 Hv)].
  destruct Hv as (c & e & Hc & Hn & _). rewrite Hn.
  assert (deref (rows_ t) q = Ok c) as ->
    by (unfold deref; apply at_Ok; rewrite Nat2Z.id; split; [lia|done]).
  cbn [obind mbind option_bind]. rewrite Forall_forall in Hr.
  destruct (Hr c) as (_ & _ & e' & -> & _); [by eapply list_elem_of_lookup_2|]. done.
Qed.

Definition visible_of (rows : list RealtimeRowRef) : gmap Z (SourcePosition * EncodedRow) :=
  omap (λ r, pair (ref_position r) <$> ref_encoded r) (newest rows).

(** A listing of a map of rows, in key order. *)
Definition lists_rows (l : list RealtimeVisibleRow) (M : gmap Z (SourcePosition * EncodedRow))
    : Prop :=
  StronglySorted (λ a b, visible_primary_key a < visible_primary_key b) l
  ∧ ∀ k pos e, MkVisibleRow k pos e ∈ l ↔ ∃ e', e = Some e' ∧ M !! k = Some (pos, e').

Lemma strictly_sorted l :
  StronglySorted by_primary_key l → NoDup (visible_primary_key <$> l) →
  StronglySorted (λ a b, visible_primary_key a < visible_primary_key b) l.
Proof.
  induction 1 as [|x l Hl IH Hx]; intros Hnd; [constructor|].
  rewrite fmap_cons in Hnd. apply NoDup_cons in Hnd as [Hnin Hnd].
  constructor; [by apply IH|]. apply Forall_forall. intros y Hy.
  rewrite Forall_forall in Hx. specialize (Hx y Hy). unfold by_primary_key in Hx.
  assert (visible_primary_key x ≠ visible_primary_key y); [|lia].
  intros Heq. apply Hnin. rewrite Heq. apply list_elem_of_fmap. by exists y.
Qed.

Lemma list_newest L rows :
  Forall (row_wf L) rows →
  ∃ l, omapM visible_row (map_to_list (newest rows)) = Ok l
    ∧ lists_rows (merge_sort by_primary_key l) (visible_of rows).
Proof.
  intros Hwf.
  assert (∀ k r, (k, r) ∈ map_to_list (newest rows) → ∃ e, ref_encoded r = Some e) as Henc.
  { intros k r Hin. apply elem_of_map_to_list in Hin.
    destruct (newest_Some _ _ _ Hin) as (_ & _ & i & Hi & _). rewrite Forall_forall in Hwf.
    destruct (Hwf r) as (_ & _ & e & He & _); [by eapply list_elem_of_lookup_2|]. by exists e. }
  set (f := λ kr : Z * RealtimeRowRef, MkVisibleRow kr.1 (ref_position kr.2) (ref_encoded kr.2)).
  exists (f <$> map_to_list (newest rows)).
  assert (omapM visible_row (map_to_list (newest rows)) = Ok (f <$> map_to_list (newest rows)))
    as ->.
  { apply omapM_Ok. apply Forall2_fmap_r, Forall_Forall2_diag, Forall_forall.
    intros [k r] Hin. destruct (Henc k r Hin) as [e He]. unfold compose, visible_row, f. cbn [fst snd].
    by rewrite He. }
  split; [done|].
  pose proof (merge_sort_Permutation by_primary_key (f <$> map_to_list (newest rows))) as Hperm.
  split.
  - apply strictly_sorted.
    + apply StronglySorted_merge_sort.
      * intros a b c. unfold by_primary_key. lia.
      * intros a b. unfold by_primary_key. lia.
    + rewrite Hperm, <-list_fmap_compose. apply NoDup_fst_map_to_list.
  - intros k pos e. rewrite Hperm, list_elem_of_fmap. unfold visible_of. rewrite lookup_omap.
    split.
    + intros ([k' r] & [= -> -> ->] & Hin). destruct (Henc k' r Hin) as [e' He].
      apply elem_of_map_to_list in Hin. exists e'. rewrite Hin. cbn. by rewrite He.
    + intros (e' & -> & Hlk). destruct (newest rows !! k) as [r|] eqn:Hr; [|done].
      cbn in Hlk. destruct (ref_encoded r) as [e2|] eqn:He; [|done].
      injection Hlk as <- <-. exists (k, r). split; [unfold f; cbn; by rewrite He|].
      by apply elem_of_map_to_list.
Qed.

(** A scan reads the map of the first rows of the table. *)
Lemma Scan_spec L t n :
  table_ok L t → (n ≤ length (rows_ t))%nat →
  ∃ l, ScanVisibleRows t (MkBoundary (Z.of_nat n)) = Ok l
    ∧ lists_rows l (visible_of (take n (rows_ t))).
Proof.
  intros [_ _ _ Hs Hr _] Hn. unfold ScanVisibleRows. cbn [boundary_row_count].
  replace (Z.to_nat (Z.min (Z.of_nat n) (Zlen (rows_ t)))) with n by (unfold Zlen; lia).
  assert (Forall (row_wf L) (take n (rows_ t))) as Hwf by (by apply Forall_take).
  rewrite (scan_rows_newest L); [|by apply visible_sorted_prefix|done]. cbn [obind].
  destruct (list_newest L (take n (rows_ t)) Hwf) as (l & -> & Hl). cbn [obind].
  by eexists.
Qed.

(** ** Runs of a table *)

Inductive table_step : RealtimeDeltaAtomicTable → RealtimeDeltaAtomicTable → Prop :=
| step_publish t k pos e r t' : is_u64 k → Publish k pos e t = (r, t') → table_step t t'.

(** Tables reached from a new one of the given capacity. *)
Definition realtime_reachable (L : CompiledRowLayout) (cap seed version : Z)
    (t : RealtimeDeltaAtomicTable) : Prop :=
  rtc table_step (make_table (Some L) cap seed version) t.

Lemma table_step_ok L t t' :
  bits_ok L → table_step t t' → table_ok L t → table_ok L t' ∧ rows_ t `prefix_of` rows_ t'.
Proof.
  intros Hb [t1 k pos e r t2 Hk H] Hok.
  pose proof (Publish_spec L t1 k pos e Hok Hb Hk) as Hp. rewrite H in Hp.
  split; [by destruct r; [apply Hp|apply Hp|]|].
  unfold Publish in H. destruct (BuildRowRef _ _ _ _); [|injection H as <- <-; done..].
  destruct (PublishAndReport _ _ _ _) as [[]]; injection H as <- <-;
    cbn [rows_]; by apply prefix_app_r.
Qed.

Lemma table_steps_ok L t t' :
  bits_ok L → rtc table_step t t' → table_ok L t → table_ok L t' ∧ rows_ t `prefix_of` rows_ t'.
Proof.
  intros Hb. induction 1 as [t|t t1 t2 Hs _ IH]; intros Hok; [done|].
  destruct (table_step_ok L t t1 Hb Hs Hok) as [Hok1 Hp1].
  destruct (IH Hok1) as [Hok2 Hp2]. split; [done|]. by etrans.
Qed.

(** ** Counting *)

Lemma current_dom L t k :
  table_ok L t → k ∈ dom (visible_rows t) ↔ k ∈ (entries (key_table (map_ t))).*1.
Proof.
  intros Hok. pose proof Hok as [_ Hm _ _ _ _].
  pose proof (current_visible L t k Hok) as Hv.
  rewrite elem_of_dom, list_elem_of_fmap. split.
  - intros [pe Hpe]. destruct (current (map_ t) k) as [q|] eqn:Hq; [|by rewrite (proj2 Hv) in Hpe].
    exists (k, q). split; [done|]. apply elem_of_entries. by eapply current_holds.
  - intros ([k' q] & -> & Hin). apply elem_of_entries, (current_holds (rows_ t)) in Hin; [|done].
    cbn [fst] in *. rewrite Hin in Hv. destruct Hv as (c & e & _ & _ & ->). by eexists.
Qed.

Lemma visible_size L t :
  table_ok L t → 0 < capacity_ (map_ t) →
  unique_key_count_ (map_ t) = Z.of_nat (size (visible_rows t)).
Proof.
  intros Hok Hpos. pose proof Hok as [_ Hm _ _ _ _]. rewrite (mi_count _ _ Hm). f_equal.
  rewrite <-size_dom.
  assert (dom (visible_rows t) = list_to_set (entries (key_table (map_ t))).*1) as ->.
  { apply set_eq. intros k. by rewrite (current_dom L), elem_of_list_to_set. }
  rewrite size_list_to_set; [by rewrite length_fmap|].
  eapply NoDup_keys_entries, (mi_table _ _ Hm).
Qed.

Lemma entries_full {K V} (t : list (option (K * V))) :
  (∀ s, (s < length t)%nat → ∃ e, t !! s = Some (Some e)) → length (entries t) = length t.
Proof.
  intros Hfull. pose proof (length_entries_le t) as Hle.
  destruct (decide (length (entries t) = length t)) as [|Hne]; [done|].
  destruct (vacant_exists t) as (s & Hs & Hn); [lia|].
  destruct (Hfull s Hs) as [e He]. congruence.
Qed.

(** With a power-of-two capacity, a key finds no slot only in a full table. *)
Lemma no_slot_left_full L t k :
  table_ok L t → single_bit (capacity_ (map_ t)) = true → no_slot_left t k →
  Z.of_nat (size (visible_rows t)) = capacity_ (map_ t).
Proof.
  intros Hok Hp Hfull. pose proof Hok as [_ Hm _ _ _ _]. pose proof (mi_capacity _ _ Hm) as Hc.
  assert (0 < capacity_ (map_ t)) as Hpos.
  { destruct (decide (capacity_ (map_ t) = 0)) as [E|]; [by rewrite E in Hp|lia]. }
  rewrite <-(visible_size L t Hok Hpos), (mi_count _ _ Hm).
  pose proof (inv_length _ _ _ (mi_table _ _ Hm)) as Hl.
  rewrite entries_full; [rewrite Hl; lia|].
  rewrite Hl. intros s Hs.
  destruct (power_of_two_covers (map_ t) k s ltac:(lia) Hp Hs) as (i & Hi & <-).
  destruct (Hfull i Hi) as (k' & v & E & _). eauto.
Qed.

(** ** The theorems *)

Lemma Publish_capacity k pos e t : capacity_ (map_ (Publish k pos e t).2) = capacity_ (map_ t).
Proof.
  assert (∀ heap p n i m, capacity_ (publish_loop heap k p n i m).2 = capacity_ m) as Hloop.
  { intros heap p n. induction n as [|n IH]; intros i m; [done|]. cbn [publish_loop].
    destruct (at_ _ _) as [s| |]; [|done..]. destruct (slot_state s); [done..|].
    destruct (_ =? _); [|apply IH]. unfold PublishExisting.
    destruct (latest_row s); [|done]. by destruct (obind _ _) as [[]| |]. }
  unfold Publish. destruct (BuildRowRef _ _ _ _) as [r| |]; [|done..].
  destruct (PublishAndReport _ _ _ _) as [c m'] eqn:E.
  assert (capacity_ m' = capacity_ (map_ t)) as Hm; [|by destruct c].
  unfold PublishAndReport in E. destruct (deref _ _) as [r'| |]; [|by injection E as _ <-..].
  destruct (negb _); [by injection E as _ <-|]. destruct (negb _); [by injection E as _ <-|].
  destruct (_ =? 0); [by injection E as _ <-|].
  pose proof (Hloop (rows_ t ++ [r]) (length (rows_ t)) (Z.to_nat (capacity_ (map_ t))) 0 (map_ t)) as H.
  by rewrite E in H.
Qed.

Lemma reachable_capacity L cap seed version t :
  realtime_reachable L cap seed version t → capacity_ (map_ t) = cap.
Proof.
  unfold realtime_reachable. set (t0 := make_table _ _ _ _). intros H.
  change cap with (capacity_ (map_ t0)). clearbody t0.
  induction H as [t|t t1 t2 [t' k pos e r t1' Hk Hp] _ IH]; [done|].
  rewrite IH. pose proof (Publish_capacity k pos e t') as H. by rewrite Hp in H.
Qed.

Lemma compiled_bits_ok ver s L : reachable_schema ver s → Compile s = Ok L → bits_ok L.
Proof.
  intros Hs HL f Hf. injection HL as <-.
  pose proof (compile_layout_wf s (reachable_schema_ok _ _ Hs)) as Hwf.
  apply (field_bit _ f Hwf Hf).
Qed.

Section Theorems.
Context (ver : Z) (schema : RuntimeSchema) (L : CompiledRowLayout).
Context (Hschema : reachable_schema ver schema) (HL : Compile schema = Ok L).
Context (cap seed version : Z) (Hcap : 0 ≤ cap ≤ u64_max).

Lemma reachable_table_ok t : realtime_reachable L cap seed version t → table_ok L t.
Proof.
  intros H. eapply table_steps_ok; [by eapply compiled_bits_ok|exact H|by apply make_table_ok].
Qed.

(** *** C19: Publishing keeps the newest row of every key.

    From any state a table of power-of-two capacity can reach, publishing a
    row of key [k] at a source position does what its specification
    [publish_row] says: the row becomes visible if the key is new or its
    visible row has a lower offset of the same partition, and an older or
    repeated offset is accepted without effect.  Publishing fails, leaving
    what is visible unchanged, only when the row does not fit the layout
    or the position is invalid, when the visible row comes from another
    partition, or when the key is new and every slot is taken. *)
Theorem publish_newest_wins (t : RealtimeDeltaAtomicTable) (k : Z) (pos : SourcePosition)
    (e : EncodedRow) (Hk : is_u64 k) (Hpow : single_bit cap = true)
    (Ht : realtime_reachable L cap seed version t) :
  match Publish k pos e t with
  | (Ok _, t') =>
      accepted L pos e ∧ visible_rows t' = publish_row k pos e (visible_rows t)
      ∧ (∀ old e0, visible_rows t !! k = Some (old, e0) → partition old = partition pos)
  | (Err _, t') =>
      visible_rows t' = visible_rows t
      ∧ (¬ accepted L pos e
         ∨ (∃ old e0, visible_rows t !! k = Some (old, e0) ∧ partition old ≠ partition pos)
         ∨ (visible_rows t !! k = None ∧ Z.of_nat (size (visible_rows t)) = cap))
  | (Fault _, _) => False
  end.
Proof.
  pose proof (reachable_table_ok t Ht) as Hok. pose proof (reachable_capacity _ _ _ _ _ Ht) as Hc.
  pose proof (Publish_spec L t k pos e Hok (compiled_bits_ok _ _ _ Hschema HL) Hk) as Hp.
  destruct (Publish k pos e t) as [[[]|err|f] t']; [|destruct Hp as (_ & Hvis & Hwhy)|done].
  - destruct Hp as (Hacc & _ & Hvis & Hpart). done.
  - split; [done|]. destruct Hwhy as [?|[?|[Hnone Hfull]]]; [by left|by right; left|].
    right; right. split; [done|]. rewrite <-Hc. eapply no_slot_left_full; [done|by rewrite Hc|done].
Qed.

(** Reads and statistics of the realtime table.

    In any reachable state, [Get] of every key returns the visible row of the
    key over the table's layout and nothing for other keys, without an error;
    a scan of the whole table lists exactly the visible rows in key order;
    and the statistics count the visible keys. *)
Theorem realtime_reads_visible (t : RealtimeDeltaAtomicTable)
    (Ht : realtime_reachable L cap seed version t) :
  (∀ k, RealtimeDelta_Get t k
     = Ok ((λ pe : SourcePosition * EncodedRow, MkRow (Some L) (Some pe.2)) <$> visible_rows t !! k))
  ∧ (∃ l, ScanVisibleRows t (CaptureCompactionBoundary t) = Ok l ∧ lists_rows l (visible_rows t))
  ∧ (0 < cap → unique_visible_keys (stats t) = Z.of_nat (size (visible_rows t)))
  ∧ hash_capacity (stats t) = cap.
Proof.
  pose proof (reachable_table_ok t Ht) as Hok. pose proof (reachable_capacity _ _ _ _ _ Ht) as Hc.
  split_and!; [intros k; by apply Get_spec| |rewrite <-Hc; by apply (visible_size L)|done].
  destruct (Scan_spec L t (length (rows_ t)) Hok ltac:(lia)) as (l & Hl & Hlist).
  exists l. split; [exact Hl|]. by rewrite take_ge in Hlist by lia.
Qed.

(** *** C25: A scan up to a captured boundary is a snapshot of that moment.

    When a boundary was captured in a reachable state [t0] and rows have been
    published since, scanning up to the boundary still lists exactly the rows
    that were visible in [t0]: later rows of the same keys do not hide them. *)
Theorem boundary_scan_stable (t0 t : RealtimeDeltaAtomicTable)
    (Ht0 : realtime_reachable L cap seed version t0) (Ht : rtc table_step t0 t) :
  ∃ l, ScanVisibleRows t (CaptureCompactionBoundary t0) = Ok l ∧ lists_rows l (visible_rows t0).
Proof.
  pose proof (reachable_table_ok t0 Ht0) as Hok0.
  destruct (table_steps_ok L t0 t (compiled_bits_ok _ _ _ Hschema HL) Ht Hok0) as [Hok [rest Hr]].
  destruct (Scan_spec L t (length (rows_ t0)) Hok) as (l & Hl & Hlist).
  { rewrite Hr, length_app. lia. }
  exists l. split; [exact Hl|]. by rewrite Hr, take_app_length in Hlist.
Qed.
End Theorems.

(** Without a power-of-two capacity, a key may be refused although
    a slot is free.

    The probe sequence adds the probe number to the hash modulo [2^64] before
    it reduces modulo the capacity.  With capacity 3, the default hash and a
    key whose hash is [2^64 - 1], the probes visit slots 0, 0 and 1: once
    slots 0 and 1 are taken, publishing the key reports an exhausted table
    and slot 2 stays empty. *)
Theorem capacity_three_refuses (pos : SourcePosition)
    (Hpos : IsValidSourcePosition pos = true) :
  let ref k := MkRowRef k pos None 0 0 false in
  let k0 := 13195679944386838136 in
  let k1 := 3377339903461340206 in
  let k2 := 16684275648398150712 in
  let heap := [ref k0; ref k1; ref k2] in
  ∃ m1 m2, PublishAndReport heap k0 (Some 0%nat) (make_hash_map 3 0 1) = (Ok true, m1)
    ∧ PublishAndReport heap k1 (Some 1%nat) m1 = (Ok true, m2)
    ∧ PublishAndReport heap k2 (Some 2%nat) m2
      = (FailedPrecondition "realtime hash map capacity exhausted", m2)
    ∧ slots_ m2 !! 2%nat = Some empty_slot.
Proof.
  assert (∀ heap k p r m, heap !! p = Some r → ref_primary_key r = k → ref_position r = pos →
    capacity_ m ≠ 0 → PublishAndReport heap k (Some p) m
      = publish_loop heap k p (Z.to_nat (capacity_ m)) 0 m) as Hpub.
  { intros heap k p r m Hr Hk Hp Hm. unfold PublishAndReport.
    assert (deref heap p = Ok r) as ->
      by (unfold deref; apply at_Ok; rewrite Nat2Z.id; split; [lia|done]).
    rewrite Hk, Hp, Hpos, Z.eqb_refl, (proj2 (Z.eqb_neq _ _)) by done. done. }
  intros ref k0 k1 k2 heap. eexists _, _. split_and!.
  - rewrite (Hpub heap k0 0%nat (ref k0)) by done. vm_compute. reflexivity.
  - rewrite (Hpub heap k1 1%nat (ref k1)) by done. vm_compute. reflexivity.
  - rewrite (Hpub heap k2 2%nat (ref k2)) by done. vm_compute. reflexivity.
  - reflexivity.
Qed.
