(* ===== verification/Shard.v ===== *)
(** * Shards: [src/runtime/shard_state.{h,cc}], [src/runtime/shard_directory.{h,cc}]

    A shard state stacks three layers of rows; a read takes the first layer
    that has the key.  What a layer is to the shard is the class [RowLayer].
    The realtime table is shared with the threads that publish to it: the
    functions take its value at the time of the call. *)

From S2P Require Import Prelude Status ByteIo Types Schema RowStorage FrozenIndex Snapshot.
From S2P Require Import RealtimeDelta.

(** ** Layers *)

Class RowLayer (A : Type) := layer_get : A → Z → StatusOr (option Row).

#[export] Instance realtime_layer : RowLayer RealtimeDeltaAtomicTable := RealtimeDelta_Get.
#[export] Instance compact_layer : RowLayer CompactDeltaSnapshot := CompactDeltaSnapshot_Get.
#[export] Instance full_layer : RowLayer FullSnapshotView := FullSnapshotView_Get.

(** A layer that may be absent. *)
#[export] Instance option_layer {A} `{RowLayer A} : RowLayer (option A) := λ l k,
  match l with
  | None => Ok None
  | Some layer => layer_get layer k
  end.

Record Layers : Type := MkLayers {
  realtime_delta : option RealtimeDeltaAtomicTable;
  compact_delta : option CompactDeltaSnapshot;
  full_snapshot : option FullSnapshotView;
}.

Record ShardState : Type := MkShardState {
  shard_id : Z;
  generation : Z;
  layers : Layers;
}.

(** The first layer with a row answers; an error stops the search. *)
Definition Layers_Get (l : Layers) (primary_key : Z) : StatusOr (option Row) :=
  let* realtime_row := layer_get (realtime_delta l) primary_key in
  match realtime_row with
  | Some _ => Ok realtime_row
  | None =>
      let* compact_row := layer_get (compact_delta l) primary_key in
      match compact_row with
      | Some _ => Ok compact_row
      | None => layer_get (full_snapshot l) primary_key
      end
  end.

Definition ShardState_Get (s : ShardState) (primary_key : Z) : StatusOr (option Row) :=
  Layers_Get (layers s) primary_key.

Definition ShardState_MGet (s : ShardState) (primary_keys : list Z)
    : StatusOr (list (option Row)) :=
  omapM (ShardState_Get s) primary_keys.

(** ** Runtime status *)

Record ShardRuntimeStatus : Type := MkShardRuntimeStatus {
  status_shard_id : Z;
  status_generation : Z;
  status_schema_version : Z;
  status_layout_fingerprint : Z;
  status_artifact_id : cpp_string;
  has_realtime_delta : bool;
  has_compact_delta : bool;
  has_full_snapshot : bool;
  status_realtime_delta : RealtimeDeltaStats;
  compact_row_count : Z;
  full_row_count : Z;
  accessor_mismatch_count : Z;
  last_error : cpp_string;
}.

Definition RealtimeDeltaStats_default : RealtimeDeltaStats :=
  MkRealtimeDeltaStats 0 0 0 0 0 (double_of_Z 0).

(** [CopyLayoutMetadata]: the first layout with a version fills in the
    schema version and the fingerprint. *)
Definition CopyLayoutMetadata (l : option CompiledRowLayout) (version_and_fingerprint : Z * Z)
    : Z * Z :=
  match l with
  | Some l =>
      if version_and_fingerprint.1 =? 0 then (schema_version l, layout_fingerprint l)
      else version_and_fingerprint
  | None => version_and_fingerprint
  end.

Definition GetRuntimeStatus (s : ShardState) : ShardRuntimeStatus :=
  let l := layers s in
  let meta := (0, 0) in
  let meta := match realtime_delta l with
              | Some t => CopyLayoutMetadata (table_layout_ t) meta
              | None => meta
              end in
  let compact_backing := c ← compact_delta l; compact_backing c in
  let meta := match compact_backing with
              | Some b => CopyLayoutMetadata (owned_layout b) meta
              | None => meta
              end in
  let full_backing := f ← full_snapshot l; full_backing f in
  let meta := match full_backing with
              | Some b => CopyLayoutMetadata (layout b) meta
              | None => meta
              end in
  MkShardRuntimeStatus (shard_id s) (generation s) meta.1 meta.2
    (default [] (b ← full_backing; mmap_artifact_id b))
    (bool_decide (is_Some (realtime_delta l)))
    (bool_decide (is_Some (compact_delta l)))
    (bool_decide (is_Some (full_snapshot l)))
    (from_option stats RealtimeDeltaStats_default (realtime_delta l))
    (from_option (λ b, backing_row_count (owned_backing b)) 0 compact_backing)
    (from_option backing_row_count 0 full_backing)
    0 [].

(** ** The directory *)

Record ShardDirectory : Type := MkShardDirectory {
  shard_count : Z;
  shards : list (option ShardState);
}.

Definition make_directory (count : Z) : ShardDirectory :=
  MkShardDirectory count (replicate (Z.to_nat count) None).

Definition ShardDirectory_Publish (id : Z) (state : option ShardState)
    : stateful ShardDirectory Status unit := λ d,
  if shard_count d <=? id then (InvalidArgument "shard id is out of range", d)
  else match state with
       | None => (InvalidArgument "published shard state must not be null", d)
       | Some _ =>
           match set_at (E := Status) (shards d) id state with
           | Ok shards' => (Ok tt, MkShardDirectory (shard_count d) shards')
           | Err e => (Err e, d)
           | Fault f => (Fault f, d)
           end
       end.

Definition ShardDirectory_Load (d : ShardDirectory) (id : Z) : StatusOr (option ShardState) :=
  if shard_count d <=? id then InvalidArgument "shard id is out of range"
  else at_ (shards d) id.
