(* ===== verification/Rebuild.v ===== *)
(** * Rebuilding snapshots: [src/rebuild/compaction.{h,cc}], [src/rebuild/full_rebase.{h,cc}]

    Delta compaction folds the realtime rows up to a boundary into a new
    compact snapshot; a full rebase folds the compact snapshot into a new full
    one.  A request refers to a shard state; the requests are the arguments of
    the functions. *)

From S2P Require Import Prelude Status ByteIo Types Schema RowStorage FrozenIndex Snapshot.
From S2P Require Import RealtimeDelta Shard.

(** ** Collecting rows *)

(** The builder and the keys seen so far. *)
Definition sink : Type := SnapshotBuilder * gset Z.

(** [AddRowIfNew]; its null checks guard pointers to locals of the callers. *)
Definition AddRowIfNew (kr : Z * EncodedRow) : stateful sink Status unit := λ s,
  let '(builder, seen) := s in
  if bool_decide (kr.1 ∈ seen) then (Ok tt, s)
  else let '(r, builder') := AddRow kr.1 kr.2 builder in (r, (builder', {[kr.1]} ∪ seen)).

Definition AddSnapshotRow (row : SnapshotRow) : stateful sink Status unit :=
  AddRowIfNew (snapshot_primary_key row, encoded row).

Definition AddRealtimeRow (row : RealtimeVisibleRow) : stateful sink Status unit :=
  match visible_encoded row with
  | None => slift (Internal "compaction realtime row has no encoded row")
  | Some e => AddRowIfNew (visible_primary_key row, e)
  end.

(** [builder.Seal()] at the end. *)
Definition seal_sink (s : outcome Status unit * sink) : StatusOr OwnedSnapshotBacking :=
  match s with
  | (Ok _, (builder, _)) => (Seal builder).1
  | (Err e, _) => Err e
  | (Fault f, _) => Fault f
  end.

(** ** Delta compaction *)

Definition ResolveLayout (l : Layers) : StatusOr (option CompiledRowLayout) :=
  match (t ← realtime_delta l; table_layout_ t) with
  | Some lay => Ok (Some lay)
  | None =>
      match (c ← compact_delta l; compact_backing c) with
      | Some b => Ok (owned_layout b)
      | None =>
          match (f ← full_snapshot l; full_backing f) with
          | Some b => Ok (layout b)
          | None => FailedPrecondition "compaction state has no row layout"
          end
      end
  end.

Definition BuildCompactedDeltaSnapshot (state : ShardState) (boundary : RealtimeDeltaBoundary)
    (options : SnapshotBuildOptions) (mode : ForwardIndexMode) : StatusOr OwnedSnapshotBacking :=
  if negb (ForwardIndexModeUsesCompactDelta mode) then
    FailedPrecondition "delta compaction is disabled for forward index mode"
  else
  let* lay := ResolveLayout (layers state) in
  let* realtime_rows := match realtime_delta (layers state) with
                        | Some t => ScanVisibleRows t boundary
                        | None => Ok []
                        end in
  seal_sink
    ((do* _ := sfor AddRealtimeRow realtime_rows in
      match compact_delta (layers state) with
      | None => sret tt
      | Some compact =>
          match compact_backing compact with
          | None => slift (FailedPrecondition "compact delta has no backing")
          | Some b =>
              do* rows := slift (EnumerateSnapshotRows (owned_backing b)) in
              sfor AddSnapshotRow rows
          end
      end) (make_builder lay options, ∅)).

Definition FinishDeltaCompaction (previous : ShardState) (successor_generation : Z)
    (successor_realtime : option RealtimeDeltaAtomicTable)
    (compact_backing : option OwnedSnapshotBacking) (mode : ForwardIndexMode)
    : StatusOr ShardState :=
  if negb (ForwardIndexModeUsesCompactDelta mode) then
    FailedPrecondition "delta compaction is disabled for forward index mode"
  else match compact_backing with
  | None => InvalidArgument "compaction compact backing is null"
  | Some b =>
      Ok (MkShardState (shard_id previous) successor_generation
            (MkLayers successor_realtime (Some (make_compact (Some b)))
               (full_snapshot (layers previous))))
  end.

(** ** Full rebase *)

Definition CheckSameLayout (lhs rhs : SnapshotBacking) : StatusM :=
  match layout lhs, layout rhs with
  | Some ll, Some rl =>
      if negb (schema_version ll =? schema_version rl)
         || negb (layout_fingerprint ll =? layout_fingerprint rl)
         || negb (row_slot_size ll =? row_slot_size rl) then
        FailedPrecondition "compact and full snapshots have different row layouts"
      else
      let* lhs_index := Validate (frozen_index_bytes lhs) in
      let* rhs_index := Validate (frozen_index_bytes rhs) in
      let lm := metadata lhs_index in
      let rm := metadata rhs_index in
      if negb (hash_seed lm =? hash_seed rm) || negb (hash_version lm =? hash_version rm)
         || negb (group_width lm =? group_width rm) then
        FailedPrecondition "compact and full snapshots have different hash settings"
      else Ok tt
  | _, _ => FailedPrecondition "rebase snapshot has no row layout"
  end.

Definition EnsurePreviousRealtimeIsEmpty (previous : ShardState) : StatusM :=
  match realtime_delta (layers previous) with
  | None => Ok tt
  | Some realtime =>
      let* visible_rows := ScanVisibleRows realtime (CaptureCompactionBoundary realtime) in
      match visible_rows with
      | [] => Ok tt
      | _ => FailedPrecondition "full rebase cutover requires previous realtime delta to be empty"
      end
  end.

Definition BuildRebasedFullSnapshot (state : ShardState) (external_async_load_active : bool)
    (options : SnapshotBuildOptions) (mode : ForwardIndexMode) : StatusOr OwnedSnapshotBacking :=
  if negb (ForwardIndexModeUsesCompactDelta mode) then
    FailedPrecondition "internal full rebase is disabled for forward index mode"
  else if external_async_load_active then
    FailedPrecondition "external async load is active; internal full rebase is deferred"
  else
  match (f ← full_snapshot (layers state); full_backing f) with
  | None => FailedPrecondition "full rebase requires a full snapshot"
  | Some full =>
      let* compact := match compact_delta (layers state) with
                      | None => Ok None
                      | Some c =>
                          match compact_backing c with
                          | None => FailedPrecondition "compact delta has no backing"
                          | Some b =>
                              let* _ := CheckSameLayout (owned_backing b) full in Ok (Some b)
                          end
                      end in
      seal_sink
        ((do* _ := match compact with
                   | None => sret tt
                   | Some b =>
                       do* rows := slift (EnumerateSnapshotRows (owned_backing b)) in
                       sfor AddSnapshotRow rows
                   end in
          do* rows := slift (EnumerateSnapshotRows full) in
          sfor AddSnapshotRow rows) (make_builder (layout full) options, ∅))
  end.

Definition FinishFullRebase (previous : ShardState) (successor_generation : Z)
    (rebase_realtime : option RealtimeDeltaAtomicTable)
    (full_backing : option OwnedSnapshotBacking) (mode : ForwardIndexMode)
    : StatusOr ShardState :=
  if negb (ForwardIndexModeUsesCompactDelta mode) then
    FailedPrecondition "internal full rebase is disabled for forward index mode"
  else match full_backing with
  | None => InvalidArgument "rebased full backing is null"
  | Some b =>
      let* _ := EnsurePreviousRealtimeIsEmpty previous in
      Ok (MkShardState (shard_id previous) successor_generation
            (MkLayers rebase_realtime None (Some (make_full (Some (owned_backing b))))))
  end.
