(* ===== verification/RebuildProofs.v ===== *)
(** * Rebuilding a snapshot does not change what a shard answers

    Collecting rows layer by layer gives the left-biased union of the layers'
    maps; a sealed snapshot answers from that union; so the layers it replaces
    can be dropped. *)

From S2P Require Import Prelude Status ByteIo Types Schema SchemaProofs RowStorage RowSafety.
From S2P Require Import RowProofs RowAccess FrozenIndex FrozenIndexProofs FrozenBuildProofs.
From S2P Require Import Snapshot SnapshotProofs ProbeTable RealtimeDelta RealtimeProofs.
From S2P Require Import RealtimeTable Shard Rebuild.

(** ** Collecting rows *)

(** The rows a builder over layout [L] takes without a change. *)
Definition keepable (L : CompiledRowLayout) (kr : Z * EncodedRow) : Prop :=
  is_u64 kr.1 ∧ row_ok L kr.2 ∧ Zlen (row_slot kr.2) = row_slot_size L.

Lemma cut_row_exact L r : Zlen (row_slot r) = row_slot_size L → cut_row L r = r.
Proof.
  intros H. unfold cut_row. rewrite <-H. unfold Zlen. rewrite Nat2Z.id, take_ge by done.
  by destruct r.
Qed.

(** The state of a sink that holds [rows]. *)
Record sink_inv (L : CompiledRowLayout) (s : sink) (rows : list (Z * EncodedRow)) : Prop := {
  sk_builder : builder_inv L s.1 rows;
  sk_seen : s.2 = list_to_set rows.*1;
}.

Lemma sink_start L o : sink_inv L (make_builder (Some L) o, ∅) [].
Proof. split; [apply make_builder_inv|done]. Qed.

Lemma union_known (rows : list (Z * EncodedRow)) k r :
  k ∈ rows.*1 → list_to_map (M := gmap Z EncodedRow) rows ∪ {[k := r]} = list_to_map rows.
Proof.
  intros Hk. apply map_eq. intros j. rewrite lookup_union.
  destruct (decide (j = k)) as [->|Hne].
  - destruct (list_to_map (M := gmap Z EncodedRow) rows !! k) as [x|] eqn:E.
    + by rewrite union_Some_l.
    + by apply not_elem_of_list_to_map in E.
  - rewrite lookup_singleton_ne by done. by rewrite (right_id None (∪)).
Qed.

Lemma AddRowIfNew_spec L s rows kr :
  sink_inv L s rows → 0 ≤ row_slot_size L → keepable L kr →
  Zlen rows * row_slot_size L ≤ u64_max →
  ∃ s' rows', AddRowIfNew kr s = (Ok tt, s') ∧ sink_inv L s' rows'
    ∧ builder_options s'.1 = builder_options s.1
    ∧ list_to_map (M := gmap Z EncodedRow) rows' = list_to_map rows ∪ {[kr.1 := kr.2]}
    ∧ Zlen rows' ≤ Zlen rows + 1.
Proof.
  intros [Hb Hseen] Hs (Hk & Hok & Hex) Hmem. destruct kr as [k r], s as [b seen].
  cbn [fst snd] in *. unfold AddRowIfNew. cbn [fst snd].
  destruct (bool_decide (k ∈ seen)) eqn:Ed.
  - apply bool_decide_eq_true in Ed. exists (b, seen), rows. split_and!; [done|by split|done| |lia].
    rewrite Hseen, elem_of_list_to_set in Ed. symmetry. by apply union_known.
  - apply bool_decide_eq_false in Ed. rewrite Hseen, elem_of_list_to_set in Ed.
    pose proof (AddRow_spec L b rows k r Hb Hs Hk) as Hadd.
    pose proof (index_entries_keys L b rows Hb) as (_ & _ & Hlen).
    destruct (AddRow k r b) as [[[]|e|f] b']; [| |done].
    + destruct Hadd as (_ & Hnew & Hb' & Ho). rewrite cut_row_exact in Hb' by done.
      exists (b', {[k]} ∪ seen), (rows ++ [(k, r)]). split_and!; [done| |done| |].
      * split; [done|]. cbn [snd]. rewrite Hseen, fmap_app. set_solver.
      * rewrite list_to_map_app. done.
      * rewrite Zlen_app. unfold Zlen. simpl. lia.
    + exfalso. destruct Hadd as [_ [H|[H|H]]]; [done|done|lia].
Qed.

(** Adding rows one after the other: the first row of a key stays. *)
Lemma collect_rows L l s rows :
  sink_inv L s rows → 0 ≤ row_slot_size L → Forall (keepable L) l →
  (Zlen rows + Zlen l) * row_slot_size L ≤ u64_max →
  ∃ s' rows', sfor AddRowIfNew l s = (Ok tt, s') ∧ sink_inv L s' rows'
    ∧ builder_options s'.1 = builder_options s.1
    ∧ list_to_map (M := gmap Z EncodedRow) rows' = list_to_map rows ∪ list_to_map l
    ∧ Zlen rows' ≤ Zlen rows + Zlen l.
Proof.
  intros Hinv Hs Hl. revert s rows Hinv. induction Hl as [|kr l Hkr Hl IH]; intros s rows Hinv Hmem.
  - exists s, rows. split_and!; [done|done|done| |unfold Zlen; simpl; lia].
    by rewrite list_to_map_nil, map_union_empty.
  - rewrite Zlen_cons in *. pose proof (Zlen_nonneg l).
    destruct (AddRowIfNew_spec L s rows kr Hinv Hs Hkr ltac:(nia)) as
      (s1 & rows1 & Hadd & Hinv1 & Ho1 & Hm1 & Hn1).
    destruct (IH s1 rows1 Hinv1 ltac:(nia)) as (s2 & rows2 & Hfor & Hinv2 & Ho2 & Hm2 & Hn2).
    exists s2, rows2. split_and!; [|done|congruence| |lia].
    + cbn [sfor]. unfold sbind. by rewrite Hadd.
    + rewrite Hm2, Hm1, <-map_union_assoc. f_equal. destruct kr as [k r]. cbn [fst snd].
      by rewrite list_to_map_cons, insert_union_singleton_l.
Qed.

Lemma sfor_fmap {S E A B} (g : A → B) (f : B → stateful S E unit) l s :
  sfor f (g <$> l) s = sfor (λ x, f (g x)) l s.
Proof.
  revert s. induction l as [|x l IH]; intros s; [done|]. rewrite fmap_cons. cbn [sfor].
  unfold sbind. destruct (f (g x) s) as [[]]; [apply IH|done..].
Qed.

(** The rows of a listing, as a map. *)
Lemma list_to_map_listing (l : list (Z * EncodedRow)) (M : gmap Z EncodedRow) :
  NoDup l.*1 → (∀ k r, (k, r) ∈ l ↔ M !! k = Some r) → list_to_map l = M ∧ Zlen l = Z.of_nat (size M).
Proof.
  intros Hnd Hin.
  assert (list_to_map l = M) as <-.
  { apply map_eq. intros k. apply option_eq. intros r. rewrite <-Hin. symmetry.
    by apply elem_of_list_to_map. }
  split; [done|]. unfold Zlen. f_equal.
  rewrite <-length_map_to_list. apply Permutation_length.
  by rewrite map_to_list_to_map.
Qed.

(** ** The rows of the layers *)

Lemma snapshot_rows B L M :
  backing_ok B L M →
  ∃ rows l, EnumerateSnapshotRows B = Ok rows
    ∧ (∀ s, sfor AddSnapshotRow rows s = sfor AddRowIfNew l s)
    ∧ list_to_map l = M ∧ Zlen l = Z.of_nat (size M) ∧ Forall (keepable L) l.
Proof.
  intros Hok. destruct (Enumerate_spec B L M Hok) as (rows & Hrows & Hnd & Hin).
  set (g := λ r : SnapshotRow, (snapshot_primary_key r, encoded r)).
  assert (∀ k r, (k, r) ∈ g <$> rows ↔ M !! k = Some r) as Hmem.
  { intros k r. rewrite <-Hin, list_elem_of_fmap. split.
    - by intros ([k' r'] & [= -> ->] & H).
    - intros H. by exists (MkSnapshotRow k r). }
  destruct (list_to_map_listing (g <$> rows) M) as [Hmap Hlen]; [by rewrite <-list_fmap_compose|done|].
  exists rows, (g <$> rows). split_and!; [done| |done|done|].
  - intros s. by rewrite sfor_fmap.
  - apply Forall_forall. intros [k r] H%Hmem. apply (bo_rows B L M Hok k r H).
Qed.

Lemma visible_row_ok L t k pos e :
  table_ok L t → visible_rows t !! k = Some (pos, e) →
  keepable L (k, e) ∧ MaterializeRow (Some L) e = Ok (MkRow (Some L) (Some e)).
Proof.
  intros [_ _ _ _ Hr _] Hv. rewrite visible_rows_lookup in Hv.
  destruct (newest (rows_ t) !! k) as [r|] eqn:Hn; [|done]. cbn in Hv.
  destruct (newest_Some _ _ _ Hn) as (Hk & _ & i & Hi & _). rewrite Forall_forall in Hr.
  destruct (Hr r) as (_ & Hu & e' & He & Hok & Hex & Hm); [by eapply list_elem_of_lookup_2|].
  rewrite He in Hv. injection Hv as <- <-. rewrite <-Hk. by split.
Qed.

(** The keys and rows of a listing of realtime rows. *)
Definition listed_rows (l : list RealtimeVisibleRow) : list (Z * EncodedRow) :=
  omap (λ r, pair (visible_primary_key r) <$> visible_encoded r) l.

Lemma realtime_rows L t l :
  table_ok L t → lists_rows l (visible_rows t) →
  (∀ s, sfor AddRealtimeRow l s = sfor AddRowIfNew (listed_rows l) s)
  ∧ list_to_map (listed_rows l) = (snd <$> visible_rows t : gmap Z EncodedRow)
  ∧ Zlen (listed_rows l) = Z.of_nat (size (visible_rows t))
  ∧ Forall (keepable L) (listed_rows l).
Proof.
  intros Hok [Hsort Hin].
  assert (∀ r, r ∈ l → ∃ e, visible_encoded r = Some e) as Henc.
  { intros [k pos oe] Hr. destruct (proj1 (Hin k pos oe) Hr) as (e & -> & _). by exists e. }
  assert ((listed_rows l).*1 = visible_primary_key <$> l) as Hkeys.
  { unfold listed_rows. clear -Henc. induction l as [|r l IH]; [done|].
    destruct (Henc r ltac:(left)) as [e He]. cbn. rewrite He. cbn. f_equal. apply IH.
    intros r' Hr'. apply Henc. by right. }
  assert (NoDup (visible_primary_key <$> l)) as Hnd.
  { clear -Hsort. induction Hsort as [|r l Hl IH Hr]; [constructor|]. rewrite fmap_cons.
    constructor; [|done]. intros ([k pos e] & Hk & Hx)%list_elem_of_fmap.
    rewrite Forall_forall in Hr. specialize (Hr _ Hx). lia. }
  assert (∀ k e, (k, e) ∈ listed_rows l ↔ (snd <$> visible_rows t) !! k = Some e) as Hmem.
  { intros k e. unfold listed_rows. rewrite list_elem_of_omap, lookup_fmap. split.
    - intros ([k' pos oe] & Hr & He). cbn in He. destruct oe as [e'|]; [|done].
      injection He as -> ->. apply Hin in Hr as (e2 & [= <-] & Hr). by rewrite Hr.
    - intros H. destruct (visible_rows t !! k) as [[pos e']|] eqn:E; [|done].
      injection H as ->. exists (MkVisibleRow k pos (Some e)). split; [|done].
      apply Hin. by exists e. }
  destruct (list_to_map_listing (listed_rows l) (snd <$> visible_rows t)) as [Hmap Hlen];
    [by rewrite Hkeys|done|].
  split_and!; [|done|by rewrite map_size_fmap in Hlen|].
  - clear -Henc. induction l as [|r l IH]; intros s; [done|].
    destruct (Henc r ltac:(left)) as [e He]. cbn. unfold AddRealtimeRow at 1. rewrite He. cbn.
    unfold sbind. destruct (AddRowIfNew _ s) as [[] s']; [|done..]. apply IH.
    intros r' Hr'. apply Henc. by right.
  - apply Forall_forall. intros [k e] H%Hmem. rewrite lookup_fmap in H.
    destruct (visible_rows t !! k) as [[pos e']|] eqn:E; [|done]. injection H as ->.
    by apply (visible_row_ok L t k pos e).
Qed.

(** ** Sealing what was collected *)

Lemma seal_sink_spec L s rows :
  sink_inv L s rows → 0 < row_slot_size L → options_ok (builder_options s.1) →
  Zlen rows * row_slot_size L ≤ u64_max →
  match seal_sink (Ok tt, s) with
  | Ok b => backing_ok (owned_backing b) L (list_to_map rows)
  | Err _ => 2 ^ 58 < Zlen rows
  | Fault _ => False
  end.
Proof.
  intros [Hb _] Hs Ho Hmem. destruct s as [b seen]. cbn [seal_sink fst snd] in *.
  pose proof (index_entries_keys L b rows Hb) as (_ & _ & Hlen).
  pose proof (Seal_spec L b rows Hb Hs Ho) as Hseal. rewrite Hlen in Hseal.
  pose proof (Zlen_nonneg rows).
  specialize (Hseal ltac:(unfold is_u64, u64_max in *; nia)).
  destruct (Seal b) as [[backing|e|f] b']; cbn [fst]; tauto.
Qed.

(** A shard whose first layer is [rt]. *)
Definition over (rt : option RealtimeDeltaAtomicTable) (below : StatusOr (option Row)) (k : Z)
    : StatusOr (option Row) :=
  let* row := layer_get rt k in
  match row with Some _ => Ok row | None => below end.

(** The rows of a compact layer. *)
Definition compact_rows (L : CompiledRowLayout) (c : option OwnedSnapshotBacking)
    (M : gmap Z EncodedRow) : Prop :=
  match c with
  | Some b => backing_ok (owned_backing b) L M
  | None => M = ∅
  end.

Abbreviation compact_of c := ((λ b, make_compact (Some b)) <$> c).

Lemma compact_get L c M k :
  compact_rows L c M → layer_get (compact_of c) k = map_get L M k.
Proof.
  destruct c as [b|]; cbn; [|intros ->; unfold map_get; by rewrite lookup_empty].
  intros Hb. exact (view_Get_spec (owned_backing b) L M k Hb).
Qed.

(** Reading the rows of a realtime table out of a snapshot. *)
Lemma map_get_visible L t M k :
  table_ok L t →
  map_get L ((snd <$> visible_rows t) ∪ M) k
  = over (Some t) (map_get L M k) k.
Proof.
  intros Hok. unfold over. change (layer_get (Some t) k) with (RealtimeDelta_Get t k).
  rewrite (Get_spec L t k Hok). cbn [obind].
  unfold map_get at 1. rewrite lookup_union, lookup_fmap.
  destruct (visible_rows t !! k) as [[pos e]|] eqn:E; cbn [fmap option_fmap option_map snd obind].
  - rewrite union_Some_l. destruct (visible_row_ok L t k pos e Hok E) as [_ ->]. done.
  - by rewrite (left_id None (∪)).
Qed.

Lemma collect_compact L c M s rows (o : SnapshotBuildOptions) :
  compact_rows L c M → sink_inv L s rows → 0 ≤ row_slot_size L → builder_options s.1 = o →
  (Zlen rows + Z.of_nat (size M)) * row_slot_size L ≤ u64_max →
  ∃ s' rows', match c with
              | None => sret tt
              | Some b =>
                  do* rows := slift (EnumerateSnapshotRows (owned_backing b)) in
                  sfor AddSnapshotRow rows
              end s = (Ok tt, s')
    ∧ sink_inv L s' rows' ∧ builder_options s'.1 = o
    ∧ list_to_map (M := gmap Z EncodedRow) rows' = list_to_map rows ∪ M
    ∧ Zlen rows' ≤ Zlen rows + Z.of_nat (size M).
Proof.
  intros Hc Hinv Hs Ho Hmem. destruct c as [b|]; cbn [compact_rows] in Hc.
  - destruct (snapshot_rows _ L M Hc) as (rs & l & He & Hfor & <- & Hlen & Hkeep).
    rewrite <-Hlen in *. unfold sbind, slift. rewrite He, Hfor. rewrite <-Ho.
    by apply collect_rows.
  - subst M. exists s, rows. split_and!; [done|done|done|by rewrite map_union_empty|].
    rewrite map_size_empty. lia.
Qed.

Section Compaction.
Context (ver : Z) (schema : RuntimeSchema) (L : CompiledRowLayout).
Context (Hschema : reachable_schema ver schema) (HL : Compile schema = Ok L).
Context (cap seed version : Z) (Hcap : 0 ≤ cap ≤ u64_max) (Hsize : 0 < row_slot_size L).
Context (o : SnapshotBuildOptions) (Ho : options_ok o).

(** Compaction builds a snapshot of the rows visible at the boundary over
    those of the compact layer. *)
Lemma build_compacted t0 t c Mc full id gen :
  table_ok L t0 → table_ok L t → rows_ t0 `prefix_of` rows_ t → compact_rows L c Mc →
  Z.of_nat (size (visible_rows t0) + size Mc) * row_slot_size L ≤ u64_max →
  match BuildCompactedDeltaSnapshot
          (MkShardState id gen (MkLayers (Some t) (compact_of c) full))
          (CaptureCompactionBoundary t0) o kRealtimeDelta with
  | Ok b => backing_ok (owned_backing b) L ((snd <$> visible_rows t0) ∪ Mc)
  | Err _ => 2 ^ 58 < Z.of_nat (size (visible_rows t0) + size Mc)
  | Fault _ => False
  end.
Proof.
  intros Hok0 Hok [rest Hpre] Hc Hmem.
  assert (∃ l, ScanVisibleRows t (CaptureCompactionBoundary t0) = Ok l
    ∧ lists_rows l (visible_rows t0)) as (l & Hl & Hlist).
  { destruct (Scan_spec L t (length (rows_ t0)) Hok) as (l & Hl & Hlist).
    { rewrite Hpre, length_app. lia. }
    exists l. split; [exact Hl|]. by rewrite Hpre, take_app_length in Hlist. }
  destruct (realtime_rows L t0 l Hok0 Hlist) as (Hfor & Hmap & Hlen & Hkeep).
  unfold BuildCompactedDeltaSnapshot, ResolveLayout.
  change (negb (ForwardIndexModeUsesCompactDelta kRealtimeDelta)) with false.
  cbn [layers realtime_delta compact_delta mbind option_bind].
  rewrite (to_layout L t Hok). cbn [obind]. rewrite Hl. cbn [obind].
  destruct (collect_rows L (listed_rows l) (make_builder (Some L) o, ∅) [] (sink_start L o)
    ltac:(lia) Hkeep ltac:(rewrite Hlen; unfold Zlen; simpl; nia))
    as (s1 & rows1 & Hs1 & Hinv1 & Ho1 & Hm1 & Hn1).
  assert (Zlen rows1 ≤ Z.of_nat (size (visible_rows t0))) as Hn1'.
  { unfold Zlen in *. simpl in *. lia. }
  destruct (collect_compact L c Mc s1 rows1 o Hc Hinv1 ltac:(lia) ltac:(by rewrite Ho1) ltac:(nia))
    as (s2 & rows2 & Hs2 & Hinv2 & Ho2 & Hm2 & Hn2).
  unfold sbind at 1. rewrite Hfor, Hs1.
  assert (match compact_of c with
    | None => sret tt
    | Some compact =>
        match compact_backing compact with
        | None => slift (FailedPrecondition "compact delta has no backing")
        | Some b => do* rows := slift (EnumerateSnapshotRows (owned_backing b)) in
                    sfor AddSnapshotRow rows
        end
    end s1 = (Ok tt, s2)) as -> by (destruct c; exact Hs2).
  pose proof (seal_sink_spec L s2 rows2 Hinv2 Hsize ltac:(by rewrite Ho2) ltac:(nia)) as Hseal.
  destruct (seal_sink (Ok tt, s2)) as [b|e|f]; [|lia|done].
  by rewrite Hm2, Hm1, Hmap, list_to_map_nil, (left_id ∅ (∪)) in Hseal.
Qed.

(** *** C22: Delta compaction does not change what a shard answers.

    A shard has a realtime table (in any reachable state), a compact layer
    that may be absent, and any full layer.  A boundary was captured in an
    earlier state [t0] of the table.  Building the compacted snapshot
    succeeds, short of [2^58] rows, and the successor shard that
    [FinishDeltaCompaction] makes from it answers every key from its own
    realtime table first and otherwise exactly as the shard did at the
    boundary: with an empty successor table the reads are those of that
    moment. *)
Theorem compaction_preserves_reads (t0 t : RealtimeDeltaAtomicTable)
    (c : option OwnedSnapshotBacking) (Mc : gmap Z EncodedRow) (full : option FullSnapshotView)
    (id gen : Z) (Ht0 : realtime_reachable L cap seed version t0) (Ht : rtc table_step t0 t)
    (Hc : compact_rows L c Mc)
    (Hmem : Z.of_nat (size (visible_rows t0) + size Mc) * row_slot_size L ≤ u64_max) :
  let shard table := MkShardState id gen (MkLayers table (compact_of c) full) in
  match BuildCompactedDeltaSnapshot (shard (Some t)) (CaptureCompactionBoundary t0) o
          kRealtimeDelta with
  | Ok b => ∀ gen' rt',
      ∃ s', FinishDeltaCompaction (shard (Some t)) gen' rt' (Some b) kRealtimeDelta = Ok s'
        ∧ ∀ k, ShardState_Get s' k = over rt' (ShardState_Get (shard (Some t0)) k) k
  | Err _ => 2 ^ 58 < Z.of_nat (size (visible_rows t0) + size Mc)
  | Fault _ => False
  end.
Proof.
  intros shard.
  pose proof (reachable_table_ok ver schema L Hschema HL cap seed version Hcap t0 Ht0) as Hok0.
  destruct (table_steps_ok L t0 t (compiled_bits_ok _ _ _ Hschema HL) Ht Hok0) as [Hok Hpre].
  pose proof (build_compacted t0 t c Mc full id gen Hok0 Hok Hpre Hc Hmem) as Hb.
  destruct (BuildCompactedDeltaSnapshot _ _ _ _) as [b|e|f]; [|done..].
  intros gen' rt'. eexists. split; [reflexivity|]. intros k.
  unfold shard, ShardState_Get, Layers_Get. cbn [layers realtime_delta compact_delta full_snapshot].
  unfold over. destruct (layer_get rt' k) as [[row|]|e|f]; [done| |done..]. cbn [obind].
  change (layer_get (Some (make_compact (Some b))) k)
    with (layer_get (compact_of (Some b)) k).
  rewrite (compact_get L (Some b) _ k Hb), (compact_get L c Mc k Hc).
  rewrite (map_get_visible L t0 Mc k Hok0). unfold over.
  destruct (layer_get (Some t0) k) as [[row|]|e|f]; done.
Qed.

(** Rebasing builds a snapshot of the compact rows over the full rows. *)
Lemma build_rebased c Mc fb Mf rt id gen :
  compact_rows L c Mc → backing_ok fb L Mf →
  Z.of_nat (size Mc + size Mf) * row_slot_size L ≤ u64_max →
  match BuildRebasedFullSnapshot
          (MkShardState id gen (MkLayers rt (compact_of c) (Some (make_full (Some fb)))))
          false o kRealtimeDelta with
  | Ok b => backing_ok (owned_backing b) L (Mc ∪ Mf)
  | Err _ => 2 ^ 58 < Z.of_nat (size Mc + size Mf)
      ∨ ∃ b, c = Some b ∧ CheckSameLayout (owned_backing b) fb ≠ Ok tt
  | Fault _ => False
  end.
Proof.
  intros Hc Hf Hmem. unfold BuildRebasedFullSnapshot.
  change (negb (ForwardIndexModeUsesCompactDelta kRealtimeDelta)) with false.
  cbn [layers compact_delta full_snapshot mbind option_bind full_backing make_full].
  set (check := match compact_of c with Some _ => _ | None => _ end).
  assert (check = match c with
    | None => Ok None
    | Some b => let* _ := CheckSameLayout (owned_backing b) fb in Ok (Some b)
    end) as -> by (unfold check; by destruct c).
  assert (∀ b, c = Some b → no_fault (CheckSameLayout (owned_backing b) fb)) as Hnf.
  { intros b ->. destruct Hc as [HLb (v & es & Hv & _) _], Hf as [HLf (v2 & es2 & Hv2 & _) _].
    unfold CheckSameLayout. rewrite HLb, HLf, Hv, Hv2. cbn [obind]. by repeat case_match. }
  assert (match c with
    | None => Ok None
    | Some b => let* _ := CheckSameLayout (owned_backing b) fb in Ok (Some b)
    end = Ok c ∨ ∃ b e, c = Some b ∧ CheckSameLayout (owned_backing b) fb = Err e) as Hcheck.
  { destruct c as [b|]; [|by left]. specialize (Hnf b eq_refl).
    destruct (CheckSameLayout (owned_backing b) fb) as [[]|e|] eqn:E; [by left| |done].
    right. by exists b, e. }
  destruct Hcheck as [-> | (b & e & -> & E)]; [|rewrite E; right; exists b; split; [done|by rewrite E]].
  cbn [obind]. rewrite (bo_layout _ _ _ Hf).
  destruct (collect_compact L c Mc (make_builder (Some L) o, ∅) [] o Hc (sink_start L o)
    ltac:(lia) eq_refl ltac:(unfold Zlen; simpl; nia))
    as (s1 & rows1 & Hs1 & Hinv1 & Ho1 & Hm1 & Hn1).
  destruct (snapshot_rows fb L Mf Hf) as (rs & l & He & Hfor & Hml & Hlen & Hkeep).
  assert (Zlen rows1 ≤ Z.of_nat (size Mc)) as Hn1' by (unfold Zlen in *; simpl in *; lia).
  destruct (collect_rows L l s1 rows1 Hinv1 ltac:(lia) Hkeep ltac:(nia))
    as (s2 & rows2 & Hs2 & Hinv2 & Ho2 & Hm2 & Hn2).
  unfold sbind at 1. rewrite Hs1. unfold sbind, slift. rewrite He, Hfor, Hs2.
  pose proof (seal_sink_spec L s2 rows2 Hinv2 Hsize ltac:(by rewrite Ho2, Ho1) ltac:(nia)) as Hseal.
  destruct (seal_sink (Ok tt, s2)) as [b|e|f]; [|left; lia|done].
  by rewrite Hm2, Hm1, Hml, list_to_map_nil, (left_id ∅ (∪)) in Hseal.
Qed.

(** A finished rebase requires that no realtime row is visible. *)
Lemma EnsureEmpty_spec t id gen ls :
  table_ok L t → realtime_delta ls = Some t →
  if bool_decide (visible_rows t = ∅)
  then EnsurePreviousRealtimeIsEmpty (MkShardState id gen ls) = Ok tt
  else ∃ e, EnsurePreviousRealtimeIsEmpty (MkShardState id gen ls) = Err e
       ∧ status_code e = kFailedPrecondition.
Proof.
  intros Hok Hrt. unfold EnsurePreviousRealtimeIsEmpty. cbn [layers]. rewrite Hrt.
  destruct (Scan_spec L t (length (rows_ t)) Hok ltac:(lia)) as (l & Hl & Hlist).
  change (MkBoundary (Z.of_nat (length (rows_ t)))) with (CaptureCompactionBoundary t) in Hl.
  rewrite take_ge in Hlist by lia. destruct Hlist as [_ Hin]. rewrite Hl. cbn [obind].
  destruct l as [|[k pos oe] l].
  - rewrite bool_decide_eq_true_2; [done|]. apply map_eq. intros k. rewrite lookup_empty.
    destruct (visible_rows t !! k) as [[pos e]|] eqn:E; [|done].
    destruct (elem_of_nil (MkVisibleRow k pos (Some e))) as [Hn _]. destruct Hn.
    apply Hin. by exists e.
  - rewrite bool_decide_eq_false_2; [by eexists|]. intros Hz.
    destruct (proj1 (Hin k pos oe) ltac:(left)) as (e & _ & He).
    change (visible_of (rows_ t)) with (visible_rows t) in He. by rewrite Hz in He.
Qed.

(** *** C26: A full rebase does not change what a shard answers.

    For a shard whose compact layer (if any) and full layer share a layout,
    the rebased full snapshot can be built unless the hash settings of the
    two indexes differ or there are more than [2^58] rows.  The successor that
    [FinishFullRebase] makes answers every key from its own realtime table
    first and otherwise as the previous shard did; it is refused exactly when
    the previous realtime table still shows a row. *)
Theorem rebase_preserves_reads (t : RealtimeDeltaAtomicTable) (c : option OwnedSnapshotBacking)
    (Mc Mf : gmap Z EncodedRow) (fb : SnapshotBacking) (id gen : Z)
    (Ht : realtime_reachable L cap seed version t)
    (Hc : compact_rows L c Mc) (Hf : backing_ok fb L Mf)
    (Hmem : Z.of_nat (size Mc + size Mf) * row_slot_size L ≤ u64_max) :
  let shard := MkShardState id gen
    (MkLayers (Some t) (compact_of c) (Some (make_full (Some fb)))) in
  match BuildRebasedFullSnapshot shard false o kRealtimeDelta with
  | Ok b => ∀ gen' rt',
      match FinishFullRebase shard gen' rt' (Some b) kRealtimeDelta with
      | Ok s' => visible_rows t = ∅
          ∧ ∀ k, ShardState_Get s' k = over rt' (ShardState_Get shard k) k
      | Err e => visible_rows t ≠ ∅ ∧ status_code e = kFailedPrecondition
      | Fault _ => False
      end
  | Err _ => 2 ^ 58 < Z.of_nat (size Mc + size Mf)
      ∨ ∃ b, c = Some b ∧ CheckSameLayout (owned_backing b) fb ≠ Ok tt
  | Fault _ => False
  end.
Proof.
  intros shard.
  pose proof (reachable_table_ok ver schema L Hschema HL cap seed version Hcap t Ht) as Hok.
  pose proof (build_rebased c Mc fb Mf (Some t) id gen Hc Hf Hmem) as Hb. fold shard in Hb.
  destruct (BuildRebasedFullSnapshot _ _ _ _) as [b|e|f]; [|done..].
  intros gen' rt'. unfold FinishFullRebase.
  change (negb (ForwardIndexModeUsesCompactDelta kRealtimeDelta)) with false. cbn iota.
  pose proof (EnsureEmpty_spec t id gen (layers shard) Hok eq_refl) as He.
  change (MkShardState id gen (layers shard)) with shard in He.
  destruct (bool_decide (visible_rows t = ∅)) eqn:Ev.
  - apply bool_decide_eq_true in Ev. rewrite He. cbn [obind]. split; [done|]. intros k.
    unfold shard, ShardState_Get, Layers_Get.
    cbn [layers realtime_delta compact_delta full_snapshot].
    unfold over. destruct (layer_get rt' k) as [[row|]|e|f]; [done| |done..]. cbn [obind].
    change (layer_get (@None CompactDeltaSnapshot) k) with (@Ok Status (option Row) None).
    change (layer_get (Some t) k) with (RealtimeDelta_Get t k).
    rewrite (Get_spec L t k Hok), Ev, lookup_empty. cbn [fmap option_fmap option_map obind].
    rewrite (compact_get L c Mc k Hc).
    change (layer_get (Some (make_full (Some fb))) k)
      with (ImmutableRowSnapshotView_Get (make_view (Some fb)) k).
    change (layer_get (Some (make_full (Some (owned_backing b)))) k)
      with (ImmutableRowSnapshotView_Get (make_view (Some (owned_backing b))) k).
    rewrite (view_Get_spec _ _ _ k Hb), (view_Get_spec _ _ _ k Hf). unfold map_get.
    rewrite lookup_union. destruct (Mc !! k) as [r|]; [|by rewrite (left_id None (∪))].
    rewrite union_Some_l. by destruct (MaterializeRow (Some L) r).
  - apply bool_decide_eq_false in Ev. destruct He as (e & -> & He). done.
Qed.
End Compaction.
