(* ===== verification/RealtimeConcurrent.v ===== *)
(** * Interleaved executions of the realtime hash map

    [src/store/realtime_delta.cc]: any number of threads publish and read one
    [RealtimeAtomicHashMap].  A thread is a program counter ([pc]) and a step
    is one access to a slot: an atomic load, store or compare-exchange, or the
    plain access to the slot's key.  Steps of different threads interleave in
    any order.  The memory is sequentially consistent; the plain accesses are
    shown to be free of races, so that the acquire and release orders of the
    source give the same executions. *)

From S2P Require Import Prelude Status ByteIo Hash Types Schema RowStorage ProbeTable.
From S2P Require Import RealtimeDelta RealtimeProofs.

(** Where a thread is in [PublishAndReport(k, p)] or [Get(k)].  [i] is the
    probe number and [s] a slot.  [before] in [Get] is a ghost: the row a read
    without interference would have returned when the call started. *)
Inductive pc : Type :=
| PubProbe (k : Z) (p i : nat)       (** about to load [slot.state] *)
| PubReadKey (k : Z) (p i : nat)     (** occupied: about to read [slot.primary_key] *)
| PubCas (k : Z) (p i : nat)         (** empty: about to exchange it for reserved *)
| PubKey (k : Z) (p i : nat)         (** reserved by this thread: write the key *)
| PubRow (k : Z) (p i : nat)         (** store the row *)
| PubOcc (k : Z) (p i : nat)         (** store the state *)
| PubCount (k : Z) (p i : nat)       (** count the key *)
| ExLoad (k : Z) (p s : nat)         (** [PublishExisting]: load the row *)
| ExCas (k : Z) (p s cur : nat)      (** newer: exchange it *)
| PubDone (k : Z) (p : nat) (r : StatusOr bool)
| GetProbe (k : Z) (before : option nat) (i : nat)
| GetReadKey (k : Z) (before : option nat) (i : nat)
| GetRow (k : Z) (before : option nat) (i : nat)
| GetDone (k : Z) (before : option nat) (r : StatusOr (option nat)).

Definition put (s : nat) (sl : Slot) (m : RealtimeAtomicHashMap) : RealtimeAtomicHashMap :=
  set_slot (Z.of_nat s) sl m.

(** One access of a publishing thread; [spurious] makes a weak
    compare-exchange fail. *)
Definition publish_step (heap : list RealtimeRowRef) (spurious : bool)
    (m : RealtimeAtomicHashMap) (c : pc) : option (RealtimeAtomicHashMap * pc) :=
  let cap := Z.to_nat (capacity_ m) in
  match c with
  | PubProbe k p i =>
      if decide (i < cap)%nat then
        sl ← slots_ m !! probe_of m k i;
        Some (m, match slot_state sl with
                 | kReserved => PubDone k p (Unavailable "realtime hash map slot is reserved")
                 | kOccupied => PubReadKey k p i
                 | kEmpty => PubCas k p i
                 end)
      else Some (m, PubDone k p (FailedPrecondition "realtime hash map capacity exhausted"))
  | PubReadKey k p i =>
      sl ← slots_ m !! probe_of m k i;
      Some (m, if slot_primary_key sl =? k then ExLoad k p (probe_of m k i)
               else PubProbe k p (S i))
  | PubCas k p i =>
      sl ← slots_ m !! probe_of m k i;
      Some (match slot_state sl with
            | kEmpty => (put (probe_of m k i)
                           (MkSlot kReserved (slot_primary_key sl) (latest_row sl)) m,
                         PubKey k p i)
            | _ => (m, PubProbe k p i)
            end)
  | PubKey k p i =>
      sl ← slots_ m !! probe_of m k i;
      Some (put (probe_of m k i) (MkSlot (slot_state sl) k (latest_row sl)) m, PubRow k p i)
  | PubRow k p i =>
      sl ← slots_ m !! probe_of m k i;
      Some (put (probe_of m k i) (MkSlot (slot_state sl) (slot_primary_key sl) (Some p)) m,
            PubOcc k p i)
  | PubOcc k p i =>
      sl ← slots_ m !! probe_of m k i;
      Some (put (probe_of m k i) (MkSlot kOccupied (slot_primary_key sl) (latest_row sl)) m,
            PubCount k p i)
  | PubCount k p i => Some (add_unique_key m, PubDone k p (Ok true))
  | ExLoad k p s =>
      sl ← slots_ m !! s;
      Some (m, match latest_row sl with
               | None => PubDone k p (Internal "occupied realtime slot has no visible row")
               | Some cur =>
                   match classify_rows heap cur p with
                   | Ok kNewer => ExCas k p s cur
                   | Ok _ => PubDone k p (Ok false)
                   | Err e => PubDone k p (Err e)
                   | Fault f => PubDone k p (Fault f)
                   end
               end)
  | ExCas k p s cur =>
      sl ← slots_ m !! s;
      Some (if spurious || negb (bool_decide (latest_row sl = Some cur)) then (m, ExLoad k p s)
            else (put s (MkSlot (slot_state sl) (slot_primary_key sl) (Some p)) m,
                  PubDone k p (Ok true)))
  | _ => None
  end.

(** One access of a reading thread. *)
Definition get_step (m : RealtimeAtomicHashMap) (c : pc) : option pc :=
  let cap := Z.to_nat (capacity_ m) in
  match c with
  | GetProbe k before i =>
      if decide (i < cap)%nat then
        sl ← slots_ m !! probe_of m k i;
        Some (match slot_state sl with
              | kReserved | kEmpty => GetDone k before (Ok None)
              | kOccupied => GetReadKey k before i
              end)
      else Some (GetDone k before (Ok None))
  | GetReadKey k before i =>
      sl ← slots_ m !! probe_of m k i;
      Some (if negb (slot_primary_key sl =? k) then GetProbe k before (S i)
            else GetRow k before i)
  | GetRow k before i =>
      sl ← slots_ m !! probe_of m k i;
      Some (GetDone k before
        (match latest_row sl with
         | None => Internal "occupied realtime slot has no visible row"
         | Some row => Ok (Some row)
         end))
  | _ => None
  end.

Record system : Type := MkSystem { shared : RealtimeAtomicHashMap; threads : list pc }.

(** A thread moves, or a new call starts in a new thread.  The checks of
    [PublishAndReport] before its loop are the premises of [sys_publish]. *)
Inductive sys_step (heap : list RealtimeRowRef) : system → system → Prop :=
| sys_move_publish m ts i c spurious m' c' :
    ts !! i = Some c → publish_step heap spurious m c = Some (m', c') →
    sys_step heap (MkSystem m ts) (MkSystem m' (<[i := c']> ts))
| sys_move_get m ts i c c' :
    ts !! i = Some c → get_step m c = Some c' →
    sys_step heap (MkSystem m ts) (MkSystem m (<[i := c']> ts))
| sys_publish m ts k p r :
    heap !! p = Some r → ref_primary_key r = k → IsValidSourcePosition (ref_position r) = true →
    sys_step heap (MkSystem m ts) (MkSystem m (ts ++ [PubProbe k p 0]))
| sys_get m ts k :
    sys_step heap (MkSystem m ts) (MkSystem m (ts ++ [GetProbe k (current m k) 0])).

Definition sys_start (cap seed version : Z) : system :=
  MkSystem (make_hash_map cap seed version) [].
