(* ===== verification/ConcurrentProofs.v ===== *)
(** * Safety of the interleaved realtime hash map

    An invariant over the slots and the program counters of all threads, kept
    by every step of every thread, and what it says about finished calls. *)

From S2P Require Import Prelude Status ByteIo Hash Types Schema RowStorage ProbeTable.
From S2P Require Import RealtimeDelta RealtimeProofs RealtimeConcurrent.

(** The map with its count brought up to date: between storing a key and
    counting it the two differ. *)
Definition recount (m : RealtimeAtomicHashMap) : RealtimeAtomicHashMap :=
  MkHashMap (slots_ m) (capacity_ m) (hash_seed_ m) (hash_version_ m)
    (Z.of_nat (length (entries (key_table m)))).

Section Concurrent.
Context (heap : list RealtimeRowRef).

Implicit Types (m : RealtimeAtomicHashMap) (k : Z) (p q i s : nat).

Abbreviation shape m := (map_inv heap (recount m)).
Abbreviation other m k i := (occupied_by_other (probe_of m) (key_table m) k i).
Abbreviation size_of m := (Z.to_nat (capacity_ m)).

(** Row [q'] supersedes [q], or is it. *)
Definition row_le q q' : Prop :=
  ∃ r r', heap !! q = Some r ∧ heap !! q' = Some r'
    ∧ ref_primary_key r = ref_primary_key r'
    ∧ partition (ref_position r) = partition (ref_position r')
    ∧ offset (ref_position r) ≤ offset (ref_position r').

Lemma row_le_trans q1 q2 q3 : row_le q1 q2 → row_le q2 q3 → row_le q1 q3.
Proof.
  intros (r1 & r2 & H1 & H2 & K1 & P1 & O1) (r2' & r3 & H2' & H3 & K2 & P2 & O2).
  assert (r2' = r2) as -> by congruence. exists r1, r3.
  split_and!; [done|done|congruence|congruence|lia].
Qed.

Lemma row_le_refl q r : heap !! q = Some r → row_le q q.
Proof. intros H. exists r, r. split_and!; done || lia. Qed.

(** A valid row reference for a key. *)
Definition row_for k p : Prop :=
  ∃ r, heap !! p = Some r ∧ ref_primary_key r = k ∧ IsValidSourcePosition (ref_position r) = true.

(** Every key keeps its slot and its row only advances. *)
Record map_le m m' : Prop := {
  ml_capacity : capacity_ m' = capacity_ m;
  ml_seed : hash_seed_ m' = hash_seed_ m;
  ml_version : hash_version_ m' = hash_version_ m;
  ml_rows : ∀ s k q, key_table m !! s = Some (Some (k, q)) →
    ∃ q', key_table m' !! s = Some (Some (k, q')) ∧ row_le q q';
}.

(** The key has a row at least as new as [q]. *)
Definition at_least m k q : Prop := ∃ q', holds (key_table m) k q' ∧ row_le q q'.

Definition prefix_full m k i : Prop := ∀ l, (l < i)%nat → other m k l.

Definition reserved_slot m s sl : Prop :=
  slots_ m !! s = Some sl ∧ slot_state sl = kReserved.

Definition started_at m k (before : option nat) : Prop :=
  match before with Some q => at_least m k q | None => True end.

(** What a thread knows at each program counter. *)
Definition pc_ok m (c : pc) : Prop :=
  match c with
  | PubProbe k p i => row_for k p ∧ prefix_full m k i
  | PubReadKey k p i => row_for k p ∧ prefix_full m k i ∧ (i < size_of m)%nat
      ∧ ∃ e, key_table m !! probe_of m k i = Some (Some e)
  | PubCas k p i => row_for k p ∧ prefix_full m k i ∧ (i < size_of m)%nat
  | PubKey k p i => row_for k p ∧ prefix_full m k i ∧ (i < size_of m)%nat
      ∧ ∃ sl, reserved_slot m (probe_of m k i) sl
  | PubRow k p i => row_for k p ∧ prefix_full m k i ∧ (i < size_of m)%nat
      ∧ ∃ sl, reserved_slot m (probe_of m k i) sl ∧ slot_primary_key sl = k
  | PubOcc k p i => row_for k p ∧ prefix_full m k i ∧ (i < size_of m)%nat
      ∧ ∃ sl, reserved_slot m (probe_of m k i) sl ∧ slot_primary_key sl = k
          ∧ latest_row sl = Some p
  | PubCount k p i => at_least m k p
  | ExLoad k p s => row_for k p ∧ ∃ q, key_table m !! s = Some (Some (k, q))
  | ExCas k p s cur => row_for k p ∧ row_le cur p ∧ ∃ q, key_table m !! s = Some (Some (k, q))
  | PubDone k p r =>
      match r with
      | Ok _ => at_least m k p
      | Err e => status_code e ≠ kInternal
      | Fault _ => False
      end
  | GetProbe k before i => prefix_full m k i ∧ started_at m k before
  | GetReadKey k before i => prefix_full m k i ∧ started_at m k before
      ∧ ∃ e, key_table m !! probe_of m k i = Some (Some e)
  | GetRow k before i => started_at m k before
      ∧ ∃ q, key_table m !! probe_of m k i = Some (Some (k, q))
  | GetDone k before r =>
      match r with
      | Ok (Some q) => row_for k q ∧ at_least m k q
          ∧ match before with Some q0 => row_le q0 q | None => True end
      | Ok None => before = None
      | _ => False
      end
  end.

(** The slot a thread has reserved. *)
Definition owned m (c : pc) : option nat :=
  match c with
  | PubKey k _ i | PubRow k _ i | PubOcc k _ i => Some (probe_of m k i)
  | _ => None
  end.

(** ** Stability under the steps of other threads *)

Lemma probe_of_le m m' k i : map_le m m' → probe_of m' k i = probe_of m k i.
Proof. intros [Hc Hs Hv _]. unfold probe_of, ProbeIndex. by rewrite Hc, Hs, Hv. Qed.

Lemma other_le m m' k i : map_le m m' → other m k i → other m' k i.
Proof.
  intros Hle (k' & v & He & Hne).
  destruct (ml_rows _ _ Hle _ _ _ He) as (q & Hq & _).
  exists k', q. by rewrite (probe_of_le _ _ _ _ Hle).
Qed.

Lemma prefix_le m m' k i : map_le m m' → prefix_full m k i → prefix_full m' k i.
Proof. intros Hle H l Hl. eapply other_le; [done|by apply H]. Qed.

Lemma at_least_le m m' k q : map_le m m' → at_least m k q → at_least m' k q.
Proof.
  intros Hle (q' & [s Hs] & Hq). destruct (ml_rows _ _ Hle _ _ _ Hs) as (q2 & Hq2 & Hle2).
  exists q2. split; [by exists s|by eapply row_le_trans].
Qed.

Lemma started_le m m' k before : map_le m m' → started_at m k before → started_at m' k before.
Proof. destruct before; [apply at_least_le|done]. Qed.

Lemma map_le_trans m1 m2 m3 : map_le m1 m2 → map_le m2 m3 → map_le m1 m3.
Proof.
  intros [C1 S1 V1 R1] [C2 S2 V2 R2]. split; [congruence..|]. intros s k q H.
  apply R1 in H as (q1 & H1 & L1). apply R2 in H1 as (q2 & H2 & L2).
  exists q2. split; [done|by eapply row_le_trans].
Qed.

Lemma pc_ok_le m m' c :
  map_le m m' → (∀ s, owned m c = Some s → slots_ m' !! s = slots_ m !! s) →
  pc_ok m c → pc_ok m' c.
Proof.
  intros Hle Hown. pose proof (ml_capacity _ _ Hle) as Hcap.
  assert (∀ s k q, key_table m !! s = Some (Some (k, q)) →
    ∃ q', key_table m' !! s = Some (Some (k, q'))) as Hrow.
  { intros s k q H. destruct (ml_rows _ _ Hle _ _ _ H) as (q' & H' & _). by exists q'. }
  destruct c; cbn [pc_ok owned] in *; rewrite ?Hcap, ?(probe_of_le _ _ _ _ Hle);
    unfold reserved_slot; rewrite ?Hown by done.
  - intros [? ?]; eauto using prefix_le.
  - intros (? & ? & ? & [k' q] & He). apply Hrow in He as [q' He]. eauto 6 using prefix_le.
  - intros (? & ? & ?); eauto using prefix_le.
  - intros (? & ? & ? & ?); eauto using prefix_le.
  - intros (? & ? & ? & ?); eauto using prefix_le.
  - intros (? & ? & ? & ?); eauto using prefix_le.
  - by apply at_least_le.
  - intros (? & q & He). apply Hrow in He as [q' He]. eauto.
  - intros (? & ? & q & He). apply Hrow in He as [q' He]. eauto.
  - destruct r; [by apply at_least_le|done..].
  - intros [? ?]; eauto using prefix_le, started_le.
  - intros (? & ? & [k' q] & He). apply Hrow in He as [q' He]. eauto 6 using prefix_le, started_le.
  - intros (? & q & He). apply Hrow in He as [q' He]. eauto using started_le.
  - destruct r as [[q|]|e|f]; [|done..]. intros (? & ? & ?). eauto using at_least_le.
Qed.

(** ** One step of the slots *)

Lemma stored_row m s k q :
  shape m → key_table m !! s = Some (Some (k, q)) → row_for k q.
Proof.
  intros Hm Hs. apply (current_row heap (recount m) k q Hm).
  apply (current_holds heap (recount m)); [done|]. by exists s.
Qed.

Lemma map_le_refl m : shape m → map_le m m.
Proof.
  intros Hm. split; [done..|]. intros s k q H. exists q. split; [done|].
  destruct (stored_row m s k q Hm H) as (r & Hr & _). by eapply row_le_refl.
Qed.

Lemma slots_put s sl m : slots_ (put s sl m) = <[s := sl]> (slots_ m).
Proof. unfold put, set_slot. cbn [slots_]. by rewrite Nat2Z.id. Qed.

Lemma key_table_put s sl m : key_table (put s sl m) = <[s := key_entry sl]> (key_table m).
Proof. unfold key_table. by rewrite slots_put, list_fmap_insert. Qed.

Lemma lookup_key_table m s sl : slots_ m !! s = Some sl → key_table m !! s = Some (key_entry sl).
Proof. intros H. unfold key_table. by rewrite list_lookup_fmap, H. Qed.

Lemma occupied_entry m s sl :
  shape m → slots_ m !! s = Some sl → slot_state sl = kOccupied →
  ∃ q, latest_row sl = Some q ∧ key_entry sl = Some (slot_primary_key sl, q).
Proof.
  intros Hm Hs Hst. pose proof (Forall_lookup_1 _ _ _ _ (mi_slots _ _ Hm) Hs) as Hok.
  destruct (Hok Hst) as (q & r & Hq & _). exists q. split; [done|].
  unfold key_entry. by rewrite Hst, Hq.
Qed.

Lemma entry_occupied sl e :
  key_entry sl = Some e →
  slot_state sl = kOccupied ∧ slot_primary_key sl = e.1 ∧ latest_row sl = Some e.2.
Proof.
  unfold key_entry. destruct (slot_state sl); [done|done|].
  destruct (latest_row sl) as [q|]; [|done]. by intros [= <-].
Qed.

(** Only the slots, the capacity and the probe sequence matter. *)
Lemma shape_of m1 m2 :
  shape m1 → slots_ m2 = slots_ m1 → capacity_ m2 = capacity_ m1 →
  hash_seed_ m2 = hash_seed_ m1 → hash_version_ m2 = hash_version_ m1 → shape m2.
Proof. destruct m1, m2. cbn. intros H -> -> -> ->. exact H. Qed.

(** A store to a slot no reader can use yet. *)
Lemma put_hidden m s old sl :
  shape m → slots_ m !! s = Some old → slot_state old ≠ kOccupied → slot_state sl ≠ kOccupied →
  key_table (put s sl m) = key_table m ∧ shape (put s sl m).
Proof.
  intros Hm Hs Ho Hn.
  assert (key_table (put s sl m) = key_table m) as Ht.
  { rewrite key_table_put. apply list_insert_id. rewrite (lookup_key_table _ _ _ Hs).
    unfold key_entry. by destruct (slot_state old), (slot_state sl). }
  split; [done|]. destruct Hm as [Hc Hl Hsl Htab Hcnt]. split; [done| | | |done].
  - change (slots_ (recount (put s sl m))) with (slots_ (put s sl m)).
    rewrite slots_put, length_insert. exact Hl.
  - change (slots_ (recount (put s sl m))) with (slots_ (put s sl m)).
    rewrite slots_put. apply Forall_insert; [done|]. intros H. done.
  - change (key_table (recount (put s sl m))) with (key_table (put s sl m)). rewrite Ht. exact Htab.
Qed.

Lemma map_le_same m m' :
  shape m → capacity_ m' = capacity_ m → hash_seed_ m' = hash_seed_ m →
  hash_version_ m' = hash_version_ m → key_table m' = key_table m → map_le m m'.
Proof.
  intros Hm Hc Hs Hv Ht. split; [done..|]. rewrite Ht. apply (map_le_refl m Hm).
Qed.

(** [PublishExisting] replaces the row of its key. *)
Lemma put_newer m s k q p :
  shape m → key_table m !! s = Some (Some (k, q)) → row_for k p → row_le q p →
  let m' := put s (MkSlot kOccupied k (Some p)) m in
  shape m' ∧ map_le m m' ∧ key_table m' !! s = Some (Some (k, p)).
Proof.
  intros Hm Hs (r & Hp & Hk & Hv) Hle m'. pose proof (lookup_lt_Some _ _ _ Hs) as Hlt.
  assert (key_table m' = <[s := Some (k, p)]> (key_table m)) as Ht by apply key_table_put.
  assert (0 < capacity_ (recount m)) as Hpos.
  { unfold key_table in Hlt. rewrite length_fmap in Hlt. pose proof (mi_length _ _ Hm) as Hl.
    destruct Hm as [Hc _ _ _ _]. cbn in *. lia. }
  split_and!.
  - pose proof (store_found_inv heap (recount m) s k q p r Hm Hpos Hs Hp Hk Hv) as Hm'.
    split; apply Hm' || done.
  - split; [done..|]. rewrite Ht. intros s1 k1 q1 H1. destruct (decide (s1 = s)) as [->|Hne].
    + assert (k1 = k ∧ q1 = q) as [-> ->] by (split; congruence).
      exists p. by rewrite list_lookup_insert_eq.
    + rewrite list_lookup_insert_ne by done. by apply (map_le_refl m Hm).
  - by rewrite Ht, list_lookup_insert_eq.
Qed.

(** The first slot that is not occupied gets the key. *)
Lemma put_new m k i p sl :
  shape m → prefix_full m k i → (i < size_of m)%nat → slots_ m !! probe_of m k i = Some sl →
  slot_state sl ≠ kOccupied → row_for k p →
  let m' := put (probe_of m k i) (MkSlot kOccupied k (Some p)) m in
  shape m' ∧ map_le m m' ∧ key_table m' !! probe_of m k i = Some (Some (k, p))
  ∧ length (entries (key_table m')) = S (length (entries (key_table m))).
Proof.
  intros Hm Hpre Hi Hs Hst (r & Hp & Hk & Hv) m'.
  pose proof (lookup_lt_Some _ _ _ Hs) as Hlt.
  assert (key_table m !! probe_of m k i = Some None) as Hnone.
  { rewrite (lookup_key_table _ _ _ Hs). unfold key_entry. by destruct (slot_state sl). }
  assert (key_table m' = <[probe_of m k i := Some (k, p)]> (key_table m)) as Ht by apply key_table_put.
  assert (0 < capacity_ (recount m)) as Hpos by (cbn; lia).
  assert (scan (probe_of m) (key_table m) k (size_of m) 0 = Vacant (probe_of m k i)) as Hscan.
  { apply scan_to_vacant; [lia|intros l [_ Hl]; by apply Hpre|]. intros e. by rewrite Hnone. }
  split_and!.
  - pose proof (store_vacant_inv heap (recount m) _ k p r Hm Hpos Hscan Hp Hk Hv) as Hm'.
    split; apply Hm' || done.
  - split; [done..|]. rewrite Ht. intros s1 k1 q1 H1.
    rewrite list_lookup_insert_ne by congruence. by apply (map_le_refl m Hm).
  - rewrite Ht, list_lookup_insert_eq; [done|]. unfold key_table. by rewrite length_fmap.
  - rewrite Ht. by rewrite (entries_insert _ _ (k, p) Hnone).
Qed.

(** ** One step of a thread *)

Definition counting (c : pc) : nat := match c with PubCount _ _ _ => 1 | _ => 0 end.

(** What a step of thread [c] guarantees, to itself and to the others. *)
Record step_post m c m' c' : Prop := {
  sp_shape : shape m';
  sp_le : map_le m m';
  sp_pc : pc_ok m' c';
  sp_frame : ∀ s sl, reserved_slot m s sl → owned m c ≠ Some s → slots_ m' !! s = Some sl;
  sp_owned : ∀ s, owned m' c' = Some s → owned m c = Some s ∨ ∀ sl, ¬ reserved_slot m s sl;
  sp_entries : (length (entries (key_table m')) = length (entries (key_table m)) + counting c')%nat;
  sp_count : unique_key_count_ m'
    = (if decide (counting c = 1%nat) then wrap64 (unique_key_count_ m + 1)
       else unique_key_count_ m);
}.

(** A step that only reads. *)
Lemma read_step m c c' :
  shape m → pc_ok m c' → owned m c' = None → counting c' = 0%nat → counting c = 0%nat →
  step_post m c m c'.
Proof.
  intros Hm Hpc Ho Hc' Hc. split; try done.
  - by apply map_le_refl.
  - by intros s sl [Hs _] _.
  - rewrite Ho. done.
  - rewrite Hc'. lia.
  - by rewrite Hc.
Qed.

(** A store to the slot a thread has reserved, which stays reserved. *)
Lemma owner_step m s old sl c c' :
  shape m → reserved_slot m s old → slot_state sl = kReserved → owned m c = Some s →
  owned (put s sl m) c' = Some s → counting c = 0%nat → counting c' = 0%nat →
  pc_ok (put s sl m) c' → step_post m c (put s sl m) c'.
Proof.
  intros Hm [Hs Hst] Hsl Ho Ho' Hc Hc' Hpc.
  destruct (put_hidden m s old sl Hm Hs) as [Ht Hm']; [congruence..|].
  split; try done.
  - by apply map_le_same.
  - intros s1 sl1 [H1 _] Hne. rewrite slots_put, list_lookup_insert_ne; [done|congruence].
  - intros s1 H1. left. congruence.
  - rewrite Ht, Hc'. lia.
  - by rewrite Hc.
Qed.

Lemma entry_at_probe m k i sl :
  shape m → slots_ m !! probe_of m k i = Some sl → slot_state sl = kOccupied →
  ∃ q, key_table m !! probe_of m k i = Some (Some (slot_primary_key sl, q)).
Proof.
  intros Hm Hs Hst. destruct (occupied_entry m _ sl Hm Hs Hst) as (q & _ & He).
  exists q. by rewrite (lookup_key_table _ _ _ Hs), He.
Qed.

Lemma PubProbe_ok m k p i m' c' sp :
  shape m → pc_ok m (PubProbe k p i) → publish_step heap sp m (PubProbe k p i) = Some (m', c') →
  step_post m (PubProbe k p i) m' c'.
Proof.
  intros Hm [Hp Hpre]. cbn [publish_step]. case_decide as Hi.
  - destruct (slots_ m !! probe_of m k i) as [sl|] eqn:Hs; [|done]. intros [= <- <-].
    destruct (slot_state sl) eqn:Hst; apply read_step; try done; cbn [pc_ok].
    + destruct (entry_at_probe m k i sl Hm Hs Hst) as [q Hq]. split_and!; try done. by eexists.
  - intros [= <- <-]. by apply read_step.
Qed.

Lemma PubReadKey_ok m k p i m' c' sp :
  shape m → pc_ok m (PubReadKey k p i) →
  publish_step heap sp m (PubReadKey k p i) = Some (m', c') →
  step_post m (PubReadKey k p i) m' c'.
Proof.
  intros Hm (Hp & Hpre & Hi & [k' q] & He). cbn [publish_step].
  destruct (slots_ m !! probe_of m k i) as [sl|] eqn:Hs; [|done]. intros [= <- <-].
  rewrite (lookup_key_table _ _ _ Hs) in He. injection He as He.
  destruct (entry_occupied sl _ He) as (Hst & Hk & _). cbn [fst] in Hk.
  destruct (Z.eqb_spec (slot_primary_key sl) k) as [E|Hne]; apply read_step; try done; cbn [pc_ok].
  - split; [done|]. exists q. rewrite (lookup_key_table _ _ _ Hs), He. by rewrite <-E, Hk.
  - split; [done|]. intros l Hl. destruct (decide (l = i)) as [->|]; [|apply Hpre; lia].
    exists k', q. rewrite (lookup_key_table _ _ _ Hs), He. split; [done|congruence].
Qed.

Lemma PubCas_ok m k p i m' c' sp :
  shape m → pc_ok m (PubCas k p i) → publish_step heap sp m (PubCas k p i) = Some (m', c') →
  step_post m (PubCas k p i) m' c'.
Proof.
  intros Hm (Hp & Hpre & Hi). cbn [publish_step].
  destruct (slots_ m !! probe_of m k i) as [sl|] eqn:Hs; [|done]. intros [= Heq].
  destruct (slot_state sl) eqn:Hst; injection Heq as <- <-; [|by apply read_step..].
  set (sl' := MkSlot _ _ _). set (s := probe_of m k i) in *.
  destruct (put_hidden m s sl sl' Hm Hs) as [Ht Hm']; [congruence|done|].
  assert (map_le m (put s sl' m)) as Hle by (by apply map_le_same).
  split; try done.
  - cbn [pc_ok]. split_and!; [done|by eapply prefix_le|done|]. exists sl'.
    split; [|done]. change (probe_of (put s sl' m) k i) with s.
    rewrite slots_put. apply list_lookup_insert_eq. by eapply lookup_lt_Some.
  - intros s1 sl1 [H1 Hr1] _. rewrite slots_put, list_lookup_insert_ne; [done|]. intros <-. congruence.
  - intros s1 [= <-]. right. intros sl1 [H1 Hr1]. change (probe_of _ k i) with s in H1. congruence.
  - rewrite Ht. cbn [counting]. lia.
Qed.

Lemma PubKey_ok m k p i m' c' sp :
  shape m → pc_ok m (PubKey k p i) → publish_step heap sp m (PubKey k p i) = Some (m', c') →
  step_post m (PubKey k p i) m' c'.
Proof.
  intros Hm (Hp & Hpre & Hi & sl & [Hs Hst]). cbn [publish_step]. rewrite Hs. intros [= <- <-].
  set (sl' := MkSlot _ _ _). set (s := probe_of m k i) in *.
  apply (owner_step m s sl); try done. cbn [pc_ok].
  destruct (put_hidden m s sl sl' Hm Hs) as [Ht Hm']; [by rewrite Hst|by cbn; rewrite Hst|].
  split_and!; [done| |done|].
  - eapply prefix_le; [|exact Hpre]. by apply map_le_same.
  - exists sl'. split; [|done]. split; [|done]. change (probe_of _ k i) with s.
    rewrite slots_put. apply list_lookup_insert_eq. by eapply lookup_lt_Some.
Qed.

Lemma PubRow_ok m k p i m' c' sp :
  shape m → pc_ok m (PubRow k p i) → publish_step heap sp m (PubRow k p i) = Some (m', c') →
  step_post m (PubRow k p i) m' c'.
Proof.
  intros Hm (Hp & Hpre & Hi & sl & [Hs Hst] & Hk). cbn [publish_step]. rewrite Hs. intros [= <- <-].
  set (sl' := MkSlot _ _ _). set (s := probe_of m k i) in *.
  apply (owner_step m s sl); try done. cbn [pc_ok].
  destruct (put_hidden m s sl sl' Hm Hs) as [Ht Hm']; [by rewrite Hst|by cbn; rewrite Hst|].
  split_and!; [done| |done|].
  - eapply prefix_le; [|exact Hpre]. by apply map_le_same.
  - exists sl'. split_and!; [|done|done]. split; [|done]. change (probe_of _ k i) with s.
    rewrite slots_put. apply list_lookup_insert_eq. by eapply lookup_lt_Some.
Qed.

Lemma PubOcc_ok m k p i m' c' sp :
  shape m → pc_ok m (PubOcc k p i) → publish_step heap sp m (PubOcc k p i) = Some (m', c') →
  step_post m (PubOcc k p i) m' c'.
Proof.
  intros Hm (Hp & Hpre & Hi & sl & [Hs Hst] & Hk & Hr). cbn [publish_step]. rewrite Hs.
  cbn [mbind option_bind]. rewrite Hk, Hr. intros [= <- <-].
  destruct (put_new m k i p sl Hm Hpre Hi Hs) as (Hm' & Hle & He & Hlen); [congruence|done|].
  split; try done.
  - cbn [pc_ok]. exists p. split; [by eexists|]. destruct Hp as (r & Hr' & _). by eapply row_le_refl.
  - intros s1 sl1 [H1 _] Hne. cbn [owned] in Hne. rewrite slots_put, list_lookup_insert_ne; [done|congruence].
  - rewrite Hlen. cbn [counting]. lia.
Qed.

Lemma PubCount_ok m k p i m' c' sp :
  shape m → pc_ok m (PubCount k p i) → publish_step heap sp m (PubCount k p i) = Some (m', c') →
  step_post m (PubCount k p i) m' c'.
Proof.
  intros Hm Hp. cbn [publish_step]. intros [= <- <-].
  assert (map_le m (add_unique_key m)) as Hle by (by apply map_le_same).
  split; try done.
  - by intros s sl [H _] _.
Qed.

Lemma deref_row k p : row_for k p → ∃ r, heap !! p = Some r ∧ ref_primary_key r = k
  ∧ IsValidSourcePosition (ref_position r) = true.
Proof. done. Qed.

(** The decision of [PublishExisting] on two rows of one key. *)
Lemma classify_rows_spec k q p :
  row_for k q → row_for k p →
  match classify_rows heap q p with
  | Ok kNewer => row_le q p
  | Ok _ => row_le p q
  | Err e => status_code e ≠ kInternal
  | Fault _ => False
  end.
Proof.
  intros (r & Hr & Hrk & Hrv) (r' & Hr' & Hrk' & Hrv').
  rewrite (classify_rows_eq heap q p r r' Hr Hr').
  unfold ClassifySourcePositionUpdate. rewrite Hrv, Hrv'. cbn [negb orb].
  destruct (Z.eqb_spec (partition (ref_position r)) (partition (ref_position r'))); [|done].
  cbn [negb]. destruct (Z.ltb_spec (offset (ref_position r')) (offset (ref_position r))).
  - exists r', r. split_and!; try done; [congruence|lia].
  - destruct (Z.eqb_spec (offset (ref_position r')) (offset (ref_position r))).
    + exists r', r. split_and!; solve [done | congruence | lia].
    + exists r, r'. split_and!; solve [done | congruence | lia].
Qed.

Lemma ExLoad_ok m k p s m' c' sp :
  shape m → pc_ok m (ExLoad k p s) → publish_step heap sp m (ExLoad k p s) = Some (m', c') →
  step_post m (ExLoad k p s) m' c'.
Proof.
  intros Hm (Hp & q & He). cbn [publish_step].
  destruct (slots_ m !! s) as [sl|] eqn:Hs; [|done]. intros [= <- <-].
  pose proof He as He'. rewrite (lookup_key_table _ _ _ Hs) in He'. injection He' as He'.
  destruct (entry_occupied sl _ He') as (_ & _ & Hr). cbn [snd] in Hr. rewrite Hr.
  pose proof (stored_row m s k q Hm He) as Hq.
  pose proof (classify_rows_spec k q p Hq Hp) as Hcl.
  assert (at_least m k q) as Hal.
  { exists q. split; [by exists s|]. destruct Hq as (r & Hr' & _). by eapply row_le_refl. }
  destruct (classify_rows heap q p) as [[]|e|f]; apply read_step; try done; cbn [pc_ok].
  - exists q. split; [by exists s|done].
  - exists q. split; [by exists s|done].
  - split_and!; [done..|by exists q].
Qed.

Lemma ExCas_ok m k p s cur m' c' sp :
  shape m → pc_ok m (ExCas k p s cur) →
  publish_step heap sp m (ExCas k p s cur) = Some (m', c') →
  step_post m (ExCas k p s cur) m' c'.
Proof.
  intros Hm (Hp & Hle & q & He). cbn [publish_step].
  destruct (slots_ m !! s) as [sl|] eqn:Hs; [|done]. intros [= Heq].
  pose proof He as He'. rewrite (lookup_key_table _ _ _ Hs) in He'. injection He' as He'.
  destruct (entry_occupied sl _ He') as (Hst & Hk & Hr). cbn [fst snd] in *.
  destruct (sp || negb (bool_decide (latest_row sl = Some cur))) eqn:Eb; injection Heq as <- <-.
  { apply read_step; try done. split; [done|]. by exists q. }
  apply orb_false_iff in Eb as [_ Eb]. apply negb_false_iff, bool_decide_eq_true in Eb.
  assert (q = cur) as -> by congruence. rewrite Hst, Hk.
  destruct (put_newer m s k cur p Hm He Hp Hle) as (Hm' & Hle' & He2).
  split; try done.
  - cbn [pc_ok]. exists p. split; [by exists s|]. destruct Hp as (r & Hr' & _).
    by eapply row_le_refl.
  - intros s1 sl1 [H1 Hr1] _. rewrite slots_put, list_lookup_insert_ne; [done|].
    intros <-. congruence.
  - rewrite key_table_put. change (key_entry (MkSlot kOccupied k (Some p))) with (Some (k, p)).
    rewrite (entries_update _ _ _ _ He). cbn [counting]. lia.
Qed.

Lemma publish_step_ok m c m' c' sp :
  shape m → pc_ok m c → publish_step heap sp m c = Some (m', c') → step_post m c m' c'.
Proof.
  destruct c; try done; eauto using PubProbe_ok, PubReadKey_ok, PubCas_ok, PubKey_ok, PubRow_ok,
    PubOcc_ok, PubCount_ok, ExLoad_ok, ExCas_ok.
Qed.

(** ** Reading threads *)

(** A key that is stored is found before a probe of its sequence is free. *)
Lemma stored_not_free m k i q :
  shape m → at_least m k q → prefix_full m k i →
  (i < size_of m)%nat ∧ ∃ e, key_table m !! probe_of m k i = Some (Some e).
Proof.
  intros Hm (q' & [s Hs] & _) Hpre.
  destruct (inv_reachable _ _ _ (mi_table _ _ Hm) s k q' Hs) as (j & Hj & -> & Hpj).
  change (probe_of (recount m)) with (probe_of m) in *.
  change (key_table (recount m)) with (key_table m) in *.
  change (capacity_ (recount m)) with (capacity_ m) in *.
  destruct (lt_eq_lt_dec i j) as [[Hlt|Heq]|Hlt].
  - split; [lia|]. destruct (Hpj i Hlt) as (k' & v & He & _). by eexists.
  - subst j. split; [done|]. by eexists.
  - destruct (Hpre j Hlt) as (k' & v & He & Hne). congruence.
Qed.

Lemma get_step_ok m c c' :
  shape m → pc_ok m c → get_step m c = Some c' → step_post m c m c'.
Proof.
  intros Hm Hpc Hstep. assert (pc_ok m c' ∧ owned m c' = None ∧ counting c' = 0%nat
    ∧ counting c = 0%nat) as (H1 & H2 & H3 & H4); [|by apply read_step].
  destruct c as [| | | | | | | | | |k before i|k before i|k before i|]; try done; cbn [get_step] in Hstep.
  - destruct Hpc as [Hpre Hst].
    assert ((¬ (i < size_of m)%nat ∨ ∀ e, key_table m !! probe_of m k i ≠ Some (Some e)) →
      before = None) as Hnone.
    { intros H. destruct before as [q|]; [|done].
      destruct (stored_not_free m k i q Hm Hst Hpre) as [Hi [e He]].
      destruct H as [H|H]; [done|by destruct (H e)]. }
    case_decide as Hi; [|injection Hstep as <-; split_and!; try done; apply Hnone; by left].
    destruct (slots_ m !! probe_of m k i) as [sl|] eqn:Hs; [|done]. injection Hstep as <-.
    assert (slot_state sl ≠ kOccupied → before = None) as Hfree.
    { intros Hf. apply Hnone. right. intros e. rewrite (lookup_key_table _ _ _ Hs).
      unfold key_entry. by destruct (slot_state sl). }
    destruct (slot_state sl) eqn:Hsl; split_and!; try done; [by apply Hfree..|].
    destruct (entry_at_probe m k i sl Hm Hs Hsl) as [q Hq]. split_and!; [done..|by eexists].
  - destruct Hpc as (Hpre & Hst & [k' q] & He).
    destruct (slots_ m !! probe_of m k i) as [sl|] eqn:Hs; [|done]. injection Hstep as <-.
    pose proof He as He'. rewrite (lookup_key_table _ _ _ Hs) in He'. injection He' as He'.
    destruct (entry_occupied sl _ He') as (_ & Hk & _). cbn [fst] in Hk.
    destruct (Z.eqb_spec (slot_primary_key sl) k) as [E|Hne]; cbn [negb]; split_and!; try done.
    + split; [done|]. exists q. by rewrite He, <-E, Hk.
    + split; [|done]. intros l Hl. destruct (decide (l = i)) as [->|]; [|apply Hpre; lia].
      exists k', q. split; [done|congruence].
  - destruct Hpc as (Hst & q & He).
    destruct (slots_ m !! probe_of m k i) as [sl|] eqn:Hs; [|done]. injection Hstep as <-.
    pose proof He as He'. rewrite (lookup_key_table _ _ _ Hs) in He'. injection He' as He'.
    destruct (entry_occupied sl _ He') as (_ & _ & Hr). cbn [snd] in Hr. rewrite Hr.
    pose proof (stored_row m _ k q Hm He) as Hq. split_and!; try done. cbn [pc_ok].
    assert (holds (key_table m) k q) as Hh by (by eexists).
    split_and!; [done| |].
    + exists q. split; [done|]. destruct Hq as (r & Hr' & _). by eapply row_le_refl.
    + destruct before as [q0|]; [|done]. destruct Hst as (q' & Hq' & Hle).
      assert (q' = q) as -> by exact (holds_functional _ _ _ _ _ _ (mi_table _ _ Hm) Hq' Hh).
      done.
Qed.

(** ** The invariant of the system *)

Record sys_inv (st : system) : Prop := {
  si_shape : shape (shared st);
  si_pc : ∀ i c, threads st !! i = Some c → pc_ok (shared st) c;
  si_owner : ∀ i j c c' s, threads st !! i = Some c → threads st !! j = Some c' →
    owned (shared st) c = Some s → owned (shared st) c' = Some s → i = j;
  si_nonneg : 0 ≤ unique_key_count_ (shared st);
  si_count : unique_key_count_ (shared st) + Z.of_nat (sum_list_with counting (threads st))
    = Z.of_nat (length (entries (key_table (shared st))));
}.

Lemma owned_reserved m c s :
  pc_ok m c → owned m c = Some s → ∃ sl, reserved_slot m s sl.
Proof.
  destruct c; cbn [owned pc_ok]; try done; intros Hpc [= <-];
    destruct Hpc as (_ & _ & _ & sl & Hsl); exists sl; tauto.
Qed.

Lemma sum_insert {A} (f : A → nat) (l : list A) i x y :
  l !! i = Some x → (sum_list_with f (<[i := y]> l) + f x = sum_list_with f l + f y)%nat.
Proof.
  revert i. induction l as [|a l IH]; intros [|i] H; try done.
  - injection H as ->. cbn. lia.
  - specialize (IH i H).
    change (<[S i := y]> (a :: l)) with (a :: <[i := y]> l). cbn [sum_list_with]. lia.
Qed.

Lemma sum_lookup {A} (f : A → nat) (l : list A) i x :
  l !! i = Some x → (f x ≤ sum_list_with f l)%nat.
Proof.
  revert i. induction l as [|a l IH]; intros [|i] H; try done; cbn in *.
  - injection H as ->. lia.
  - specialize (IH i H). lia.
Qed.

Lemma entries_bound m : shape m → Z.of_nat (length (entries (key_table m))) ≤ u64_max.
Proof.
  intros Hm. pose proof (length_entries_lt heap (recount m) Hm).
  change (key_table (recount m)) with (key_table m) in *. destruct Hm as [Hc _ _ _ _]. lia.
Qed.

(** A step of one thread keeps the invariant of all. *)
Lemma move_inv m ts i c m' c' :
  ts !! i = Some c → step_post m c m' c' →
  sys_inv (MkSystem m ts) → sys_inv (MkSystem m' (<[i := c']> ts)).
Proof.
  intros Hi [Hm' Hle Hpc' Hframe Hown Hent Hcnt] [Hm Hpcs Howner Hpos Hcount].
  cbn [shared threads] in *.
  assert (∀ j d, ts !! j = Some d → j ≠ i →
    ∀ s, owned m d = Some s → slots_ m' !! s = slots_ m !! s) as Hkeep.
  { intros j d Hj Hne s Hs. destruct (owned_reserved m d s (Hpcs j d Hj) Hs) as (sl & Hsl & Hst).
    rewrite (Hframe s sl); [done|by split|]. intros Hc. apply Hne.
    by eapply (Howner j i d c s). }
  assert (∀ d, owned m' d = owned m d) as Hown'.
  { intros d. destruct d; cbn [owned]; by rewrite ?(probe_of_le _ _ _ _ Hle). }
  split; cbn [shared threads].
  - done.
  - intros j d Hj. apply list_lookup_insert_Some in Hj as [(<- & <- & _)|[Hne Hj]]; [done|].
    eapply pc_ok_le; [exact Hle| |by eapply Hpcs]. intros s Hs. by eapply Hkeep.
  - assert (∀ j d s, ts !! j = Some d → j ≠ i → owned m d = Some s → owned m' c' ≠ Some s) as Hx.
    { intros j d s Hj Hne Hs Hc'.
      destruct (owned_reserved m d s (Hpcs j d Hj) Hs) as (sl & Hsl).
      destruct (Hown s Hc') as [Hc|Hc]; [|by destruct (Hc sl)].
      apply Hne. by eapply (Howner j i d c s). }
    intros j1 j2 d1 d2 s H1 H2 O1 O2.
    apply list_lookup_insert_Some in H1 as [(<- & <- & _)|[Hn1 H1]];
    apply list_lookup_insert_Some in H2 as [(<- & <- & _)|[Hn2 H2]]; try done.
    + rewrite Hown' in O2. by destruct (Hx j2 d2 s H2 ltac:(done) O2).
    + rewrite Hown' in O1. by destruct (Hx j1 d1 s H1 ltac:(done) O1).
    + rewrite Hown' in O1, O2. by eapply Howner.
  - rewrite Hcnt. case_decide; [|done]. apply wrap64_range.
  - pose proof (sum_insert counting ts i c c' Hi) as Hsum.
    pose proof (sum_lookup counting ts i c Hi) as Hge.
    pose proof (entries_bound m Hm). rewrite Hcnt, Hent. case_decide as Hc.
    + rewrite wrap64_small by (unfold is_u64, u64_max in *; lia). lia.
    + destruct c; cbn [counting] in *; lia.
Qed.

(** Starting a call. *)
Lemma start_inv m ts c :
  pc_ok m c → owned m c = None → counting c = 0%nat →
  sys_inv (MkSystem m ts) → sys_inv (MkSystem m (ts ++ [c])).
Proof.
  intros Hpc Ho Hc [Hm Hpcs Howner Hpos Hcount]. cbn [shared threads] in *.
  assert (∀ j d, (ts ++ [c]) !! j = Some d → ts !! j = Some d ∨ d = c) as Hin.
  { intros j d [H|[_ H]]%lookup_app_Some; [by left|].
    apply list_lookup_singleton_Some in H as [_ ->]. by right. }
  split; cbn [shared threads]; [done| | |done|].
  - intros j d [H| ->]%Hin; [by eapply Hpcs|done].
  - intros j1 j2 d1 d2 s H1 H2 O1 O2.
    apply Hin in H1 as [H1| ->]; [|congruence]. apply Hin in H2 as [H2| ->]; [|congruence].
    by eapply Howner.
  - rewrite sum_list_with_app. cbn. rewrite Hc. lia.
Qed.

Lemma sys_step_inv st st' :
  sys_step heap st st' → sys_inv st → sys_inv st' ∧ map_le (shared st) (shared st').
Proof.
  intros [m ts i c sp m' c' Hi Hs|m ts i c c' Hi Hs|m ts k p r Hp Hk Hv|m ts k] Hinv;
    pose proof Hinv as [Hm Hpcs _ _ _]; cbn [shared threads] in *.
  - pose proof (publish_step_ok m c m' c' sp Hm (Hpcs i c Hi) Hs) as Hpost.
    split; [by eapply move_inv|apply Hpost].
  - pose proof (get_step_ok m c c' Hm (Hpcs i c Hi) Hs) as Hpost.
    split; [by eapply move_inv|apply Hpost].
  - split; [|by apply map_le_refl]. apply start_inv; try done. split; [by exists r|]. intros l Hl. lia.
  - split; [|by apply map_le_refl]. apply start_inv; try done. split; [intros l Hl; lia|].
    unfold started_at. destruct (current m k) as [q|] eqn:Hq; [|done].
    exists q. split; [by apply (current_holds heap (recount m) k q Hm)|].
    destruct (current_row heap (recount m) k q Hm Hq) as (r & Hr & _). by eapply row_le_refl.
Qed.

Lemma sys_steps_inv st st' :
  rtc (sys_step heap) st st' → sys_inv st → sys_inv st' ∧ map_le (shared st) (shared st').
Proof.
  induction 1 as [st|st st1 st2 Hs _ IH]; intros Hinv.
  - split; [done|]. apply map_le_refl, Hinv.
  - destruct (sys_step_inv st st1 Hs Hinv) as [Hinv1 Hle1].
    destruct (IH Hinv1) as [Hinv2 Hle2]. split; [done|]. by eapply map_le_trans.
Qed.

Lemma sys_start_inv cap seed version :
  0 ≤ cap ≤ u64_max → sys_inv (sys_start cap seed version).
Proof.
  intros Hc. pose proof (make_hash_map_inv heap cap seed version Hc) as Hm.
  split; cbn [shared threads sys_start].
  - destruct Hm as [H1 H2 H3 H4 H5]. by split.
  - intros i c H. by rewrite lookup_nil in H.
  - intros i j c c' s H. by rewrite lookup_nil in H.
  - done.
  - rewrite key_table_empty, entries_replicate_None. done.
Qed.
End Concurrent.
