(* ===== verification/ConcurrentTheorems.v ===== *)
(** * What finished calls of the interleaved hash map guarantee

    The theorems about every reachable state of a system of publishing and
    reading threads, and the sequential functions of [RealtimeDelta] as the
    executions of one thread alone. *)

From S2P Require Import Prelude Status ByteIo Hash Types Schema RowStorage ProbeTable.
From S2P Require Import RealtimeDelta RealtimeProofs RealtimeConcurrent ConcurrentProofs.

(** ** The sequential functions are executions *)

Section Sequential.
Context (heap : list RealtimeRowRef) (m : RealtimeAtomicHashMap).
Hypothesis Hinv : map_inv heap m.
Hypothesis Hpos : 0 < capacity_ m.

Abbreviation alone := (rtc (λ x y : RealtimeAtomicHashMap * pc,
  publish_step heap false x.1 x.2 = Some y)).

Lemma put_put s a b m1 : put s b (put s a m1) = put s b m1.
Proof.
  unfold put, set_slot. cbn [slots_ capacity_ hash_seed_ hash_version_ unique_key_count_].
  by rewrite list_insert_insert_eq.
Qed.

Lemma put_lookup s sl old m1 : slots_ m1 !! s = Some old → slots_ (put s sl m1) !! s = Some sl.
Proof. intros H. rewrite slots_put. apply list_lookup_insert_eq. by eapply lookup_lt_Some. Qed.

Lemma alone_insert k p i sl :
  slots_ m !! probe_of m k i = Some sl → slot_state sl = kEmpty →
  alone (m, PubCas k p i)
    (add_unique_key (put (probe_of m k i) (MkSlot kOccupied k (Some p)) m), PubDone k p (Ok true)).
Proof.
  intros Hs Hst. set (s := probe_of m k i) in *.
  assert (∀ a j, probe_of (put s a m) k j = probe_of m k j) as Hp by done.
  eapply rtc_l; [cbn [fst snd publish_step]; fold s; rewrite Hs; cbn [mbind option_bind];
    rewrite Hst; done|].
  eapply rtc_l; [cbn [fst snd publish_step]; rewrite Hp; fold s;
    rewrite (put_lookup s _ sl m Hs); cbn [mbind option_bind]; rewrite put_put; done|].
  eapply rtc_l; [cbn [fst snd publish_step]; rewrite Hp; fold s;
    rewrite (put_lookup s _ sl m Hs); cbn [mbind option_bind]; rewrite put_put; done|].
  eapply rtc_l; [cbn [fst snd publish_step]; rewrite Hp; fold s;
    rewrite (put_lookup s _ sl m Hs); cbn [mbind option_bind]; rewrite put_put; done|].
  apply rtc_once. done.
Qed.

Lemma alone_update k p s sl c m' :
  slots_ m !! s = Some sl → PublishExisting heap (Z.of_nat s) sl p m = (c, m') →
  alone (m, ExLoad k p s) (m', PubDone k p c).
Proof.
  intros Hs. unfold PublishExisting. destruct (latest_row sl) as [cur|] eqn:Hr.
  - change (let* c0 := deref heap cur in let* r := deref heap p in _) with (classify_rows heap cur p).
    destruct (classify_rows heap cur p) as [[]|e|f] eqn:Hcl; intros [= <- <-];
      (eapply rtc_l; [cbn [fst snd publish_step]; rewrite Hs; cbn [mbind option_bind];
        rewrite Hr, Hcl; done|]); try apply rtc_refl.
    apply rtc_once. cbn [fst snd publish_step]. rewrite Hs. cbn [mbind option_bind].
    rewrite Hr, bool_decide_eq_true_2 by done. done.
  - intros [= <- <-]. apply rtc_once. cbn [fst snd publish_step]. rewrite Hs.
    cbn [mbind option_bind]. by rewrite Hr.
Qed.

Lemma alone_loop k p n i c m' :
  (i + n = Z.to_nat (capacity_ m))%nat → publish_loop heap k p n (Z.of_nat i) m = (c, m') →
  alone (m, PubProbe k p i) (m', PubDone k p c).
Proof.
  revert i. induction n as [|n IH]; intros i Hi.
  - intros [= <- <-]. apply rtc_once. cbn [fst snd publish_step].
    by rewrite decide_False by lia.
  - cbn [publish_loop]. destruct (at_probe heap m Hinv Hpos k i) as (sl & -> & Hs & _ & _).
    assert (ProbeIndex m k (Z.of_nat i) = Z.of_nat (probe_of m k i)) as ->.
    { unfold probe_of.
      pose proof (ProbeIndex_range m k (Z.of_nat i) ltac:(destruct Hinv; lia)). lia. }
    intros Heq. eapply rtc_l.
    { cbn [fst snd publish_step]. rewrite decide_True by lia. rewrite Hs. done. }
    destruct (slot_state sl) eqn:Hst.
    + injection Heq as <- <-. by apply (alone_insert k p i sl).
    + injection Heq as <- <-. apply rtc_refl.
    + eapply rtc_l; [cbn [fst snd publish_step]; rewrite Hs; done|].
      destruct (slot_primary_key sl =? k); [by eapply alone_update|].
      apply IH; [lia|]. by replace (Z.of_nat (S i)) with (Z.of_nat i + 1) by lia.
Qed.

Lemma alone_get k b n i :
  (i + n = Z.to_nat (capacity_ m))%nat →
  rtc (λ c c', get_step m c = Some c') (GetProbe k b i) (GetDone k b (get_loop m k n (Z.of_nat i))).
Proof.
  revert i. induction n as [|n IH]; intros i Hi.
  - apply rtc_once. cbn [get_step]. by rewrite decide_False by lia.
  - cbn [get_loop]. destruct (at_probe heap m Hinv Hpos k i) as (sl & -> & Hs & _ & _).
    cbn [obind]. eapply rtc_l; [cbn [get_step]; rewrite decide_True by lia; rewrite Hs; done|].
    destruct (slot_state sl) eqn:Hst; [apply rtc_refl..|].
    eapply rtc_l; [cbn [get_step]; rewrite Hs; done|].
    destruct (negb _); [replace (Z.of_nat i + 1) with (Z.of_nat (S i)) by lia; apply IH; lia|].
    apply rtc_once. cbn [get_step]. rewrite Hs. cbn [mbind option_bind]. by destruct (latest_row sl).
Qed.
End Sequential.

(** The sequential operations are executions of one thread.

    Running a publishing thread alone, from the first probe to the end, ends
    with the result and the map of [PublishAndReport], and a reading thread
    alone ends with the result of [Get]: the theorems about the sequential
    functions speak of the executions of the atomic steps. *)
Theorem sequential_is_alone (heap : list RealtimeRowRef) (m : RealtimeAtomicHashMap) (k : Z)
    (p : nat) (r : RealtimeRowRef) (before : option nat)
    (Hinv : map_inv heap m) (Hpos : 0 < capacity_ m)
    (Hp : heap !! p = Some r) (Hk : ref_primary_key r = k)
    (Hv : IsValidSourcePosition (ref_position r) = true) :
  rtc (λ x y : RealtimeAtomicHashMap * pc, publish_step heap false x.1 x.2 = Some y)
    (m, PubProbe k p 0)
    ((PublishAndReport heap k (Some p) m).2,
     PubDone k p (PublishAndReport heap k (Some p) m).1)
  ∧ rtc (λ c c', get_step m c = Some c') (GetProbe k before 0) (GetDone k before (HashMap_Get m k)).
Proof.
  split.
  - unfold PublishAndReport.
    assert (deref heap p = Ok r) as -> by (unfold deref; apply at_Ok; rewrite Nat2Z.id; split; [lia|done]).
    rewrite Hk, Z.eqb_refl, Hv. cbn [negb]. rewrite (proj2 (Z.eqb_neq _ _)) by lia.
    destruct (publish_loop _ _ _ _ _ _) as [c m'] eqn:E.
    by apply (alone_loop heap m Hinv Hpos k p (Z.to_nat (capacity_ m)) 0 c m').
  - unfold HashMap_Get. rewrite (proj2 (Z.eqb_neq _ _)) by lia.
    by apply (alone_get heap m Hinv Hpos k before (Z.to_nat (capacity_ m)) 0).
Qed.

(** ** Every reachable state *)

Lemma HashMap_Get_recount m k : HashMap_Get (recount m) k = HashMap_Get m k.
Proof.
  unfold HashMap_Get. cbn [capacity_ recount]. destruct (capacity_ m =? 0); [done|].
  generalize (Z.to_nat (capacity_ m)) as n, 0 as i. intros n.
  induction n as [|n IH]; intros i; [done|]. cbn [get_loop].
  change (ProbeIndex (recount m) k i) with (ProbeIndex m k i).
  cbn [slots_ recount]. destruct (at_ (slots_ m) _) as [sl| |]; [|done..]. cbn [obind].
  by rewrite IH.
Qed.

Section Reachable.
Context (heap : list RealtimeRowRef) (cap seed version : Z) (Hcap : 0 ≤ cap ≤ u64_max).

Definition sys_reachable (st : system) : Prop :=
  rtc (sys_step heap) (sys_start cap seed version) st.

Lemma reachable_inv st : sys_reachable st → sys_inv heap st.
Proof. intros H. eapply sys_steps_inv; [exact H|by apply sys_start_inv]. Qed.

(** *** C23: A concurrent read returns a row current during the call.

    Whatever other threads publish meanwhile, a finished [Get] of [k] never
    reports an error.  If it returns a row, it is a row published for [k], at
    least as new as the row [k] had when the call started and superseded by
    nothing but the row [k] has now; it returns nothing only if [k] had no row
    when the call started. *)
Theorem concurrent_get_current (st : system) (t : nat) (k : Z) (before : option nat)
    (r : StatusOr (option nat)) (Hst : sys_reachable st)
    (Ht : threads st !! t = Some (GetDone k before r)) :
  match r with
  | Ok (Some q) => row_for heap k q ∧ at_least heap (shared st) k q
      ∧ ∀ q0, before = Some q0 → row_le heap q0 q
  | Ok None => before = None
  | Err _ | Fault _ => False
  end.
Proof.
  pose proof (si_pc _ _ (reachable_inv st Hst) t _ Ht) as Hpc. cbn [pc_ok] in Hpc.
  destruct r as [[q|]|e|f]; try done. destruct Hpc as (H1 & H2 & H3).
  split_and!; [done..|]. by intros q0 ->.
Qed.

(** *** C24: A finished publication stays visible.

    When a thread has finished publishing row [p] of key [k] without an
    error, then in this state and in every later one, whatever other threads
    do, a read of [k] without interference finds a row at least as new as
    [p].  Publishing never reports an internal error. *)
Theorem concurrent_publish_visible (st st' : system) (t : nat) (k : Z) (p : nat)
    (r : StatusOr bool) (Hst : sys_reachable st) (Hst' : rtc (sys_step heap) st st')
    (Ht : threads st !! t = Some (PubDone k p r)) :
  match r with
  | Ok _ => ∃ q, HashMap_Get (shared st') k = Ok (Some q) ∧ row_le heap p q
  | Err e => status_code e ≠ kInternal
  | Fault _ => False
  end.
Proof.
  pose proof (reachable_inv st Hst) as Hinv.
  pose proof (si_pc _ _ Hinv t _ Ht) as Hpc. cbn [pc_ok] in Hpc.
  destruct r as [b|e|f]; [|done..].
  destruct (sys_steps_inv heap st st' Hst' Hinv) as [Hinv' Hle].
  destruct (at_least_le heap _ _ k p Hle Hpc) as (q & Hq & Hpq). exists q. split; [|done].
  pose proof (HashMap_Get_current heap (recount (shared st')) k (si_shape _ _ Hinv')) as Hget.
  rewrite HashMap_Get_recount in Hget. rewrite Hget. f_equal.
  apply (current_holds heap (recount (shared st')) k q (si_shape _ _ Hinv')). exact Hq.
Qed.

(** One slot per key, and keys are counted once.

    In every reachable state two occupied slots hold different keys, however
    many threads published the same key at once, and every occupied slot
    points to a row of its key.  When no call is in progress, the counter of
    unique keys is the number of occupied slots. *)
Theorem concurrent_keys_unique (st : system) (Hst : sys_reachable st) :
  (∀ s1 s2 sl1 sl2, slots_ (shared st) !! s1 = Some sl1 → slots_ (shared st) !! s2 = Some sl2 →
     slot_state sl1 = kOccupied → slot_state sl2 = kOccupied →
     slot_primary_key sl1 = slot_primary_key sl2 → s1 = s2)
  ∧ Forall (slot_ok heap) (slots_ (shared st))
  ∧ (Forall (λ c, ∃ k p r, c = PubDone k p r ∨ ∃ b r', c = GetDone k b r') (threads st) →
     unique_key_count_ (shared st)
     = Z.of_nat (length (filter (λ sl, slot_state sl = kOccupied) (slots_ (shared st))))).
Proof.
  pose proof (reachable_inv st Hst) as [Hm Hpcs _ _ Hcnt].
  split_and!.
  - intros s1 s2 sl1 sl2 H1 H2 O1 O2 Hk.
    destruct (occupied_entry heap _ s1 sl1 Hm H1 O1) as (q1 & _ & E1).
    destruct (occupied_entry heap _ s2 sl2 Hm H2 O2) as (q2 & _ & E2).
    apply (inv_unique _ _ _ (mi_table _ _ Hm) s1 s2 (slot_primary_key sl1) q1 q2).
    + rewrite <-E1. by apply lookup_key_table.
    + rewrite Hk, <-E2. by apply lookup_key_table.
  - apply Hm.
  - intros Hdone. assert (sum_list_with counting (threads st) = 0%nat) as Hz.
    { clear -Hdone. induction Hdone as [|c ts (k & p & r & H) _ IH]; [done|].
      cbn. rewrite IH. destruct H as [->|(b & r' & ->)]; done. }
    rewrite Hz in Hcnt. rewrite Z.add_0_r in Hcnt. rewrite Hcnt. f_equal.
    pose proof (mi_slots _ _ Hm) as Hok. cbn [slots_ recount] in Hok. unfold key_table. clear -Hok.
    induction Hok as [|sl sls Hsl _ IH]; [done|]. rewrite fmap_cons, filter_cons.
    case_decide as Hd.
    + destruct (Hsl Hd) as (q & r & Hq & _). unfold key_entry at 1. rewrite Hd, Hq.
      cbn [fmap option_fmap option_map]. rewrite entries_cons_Some. cbn [length]. by rewrite IH.
    + assert (key_entry sl = None) as -> by (unfold key_entry; by destruct (slot_state sl)).
      by rewrite entries_cons_None.
Qed.

(** The slot whose key a thread is about to read or write, without
    synchronisation. *)
Definition plain_access (m : RealtimeAtomicHashMap) (c : pc) : option (nat * bool) :=
  match c with
  | PubKey k _ i => Some (probe_of m k i, true)
  | PubReadKey k _ i | GetReadKey k _ i => Some (probe_of m k i, false)
  | _ => None
  end.

(** The plain accesses to the keys do not race.

    In no reachable state two different threads are about to access the key
    of the same slot when one of the accesses is a write. *)
Theorem concurrent_keys_race_free (st : system) (t1 t2 : nat) (c1 c2 : pc) (s : nat) (w : bool)
    (Hst : sys_reachable st) (Hne : t1 ≠ t2)
    (H1 : threads st !! t1 = Some c1) (H2 : threads st !! t2 = Some c2)
    (Hwrite : plain_access (shared st) c1 = Some (s, true)) :
  plain_access (shared st) c2 ≠ Some (s, w).
Proof.
  pose proof (reachable_inv st Hst) as [Hm Hpcs Howner _ _]. intros Hacc.
  assert (owned (shared st) c1 = Some s) as Ho1 by (destruct c1; naive_solver).
  destruct (owned_reserved heap _ c1 s (Hpcs t1 c1 H1) Ho1) as (sl & Hsl & Hres).
  assert (∀ e, key_table (shared st) !! s ≠ Some (Some e)) as Hfree.
  { intros e He. rewrite (lookup_key_table _ _ _ Hsl) in He. injection He as He.
    apply entry_occupied in He as [He _]. congruence. }
  pose proof (Hpcs t2 c2 H2) as Hpc2.
  destruct c2; try done; injection Hacc as Hs Hw; cbn [pc_ok] in Hpc2.
  - destruct Hpc2 as (_ & _ & _ & e & He). rewrite Hs in He. by destruct (Hfree e).
  - apply Hne. apply (Howner t1 t2 c1 _ s H1 H2 Ho1). cbn [owned]. by rewrite Hs.
  - destruct Hpc2 as (_ & _ & e & He). rewrite Hs in He. by destruct (Hfree e).
Qed.
End Reachable.
