(* ===== verification/StoreSamples.v ===== *)
(** * Sample tables

    Concrete instances of the theorems on rows, snapshots, realtime tables,
    rebuilds and interleavings, on a layout with one field of each encoding. *)

From S2P Require Import Prelude Status ByteIo Hash Types ProbeTable FrozenIndex.
From S2P Require Import FrozenBuildProofs Schema SchemaProofs RowStorage RowSafety RowProofs.
From S2P Require Import RowListProofs RowAccess Snapshot SnapshotProofs RealtimeDelta.
From S2P Require Import RealtimeProofs RealtimeTable Shard Rebuild RebuildProofs.
From S2P Require Import RealtimeConcurrent ConcurrentProofs ConcurrentTheorems.

(** ** A sample table *)

Definition table_specs : list FieldSpec :=
  [sample_spec 1 false kInt32 kFixed DMonostate;
   sample_spec 2 false kString kArena DMonostate;
   sample_spec 3 true kInt8 kArena DMonostate;
   sample_spec 4 false kString kDictionary DMonostate;
   sample_spec 5 true kInt32 kListDictionary DMonostate;
   sample_spec 6 true kString kElementDictionary DMonostate;
   sample_spec 7 false kUInt64 kFixed (DScalar (SUInt64 9))].

Definition table_schema : RuntimeSchema := MkRuntimeSchema 3 table_specs [].

Lemma table_reachable : reachable_schema 3 table_schema.
Proof.
  apply (rtc_add_fields table_specs (MkRuntimeSchema 3 [] [])).
  repeat constructor; unfold is_u32; simpl; lia.
Qed.

Abbreviation table_layout := (compile_layout table_schema).

Definition no_field : FieldLayout :=
  MkFieldLayout 0 [] kInt8 false true kFixed DMonostate 0 0 0 false.
Definition table_field (id : Z) : FieldLayout := default no_field (FindField table_layout id).

Lemma table_field_in id :
  bool_decide (1 ≤ id ≤ 7) = true → table_field id ∈ fields table_layout.
Proof.
  intros H%bool_decide_eq_true. unfold table_field. rewrite FindField_key.
  destruct (find_key field_id id (fields table_layout)) as [f|] eqn:E.
  - by apply find_key_Some_1 in E as [? _].
  - apply find_key_None in E. rewrite compiled_ids in E
      by (eapply reachable_schema_ok, table_reachable).
    rewrite sort_fields_perm in E. destruct E. simpl.
    assert (id = 1 ∨ id = 2 ∨ id = 3 ∨ id = 4 ∨ id = 5 ∨ id = 6 ∨ id = 7) as Hid by lia.
    set_solver.
Qed.

(** A fresh row with some dictionaries. *)
Definition table_row : EncodedRow :=
  let r := CreateEncodedRow table_layout in
  MkEncodedRow (row_schema_version r) (row_layout_fingerprint r) (row_slot r) []
    [str "red"; str "green"] [words_bytes int32_t [5; -6]] [] [str "x"; str "y"; str "z"].

Lemma table_row_ok : row_ok table_layout table_row.
Proof.
  split; [done|done|].
  unfold table_row, Zlen. cbn [row_slot CreateEncodedRow]. rewrite length_replicate. lia.
Qed.

Lemma table_arena : is_u64 (Zlen (arena table_row)).
Proof. unfold is_u64, Zlen. simpl. lia. Qed.

Lemma scalar_field_roundtrip_witness :
  ∃ r', WriteScalarField (table_field 1) (SInt32 (-5)) (Some table_row) = (Ok tt, Some r')
    ∧ Row_Get (type (table_field 1)) (row_of table_layout r') (field_id (table_field 1)) None
      = Ok (Some (SInt32 (-5)))
    ∧ others_kept table_layout (table_field 1) table_row r'.
Proof.
  destruct (scalar_field_roundtrip 3 table_schema table_layout table_row (table_field 1)
    (SInt32 (-5)) table_reachable eq_refl table_row_ok) as (r' & H1 & _ & H2 & H3).
  - exact (table_field_in 1 eq_refl).
  - reflexivity.
  - reflexivity.
  - vm_compute; split; congruence.
  - exists r'. split; [exact H1|]. split; [exact H2|exact H3].
Defined.

Lemma arena_field_roundtrip_witness :
  (∃ r', WriteArenaStringField (table_field 2) (str "hello") (Some table_row) = (Ok tt, Some r')
    ∧ Row_Get kString (row_of table_layout r') (field_id (table_field 2)) None
      = Ok (Some (SString (str "hello"))))
  ∧ ∃ r', WriteArenaListField (table_field 3) (LInt8 [1; -2; 3]) (Some table_row)
      = (Ok tt, Some r')
    ∧ Row_GetList kInt8 (row_of table_layout r') (field_id (table_field 3)) None
      = Ok (LInt8 [1; -2; 3]).
Proof.
  split.
  - destruct (arena_field_roundtrip 3 table_schema table_layout table_row (table_field 2)
      table_reachable eq_refl table_row_ok (table_field_in 2 eq_refl)) as [H _];
      [reflexivity|apply table_arena|].
    destruct (H (str "hello")) as (r' & H1 & _ & H2 & _);
      [reflexivity|reflexivity|vm_compute; congruence|].
    exists r'. split; [exact H1|exact H2].
  - destruct (arena_field_roundtrip 3 table_schema table_layout table_row (table_field 3)
      table_reachable eq_refl table_row_ok (table_field_in 3 eq_refl)) as [_ H];
      [reflexivity|apply table_arena|].
    destruct (H (LInt8 [1; -2; 3])) as (r' & H1 & _ & H2 & _);
      [reflexivity|reflexivity| |vm_compute; congruence|].
    { repeat constructor; vm_compute; congruence. }
    exists r'. split; [exact H1|exact H2].
Defined.

Lemma arena_list_length_truncated_witness :
  let vs := replicate (Z.to_nat (2 ^ 32)) 0 in
  ∃ r', WriteArenaListField (table_field 3) (LInt8 vs) (Some table_row) = (Ok tt, Some r')
    ∧ Row_GetList kInt8 (row_of table_layout r') (field_id (table_field 3)) None = Ok (LInt8 []).
Proof.
  intros vs.
  apply (arena_list_length_truncated 3 table_schema table_layout table_row (table_field 3) vs
    table_reachable eq_refl table_row_ok (table_field_in 3 eq_refl)).
  - reflexivity.
  - apply table_arena.
  - reflexivity.
  - reflexivity.
  - unfold vs. apply Forall_replicate. vm_compute. split; congruence.
  - unfold vs, Zlen. rewrite length_replicate. apply Z2Nat.id. lia.
Defined.

Lemma dictionary_field_roundtrip_witness :
  (∃ r', WriteDictionaryStringField (table_field 4) 1 (Some table_row) = (Ok tt, Some r')
    ∧ Row_Get kString (row_of table_layout r') (field_id (table_field 4)) None
      = Ok (Some (SString (str "green"))))
  ∧ (∃ r', WriteListDictionaryField (table_field 5) 0 2 (Some table_row) = (Ok tt, Some r')
    ∧ Row_GetList kInt32 (row_of table_layout r') (field_id (table_field 5)) None
      = Ok (LInt32 [5; -6]))
  ∧ ∃ r', WriteElementDictionaryStringListField (table_field 6) [2; 0; 2] (Some table_row)
      = (Ok tt, Some r')
    ∧ Row_GetList kString (row_of table_layout r') (field_id (table_field 6)) None
      = Ok (LString [str "z"; str "x"; str "z"]).
Proof.
  split; [|split].
  - destruct (dictionary_field_roundtrip 3 table_schema table_layout table_row (table_field 4)
      table_reachable eq_refl table_row_ok (table_field_in 4 eq_refl)) as [H _].
    destruct (H 1 (str "green")) as (r' & H1 & _ & H2 & _).
    1-3: reflexivity.
    { vm_compute; split; congruence. }
    { reflexivity. }
    exists r'. split; [exact H1|exact H2].
  - destruct (dictionary_field_roundtrip 3 table_schema table_layout table_row (table_field 5)
      table_reachable eq_refl table_row_ok (table_field_in 5 eq_refl)) as (_ & H & _).
    destruct (H 0 (LInt32 [5; -6]) [5; -6]) as (r' & H1 & _ & H2 & _).
    1-3: reflexivity.
    1-2: vm_compute; split; congruence.
    { repeat constructor; vm_compute; congruence. }
    1-2: reflexivity.
    exists r'. split; [exact H1|exact H2].
  - destruct (dictionary_field_roundtrip 3 table_schema table_layout table_row (table_field 6)
      table_reachable eq_refl table_row_ok (table_field_in 6 eq_refl)) as (_ & _ & H).
    destruct (H [2; 0; 2] [str "z"; str "x"; str "z"]) as (r' & H1 & _ & H2 & _).
    1-3: reflexivity.
    { repeat constructor; vm_compute; congruence. }
    { vm_compute; congruence. }
    { reflexivity. }
    { repeat constructor; reflexivity. }
    exists r'. split; [exact H1|exact H2].
Defined.

Lemma MaterializeRow_defaults_witness :
  MaterializeRow (Some table_layout) table_row = Ok (row_of table_layout table_row)
  ∧ Row_Get (type (table_field 7)) (row_of table_layout table_row)
      (field_id (table_field 7)) None = Ok (default_scalar (table_field 7)).
Proof.
  assert (MaterializeRow (Some table_layout) table_row = Ok (row_of table_layout table_row)) as E.
  { unfold MaterializeRow. destruct table_row_ok as [-> -> Hsz].
    rewrite !Z.eqb_refl, (proj2 (Z.ltb_ge _ _)) by exact Hsz. reflexivity. }
  pose proof (MaterializeRow_defaults 3 table_schema table_layout table_row
    table_reachable eq_refl) as H.
  rewrite E in H. destruct H as (_ & _ & _ & H). split; [exact E|].
  specialize (H (table_field 7) (table_field_in 7 eq_refl)).
  assert (is_list (table_field 7) = false) as Hl by reflexivity.
  rewrite Hl in H. apply H. reflexivity.
Defined.

(** ** Sample snapshots *)

Abbreviation sample_builder := (make_builder (Some table_layout) SnapshotBuildOptions_default).

Lemma table_slot_size : row_slot_size table_layout = 104.
Proof. reflexivity. Qed.

Lemma sample_options_ok : options_ok SnapshotBuildOptions_default.
Proof. split; vm_compute; split; congruence. Qed.

Lemma table_cut_length : Zlen (row_slot (cut_row table_layout table_row)) = 104.
Proof. reflexivity. Qed.

Lemma two_rows_added :
  ∃ b, add_rows [(7, table_row); (9, table_row)] sample_builder = (Ok tt, b)
    ∧ Zlen (builder_row_slot_bytes b) = 208.
Proof.
  eexists. split.
  - cbn [add_rows]. unfold sbind.
    rewrite (AddRow_total table_layout sample_builder) by
      (apply table_row_ok || done || (intros []%elem_of_nil)).
    rewrite (AddRow_total table_layout) by
      (apply table_row_ok || done || (intros H%list_elem_of_singleton; discriminate H)).
    reflexivity.
  - cbn [builder_row_slot_bytes app make_builder]. by rewrite Zlen_app, table_cut_length.
Qed.

Lemma two_rows_second (r : EncodedRow) :
  list_to_map (M := gmap Z EncodedRow) [(7, r); (9, r)] !! 9 = Some r.
Proof. reflexivity. Qed.

Lemma snapshot_build_read_witness :
  ∃ b, add_rows [(7, table_row); (9, table_row)] sample_builder = (Ok tt, b)
    ∧ match Seal b with
      | (Ok backing, _) =>
          CompactDeltaSnapshot_Get (make_compact (Some backing)) 9
          = let* row := MaterializeRow (Some table_layout) (cut_row table_layout table_row) in
            Ok (Some row)
      | (Err _, b') => 2 ^ 58 < 2
      | (Fault _, _) => False
      end.
Proof.
  destruct two_rows_added as (b & Hadd & Hlen). exists b. split; [exact Hadd|].
  pose proof (snapshot_build_read table_layout SnapshotBuildOptions_default
    [(7, table_row); (9, table_row)] b ltac:(rewrite table_slot_size; lia) sample_options_ok
    ltac:(repeat constructor; unfold is_u64; simpl; lia) Hadd
    ltac:(rewrite Hlen; unfold is_u64; lia)) as H.
  destruct (Seal b) as [[backing|e|f] b']; [|apply H|exact H].
  destruct H as [H _]. rewrite H. unfold map_get. rewrite lookup_fmap, two_rows_second.
  cbn [fmap option_fmap option_map]. exact eq_refl.
Defined.

(** ** A reused builder *)

Lemma small_index_exists es :
  Zlen es < 3 → NoDup (primary_key <$> es) →
  Forall (λ e, is_u64 (primary_key e) ∧ is_u64 (row_offset e)) es →
  ∃ i, BuildFrozenPrimaryKeyIndex es (MkBuildOptions 0 1 16) = Ok i.
Proof.
  intros Hl Hnd Hr.
  pose proof (build_spec es (MkBuildOptions 0 1 16)
    ltac:(pose proof (Zlen_nonneg es); unfold is_u64; lia)
    ltac:(unfold is_u64; simpl; lia) ltac:(unfold is_u32; simpl; lia) Hr) as H.
  destruct (BuildFrozenPrimaryKeyIndex es _) as [i|e|f]; [by exists i| |done].
  destruct H as [_ [H|[H|H]]]; [done|done|lia].
Qed.

Lemma Seal_total (L : CompiledRowLayout) keys es bytes payloads i :
  BuildFrozenPrimaryKeyIndex es (MkBuildOptions 0 1 16) = Ok i →
  Seal (MkSnapshotBuilder (Some L) SnapshotBuildOptions_default keys es bytes payloads)
  = (Ok (MkOwnedSnapshotBacking (Some L) i bytes payloads),
     MkSnapshotBuilder (Some L) SnapshotBuildOptions_default keys es [] []).
Proof.
  intros Hi. unfold Seal. cbn [builder_layout builder_index_entries builder_options
    builder_primary_keys builder_row_slot_bytes builder_row_payloads snapshot_hash_seed
    snapshot_hash_version SnapshotBuildOptions_default].
  unfold kDefaultGroupWidth. by rewrite Hi.
Qed.

Abbreviation table_slot := (row_slot (cut_row table_layout table_row)).
Abbreviation builder_with keys es bytes payloads :=
  (MkSnapshotBuilder (Some table_layout) SnapshotBuildOptions_default keys es bytes payloads).

Lemma add_first : AddRow 7 table_row sample_builder
  = (Ok tt, builder_with [7] [MkEntry 7 0] table_slot [row_payload table_row]).
Proof.
  exact (AddRow_total table_layout sample_builder 7 table_row eq_refl table_row_ok
    ltac:(intros []%elem_of_nil) ltac:(done)).
Qed.

Lemma add_after_seal : AddRow 9 table_row (builder_with [7] [MkEntry 7 0] [] [])
  = (Ok tt, builder_with [7; 9] [MkEntry 7 0; MkEntry 9 0] table_slot [row_payload table_row]).
Proof.
  exact (AddRow_total table_layout (builder_with [7] [MkEntry 7 0] [] []) 9 table_row eq_refl
    table_row_ok ltac:(intros H%list_elem_of_singleton; discriminate H) ltac:(done)).
Qed.

Lemma reused_builder_wrong_row_witness :
  ∃ b1 first b2 b3 second b4, AddRow 7 table_row sample_builder = (Ok tt, b1)
    ∧ Seal b1 = (Ok first, b2) ∧ AddRow 9 table_row b2 = (Ok tt, b3)
    ∧ Seal b3 = (Ok second, b4)
    ∧ CompactDeltaSnapshot_Get (make_compact (Some second)) 7
      = let* row := MaterializeRow (Some table_layout) (cut_row table_layout table_row) in
        Ok (Some row).
Proof.
  destruct (small_index_exists [MkEntry 7 0]) as [i1 Hi1];
    [unfold Zlen; simpl; lia|apply NoDup_singleton
    |repeat constructor; unfold is_u64; simpl; lia|].
  destruct (small_index_exists [MkEntry 7 0; MkEntry 9 0]) as [i2 Hi2];
    [unfold Zlen; simpl; lia|apply (bool_decide_unpack _); reflexivity
    |repeat constructor; unfold is_u64; simpl; lia|].
  pose proof (Seal_total table_layout [7] _ table_slot [row_payload table_row] i1 Hi1) as H2.
  pose proof (Seal_total table_layout [7; 9] _ table_slot [row_payload table_row] i2 Hi2) as H4.
  eexists _, _, _, _, _, _.
  split; [exact add_first|]. split; [exact H2|]. split; [exact add_after_seal|].
  split; [exact H4|].
  exact (reused_builder_wrong_row table_layout SnapshotBuildOptions_default 7 9 table_row
    table_row _ _ _ _ _ ltac:(rewrite table_slot_size; unfold u32_max; lia) sample_options_ok
    ltac:(unfold is_u64; lia) ltac:(unfold is_u64; lia) add_first H2 add_after_seal
    (f_equal fst H4)).
Defined.

(** ** Sample realtime tables *)

Abbreviation empty_table := (make_table (Some table_layout) 16 0 1).
Abbreviation position := (MkSourcePosition 0 5).

Lemma table_row_accepted : accepted table_layout position table_row.
Proof.
  destruct table_row_ok as [Hv Hf _]. split; [done|exact Hv|exact Hf|reflexivity|reflexivity].
Qed.

Lemma empty_reachable : realtime_reachable table_layout 16 0 1 empty_table.
Proof. apply rtc_refl. Qed.

Lemma one_published :
  match Publish 7 position table_row empty_table with
  | (Ok _, t') => visible_rows t' = {[7 := (position, table_row)]}
  | _ => False
  end.
Proof.
  assert (table_ok table_layout empty_table) as Hok
    by (apply make_table_ok; unfold u64_max; lia).
  assert (bits_ok table_layout) as Hbits
    by exact (compiled_bits_ok 3 table_schema _ StoreSamples.table_reachable eq_refl).
  pose proof (Publish_spec table_layout empty_table 7 position table_row Hok Hbits
    ltac:(unfold is_u64; lia)) as H.
  destruct (Publish 7 position table_row empty_table) as [[[]|e|f] t']; [|exfalso|exact H].
  - exact (proj1 (proj2 (proj2 H))).
  - destruct H as (_ & _ & [H|[(old & e0 & H & _)|[_ H]]]).
    + exact (H table_row_accepted).
    + discriminate H.
    + apply (no_slot_left_full table_layout empty_table 7 Hok eq_refl) in H. discriminate H.
Qed.

Lemma publish_newest_wins_witness :
  match Publish 7 position table_row empty_table with
  | (Ok _, t') => visible_rows t' = {[7 := (position, table_row)]}
  | _ => False
  end.
Proof.
  pose proof (publish_newest_wins 3 table_schema table_layout StoreSamples.table_reachable eq_refl
    16 0 1 ltac:(unfold u64_max; lia) empty_table 7 position table_row
    ltac:(unfold is_u64; lia) eq_refl empty_reachable) as H.
  destruct (Publish 7 position table_row empty_table) as [[[]|e|f] t']; [|exfalso|exact H].
  - exact (proj1 (proj2 H)).
  - destruct H as (_ & [H|[(old & e0 & H & _)|[_ H]]]).
    + exact (H table_row_accepted).
    + discriminate H.
    + discriminate H.
Defined.

(** One row published. *)
Definition table_one : RealtimeDeltaAtomicTable := (Publish 7 position table_row empty_table).2.

Lemma one_reachable : realtime_reachable table_layout 16 0 1 table_one.
Proof.
  apply rtc_once. unfold table_one.
  destruct (Publish 7 position table_row empty_table) as [r t'] eqn:E.
  exact (step_publish _ 7 _ _ _ _ ltac:(unfold is_u64; lia) E).
Qed.

Lemma one_visible : visible_rows table_one = {[7 := (position, table_row)]}.
Proof.
  pose proof one_published as H. unfold table_one.
  destruct (Publish 7 position table_row empty_table) as [[[]|e|f] t']; done.
Qed.

Lemma realtime_reads_visible_witness :
  RealtimeDelta_Get table_one 7 = Ok (Some (MkRow (Some table_layout) (Some table_row)))
  ∧ RealtimeDelta_Get table_one 8 = Ok None
  ∧ unique_visible_keys (stats table_one) = 1.
Proof.
  pose proof (realtime_reads_visible 3 table_schema table_layout StoreSamples.table_reachable eq_refl
    16 0 1 ltac:(unfold u64_max; lia) table_one one_reachable) as (Hget & _ & Hstats & _).
  rewrite one_visible in Hget, Hstats. split_and!.
  - exact (Hget 7).
  - exact (Hget 8).
  - exact (Hstats ltac:(lia)).
Defined.

Lemma boundary_scan_stable_witness :
  ∃ l, ScanVisibleRows table_one (CaptureCompactionBoundary empty_table) = Ok l
    ∧ lists_rows l ∅.
Proof.
  exact (boundary_scan_stable 3 table_schema table_layout StoreSamples.table_reachable eq_refl
    16 0 1 ltac:(unfold u64_max; lia) empty_table table_one empty_reachable one_reachable).
Defined.

Lemma capacity_three_refuses_witness :
  let ref k := MkRowRef k position None 0 0 false in
  ∃ m, PublishAndReport
    [ref 13195679944386838136; ref 3377339903461340206; ref 16684275648398150712]
    16684275648398150712 (Some 2%nat) m
    = (FailedPrecondition "realtime hash map capacity exhausted", m)
    ∧ slots_ m !! 2%nat = Some empty_slot.
Proof.
  destruct (capacity_three_refuses position eq_refl) as (m1 & m2 & _ & _ & Hp & Hs).
  exists m2. split; [exact Hp|exact Hs].
Defined.

(** ** Sample rebuilds *)

Abbreviation sample_row := (MkRow (Some table_layout) (Some table_row)).

Lemma table_one_get : RealtimeDelta_Get table_one 7 = Ok (Some sample_row).
Proof.
  pose proof (reachable_table_ok 3 table_schema table_layout StoreSamples.table_reachable eq_refl
    16 0 1 ltac:(unfold u64_max; lia) table_one one_reachable) as Hok.
  rewrite (Get_spec table_layout table_one 7 Hok), one_visible. exact eq_refl.
Qed.

Lemma layout_size : 0 < row_slot_size table_layout.
Proof. rewrite table_slot_size. lia. Qed.

Lemma compaction_preserves_reads_witness :
  let old := MkShardState 0 1 (MkLayers (Some table_one) None None) in
  ∃ b s', BuildCompactedDeltaSnapshot old (CaptureCompactionBoundary table_one)
      SnapshotBuildOptions_default kRealtimeDelta = Ok b
    ∧ FinishDeltaCompaction old 2 None (Some b) kRealtimeDelta = Ok s'
    ∧ ShardState_Get s' 7 = Ok (Some sample_row).
Proof.
  intros old.
  pose proof (compaction_preserves_reads 3 table_schema table_layout StoreSamples.table_reachable
    eq_refl 16 0 1 ltac:(unfold u64_max; lia) layout_size SnapshotBuildOptions_default
    sample_options_ok table_one table_one None ∅ None 0 1 one_reachable (rtc_refl _ _) eq_refl)
    as H.
  rewrite table_slot_size, one_visible, map_size_singleton, map_size_empty in H.
  specialize (H ltac:(unfold u64_max; lia)).
  cbv beta zeta in H. change (compact_of None) with (@None CompactDeltaSnapshot) in H. fold old in H.
  destruct (BuildCompactedDeltaSnapshot old _ _ _) as [b|e|f]; [|exfalso; lia|destruct H].
  destruct (H 2 None) as (s' & Hs' & Hget). exists b, s'. split; [reflexivity|].
  split; [exact Hs'|]. rewrite (Hget 7). unfold over.
  change (layer_get (@None RealtimeDeltaAtomicTable) 7) with (@Ok Status (option Row) None).
  cbn [obind]. unfold old, ShardState_Get, Layers_Get. cbn [layers realtime_delta].
  change (layer_get (Some table_one) 7) with (RealtimeDelta_Get table_one 7).
  rewrite table_one_get. reflexivity.
Defined.

(** A sealed snapshot with two rows. *)
Lemma sample_backing :
  ∃ b, backing_ok (owned_backing b) table_layout
    (list_to_map [(7, cut_row table_layout table_row); (9, cut_row table_layout table_row)]).
Proof.
  destruct two_rows_added as (b & Hadd & Hlen).
  destruct (add_rows_inv table_layout [(7, table_row); (9, table_row)] sample_builder [] b
    ltac:(rewrite table_slot_size; lia) (make_builder_inv _ _)
    ltac:(repeat constructor; unfold is_u64; simpl; lia) Hadd) as [Hinv Ho].
  pose proof (Seal_spec table_layout b _ Hinv layout_size
    ltac:(rewrite Ho; apply sample_options_ok) ltac:(rewrite Hlen; unfold is_u64; lia)) as H.
  destruct (Seal b) as [[backing|e|f] b'].
  - exists backing. exact (proj1 H).
  - exfalso. destruct H as [_ H]. unfold Zlen in H. simpl in H. lia.
  - destruct H.
Qed.

Lemma two_rows_size (r : EncodedRow) :
  size (list_to_map (M := gmap Z EncodedRow) [(7, r); (9, r)]) = 2%nat.
Proof. reflexivity. Qed.

Lemma empty_visible : visible_rows empty_table = ∅.
Proof. reflexivity. Qed.

Lemma rebase_preserves_reads_witness :
  ∃ fb b, let old := MkShardState 0 1
      (MkLayers (Some empty_table) None (Some (make_full (Some (owned_backing fb))))) in
    BuildRebasedFullSnapshot old false SnapshotBuildOptions_default kRealtimeDelta = Ok b
    ∧ ∃ s', FinishFullRebase old 2 None (Some b) kRealtimeDelta = Ok s'
        ∧ ∀ k, ShardState_Get s' k = ShardState_Get old k.
Proof.
  destruct sample_backing as [fb Hfb].
  pose proof (rebase_preserves_reads 3 table_schema table_layout StoreSamples.table_reachable
    eq_refl 16 0 1 ltac:(unfold u64_max; lia) layout_size SnapshotBuildOptions_default
    sample_options_ok empty_table None ∅ _ (owned_backing fb) 0 1 empty_reachable eq_refl Hfb)
    as H.
  rewrite table_slot_size, two_rows_size, map_size_empty in H.
  specialize (H ltac:(unfold u64_max; lia)).
  cbv beta zeta in H. change (compact_of None) with (@None CompactDeltaSnapshot) in H.
  exists fb. destruct (BuildRebasedFullSnapshot _ _ _ _) as [b|e|f] eqn:E.
  - exists b. split; [exact E|]. specialize (H 2 None).
    destruct (FinishFullRebase _ _ _ _ _) as [s'|e|f] eqn:Ef.
    + exists s'. split; [reflexivity|]. intros k. rewrite (proj2 H k). unfold over.
      change (layer_get (@None RealtimeDeltaAtomicTable) k) with (@Ok Status (option Row) None).
      reflexivity.
    + destruct (proj1 H). exact empty_visible.
    + destruct H.
  - exfalso. destruct H as [H|(b & H & _)]; [lia|discriminate H].
  - destruct H.
Defined.

(** ** A sample interleaving *)

(** Moves the threads in the order given. *)
Fixpoint drive (heap : list RealtimeRowRef) (st : system) (order : list nat) : option system :=
  match order with
  | [] => Some st
  | i :: order' =>
      c ← threads st !! i;
      match publish_step heap false (shared st) c, get_step (shared st) c with
      | Some (m', c'), _ => drive heap (MkSystem m' (<[i := c']> (threads st))) order'
      | None, Some c' => drive heap (MkSystem (shared st) (<[i := c']> (threads st))) order'
      | None, None => None
      end
  end.

Lemma drive_steps heap st order st' :
  drive heap st order = Some st' → rtc (sys_step heap) st st'.
Proof.
  revert st. induction order as [|i order IH]; intros [m ts]; cbn [drive shared threads].
  - intros [= <-]. apply rtc_refl.
  - destruct (ts !! i) as [c|] eqn:Hi; [|done]. cbn [mbind option_bind].
    destruct (publish_step heap false m c) as [[m' c']|] eqn:Hp.
    + intros H%IH. eapply rtc_l; [|exact H]. by eapply sys_move_publish.
    + destruct (get_step m c) as [c'|] eqn:Hg; [|done]. intros H%IH.
      eapply rtc_l; [|exact H]. by eapply sys_move_get.
Qed.

Definition sample_ref (off : Z) : RealtimeRowRef :=
  MkRowRef 7 (MkSourcePosition 0 off) None 0 0 false.
Definition sample_heap : list RealtimeRowRef := [sample_ref 5; sample_ref 9].

Definition sample_threads : list pc := [PubProbe 7 0 0; GetProbe 7 None 0; PubProbe 7 1 0].
Definition sample_system : system := MkSystem (make_hash_map 4 0 1) sample_threads.

Lemma sample_started : sys_reachable sample_heap 4 0 1 sample_system.
Proof.
  eapply rtc_l; [by eapply (sys_publish _ _ [] 7 0)|].
  eapply rtc_l; [apply (sys_get _ _ _ 7)|].
  eapply rtc_l; [by eapply (sys_publish _ _ _ 7 1)|].
  cbn [app]. assert (current (make_hash_map 4 0 1) 7 = None) as -> by (vm_compute; reflexivity).
  apply rtc_refl.
Qed.

(** The first publication has reserved its slot. *)
Definition sample_reserved : system :=
  default sample_system (drive sample_heap sample_system [0; 0]%nat).

(** Everything has finished: the second row replaced the first, and the read
    that overlapped both publications returned it. *)
Definition sample_order : list nat := [0; 0; 0; 0; 0; 0; 2; 2; 2; 2; 1; 1; 1]%nat.
Definition sample_end : system :=
  default sample_system (drive sample_heap sample_system sample_order).

Lemma sample_end_threads : threads sample_end
  = [PubDone 7 0 (Ok true); GetDone 7 None (Ok (Some 1%nat)); PubDone 7 1 (Ok true)].
Proof. vm_compute. reflexivity. Qed.

Lemma sample_reserved_threads : threads sample_reserved
  = [PubKey 7 0 0; GetProbe 7 None 0; PubProbe 7 1 0].
Proof. vm_compute. reflexivity. Qed.

Lemma sample_driven order :
  is_Some (drive sample_heap sample_system order) →
  sys_reachable sample_heap 4 0 1 (default sample_system (drive sample_heap sample_system order)).
Proof.
  intros [st Hst]. rewrite Hst. cbn [default].
  unfold sys_reachable. etrans; [exact sample_started|].
  by eapply drive_steps.
Qed.

Lemma sample_end_reachable : sys_reachable sample_heap 4 0 1 sample_end.
Proof. apply sample_driven. vm_compute. eexists. reflexivity. Qed.

Lemma sample_reserved_reachable : sys_reachable sample_heap 4 0 1 sample_reserved.
Proof. apply sample_driven. vm_compute. eexists. reflexivity. Qed.

Lemma sample_capacity : 0 ≤ 4 ≤ u64_max.
Proof. unfold u64_max. lia. Qed.

Lemma concurrent_get_current_witness :
  threads sample_end !! 1%nat = Some (GetDone 7 None (Ok (Some 1%nat)))
  ∧ row_for sample_heap 7 1.
Proof.
  assert (threads sample_end !! 1%nat = Some (GetDone 7 None (Ok (Some 1%nat)))) as H
    by (rewrite sample_end_threads; reflexivity).
  split; [exact H|].
  exact (proj1 (concurrent_get_current sample_heap 4 0 1 sample_capacity sample_end 1 7 None _
    sample_end_reachable H)).
Defined.

Lemma concurrent_publish_visible_witness :
  ∃ q, HashMap_Get (shared sample_end) 7 = Ok (Some q) ∧ row_le sample_heap 0 q.
Proof.
  assert (threads sample_end !! 0%nat = Some (PubDone 7 0 (Ok true))) as H
    by (rewrite sample_end_threads; reflexivity).
  exact (concurrent_publish_visible sample_heap 4 0 1 sample_capacity sample_end sample_end 0 7 0 _
    sample_end_reachable (rtc_refl _ _) H).
Defined.

Lemma concurrent_keys_unique_witness : unique_key_count_ (shared sample_end) = 1.
Proof.
  pose proof (proj2 (proj2 (concurrent_keys_unique sample_heap 4 0 1 sample_capacity sample_end
    sample_end_reachable))) as H.
  rewrite H; [vm_compute; reflexivity|]. rewrite sample_end_threads.
  constructor; [do 3 eexists; left; reflexivity|].
  constructor; [exists 7, 0%nat, (Ok true); right; do 2 eexists; reflexivity|].
  constructor; [do 3 eexists; left; reflexivity|constructor].
Defined.

Lemma concurrent_keys_race_free_witness :
  let s := probe_of (shared sample_reserved) 7 0 in
  plain_access (shared sample_reserved) (PubKey 7 0 0) = Some (s, true)
  ∧ plain_access (shared sample_reserved) (GetProbe 7 None 0) ≠ Some (s, false).
Proof.
  split; [reflexivity|].
  apply (concurrent_keys_race_free sample_heap 4 0 1 sample_capacity sample_reserved 0 1
    (PubKey 7 0 0) (GetProbe 7 None 0) _ false sample_reserved_reachable);
    [lia|rewrite sample_reserved_threads; reflexivity..|reflexivity].
Defined.

Lemma sequential_is_alone_witness :
  rtc (λ x y : RealtimeAtomicHashMap * pc, publish_step sample_heap false x.1 x.2 = Some y)
    (make_hash_map 4 0 1, PubProbe 7 0 0)
    ((PublishAndReport sample_heap 7 (Some 0%nat) (make_hash_map 4 0 1)).2, PubDone 7 0 (Ok true)).
Proof.
  pose proof (proj1 (sequential_is_alone sample_heap (make_hash_map 4 0 1) 7 0 (sample_ref 5) None
    (make_hash_map_inv sample_heap 4 0 1 sample_capacity) eq_refl eq_refl eq_refl eq_refl)) as H.
  assert ((PublishAndReport sample_heap 7 (Some 0%nat) (make_hash_map 4 0 1)).1 = Ok true) as E
    by (vm_compute; reflexivity).
  rewrite E in H. exact H.
Defined.
