(* ===== verification/Payload.v ===== *)
(** * Upsert payloads: the decoder of [src/ingest/update_applier.cc]

    A Kafka upsert carries a complete row as a binary frame: the magic
    ["KVIU"], a version, flags, a field count and the fields, each an id, a
    kind, a byte length and that many bytes.  [ByteReader] is a cursor over
    the bytes; its methods are [stateful] in it, and decoding is what the
    methods compose to.  Every byte string may arrive here. *)

From S2P Require Import Prelude Status ByteIo Types Schema RowStorage.

(** The magic ["KVIU"]. *)
Definition kMagic : list byte := [Byte.x4b; Byte.x56; Byte.x49; Byte.x55].
Definition kWireVersion : Z := 1.

Module WireKind.
Inductive t : Type :=
| kNull | kInt8 | kInt32 | kInt64 | kUInt64 | kBool | kString
| kInt8List | kInt32List | kInt64List | kUInt64List | kBoolList | kStringList.

#[export] Instance eq_dec : EqDecision t.
Proof. solve_decision. Defined.

(** The enumerators' underlying values. *)
Definition value (k : t) : Z :=
  match k with
  | kNull => 0 | kInt8 => 1 | kInt32 => 2 | kInt64 => 3 | kUInt64 => 4 | kBool => 5
  | kString => 6 | kInt8List => 17 | kInt32List => 18 | kInt64List => 19
  | kUInt64List => 20 | kBoolList => 21 | kStringList => 22
  end.

(** [static_cast<WireKind>(byte)]; [None] stands for the values without an
    enumerator. *)
Definition of_value (v : Z) : option t :=
  list_find (λ k, value k = v)
    [kNull; kInt8; kInt32; kInt64; kUInt64; kBool; kString; kInt8List; kInt32List;
     kInt64List; kUInt64List; kBoolList; kStringList] ≫= λ p, Some p.2.
End WireKind.

(** The alternatives of the variant: the monostate, a scalar, a list. *)
Inductive DecodedValue : Type :=
| VMonostate
| VScalar (v : ScalarValue)
| VList (v : ListValue).

Record DecodedField : Type := MkDecodedField {
  decoded_id : Z;
  decoded_kind : WireKind.t;
  decoded_value : DecodedValue;
}.

Record DecodedPayload : Type := MkDecodedPayload { payload_fields : list DecodedField }.

(** [DecodedPayload::Find] *)
Definition DecodedPayload_Find (p : DecodedPayload) (id : Z) : option DecodedField :=
  find_key decoded_id id (payload_fields p).

(** ** The reader *)

Record ByteReader : Type := MkByteReader { reader_bytes : list byte; reader_offset : Z }.

Abbreviation reader A := (stateful ByteReader Status A).

(** The offset never passes the size, so the difference does not wrap. *)
Definition remaining (r : ByteReader) : Z := Zlen (reader_bytes r) - reader_offset r.

Definition get_remaining : reader Z := λ r, (Ok (remaining r), r).

(** [offset_ += n] *)
Definition advance (n : Z) : reader unit := λ r,
  (Ok tt, MkByteReader (reader_bytes r) (reader_offset r + n)).

Definition ReadInteger (t : int_type) : reader Z := λ r,
  if remaining r <? Z.of_nat (it_size t) then (InvalidArgument "payload is truncated", r)
  else (do* value := slift (ReadLittleEndian t (reader_bytes r) (reader_offset r)) in
        do* _ := advance (Z.of_nat (it_size t)) in
        sret value) r.

Definition ReadUInt8 : reader Z := λ r,
  if remaining r <? 1 then (InvalidArgument "payload is truncated", r)
  else (do* b := slift (at_ (reader_bytes r) (reader_offset r)) in
        do* _ := advance 1 in
        sret (byte_to_Z b)) r.

Definition ReadBytes (size : Z) : reader (list byte) := λ r,
  if remaining r <? size then (InvalidArgument "payload field is truncated", r)
  else (do* out := slift (subspan (reader_bytes r) (reader_offset r) size) in
        do* _ := advance size in
        sret out) r.

(** A reader made for the bytes and dropped after the call. *)
Definition read_from {A} (c : reader A) (bytes : list byte) : StatusOr A :=
  (c (MkByteReader bytes 0)).1.

(** [for (i = 0; i < n; ++i) values.push_back(read())] *)
Fixpoint read_times {A} (read : reader A) (n : nat) : reader (list A) :=
  match n with
  | O => sret []
  | S n' => do* x := read in do* xs := read_times read n' in sret (x :: xs)
  end.

(** ** Values *)

Definition ReadExactInteger (t : int_type) (bytes : list byte) : StatusOr Z :=
  if negb (Zlen bytes =? Z.of_nat (it_size t)) then
    InvalidArgument "payload scalar byte length is invalid"
  else ReadLittleEndian t bytes 0.

Definition ReadBool (bytes : list byte) : StatusOr bool :=
  let* value := ReadExactInteger uint8_t bytes in
  if 1 <? value then InvalidArgument "payload bool value is invalid"
  else Ok (negb (value =? 0)).

Definition ReadScalarList (t : int_type) : list byte → StatusOr (list Z) := read_from (
  do* count := ReadInteger uint32_t in
  do* unread := get_remaining in
  if negb (unread =? count * Z.of_nat (it_size t)) then
    serr (Status_make kInvalidArgument "payload list byte length is invalid")
  else read_times (ReadInteger t) (Z.to_nat count)).

Definition read_bool_element : reader bool :=
  do* raw := ReadUInt8 in
  if 1 <? raw then serr (Status_make kInvalidArgument "payload bool-list value is invalid")
  else sret (negb (raw =? 0)).

Definition ReadBoolList : list byte → StatusOr (list bool) := read_from (
  do* count := ReadInteger uint32_t in
  do* unread := get_remaining in
  if negb (unread =? count) then
    serr (Status_make kInvalidArgument "payload bool-list byte length is invalid")
  else read_times read_bool_element (Z.to_nat count)).

Definition read_string_element : reader cpp_string :=
  do* length := ReadInteger uint32_t in ReadBytes length.

Definition ReadStringList : list byte → StatusOr (list cpp_string) := read_from (
  do* count := ReadInteger uint32_t in
  do* values := read_times read_string_element (Z.to_nat count) in
  do* unread := get_remaining in
  if negb (unread =? 0) then
    serr (Status_make kInvalidArgument "payload string-list has trailing bytes")
  else sret values).

Definition ToDecodedValue {A} (alternative : A → DecodedValue) (value : StatusOr A)
    : StatusOr DecodedValue := let* v := value in Ok (alternative v).

Definition DecodeValue (kind : option WireKind.t) (bytes : list byte) : StatusOr DecodedValue :=
  match kind with
  | Some WireKind.kNull =>
      match bytes with
      | [] => Ok VMonostate
      | _ => InvalidArgument "payload null field must be empty"
      end
  | Some WireKind.kInt8 => ToDecodedValue (VScalar ∘ SInt8) (ReadExactInteger int8_t bytes)
  | Some WireKind.kInt32 => ToDecodedValue (VScalar ∘ SInt32) (ReadExactInteger int32_t bytes)
  | Some WireKind.kInt64 => ToDecodedValue (VScalar ∘ SInt64) (ReadExactInteger int64_t bytes)
  | Some WireKind.kUInt64 => ToDecodedValue (VScalar ∘ SUInt64) (ReadExactInteger uint64_t bytes)
  | Some WireKind.kBool => ToDecodedValue (VScalar ∘ SBool) (ReadBool bytes)
  | Some WireKind.kString => Ok (VScalar (SString bytes))
  | Some WireKind.kInt8List => ToDecodedValue (VList ∘ LInt8) (ReadScalarList int8_t bytes)
  | Some WireKind.kInt32List => ToDecodedValue (VList ∘ LInt32) (ReadScalarList int32_t bytes)
  | Some WireKind.kInt64List => ToDecodedValue (VList ∘ LInt64) (ReadScalarList int64_t bytes)
  | Some WireKind.kUInt64List => ToDecodedValue (VList ∘ LUInt64) (ReadScalarList uint64_t bytes)
  | Some WireKind.kBoolList => ToDecodedValue (VList ∘ LBool) (ReadBoolList bytes)
  | Some WireKind.kStringList => ToDecodedValue (VList ∘ LString) (ReadStringList bytes)
  | None => InvalidArgument "payload field kind is unsupported"
  end.

(** ** Payloads *)

(** One round of the loop over the fields; [seen] are the ids so far. *)
Definition decode_field (seen : gset Z) : reader DecodedField :=
  do* id := ReadInteger uint32_t in
  if decide (id ∈ seen) then
    serr (Status_make kInvalidArgument "payload contains duplicate field id")
  else
  do* kind_byte := ReadUInt8 in
  do* byte_length := ReadInteger uint32_t in
  do* field_bytes := ReadBytes byte_length in
  let kind := WireKind.of_value kind_byte in
  do* value := slift (DecodeValue kind field_bytes) in
  (* without an enumerator the call has failed *)
  sret (MkDecodedField id (default WireKind.kNull kind) value).

Fixpoint decode_fields (n : nat) (seen : gset Z) : reader (list DecodedField) :=
  match n with
  | O => sret []
  | S n' =>
      do* field := decode_field seen in
      do* rest := decode_fields n' ({[decoded_id field]} ∪ seen) in
      sret (field :: rest)
  end.

Definition decode_body : reader DecodedPayload :=
  do* version := ReadInteger uint16_t in
  if negb (version =? kWireVersion) then
    serr (Status_make kInvalidArgument "payload version is unsupported")
  else
  do* flags := ReadInteger uint16_t in
  if negb (flags =? 0) then
    serr (Status_make kInvalidArgument "payload flags are unsupported")
  else
  do* field_count := ReadInteger uint32_t in
  do* fields := decode_fields (Z.to_nat field_count) ∅ in
  do* unread := get_remaining in
  if negb (unread =? 0) then
    serr (Status_make kInvalidArgument "payload has trailing bytes")
  else sret (MkDecodedPayload fields).

Definition DecodePayload (bytes : list byte) : StatusOr DecodedPayload :=
  if (Zlen bytes <? 12) || negb (bool_decide (take 4 bytes = kMagic)) then
    InvalidArgument "payload magic is invalid"
  else read_from decode_body (drop 4 bytes).
