(* ===== verification/Codec.v ===== *)
(** * Readers as inverses of encoders

    A [codec] is a reader that inverts an encoder: it reads what was encoded
    wherever it stands, what it accepts was encoded, and it never leaves the
    bytes.  [fills] is the same for readers that must reach the end.  Codecs
    compose the way readers do. *)

From S2P Require Import Prelude Status ByteIo Types Schema RowStorage RowSafety RowProofs.
From S2P Require Import RowListProofs Payload.

(** ** Codecs *)

(** The cursor between what was read and what was not. *)
Definition cursor (pre rest : list byte) : ByteReader := MkByteReader (pre ++ rest) (Zlen pre).

Record codec {A} (c : reader A) (P : A → Prop) (enc : A → list byte) : Prop := {
  codec_complete : ∀ pre a rest,
    P a → c (cursor pre (enc a ++ rest)) = (Ok a, cursor (pre ++ enc a) rest);
  codec_sound : ∀ pre rest,
    match c (cursor pre rest) with
    | (Ok a, r') => P a ∧ ∃ rest', rest = enc a ++ rest' ∧ r' = cursor (pre ++ enc a) rest'
    | (Err _, _) => True
    | (Fault _, _) => False
    end;
}.

Lemma remaining_cursor pre rest : remaining (cursor pre rest) = Zlen rest.
Proof. unfold remaining, cursor. simpl. rewrite Zlen_app. lia. Qed.

Lemma cursor_app pre bs rest :
  cursor pre (bs ++ rest) = MkByteReader (pre ++ bs ++ rest) (Zlen pre).
Proof. done. Qed.

Lemma cursor_advance pre bs rest :
  MkByteReader (pre ++ bs ++ rest) (Zlen pre + Zlen bs) = cursor (pre ++ bs) rest.
Proof. unfold cursor. by rewrite Zlen_app, <-app_assoc. Qed.

(** A codec of a value that needs no bytes. *)
Lemma codec_ret {A} (a : A) (P : A → Prop) (enc : A → list byte) :
  (∀ b, P b → b = a) → P a → enc a = [] → codec (sret a) P enc.
Proof.
  intros Hu Ha He. split.
  - intros pre b rest ->%Hu. rewrite He. simpl. by rewrite app_nil_r.
  - intros pre rest. split; [done|]. exists rest. by rewrite He, app_nil_r.
Qed.

(** Reading one part, then the rest of the value. *)
Lemma codec_bind {A B} (c : reader A) (k : A → reader B) P enc (g : B → A) Q encB :
  codec c P enc → (∀ a, P a → codec (k a) (λ b, g b = a ∧ Q b) encB) →
  codec (do* a := c in k a) (λ b, P (g b) ∧ Q b) (λ b, enc (g b) ++ encB b).
Proof.
  intros Hc Hk. split.
  - intros pre b rest [Hp Hq]. unfold sbind. rewrite <-app_assoc.
    rewrite (codec_complete _ _ _ Hc) by done.
    rewrite (codec_complete _ _ _ (Hk _ Hp)) by done. by rewrite app_assoc.
  - intros pre rest. unfold sbind. pose proof (codec_sound _ _ _ Hc pre rest) as Hs.
    destruct (c (cursor pre rest)) as [[a|e|f] r]; [|done..].
    destruct Hs as (Ha & rest1 & -> & ->).
    pose proof (codec_sound _ _ _ (Hk a Ha) (pre ++ enc a) rest1) as Hs2.
    destruct (k a _) as [[b|e|f] r2]; [|done..].
    destruct Hs2 as ([<- Hq] & rest2 & -> & ->). split; [done|].
    exists rest2. by rewrite !app_assoc.
Qed.

Lemma codec_ext {A} (c : reader A) P P' enc enc' :
  codec c P enc → (∀ a, P a ↔ P' a) → (∀ a, P a → enc a = enc' a) → codec c P' enc'.
Proof.
  intros Hc HP Henc. split.
  - intros pre a rest Ha. apply HP in Ha. rewrite <-Henc by done.
    by apply (codec_complete _ _ _ Hc).
  - intros pre rest. pose proof (codec_sound _ _ _ Hc pre rest) as Hs.
    destruct (c (cursor pre rest)) as [[a|e|f] r]; [|done..].
    destruct Hs as (Ha & rest' & Hr & ->). rewrite Henc in Hr |- * by done.
    split; [by apply HP|]. by exists rest'.
Qed.

(** A reader that stops with an error reads nothing that was encoded. *)
Lemma codec_err {A} e (P : A → Prop) enc : (∀ a, ¬ P a) → codec (serr e) P enc.
Proof. intros Hn. split; [|done]. intros pre a rest Ha. by apply Hn in Ha. Qed.

Lemma codec_times {A} (c : reader A) P enc n :
  codec c P enc →
  codec (read_times c n) (λ l, length l = n ∧ Forall P l) (λ l, concat (enc <$> l)).
Proof.
  intros Hc. induction n as [|n IH]; simpl.
  - apply codec_ret; [|done..]. by intros [|x l] [Hl _].
  - split.
    + intros pre l rest [Hl HP]. destruct l as [|x l]; [done|].
      apply Forall_cons in HP as [Hx HP]. simpl. rewrite <-app_assoc. unfold sbind.
      rewrite (codec_complete _ _ _ Hc) by done.
      rewrite (codec_complete _ _ _ IH) by (simpl in Hl; split; [lia|done]). by rewrite app_assoc.
    + intros pre rest. unfold sbind. pose proof (codec_sound _ _ _ Hc pre rest) as Hs.
      destruct (c (cursor pre rest)) as [[x|e|f] r]; [|done..].
      destruct Hs as (Hx & rest1 & -> & ->).
      pose proof (codec_sound _ _ _ IH (pre ++ enc x) rest1) as Hs2.
      destruct (read_times c n _) as [[l|e|f] r2]; [|done..].
      destruct Hs2 as ([Hl HP] & rest2 & -> & ->). simpl.
      split; [split; [lia|by constructor]|]. exists rest2. by rewrite !app_assoc.
Qed.

(** A whole byte string read with a fresh reader. *)
Lemma read_from_codec {A} (c : reader A) P enc bs a :
  codec c P enc → P a → bs = enc a → read_from c bs = Ok a.
Proof.
  intros Hc Ha ->. unfold read_from. change (MkByteReader (enc a) 0) with (cursor [] (enc a)).
  rewrite <-(app_nil_r (enc a)) at 1. by rewrite (codec_complete _ _ _ Hc).
Qed.

(** ** The primitive readers *)

Definition int_bytes (t : int_type) (v : Z) : list byte := le_bytes (it_size t) (to_unsigned t v).

Lemma length_int_bytes t v : length (int_bytes t v) = it_size t.
Proof. apply length_le_bytes. Qed.

Lemma slice_cursor (pre bs rest : list byte) :
  slice (length pre) (length bs) (pre ++ bs ++ rest) = bs.
Proof.
  unfold slice. rewrite drop_app_length. by rewrite take_app_length.
Qed.

Lemma int_bytes_of_unsigned t bs :
  (0 < it_size t)%nat → length bs = it_size t → int_bytes t (of_unsigned t (le_value bs)) = bs.
Proof.
  intros Ht Hl. unfold int_bytes, to_unsigned, of_unsigned.
  pose proof (le_value_bound bs) as Hb. rewrite Hl in Hb. fold (it_modulus t) in Hb.
  assert ((if it_signed t && (it_modulus t / 2 <=? le_value bs)
           then le_value bs - it_modulus t else le_value bs) mod it_modulus t = le_value bs) as ->.
  { case_match; [|by apply Z.mod_small].
    rewrite <-(Z.mod_add _ 1), Z.mul_1_l, Z.sub_add by lia. by apply Z.mod_small. }
  rewrite <-Hl. apply le_bytes_value.
Qed.

Lemma codec_int t : (0 < it_size t)%nat → codec (ReadInteger t) (in_int_range t) (int_bytes t).
Proof.
  intros Ht. pose proof (length_int_bytes t) as Hlen. split.
  - intros pre v rest Hv. unfold ReadInteger. rewrite remaining_cursor, Zlen_app.
    pose proof (Zlen_nonneg rest). assert (Zlen (int_bytes t v) = Z.of_nat (it_size t)) as Hz
      by (unfold Zlen; by rewrite Hlen).
    rewrite (proj2 (Z.ltb_ge _ _)) by lia.
    unfold slift, sbind, sret, advance, cursor. simpl.
    rewrite ReadLittleEndian_in by (rewrite ?Zlen_app; unfold Zlen in *; lia).
    replace (Z.to_nat (Zlen pre)) with (length pre) by (unfold Zlen; lia).
    replace (it_size t) with (length (int_bytes t v)) at 1 by done.
    rewrite slice_cursor. unfold int_bytes at 1. rewrite le_word_back by done.
    rewrite <-Hz. apply (f_equal (pair _)), cursor_advance.
  - intros pre rest. unfold ReadInteger. rewrite remaining_cursor.
    destruct (Z.ltb_spec (Zlen rest) (Z.of_nat (it_size t))) as [|Hge]; [done|].
    unfold slift, sbind, sret, advance, cursor. simpl.
    pose proof (Zlen_nonneg pre).
    rewrite ReadLittleEndian_in by (rewrite ?Zlen_app; lia).
    replace (Z.to_nat (Zlen pre)) with (length pre) by (unfold Zlen; lia).
    set (bs := take (it_size t) rest).
    assert (length bs = it_size t) as Hbs by (unfold bs, Zlen in *; rewrite length_take; lia).
    assert (rest = bs ++ drop (it_size t) rest) as Hr by (symmetry; apply take_drop).
    assert (slice (length pre) (it_size t) (pre ++ rest) = bs) as Hsl
      by (rewrite Hr, <-Hbs at 1; apply slice_cursor).
    rewrite Hsl. split.
    + apply of_unsigned_range; [done|]. unfold it_modulus. rewrite <-Hbs. apply le_value_bound.
    + exists (drop (it_size t) rest). rewrite int_bytes_of_unsigned by done. split; [done|].
      rewrite Hr at 1. replace (Z.of_nat (it_size t)) with (Zlen bs) by (unfold Zlen; lia).
      apply cursor_advance.
Qed.

Lemma codec_uint8 : codec ReadUInt8 (λ v, 0 ≤ v < 256) (λ v, [byte_of_Z v]).
Proof.
  split.
  - intros pre v rest Hv. unfold ReadUInt8. rewrite remaining_cursor.
    simpl app. rewrite Zlen_cons. pose proof (Zlen_nonneg rest).
    rewrite (proj2 (Z.ltb_ge _ _)) by lia.
    unfold slift, sbind, sret, advance, cursor. simpl.
    assert (at_ (E := Status) (pre ++ byte_of_Z v :: rest) (Zlen pre) = Ok (byte_of_Z v)) as ->.
    { apply at_Ok. unfold Zlen. split; [lia|]. rewrite Nat2Z.id. by apply list_lookup_middle. }
    rewrite byte_to_of_Z, Z.mod_small by done. by rewrite Zlen_app, <-app_assoc.
  - intros pre rest. unfold ReadUInt8. rewrite remaining_cursor.
    destruct rest as [|b rest]; [done|]. rewrite Zlen_cons. pose proof (Zlen_nonneg rest).
    rewrite (proj2 (Z.ltb_ge _ _)) by lia.
    unfold slift, sbind, sret, advance, cursor. simpl.
    assert (at_ (E := Status) (pre ++ b :: rest) (Zlen pre) = Ok b) as ->.
    { apply at_Ok. unfold Zlen. split; [lia|]. rewrite Nat2Z.id. by apply list_lookup_middle. }
    split; [apply byte_to_Z_range|]. exists rest. rewrite byte_of_to_Z. split; [done|].
    by rewrite Zlen_app, <-app_assoc.
Qed.

Lemma codec_bytes n :
  0 ≤ n → codec (ReadBytes n) (λ bs, Zlen bs = n) (λ bs, bs).
Proof.
  intros Hn. split.
  - intros pre bs rest <-. unfold ReadBytes. rewrite remaining_cursor, Zlen_app.
    pose proof (Zlen_nonneg rest). rewrite (proj2 (Z.ltb_ge _ _)) by lia.
    unfold slift, sbind, sret, advance, cursor. simpl.
    rewrite subspan_in by (rewrite ?Zlen_app; pose proof (Zlen_nonneg pre); lia).
    unfold Zlen. rewrite !Nat2Z.id, slice_cursor. apply (f_equal (pair _)), cursor_advance.
  - intros pre rest. unfold ReadBytes. rewrite remaining_cursor.
    destruct (Z.ltb_spec (Zlen rest) n) as [|Hge]; [done|].
    unfold slift, sbind, sret, advance, cursor. simpl.
    rewrite subspan_in by (rewrite ?Zlen_app; pose proof (Zlen_nonneg pre); lia).
    set (bs := take (Z.to_nat n) rest).
    assert (Zlen bs = n) as Hbs by (unfold bs, Zlen in *; rewrite length_take; lia).
    assert (rest = bs ++ drop (Z.to_nat n) rest) as Hr by (symmetry; apply take_drop).
    assert (slice (Z.to_nat (Zlen pre)) (Z.to_nat n) (pre ++ rest) = bs) as ->.
    { rewrite Hr, <-Hbs at 1. unfold Zlen. rewrite !Nat2Z.id. apply slice_cursor. }
    split; [done|]. exists (drop (Z.to_nat n) rest). split; [done|].
    rewrite Hr at 1. rewrite <-Hbs at 2. apply cursor_advance.
Qed.

(** ** Readers that must reach the end

    The value is the whole of what is left. *)

Record fills {A} (c : reader A) (P : A → Prop) (enc : A → list byte) : Prop := {
  fills_complete : ∀ pre a, P a → (c (cursor pre (enc a))).1 = Ok a;
  fills_sound : ∀ pre rest,
    match (c (cursor pre rest)).1 with
    | Ok a => P a ∧ rest = enc a
    | Err _ => True
    | Fault _ => False
    end;
}.

Lemma fills_bind {A B} (c : reader A) (k : A → reader B) P enc (g : B → A) Q encB :
  codec c P enc → (∀ a, P a → fills (k a) (λ b, g b = a ∧ Q b) encB) →
  fills (do* a := c in k a) (λ b, P (g b) ∧ Q b) (λ b, enc (g b) ++ encB b).
Proof.
  intros Hc Hk. split.
  - intros pre b [Hp Hq]. unfold sbind. rewrite (codec_complete _ _ _ Hc) by done.
    by apply (fills_complete _ _ _ (Hk _ Hp)).
  - intros pre rest. unfold sbind. pose proof (codec_sound _ _ _ Hc pre rest) as Hs.
    destruct (c (cursor pre rest)) as [[a|e|f] r]; [|done..].
    destruct Hs as (Ha & rest1 & -> & ->).
    pose proof (fills_sound _ _ _ (Hk a Ha) (pre ++ enc a) rest1) as Hs2.
    destruct (k a _).1 as [b|e|f]; [|done..]. by destruct Hs2 as ([<- Hq] & ->).
Qed.

Lemma fills_ext {A} (c : reader A) P P' enc enc' :
  fills c P enc → (∀ a, P a ↔ P' a) → (∀ a, P a → enc a = enc' a) → fills c P' enc'.
Proof.
  intros Hc HP Henc. split.
  - intros pre a Ha. apply HP in Ha. rewrite <-Henc by done. by apply (fills_complete _ _ _ Hc).
  - intros pre rest. pose proof (fills_sound _ _ _ Hc pre rest) as Hs.
    destruct (c (cursor pre rest)).1 as [a|e|f]; [|done..].
    destruct Hs as (Ha & Hr). rewrite <-Henc by done. by rewrite <-HP.
Qed.

Lemma fills_err {A} e (P : A → Prop) enc : (∀ a, ¬ P a) → fills (serr e) P enc.
Proof. intros Hn. split; [|done]. intros pre a Ha. by apply Hn in Ha. Qed.

(** A size check before the reads. *)
Lemma fills_sized {A} (c : reader A) P enc n e :
  codec c P enc → (∀ a, P a → Zlen (enc a) = n) →
  fills (do* unread := get_remaining in if negb (unread =? n) then serr e else c) P enc.
Proof.
  intros Hc Hn. split.
  - intros pre a Ha. unfold sbind, get_remaining. rewrite remaining_cursor, Hn, Z.eqb_refl by done.
    rewrite <-(app_nil_r (enc a)). simpl. by rewrite (codec_complete _ _ _ Hc).
  - intros pre rest. unfold sbind, get_remaining. rewrite remaining_cursor.
    destruct (Z.eqb_spec (Zlen rest) n) as [Hr|]; [|done]. simpl.
    pose proof (codec_sound _ _ _ Hc pre rest) as Hs.
    destruct (c (cursor pre rest)) as [[a|e'|f] r]; [|done..].
    destruct Hs as (Ha & rest' & -> & _). split; [done|].
    rewrite Zlen_app, Hn in Hr by done. destruct rest' as [|x rest']; [by rewrite app_nil_r|].
    rewrite Zlen_cons in Hr. pose proof (Zlen_nonneg rest'). lia.
Qed.

(** An end-of-input check after the reads. *)
Lemma fills_end {A B} (c : reader A) P enc e (mk : A → B) (g : B → A) :
  codec c P enc → (∀ a, g (mk a) = a) → (∀ b, mk (g b) = b) →
  fills (do* v := c in do* unread := get_remaining in
         if negb (unread =? 0) then serr e else sret (mk v)) (P ∘ g) (enc ∘ g).
Proof.
  intros Hc Hg Hm. split.
  - intros pre b Hb. unfold compose in *. rewrite <-(app_nil_r (enc (g b))). unfold sbind.
    rewrite (codec_complete _ _ _ Hc) by done. unfold get_remaining.
    rewrite remaining_cursor. simpl. by rewrite Hm.
  - intros pre rest. unfold sbind. pose proof (codec_sound _ _ _ Hc pre rest) as Hs.
    destruct (c (cursor pre rest)) as [[a|e'|f] r]; [|done..].
    destruct Hs as (Ha & rest' & -> & ->). unfold get_remaining. rewrite remaining_cursor.
    destruct rest' as [|x rest'].
    + simpl. unfold compose. by rewrite Hg, app_nil_r.
    + rewrite Zlen_cons. pose proof (Zlen_nonneg rest').
      rewrite (proj2 (Z.eqb_neq _ _)) by lia. done.
Qed.

Lemma read_from_fills {A} (c : reader A) P enc :
  fills c P enc →
  (∀ a, P a → read_from c (enc a) = Ok a)
  ∧ ∀ bs, match read_from c bs with
          | Ok a => P a ∧ bs = enc a | Err _ => True | Fault _ => False
          end.
Proof.
  intros Hc. split.
  - intros a Ha. apply (fills_complete _ _ _ Hc [] a Ha).
  - intros bs. apply (fills_sound _ _ _ Hc [] bs).
Qed.

(** ** Lists of elements *)

Definition count_bytes {A} (l : list A) : list byte := int_bytes uint32_t (Zlen l).

Lemma is_u32_range n : is_u32 n ↔ in_int_range uint32_t n.
Proof. done. Qed.

(** [n] elements, [n] read before. *)
Lemma counted_list {A} (P : A → Prop) enc (k : Z → reader (list A)) :
  (∀ n, 0 ≤ n → fills (k n) (λ l, length l = Z.to_nat n ∧ Forall P l) (λ l, concat (enc <$> l))) →
  fills (do* count := ReadInteger uint32_t in k count)
    (λ l, is_u32 (Zlen l) ∧ Forall P l) (λ l, count_bytes l ++ concat (enc <$> l)).
Proof.
  intros Hk. eapply fills_ext.
  - apply (fills_bind _ _ _ _ Zlen (Forall P) (λ l, concat (enc <$> l))
             (codec_int uint32_t ltac:(simpl; lia))).
    intros n Hn%is_u32_range. eapply fills_ext; [apply Hk; unfold is_u32 in Hn; lia| |done].
    intros l. unfold is_u32, Zlen in *. split; intros [? ?]; split; try done; lia.
  - done.
  - done.
Qed.

Lemma concat_size {A} (enc : A → list byte) P w l :
  (∀ x, P x → Zlen (enc x) = w) → Forall P l → Zlen (concat (enc <$> l)) = Zlen l * w.
Proof.
  intros Hw. induction 1 as [|x l Hx _ IH]; [done|]. csimpl.
  rewrite Zlen_app, Zlen_cons, Hw, IH by done. lia.
Qed.

Lemma sized_list {A} (c : reader A) P enc w n size e :
  codec c P enc → (∀ x, P x → Zlen (enc x) = w) → 0 ≤ n → size = n * w →
  fills (do* unread := get_remaining in
         if negb (unread =? size) then serr e else read_times c (Z.to_nat n))
    (λ l, length l = Z.to_nat n ∧ Forall P l) (λ l, concat (enc <$> l)).
Proof.
  intros Hc Hw Hn ->. apply fills_sized; [by apply codec_times|].
  intros l [Hl HP]. rewrite (concat_size enc P w) by done. unfold Zlen. rewrite Hl. by rewrite Z2Nat.id.
Qed.

(** ** Lists of elements with distinct keys *)

Section Distinct.
Context {A K : Type} `{Countable K} (key : A → K) (c : gset K → reader A)
  (loop : nat → gset K → reader (list A)) (P : A → Prop) (enc : A → list byte).
Hypothesis loop_O : ∀ seen, loop 0 seen = sret [].
Hypothesis loop_S : ∀ n seen,
  loop (S n) seen = (do* x := c seen in do* xs := loop n ({[key x]} ∪ seen) in sret (x :: xs)).
Hypothesis Hc : ∀ seen, codec (c seen) (λ x, P x ∧ key x ∉ seen) enc.

(** A loop that reads [n] elements and refuses a key it has seen. *)
Lemma codec_distinct n seen :
  codec (loop n seen)
    (λ l, length l = n ∧ Forall P l ∧ NoDup (key <$> l) ∧ ∀ x, x ∈ l → key x ∉ seen)
    (λ l, concat (enc <$> l)).
Proof.
  revert seen. induction n as [|n IH]; intros seen; [rewrite loop_O|rewrite loop_S].
  - apply codec_ret; [by intros [|x l] [Hl _]| |done].
    split_and!; [done|done|constructor|by intros x ?%elem_of_nil].
  - split.
    + intros pre l rest (Hl & Hok & Hnd & Hseen). destruct l as [|x l]; [done|].
      apply Forall_cons in Hok as [Hx Hok]. csimpl in Hnd. apply NoDup_cons in Hnd as [Hni Hnd].
      change (concat (enc <$> x :: l)) with (enc x ++ concat (enc <$> l)).
      rewrite <-app_assoc. unfold sbind.
      rewrite (codec_complete _ _ _ (Hc seen)) by (split; [done|apply Hseen; left]).
      rewrite (codec_complete _ _ _ (IH _)); [by rewrite app_assoc|].
      split_and!; [simpl in Hl; lia|done..|]. intros y Hy.
      rewrite elem_of_union, elem_of_singleton. intros [Heq|Hin].
      * apply Hni. rewrite <-Heq. by apply list_elem_of_fmap_2.
      * apply (Hseen y); [by right|done].
    + intros pre rest. unfold sbind. pose proof (codec_sound _ _ _ (Hc seen) pre rest) as Hs.
      destruct (c seen _) as [[x|e|ft] r]; [|done..].
      destruct Hs as ([Hx Hxs] & rest1 & -> & ->).
      pose proof (codec_sound _ _ _ (IH ({[key x]} ∪ seen)) (pre ++ enc x) rest1) as Hs2.
      destruct (loop n _ _) as [[l|e|ft] r2]; [|done..].
      destruct Hs2 as ((Hl & Hok & Hnd & Hseen) & rest2 & -> & ->). unfold sret.
      change (concat (enc <$> x :: l)) with (enc x ++ concat (enc <$> l)).
      split; [|exists rest2; by rewrite <-!app_assoc].
      split_and!; [by cbn; rewrite Hl|by constructor| |].
      * constructor; [|done]. intros (y & Heq & Hy)%list_elem_of_fmap.
        apply (Hseen y Hy). set_solver.
      * intros y [->|Hy]%elem_of_cons; [done|]. specialize (Hseen y Hy). set_solver.
Qed.
End Distinct.
