(* ===== verification/PayloadProofs.v ===== *)
(** * The payload decoder accepts exactly the encoded payloads

    [payload_bytes] is the frame format as an encoder; the decoder is shown
    to invert it with the codecs of its parts. *)

From S2P Require Import Prelude Status ByteIo Types Schema RowStorage RowSafety RowProofs.
From S2P Require Import RowListProofs Payload Codec.

(** ** Values *)

Definition wire_kind (v : DecodedValue) : WireKind.t :=
  match v with
  | VMonostate => WireKind.kNull
  | VScalar (SInt8 _) => WireKind.kInt8
  | VScalar (SInt32 _) => WireKind.kInt32
  | VScalar (SInt64 _) => WireKind.kInt64
  | VScalar (SUInt64 _) => WireKind.kUInt64
  | VScalar (SBool _) => WireKind.kBool
  | VScalar (SString _) => WireKind.kString
  | VList (LInt8 _) => WireKind.kInt8List
  | VList (LInt32 _) => WireKind.kInt32List
  | VList (LInt64 _) => WireKind.kInt64List
  | VList (LUInt64 _) => WireKind.kUInt64List
  | VList (LBool _) => WireKind.kBoolList
  | VList (LString _) => WireKind.kStringList
  end.

Definition bool_bytes (b : bool) : list byte := [byte_of_Z (bool_word b)].
Definition string_bytes (s : cpp_string) : list byte := count_bytes s ++ s.

(** The bytes of a value in a frame. *)
Definition value_bytes (v : DecodedValue) : list byte :=
  match v with
  | VMonostate => []
  | VScalar (SInt8 w) => int_bytes int8_t w
  | VScalar (SInt32 w) => int_bytes int32_t w
  | VScalar (SInt64 w) => int_bytes int64_t w
  | VScalar (SUInt64 w) => int_bytes uint64_t w
  | VScalar (SBool b) => bool_bytes b
  | VScalar (SString s) => s
  | VList (LInt8 ws) => count_bytes ws ++ words_bytes int8_t ws
  | VList (LInt32 ws) => count_bytes ws ++ words_bytes int32_t ws
  | VList (LInt64 ws) => count_bytes ws ++ words_bytes int64_t ws
  | VList (LUInt64 ws) => count_bytes ws ++ words_bytes uint64_t ws
  | VList (LBool bs) => count_bytes bs ++ concat (bool_bytes <$> bs)
  | VList (LString ss) => count_bytes ss ++ concat (string_bytes <$> ss)
  end.

Definition words_ok (t : int_type) (ws : list Z) : Prop :=
  is_u32 (Zlen ws) ∧ Forall (in_int_range t) ws.

(** The values their C++ types can hold, with 32-bit counts. *)
Definition value_ok (v : DecodedValue) : Prop :=
  match v with
  | VMonostate | VScalar (SBool _) | VScalar (SString _) => True
  | VScalar (SInt8 w) => in_int_range int8_t w
  | VScalar (SInt32 w) => in_int_range int32_t w
  | VScalar (SInt64 w) => in_int_range int64_t w
  | VScalar (SUInt64 w) => in_int_range uint64_t w
  | VList (LInt8 ws) => words_ok int8_t ws
  | VList (LInt32 ws) => words_ok int32_t ws
  | VList (LInt64 ws) => words_ok int64_t ws
  | VList (LUInt64 ws) => words_ok uint64_t ws
  | VList (LBool bs) => is_u32 (Zlen bs)
  | VList (LString ss) => is_u32 (Zlen ss) ∧ Forall (λ s, is_u32 (Zlen s)) ss
  end.

(** [f] reads exactly the encodings of the values [P]. *)
Definition inverts {A} (f : list byte → StatusOr A) (P : A → Prop) (enc : A → list byte) : Prop :=
  (∀ a, P a → f (enc a) = Ok a)
  ∧ ∀ bs, match f bs with
          | Ok a => P a ∧ bs = enc a | Err _ => True | Fault _ => False
          end.

Lemma ReadExactInteger_inverts t :
  (0 < it_size t)%nat → inverts (ReadExactInteger t) (in_int_range t) (int_bytes t).
Proof.
  intros Ht. split.
  - intros v Hv. unfold ReadExactInteger, Zlen. rewrite length_int_bytes, Z.eqb_refl. simpl negb.
    cbv iota. rewrite ReadLittleEndian_in by (unfold Zlen; rewrite ?length_int_bytes; lia).
    unfold slice. rewrite drop_0, take_ge by (by rewrite length_int_bytes).
    unfold int_bytes. by rewrite le_word_back.
  - intros bs. unfold ReadExactInteger.
    destruct (Z.eqb_spec (Zlen bs) (Z.of_nat (it_size t))) as [Hl|]; [|done]. simpl negb.
    cbv iota. rewrite ReadLittleEndian_in by lia.
    unfold Zlen in Hl. unfold slice. rewrite drop_0, take_ge by lia. split.
    + apply of_unsigned_range; [done|]. unfold it_modulus. rewrite <-Hl. apply le_value_bound.
    + symmetry. apply int_bytes_of_unsigned; [done|lia].
Qed.

Lemma int_bytes_uint8 v : int_bytes uint8_t v = [byte_of_Z v].
Proof. unfold int_bytes, to_unsigned, it_modulus. cbn. unfold le_bytes. by rewrite byte_of_Z_mod. Qed.

(** A word of at most one is the word of a boolean. *)
Lemma bool_word_of v : 0 ≤ v ≤ 1 → bool_word (negb (v =? 0)) = v.
Proof. intros. destruct (Z.eqb_spec v 0); simpl; lia. Qed.

Lemma bool_word_negb b : negb (bool_word b =? 0) = b.
Proof. by destruct b. Qed.

Lemma ReadBool_inverts : inverts ReadBool (λ _, True) bool_bytes.
Proof.
  destruct (ReadExactInteger_inverts uint8_t ltac:(simpl; lia)) as [Hc Hs]. split.
  - intros b _. unfold ReadBool, bool_bytes. rewrite <-int_bytes_uint8, Hc.
    + simpl. by destruct b.
    + destruct b; unfold in_int_range, it_modulus; simpl; lia.
  - intros bs. unfold ReadBool. specialize (Hs bs).
    destruct (ReadExactInteger uint8_t bs) as [v|e|f]; [|done..].
    destruct Hs as [Hr ->]. simpl. unfold in_int_range in Hr. simpl in Hr.
    destruct (Z.ltb_spec 1 v); [done|]. split; [done|].
    rewrite int_bytes_uint8. unfold bool_bytes. by rewrite bool_word_of by lia.
Qed.

Lemma codec_bool : codec read_bool_element (λ _, True) bool_bytes.
Proof.
  eapply codec_ext.
  - apply (codec_bind _ _ _ _ bool_word (λ _, True) (λ _, []) codec_uint8).
    intros v Hv. destruct (Z.ltb_spec 1 v).
    + apply codec_err. intros b [Hb _]. destruct b; simpl in Hb; lia.
    + apply codec_ret; [|split; [apply bool_word_of; lia|done]|done].
      intros b [<- _]. by rewrite bool_word_negb.
  - intros b. split; [done|]. split; [|done]. destruct b; simpl; lia.
  - done.
Qed.

Lemma codec_string : codec read_string_element (λ s, is_u32 (Zlen s)) string_bytes.
Proof.
  eapply codec_ext.
  - apply (codec_bind _ _ _ _ Zlen (λ _, True) id (codec_int uint32_t ltac:(simpl; lia))).
    intros n [Hn _]. eapply codec_ext; [by apply codec_bytes| |done].
    intros s. simpl. naive_solver.
  - intros s. rewrite is_u32_range. naive_solver.
  - done.
Qed.

Lemma words_bytes_concat t ws : concat (int_bytes t <$> ws) = words_bytes t ws.
Proof. done. Qed.

Lemma ReadScalarList_inverts t :
  (0 < it_size t)%nat →
  inverts (ReadScalarList t) (words_ok t) (λ ws, count_bytes ws ++ words_bytes t ws).
Proof.
  intros Ht. apply read_from_fills. apply counted_list. intros n Hn.
  apply (sized_list (ReadInteger t) (in_int_range t) (int_bytes t) (Z.of_nat (it_size t)));
    [by apply codec_int| |done..].
  intros w Hw. unfold Zlen. by rewrite length_int_bytes.
Qed.

Lemma ReadBoolList_inverts :
  inverts ReadBoolList (λ bs, is_u32 (Zlen bs)) (λ bs, count_bytes bs ++ concat (bool_bytes <$> bs)).
Proof.
  apply read_from_fills. eapply fills_ext.
  - apply (counted_list (λ _, True)). intros n Hn.
    apply (sized_list _ (λ _, True) bool_bytes 1); [apply codec_bool|done|done|lia].
  - intros bs. split; [by intros [? _]|]. intros ?. split; [done|]. by apply Forall_true.
  - done.
Qed.

Lemma ReadStringList_inverts :
  inverts ReadStringList (λ ss, is_u32 (Zlen ss) ∧ Forall (λ s, is_u32 (Zlen s)) ss)
    (λ ss, count_bytes ss ++ concat (string_bytes <$> ss)).
Proof.
  apply read_from_fills. apply counted_list. intros n Hn.
  exact (fills_end _ _ _ _ id id (codec_times _ _ _ _ codec_string)
           (λ _, eq_refl) (λ _, eq_refl)).
Qed.

Lemma ToDecodedValue_inverts {A} (f : list byte → StatusOr A) P enc (mk : A → DecodedValue) bs :
  inverts f P enc →
  match ToDecodedValue mk (f bs) with
  | Ok v => ∃ a, v = mk a ∧ P a ∧ bs = enc a
  | Err _ => True
  | Fault _ => False
  end.
Proof.
  intros [_ Hs]. specialize (Hs bs). unfold ToDecodedValue.
  destruct (f bs) as [a|e|ft]; [|done..]. simpl. exists a. naive_solver.
Qed.

Lemma DecodeValue_complete v : value_ok v → DecodeValue (Some (wire_kind v)) (value_bytes v) = Ok v.
Proof.
  assert (∀ t w, (0 < it_size t)%nat → in_int_range t w →
    ReadExactInteger t (int_bytes t w) = Ok w) as Hint.
  { intros t w Ht. apply (ReadExactInteger_inverts t Ht). }
  assert (∀ t ws, (0 < it_size t)%nat → words_ok t ws →
    ReadScalarList t (count_bytes ws ++ words_bytes t ws) = Ok ws) as Hlist.
  { intros t w Ht. apply (ReadScalarList_inverts t Ht). }
  destruct v as [|[w|w|w|w|b|s]|[ws|ws|ws|ws|bs|ss]];
    cbn [value_ok wire_kind value_bytes DecodeValue]; intros H; try done; unfold ToDecodedValue.
  1-4: by rewrite Hint by (done || simpl; lia).
  - by rewrite (proj1 ReadBool_inverts).
  - by rewrite Hlist by (done || simpl; lia).
  - by rewrite Hlist by (done || simpl; lia).
  - by rewrite Hlist by (done || simpl; lia).
  - by rewrite Hlist by (done || simpl; lia).
  - by rewrite (proj1 ReadBoolList_inverts).
  - by rewrite (proj1 ReadStringList_inverts).
Qed.

Lemma DecodeValue_sound k bs :
  match DecodeValue k bs with
  | Ok v => k = Some (wire_kind v) ∧ value_ok v ∧ bs = value_bytes v
  | Err _ => True
  | Fault _ => False
  end.
Proof.
  assert (∀ t mk, (0 < it_size t)%nat →
    match ToDecodedValue mk (ReadExactInteger t bs) with
    | Ok v => ∃ a, v = mk a ∧ in_int_range t a ∧ bs = int_bytes t a
    | Err _ => True | Fault _ => False end) as Hint.
  { intros. by apply ToDecodedValue_inverts, ReadExactInteger_inverts. }
  assert (∀ t mk, (0 < it_size t)%nat →
    match ToDecodedValue mk (ReadScalarList t bs) with
    | Ok v => ∃ a, v = mk a ∧ words_ok t a ∧ bs = count_bytes a ++ words_bytes t a
    | Err _ => True | Fault _ => False end) as Hlist.
  { intros t mk Ht. by apply ToDecodedValue_inverts, ReadScalarList_inverts. }
  pose proof (λ mk, ToDecodedValue_inverts _ _ _ mk bs ReadBool_inverts) as Hbool.
  pose proof (λ mk, ToDecodedValue_inverts _ _ _ mk bs ReadBoolList_inverts) as Hbools.
  pose proof (λ mk, ToDecodedValue_inverts _ _ _ mk bs ReadStringList_inverts) as Hstrings.
  destruct k as [[]|]; simpl DecodeValue; try done; [by destruct bs|..];
    (match goal with
     | |- match ToDecodedValue ?mk (ReadExactInteger ?t bs) with _ => _ end =>
         pose proof (Hint t mk ltac:(simpl; lia)) as H
     | |- match ToDecodedValue ?mk (ReadScalarList ?t bs) with _ => _ end =>
         pose proof (Hlist t mk ltac:(simpl; lia)) as H
     | |- match ToDecodedValue ?mk (ReadBool bs) with _ => _ end => pose proof (Hbool mk) as H
     | |- match ToDecodedValue ?mk (ReadBoolList bs) with _ => _ end => pose proof (Hbools mk) as H
     | |- match ToDecodedValue ?mk (ReadStringList bs) with _ => _ end =>
         pose proof (Hstrings mk) as H
     end; destruct (ToDecodedValue _ _); [|done..]; destruct H as (x & -> & Hx & Hb); done).
Qed.

(** ** Fields and payloads *)

Definition kind_byte (k : WireKind.t) : list byte := [byte_of_Z (WireKind.value k)].

Definition decoded_field_bytes (f : DecodedField) : list byte :=
  int_bytes uint32_t (decoded_id f) ++ kind_byte (decoded_kind f)
    ++ string_bytes (value_bytes (decoded_value f)).

Record field_ok (f : DecodedField) : Prop := {
  fo_id : is_u32 (decoded_id f);
  fo_kind : decoded_kind f = wire_kind (decoded_value f);
  fo_value : value_ok (decoded_value f);
  fo_size : is_u32 (Zlen (value_bytes (decoded_value f)));
}.

Record payload_ok (p : DecodedPayload) : Prop := {
  po_count : is_u32 (Zlen (payload_fields p));
  po_fields : Forall field_ok (payload_fields p);
  po_ids : NoDup (decoded_id <$> payload_fields p);
}.

(** The frame: magic, version 1, no flags, the field count, the fields. *)
Definition payload_bytes (p : DecodedPayload) : list byte :=
  kMagic ++ int_bytes uint16_t 1 ++ int_bytes uint16_t 0 ++ count_bytes (payload_fields p)
    ++ concat (decoded_field_bytes <$> payload_fields p).

Lemma of_value_kind k : WireKind.of_value (WireKind.value k) = Some k.
Proof. by destruct k. Qed.

Lemma kind_of_value v k : WireKind.of_value v = Some k → WireKind.value k = v.
Proof.
  unfold WireKind.of_value. intros ([i k'] & (_ & H & _)%list_find_Some & [= <-])%bind_Some.
  done.
Qed.

(** Decoding the bytes of a field, once they are read. *)
Lemma codec_value id kb bs :
  codec (do* value := slift (DecodeValue (WireKind.of_value kb) bs) in
         sret (MkDecodedField id (default WireKind.kNull (WireKind.of_value kb)) value))
    (λ f, value_bytes (decoded_value f) = bs ∧ WireKind.value (decoded_kind f) = kb
          ∧ decoded_id f = id ∧ decoded_kind f = wire_kind (decoded_value f)
          ∧ value_ok (decoded_value f)) (λ _, []).
Proof.
  split.
  - intros pre [i k v] rest. cbn [decoded_value decoded_kind decoded_id].
    intros (<- & <- & <- & -> & Hv). unfold slift, sbind, sret.
    rewrite of_value_kind, DecodeValue_complete by done. by rewrite app_nil_r.
  - intros pre rest. unfold slift, sbind, sret.
    pose proof (DecodeValue_sound (WireKind.of_value kb) bs) as Hs.
    destruct (DecodeValue _ bs) as [v|e|f]; [|done..]. destruct Hs as (Hk & Hv & ->).
    rewrite Hk. cbn [default decoded_value decoded_kind decoded_id].
    split; [split_and!; [done|by apply kind_of_value|done..]|].
    exists rest. by rewrite app_nil_r.
Qed.

Lemma codec_field seen :
  codec (decode_field seen) (λ f, field_ok f ∧ decoded_id f ∉ seen) decoded_field_bytes.
Proof.
  eapply codec_ext.
  - apply (codec_bind _ _ _ _ decoded_id
      (λ f, field_ok f ∧ decoded_id f ∉ seen)
      (λ f, kind_byte (decoded_kind f) ++ string_bytes (value_bytes (decoded_value f)))
      (codec_int uint32_t ltac:(simpl; lia))).
    intros id Hid. destruct (decide (id ∈ seen)) as [Hin|Hni].
    { apply codec_err. by intros f (<- & _ & ?). }
    eapply codec_ext.
    + apply (codec_bind _ _ _ _ (λ f, WireKind.value (decoded_kind f))
        (λ f, decoded_id f = id ∧ field_ok f)
        (λ f, string_bytes (value_bytes (decoded_value f))) codec_uint8).
      intros kb Hkb. eapply codec_ext.
      * apply (codec_bind _ _ _ _ (λ f, Zlen (value_bytes (decoded_value f)))
          (λ f, WireKind.value (decoded_kind f) = kb ∧ decoded_id f = id ∧ field_ok f)
          (λ f, value_bytes (decoded_value f)) (codec_int uint32_t ltac:(simpl; lia))).
        intros n [Hn Hn']. eapply codec_ext.
        -- apply (codec_bind _ _ _ _ (λ f, value_bytes (decoded_value f))
             (λ f, WireKind.value (decoded_kind f) = kb ∧ decoded_id f = id ∧ field_ok f)
             (λ _, []) (codec_bytes n Hn)).
           intros bs Hbs. eapply codec_ext; [apply codec_value| |done].
           intros f. split.
           ++ intros (H1 & H2 & H3 & H4 & H5). split_and!; try done.
              split; [by rewrite H3|done..|]. rewrite H1, Hbs. done.
           ++ intros (H1 & H2 & H3 & [_ H4 H5 _]). done.
        -- intros f. simpl. naive_solver.
        -- intros f _. apply app_nil_r.
      * intros f. simpl. split; [naive_solver|]. intros (H1 & H2 & H3). split_and!; try done.
        apply is_u32_range. apply H3.
      * done.
    + intros f. simpl. split; [naive_solver|]. intros (H1 & H2 & H3).
      split_and!; try done; by destruct (decoded_kind f).
    + done.
  - intros f. simpl. split; [naive_solver|]. intros [H1 H2]. split_and!; try done.
    apply is_u32_range. apply H1.
  - done.
Qed.

Lemma codec_fields n seen :
  codec (decode_fields n seen)
    (λ fs, length fs = n ∧ Forall field_ok fs ∧ NoDup (decoded_id <$> fs)
           ∧ ∀ f, f ∈ fs → decoded_id f ∉ seen)
    (λ fs, concat (decoded_field_bytes <$> fs)).
Proof. by apply (codec_distinct decoded_id decode_field); [..|apply codec_field]. Qed.

(** What follows the magic. *)
Definition body_bytes (p : DecodedPayload) : list byte :=
  int_bytes uint16_t 1 ++ int_bytes uint16_t 0 ++ count_bytes (payload_fields p)
    ++ concat (decoded_field_bytes <$> payload_fields p).

(** A word that must have one value. *)
Lemma fills_word {A} t w e (k : reader A) P enc :
  (0 < it_size t)%nat → in_int_range t w → fills k P enc →
  fills (do* v := ReadInteger t in if negb (v =? w) then serr e else k) P
    (λ a, int_bytes t w ++ enc a).
Proof.
  intros Ht Hw Hk. eapply fills_ext.
  - apply (fills_bind _ _ _ _ (λ _, w) P enc (codec_int t Ht)).
    intros v Hv. destruct (Z.eqb_spec v w) as [->|Hne]; cbn [negb].
    + eapply fills_ext; [exact Hk|naive_solver|done].
    + apply fills_err. naive_solver.
  - naive_solver.
  - done.
Qed.

Lemma decode_body_fills : fills decode_body payload_ok body_bytes.
Proof.
  unfold decode_body, kWireVersion, body_bytes.
  apply fills_word; [simpl; lia|unfold in_int_range, it_modulus; simpl; lia|].
  apply fills_word; [simpl; lia|unfold in_int_range, it_modulus; simpl; lia|].
  eapply fills_ext.
  - apply (fills_bind _ _ _ _ (λ p, Zlen (payload_fields p)) payload_ok
      (λ p, concat (decoded_field_bytes <$> payload_fields p)) (codec_int uint32_t ltac:(simpl; lia))).
    intros n Hn%is_u32_range. eapply fills_ext.
    + exact (fills_end _ _ _ _ MkDecodedPayload payload_fields
        (codec_fields (Z.to_nat n) ∅) (λ _, eq_refl)
        (λ p, match p with MkDecodedPayload _ => eq_refl end)).
    + intros p. unfold compose, Zlen, is_u32 in *. split.
      * intros (Hl & Hok & Hnd & _). split; [lia|]. split; [|done..].
        unfold is_u32, Zlen. lia.
      * intros (<- & [_ Hok Hnd]). split_and!; [lia|done..|]. intros f _. set_solver.
    + done.
  - intros p. split; [naive_solver|]. intros Hp. split; [|done]. apply is_u32_range, Hp.
  - done.
Qed.

Lemma decode_complete p : payload_ok p → DecodePayload (payload_bytes p) = Ok p.
Proof.
  intros Hp. destruct (read_from_fills _ _ _ decode_body_fills) as [Hc _].
  unfold DecodePayload. change (payload_bytes p) with (kMagic ++ body_bytes p).
  rewrite Zlen_app. unfold body_bytes at 1. rewrite !Zlen_app. unfold count_bytes at 1.
  unfold Zlen at 1 2 3 4. rewrite !length_int_bytes.
  pose proof (Zlen_nonneg (concat (decoded_field_bytes <$> payload_fields p))).
  rewrite (proj2 (Z.ltb_ge _ _)) by (simpl; lia).
  rewrite bool_decide_true by done. apply Hc, Hp.
Qed.

Lemma decode_sound bytes p :
  DecodePayload bytes = Ok p → payload_ok p ∧ bytes = payload_bytes p.
Proof.
  destruct (read_from_fills _ _ _ decode_body_fills) as [_ Hs].
  unfold DecodePayload. case_match eqn:Hg; [done|]. apply orb_false_iff in Hg as [_ Hm].
  apply negb_false_iff, bool_decide_eq_true in Hm. intros E.
  specialize (Hs (drop 4 bytes)). rewrite E in Hs. destruct Hs as [Hp Hd]. split; [done|].
  by rewrite <-(take_drop 4 bytes), Hm, Hd.
Qed.

Lemma decode_no_fault bytes : no_fault (DecodePayload bytes).
Proof.
  destruct (read_from_fills _ _ _ decode_body_fills) as [_ Hs].
  unfold DecodePayload. case_match; [done|].
  specialize (Hs (drop 4 bytes)). by destruct (read_from decode_body (drop 4 bytes)).
Qed.

(** *** C7: The payload decoder accepts exactly the encoded payloads.

    Every payload (distinct 32-bit field ids, values their types can hold, no
    more than [2^32 - 1] bytes per field) is decoded from its frame to
    itself.  Conversely, whatever bytes a message carries, the decoder never
    reads outside them, and when it accepts them they are the frame of the
    payload it returns, byte for byte: no truncated, padded, duplicated or
    otherwise malformed frame is accepted. *)
Theorem DecodePayload_iff_encoded :
  (∀ p, payload_ok p → DecodePayload (payload_bytes p) = Ok p)
  ∧ ∀ bytes,
      match DecodePayload bytes with
      | Ok p => payload_ok p ∧ bytes = payload_bytes p
      | Err _ => ¬ ∃ p, payload_ok p ∧ bytes = payload_bytes p
      | Fault _ => False
      end.
Proof.
  split; [apply decode_complete|]. intros bytes.
  pose proof (decode_no_fault bytes) as Hnf. pose proof (decode_sound bytes) as Hs.
  destruct (DecodePayload bytes) as [p|e|f] eqn:E; [by apply Hs| |done].
  intros (p & Hp & ->). by rewrite decode_complete in E.
Qed.
