(* ===== verification/Kafka.v ===== *)
(** * Kafka messages and the consumer

    The data of [include/kv_index/types.h] that names positions in topics, and
    [src/ingest/kafka_update_consumer.{h,cc}].  [KafkaClient] is the abstract
    class [KafkaUpdateConsumerClient]; [KafkaUpdateConsumer] checks what goes
    to a client and what comes from it.  The client over librdkafka calls the
    functions of that library, which are the parameters [Librdkafka]; its
    allocations are taken to succeed. *)

From S2P Require Import Prelude Status Types.

#[export] Instance byte_countable : Countable byte :=
  inj_countable' byte_to_Z byte_of_Z byte_of_to_Z.

(** ** Data *)

Record KafkaConsumerConfig : Type := MkKafkaConsumerConfig {
  bootstrap_servers : cpp_string;
  group_id : cpp_string;
  topics : list cpp_string;
}.

Record KafkaPartition : Type := MkKafkaPartition {
  partition_topic : cpp_string;
  partition_number : Z;
}.

Record KafkaPosition : Type := MkKafkaPosition {
  position_partition : KafkaPartition;
  position_offset : Z;
}.

Record KafkaMessageMetadata : Type := MkKafkaMessageMetadata {
  metadata_partition : KafkaPartition;
  metadata_offset : Z;
  metadata_key : cpp_string;
  timestamp_millis : Z;
}.

Record KafkaUpsertMessage : Type := MkKafkaUpsertMessage {
  message_metadata : KafkaMessageMetadata;
  message_primary_key : Z;
  message_payload : list byte;
}.

Record KafkaCheckpoint : Type := MkKafkaCheckpoint { next_offsets : list KafkaPosition }.

Record KafkaPartitionProgress : Type := MkKafkaPartitionProgress {
  progress_partition : KafkaPartition;
  committed_next_offset : Z;
  high_watermark : Z;
  lag : Z;
}.

Record KafkaProgress : Type := MkKafkaProgress { progress_partitions : list KafkaPartitionProgress }.

Record PollOptions : Type := MkPollOptions { timeout_ms : Z; max_messages : Z }.

Definition message_topic (m : KafkaUpsertMessage) : cpp_string :=
  partition_topic (metadata_partition (message_metadata m)).
Definition message_partition (m : KafkaUpsertMessage) : Z :=
  partition_number (metadata_partition (message_metadata m)).
Definition message_offset (m : KafkaUpsertMessage) : Z := metadata_offset (message_metadata m).

(** [PartitionKey]: topic and partition. *)
Definition PartitionKey : Type := cpp_string * Z.

#[export] Instance PartitionKey_eq_dec : EqDecision PartitionKey.
Proof. unfold PartitionKey. apply _. Defined.
#[export] Instance PartitionKey_countable : Countable PartitionKey.
Proof. unfold PartitionKey. apply _. Defined.

Definition partition_key (p : KafkaPartition) : PartitionKey :=
  (partition_topic p, partition_number p).

(** ** Checks *)

Definition check_topic (seen : gset cpp_string) (topic : cpp_string)
    : StatusOr (gset cpp_string) :=
  match topic with
  | [] => InvalidArgument "kafka topic must not be empty"
  | _ => if decide (topic ∈ seen)
         then InvalidArgument "kafka topics must not contain duplicates"
         else Ok ({[topic]} ∪ seen)
  end.

Definition ValidateConfig (config : KafkaConsumerConfig) : StatusM :=
  if bool_decide (bootstrap_servers config = []) then
    InvalidArgument "kafka bootstrap servers must not be empty"
  else if bool_decide (group_id config = []) then
    InvalidArgument "kafka group id must not be empty"
  else if bool_decide (topics config = []) then
    InvalidArgument "kafka topics must not be empty"
  else let* _ := ofold check_topic (topics config) ∅ in Ok tt.

Definition ValidatePollOptions (options : PollOptions) : StatusM :=
  if timeout_ms options <? 0 then InvalidArgument "poll timeout must not be negative"
  else if max_messages options =? 0 then InvalidArgument "poll max_messages must be positive"
  else Ok tt.

Definition ValidatePartition (partition : KafkaPartition) : StatusM :=
  if bool_decide (partition_topic partition = []) then
    InvalidArgument "kafka partition topic must not be empty"
  else if partition_number partition <? 0 then
    InvalidArgument "kafka partition id must not be negative"
  else Ok tt.

Definition ValidateMessage (message : KafkaUpsertMessage) : StatusM :=
  let* _ := ValidatePartition (metadata_partition (message_metadata message)) in
  if metadata_offset (message_metadata message) <? 0 then
    InvalidArgument "kafka message offset must not be negative"
  else Ok tt.

Definition check_position (seen : gset PartitionKey) (position : KafkaPosition)
    : StatusOr (gset PartitionKey) :=
  let* _ := ValidatePartition (position_partition position) in
  if position_offset position <? 0 then
    InvalidArgument "kafka checkpoint offset must not be negative"
  else
  let key := partition_key (position_partition position) in
  if decide (key ∈ seen)
  then InvalidArgument "kafka checkpoint contains duplicate topic partition"
  else Ok ({[key]} ∪ seen).

Definition ValidateCheckpoint (checkpoint : KafkaCheckpoint) : StatusM :=
  match next_offsets checkpoint with
  | [] => InvalidArgument "kafka checkpoint must not be empty"
  | positions => let* _ := ofold check_position positions ∅ in Ok tt
  end.

Definition check_progress (seen : gset PartitionKey) (p : KafkaPartitionProgress)
    : StatusOr (gset PartitionKey) :=
  let* _ := ValidatePartition (progress_partition p) in
  if (committed_next_offset p <? 0) || (high_watermark p <? 0) || (lag p <? 0) then
    InvalidArgument "kafka progress offsets and lag must not be negative"
  else
  let key := partition_key (progress_partition p) in
  if decide (key ∈ seen)
  then InvalidArgument "kafka progress contains duplicate topic partition"
  else Ok ({[key]} ∪ seen).

Definition ValidateProgress (progress : KafkaProgress) : StatusM :=
  let* _ := ofold check_progress (progress_partitions progress) ∅ in Ok tt.

(** ** The consumer over a client *)

Class KafkaClient (C : Type) : Type := {
  client_Poll : PollOptions → stateful C Status (list KafkaUpsertMessage);
  client_Seek : KafkaCheckpoint → stateful C Status unit;
  client_Progress : stateful C Status KafkaProgress;
  client_Commit : KafkaCheckpoint → stateful C Status unit;
}.

Record KafkaUpdateConsumer (C : Type) : Type := MkKafkaUpdateConsumer {
  config_ : KafkaConsumerConfig;
  client_ : option C;
}.
Arguments MkKafkaUpdateConsumer {C} config_ client_.
Arguments config_ {C} k.
Arguments client_ {C} k.

Section Consumer.
Context {C : Type} `{KafkaClient C}.

Definition CreateForTesting (config : KafkaConsumerConfig) (client : option C)
    : StatusOr (KafkaUpdateConsumer C) :=
  let* _ := ValidateConfig config in
  match client with
  | None => InvalidArgument "kafka update consumer client is null"
  | Some _ => Ok (MkKafkaUpdateConsumer config client)
  end.

(** [client_->method()], after the null check. *)
Definition with_client {A} (method : stateful C Status A)
    : stateful (KafkaUpdateConsumer C) Status A := λ k,
  match client_ k with
  | None => (FailedPrecondition "kafka update consumer has no client", k)
  | Some c => let '(r, c') := method c in (r, MkKafkaUpdateConsumer (config_ k) (Some c'))
  end.

Definition Consumer_Poll (options : PollOptions)
    : stateful (KafkaUpdateConsumer C) Status (list KafkaUpsertMessage) :=
  do* _ := slift (ValidatePollOptions options) in
  do* batch := with_client (client_Poll options) in
  do* _ := slift (ofold (λ _, ValidateMessage) batch tt) in
  sret batch.

Definition Consumer_Seek (checkpoint : KafkaCheckpoint)
    : stateful (KafkaUpdateConsumer C) Status unit :=
  do* _ := slift (ValidateCheckpoint checkpoint) in
  with_client (client_Seek checkpoint).

Definition Consumer_Progress : stateful (KafkaUpdateConsumer C) Status KafkaProgress :=
  do* progress := with_client client_Progress in
  do* _ := slift (ValidateProgress progress) in
  sret progress.

Definition Consumer_Commit (checkpoint : KafkaCheckpoint)
    : stateful (KafkaUpdateConsumer C) Status unit :=
  do* _ := slift (ValidateCheckpoint checkpoint) in
  with_client (client_Commit checkpoint).
End Consumer.

(** ** The client over librdkafka *)

(** [std::from_chars(key, key + size, uint64)]: the value of the longest
    prefix of digits and what follows it, or an error without digits or out of
    range. *)
Definition digit_value (b : byte) : option Z :=
  let v := byte_to_Z b - 48 in
  if (0 <=? v) && (v <=? 9) then Some v else None.

Fixpoint digits_prefix (s : list byte) : list Z * list byte :=
  match s with
  | [] => ([], [])
  | b :: s' =>
      match digit_value b with
      | None => ([], s)
      | Some d => let '(ds, rest) := digits_prefix s' in (d :: ds, rest)
      end
  end.

Definition digits_value (ds : list Z) : Z := foldl (λ v d, v * 10 + d) 0 ds.

Definition from_chars_u64 (s : list byte) : option (Z * list byte) :=
  let '(ds, rest) := digits_prefix s in
  match ds with
  | [] => None
  | _ => if u64_max <? digits_value ds then None else Some (digits_value ds, rest)
  end.

Definition ParsePrimaryKey (key : cpp_string) : StatusOr Z :=
  match key with
  | [] => InvalidArgument "kafka upsert key is empty"
  | _ =>
      match from_chars_u64 key with
      | Some (primary_key, []) => Ok primary_key
      | _ => InvalidArgument "kafka upsert key must be an unsigned decimal primary key"
      end
  end.

(** [rd_kafka_message_t]: an error code, or a record of the log; [rkt] is the
    name of its topic. *)
Inductive rd_kafka_error : Type :=
| RD_NO_ERROR
| RD_PARTITION_EOF
| RD_OTHER_ERROR (text : string).

Record rd_kafka_message : Type := MkRdMessage {
  rd_err : rd_kafka_error;
  rd_rkt : option cpp_string;
  rd_partition : Z;
  rd_offset : Z;
  rd_key : list byte;
  rd_payload : list byte;
}.

Definition ConvertMessage (message : rd_kafka_message) : StatusOr KafkaUpsertMessage :=
  match rd_rkt message with
  | None => InvalidArgument "kafka message has no topic"
  | Some topic =>
      if (rd_partition message <? 0) || (rd_offset message <? 0) then
        InvalidArgument "kafka message position is invalid"
      else
      let* primary_key := ParsePrimaryKey (rd_key message) in
      Ok (MkKafkaUpsertMessage
            (MkKafkaMessageMetadata (MkKafkaPartition topic (rd_partition message))
               (rd_offset message) (rd_key message) 0)
            primary_key (rd_payload message))
  end.

(** A topic partition of librdkafka's lists. *)
Record rd_topic_partition : Type := MkRdTopicPartition {
  tp_topic : cpp_string;
  tp_partition : Z;
  tp_offset : Z;
  tp_err : option string;
}.

(** A text copied from a C string stops at the first NUL. *)
Fixpoint c_str (s : cpp_string) : cpp_string :=
  match s with
  | [] => []
  | b :: s' => if bool_decide (b = Byte.x00) then [] else b :: c_str s'
  end.

(** The functions of librdkafka on a consumer [R]; an error is its text. *)
Class Librdkafka (R Conf : Type) : Type := {
  rd_kafka_conf_new : Conf;
  rd_kafka_conf_set : Conf → string → cpp_string → string + Conf;
  rd_kafka_new : Conf → string + R;
  rd_kafka_poll_set_consumer : R → option string * R;
  rd_kafka_subscribe : list cpp_string → R → option string * R;
  rd_kafka_consumer_poll : Z → R → option rd_kafka_message * R;
  rd_kafka_seek_partitions : list rd_topic_partition → R → option string * R;
  rd_kafka_commit : list rd_topic_partition → R → option string * R;
  rd_kafka_assignment : R → (string + option (list rd_topic_partition)) * R;
  rd_kafka_committed : list rd_topic_partition → R → (string + list rd_topic_partition) * R;
  rd_kafka_query_watermark_offsets : cpp_string → Z → R → (string + Z * Z) * R;
}.

Section Librdkafka.
Context {R Conf : Type} `{Librdkafka R Conf}.

(** The loop of [LibrdkafkaUpdateConsumerClient::Poll], [n] rounds left. *)
Fixpoint poll_loop (timeout : Z) (n : nat) (messages : list KafkaUpsertMessage)
    : stateful R Status (list KafkaUpsertMessage) := λ r,
  match n with
  | O => (Ok messages, r)
  | S n' =>
      let timeout_ms := match messages with [] => timeout | _ => 0 end in
      let '(raw_message, r') := rd_kafka_consumer_poll timeout_ms r in
      match raw_message with
      | None => (Ok messages, r')
      | Some message =>
          match rd_err message with
          | RD_PARTITION_EOF => poll_loop timeout n' messages r'
          | RD_OTHER_ERROR text => (Unavailable ("kafka poll failed: " +:+ text), r')
          | RD_NO_ERROR =>
              match ConvertMessage message with
              | Ok converted => poll_loop timeout n' (messages ++ [converted]) r'
              | Err e => (Err e, r')
              | Fault f => (Fault f, r')
              end
          end
      end
  end.

Definition Librdkafka_Poll (options : PollOptions) : stateful R Status (list KafkaUpsertMessage) :=
  poll_loop (timeout_ms options) (Z.to_nat (max_messages options)) [].

(** A call that can fail: [Unavailable] with the library's text. *)
Definition rd_call (what : string) (f : R → option string * R) : stateful R Status unit := λ r,
  let '(error, r') := f r in
  match error with
  | Some text => (Unavailable (what +:+ text), r')
  | None => (Ok tt, r')
  end.

Definition rd_query {A} (what : string) (f : R → (string + A) * R) : stateful R Status A := λ r,
  let '(res, r') := f r in
  match res with
  | inl text => (Unavailable (what +:+ text), r')
  | inr x => (Ok x, r')
  end.

Definition SetKafkaConfig (conf : Conf) (name : string) (value : cpp_string) : StatusOr Conf :=
  match rd_kafka_conf_set conf name (c_str value) with
  | inl error => InvalidArgument ("invalid kafka config " +:+ name +:+ ": " +:+ error)
  | inr conf' => Ok conf'
  end.

Definition consumer_settings (config : KafkaConsumerConfig) : list (string * cpp_string) :=
  [("bootstrap.servers"%string, bootstrap_servers config);
   ("group.id"%string, group_id config);
   ("enable.auto.commit"%string, str "false");
   ("enable.partition.eof"%string, str "true");
   ("auto.offset.reset"%string, str "earliest")].

(** [LibrdkafkaUpdateConsumerClient::Create] *)
Definition Librdkafka_Create (config : KafkaConsumerConfig) : StatusOr R :=
  let* conf := ofold (λ conf nv, SetKafkaConfig conf nv.1 nv.2) (consumer_settings config)
                 rd_kafka_conf_new in
  match rd_kafka_new conf with
  | inl error => Unavailable ("failed to create kafka consumer: " +:+ error)
  | inr consumer =>
      fst ((do* _ := rd_call "failed to configure kafka poll: " rd_kafka_poll_set_consumer in
            do* _ := rd_call "failed to subscribe kafka topics: "
                       (rd_kafka_subscribe (c_str <$> topics config)) in
            λ r, (Ok r, r)) consumer)
  end.

Definition BuildTopicPartitionList (checkpoint : KafkaCheckpoint) : list rd_topic_partition :=
  (λ position,
     MkRdTopicPartition (c_str (partition_topic (position_partition position)))
       (partition_number (position_partition position)) (position_offset position) None)
  <$> next_offsets checkpoint.

Definition Librdkafka_Seek (checkpoint : KafkaCheckpoint) : stateful R Status unit :=
  rd_call "kafka seek failed: " (rd_kafka_seek_partitions (BuildTopicPartitionList checkpoint)).

Definition Librdkafka_Commit (checkpoint : KafkaCheckpoint) : stateful R Status unit :=
  rd_call "kafka commit failed: " (rd_kafka_commit (BuildTopicPartitionList checkpoint)).

(** One round of the loop of [Progress]. *)
Definition partition_progress (p : rd_topic_partition)
    : stateful R Status KafkaPartitionProgress :=
  match tp_err p with
  | Some text => serr (Status_make kUnavailable ("kafka partition progress failed: " +:+ text))
  | None =>
      do* marks := rd_query "kafka watermark query failed: "
                     (rd_kafka_query_watermark_offsets (tp_topic p) (tp_partition p)) in
      let high := marks.2 in
      let committed := if 0 <=? tp_offset p then tp_offset p else 0 in
      sret (MkKafkaPartitionProgress (MkKafkaPartition (tp_topic p) (tp_partition p))
              committed high (if committed <=? high then high - committed else 0))
  end.

Fixpoint partitions_progress (ps : list rd_topic_partition)
    : stateful R Status (list KafkaPartitionProgress) :=
  match ps with
  | [] => sret []
  | p :: ps' =>
      do* e := partition_progress p in
      do* es := partitions_progress ps' in
      sret (e :: es)
  end.

Definition Librdkafka_Progress : stateful R Status KafkaProgress :=
  do* assignment := rd_query "kafka assignment failed: " rd_kafka_assignment in
  match assignment with
  | None | Some [] => sret (MkKafkaProgress [])
  | Some assignment =>
      do* committed := rd_query "kafka committed offsets failed: "
                         (rd_kafka_committed assignment) in
      do* entries := partitions_progress committed in
      sret (MkKafkaProgress entries)
  end.

#[export] Instance librdkafka_client : KafkaClient R := {
  client_Poll := Librdkafka_Poll;
  client_Seek := Librdkafka_Seek;
  client_Progress := Librdkafka_Progress;
  client_Commit := Librdkafka_Commit;
}.

(** [KafkaUpdateConsumer::Create] *)
Definition Create (config : KafkaConsumerConfig) : StatusOr (KafkaUpdateConsumer R) :=
  let* _ := ValidateConfig config in
  let* client := Librdkafka_Create config in
  Ok (MkKafkaUpdateConsumer config (Some client)).
End Librdkafka.
