(* ===== verification/UpdateApplier.v ===== *)
(** * Applying upserts: [src/ingest/update_applier.{h,cc}]

    A decoded payload is encoded once for every target route, against the
    route's layout, and published to the shard of its key; nothing is
    published before every target's row is ready.  Routes may share realtime
    tables: a [shared_ptr] to a table is its index in the store the calls are
    [stateful] in. *)

From S2P Require Import Prelude Status ByteIo Hash Types Schema RowStorage RealtimeDelta Payload.
From S2P Require Import Kafka.

(** ** Writing a decoded value into a row *)

Definition set_string_dictionary (d : list cpp_string) (r : EncodedRow) : EncodedRow :=
  MkEncodedRow (row_schema_version r) (row_layout_fingerprint r) (row_slot r) (arena r)
    d (scalar_list_dictionary r) (string_list_dictionary r) (string_element_dictionary r).

Definition set_scalar_list_dictionary (d : list (list byte)) (r : EncodedRow) : EncodedRow :=
  MkEncodedRow (row_schema_version r) (row_layout_fingerprint r) (row_slot r) (arena r)
    (string_dictionary r) d (string_list_dictionary r) (string_element_dictionary r).

Definition set_string_list_dictionary (d : list (list cpp_string)) (r : EncodedRow) : EncodedRow :=
  MkEncodedRow (row_schema_version r) (row_layout_fingerprint r) (row_slot r) (arena r)
    (string_dictionary r) (scalar_list_dictionary r) d (string_element_dictionary r).

Definition set_string_element_dictionary (d : list cpp_string) (r : EncodedRow) : EncodedRow :=
  MkEncodedRow (row_schema_version r) (row_layout_fingerprint r) (row_slot r) (arena r)
    (string_dictionary r) (scalar_list_dictionary r) (string_list_dictionary r) d.

(** [*encoded] updated by a method that cannot fail. *)
Definition modify_row (f : EncodedRow → EncodedRow) : writer unit := λ p,
  match p with
  | None => (Fault NullDereference, p)
  | Some r => (Ok tt, Some (f r))
  end.

(** The loop over the elements: append the string, write its reference. *)
Fixpoint write_string_refs (refs_offset : Z) (i : nat) (values : list cpp_string) : writer unit :=
  match values with
  | [] => sret tt
  | value :: values' =>
      if u32_max <? Zlen value then
        serr (Status_make kInvalidArgument "string-list element is too large")
      else
      do* r := get_row in
      let value_offset := Zlen (arena r) in
      do* _ := append_arena value in
      do* _ := on_arena (WriteValueRef16 (MkValueRef16 value_offset (wrap32 (Zlen value)) 0)
                           (refs_offset + Z.of_nat i * 16)) in
      write_string_refs refs_offset (S i) values'
  end.

Definition WriteArenaStringListField (field : FieldLayout) (values : list cpp_string)
    : writer unit :=
  do* _ := check_not_null in
  if negb (is_list field) || negb (bool_decide (type field = kString))
     || negb (bool_decide (encoding field = kArena)) then
    serr (Status_make kInvalidArgument "arena string-list writer does not match field")
  else if u32_max <? Zlen values then
    serr (Status_make kInvalidArgument "string-list value count is too large")
  else
  do* r := get_row in
  let refs_offset := Zlen (arena r) in
  let refs_bytes := Zlen values * 16 in
  if u32_max <? refs_bytes then
    serr (Status_make kInvalidArgument "string-list ref bytes are too large")
  else
  do* _ := append_arena (replicate (Z.to_nat refs_bytes) Byte.x00) in
  do* _ := write_string_refs refs_offset 0 values in
  WriteValueRefField field
    (MkValueRef16 refs_offset (wrap32 refs_bytes) (wrap32 (Zlen values))).

Definition EncodeBoolListBytes (values : list bool) : StatusOr (list byte) :=
  if u32_max <? Zlen values then InvalidArgument "bool-list value count is too large"
  else Ok ((λ b : bool, if b then Byte.x01 else Byte.x00) <$> values).

Definition WriteArenaBoolListField (field : FieldLayout) (values : list bool) : writer unit :=
  do* _ := check_not_null in
  if negb (is_list field) || negb (bool_decide (type field = kBool))
     || negb (bool_decide (encoding field = kArena)) then
    serr (Status_make kInvalidArgument "arena bool-list writer does not match field")
  else
  do* payload := slift (EncodeBoolListBytes values) in
  do* r := get_row in
  let offset := Zlen (arena r) in
  do* _ := append_arena payload in
  WriteValueRefField field
    (MkValueRef16 offset (wrap32 (Zlen payload)) (wrap32 (Zlen values))).

(** The branch of a scalar string field. *)
Definition write_string_value (field : FieldLayout) (value : cpp_string) : writer unit :=
  match encoding field with
  | kArena => WriteArenaStringField field value
  | kDictionary =>
      do* _ := check_not_null in
      do* r := get_row in
      if u32_max <? Zlen (string_dictionary r) then
        serr (Status_make kInvalidArgument "string dictionary is too large")
      else
      let id := wrap32 (Zlen (string_dictionary r)) in
      do* _ := modify_row (λ r, set_string_dictionary (string_dictionary r ++ [value]) r) in
      WriteDictionaryStringField field id
  | _ => serr (Status_make kInvalidArgument "payload string field encoding unsupported")
  end.

Definition WriteScalarFieldValue (field : FieldLayout) (decoded : DecodedField) : writer unit :=
  if is_list field then
    serr (Status_make kInvalidArgument "payload field shape does not match layout")
  else
  match type field, decoded_value decoded with
  | kInt8, VScalar (SInt8 v) => WriteScalarField field (SInt8 v)
  | kInt8, _ => serr (Status_make kInvalidArgument "payload int8 field type mismatch")
  | kInt32, VScalar (SInt32 v) => WriteScalarField field (SInt32 v)
  | kInt32, _ => serr (Status_make kInvalidArgument "payload int32 field type mismatch")
  | kInt64, VScalar (SInt64 v) => WriteScalarField field (SInt64 v)
  | kInt64, _ => serr (Status_make kInvalidArgument "payload int64 field type mismatch")
  | kUInt64, VScalar (SUInt64 v) => WriteScalarField field (SUInt64 v)
  | kUInt64, _ => serr (Status_make kInvalidArgument "payload uint64 field type mismatch")
  | kBool, VScalar (SBool v) => WriteScalarField field (SBool v)
  | kBool, _ => serr (Status_make kInvalidArgument "payload bool field type mismatch")
  | kString, VScalar (SString v) => write_string_value field v
  | kString, _ => serr (Status_make kInvalidArgument "payload string field type mismatch")
  end.

Definition WriteListDictionaryScalarList (field : FieldLayout) (values : ListValue)
    : writer unit :=
  do* _ := check_not_null in
  do* r := get_row in
  if (u32_max <? list_size values) || (u32_max <? Zlen (scalar_list_dictionary r)) then
    serr (Status_make kInvalidArgument "scalar-list dictionary entry is too large")
  else
  do* payload := slift (EncodeScalarListSpan values) in
  let dictionary_id := wrap32 (Zlen (scalar_list_dictionary r)) in
  do* _ := modify_row
             (λ r, set_scalar_list_dictionary (scalar_list_dictionary r ++ [payload]) r) in
  WriteListDictionaryField field dictionary_id (wrap32 (list_size values)).

Definition unsupported_list_encoding : writer unit :=
  serr (Status_make kInvalidArgument "payload list field encoding unsupported").

(** The branches of the four integer element types. *)
Definition write_scalar_list (field : FieldLayout) (values : ListValue) : writer unit :=
  match encoding field with
  | kArena => WriteArenaListField field values
  | kListDictionary => WriteListDictionaryScalarList field values
  | _ => unsupported_list_encoding
  end.

Definition write_bool_list (field : FieldLayout) (values : list bool) : writer unit :=
  match encoding field with
  | kArena => WriteArenaBoolListField field values
  | kListDictionary =>
      do* _ := check_not_null in
      do* payload := slift (EncodeBoolListBytes values) in
      do* r := get_row in
      if u32_max <? Zlen (scalar_list_dictionary r) then
        serr (Status_make kInvalidArgument "scalar-list dictionary is too large")
      else
      let dictionary_id := wrap32 (Zlen (scalar_list_dictionary r)) in
      do* _ := modify_row
                 (λ r, set_scalar_list_dictionary (scalar_list_dictionary r ++ [payload]) r) in
      WriteListDictionaryField field dictionary_id (wrap32 (Zlen values))
  | _ => unsupported_list_encoding
  end.

(** The loop that adds the strings to the element dictionary, collecting ids. *)
Fixpoint add_string_elements (values : list cpp_string) : writer (list Z) :=
  match values with
  | [] => sret []
  | value :: values' =>
      do* r := get_row in
      if u32_max <? Zlen (string_element_dictionary r) then
        serr (Status_make kInvalidArgument "string element dictionary is too large")
      else
      let id := wrap32 (Zlen (string_element_dictionary r)) in
      do* _ := modify_row
                 (λ r, set_string_element_dictionary (string_element_dictionary r ++ [value]) r) in
      do* ids := add_string_elements values' in
      sret (id :: ids)
  end.

Definition write_string_list (field : FieldLayout) (values : list cpp_string) : writer unit :=
  match encoding field with
  | kArena => WriteArenaStringListField field values
  | kListDictionary =>
      do* _ := check_not_null in
      do* r := get_row in
      if (u32_max <? Zlen values) || (u32_max <? Zlen (string_list_dictionary r)) then
        serr (Status_make kInvalidArgument "string-list dictionary entry is too large")
      else
      let dictionary_id := wrap32 (Zlen (string_list_dictionary r)) in
      do* _ := modify_row
                 (λ r, set_string_list_dictionary (string_list_dictionary r ++ [values]) r) in
      WriteListDictionaryField field dictionary_id (wrap32 (Zlen values))
  | kElementDictionary =>
      do* _ := check_not_null in
      do* dictionary_ids := add_string_elements values in
      WriteElementDictionaryStringListField field dictionary_ids
  | _ => unsupported_list_encoding
  end.

Definition WriteListFieldValue (field : FieldLayout) (decoded : DecodedField) : writer unit :=
  if negb (is_list field) then
    serr (Status_make kInvalidArgument "payload field shape does not match layout")
  else
  match type field, decoded_value decoded with
  | kInt8, VList (LInt8 vs) => write_scalar_list field (LInt8 vs)
  | kInt8, _ => serr (Status_make kInvalidArgument "payload int8-list field type mismatch")
  | kInt32, VList (LInt32 vs) => write_scalar_list field (LInt32 vs)
  | kInt32, _ => serr (Status_make kInvalidArgument "payload int32-list field type mismatch")
  | kInt64, VList (LInt64 vs) => write_scalar_list field (LInt64 vs)
  | kInt64, _ => serr (Status_make kInvalidArgument "payload int64-list field type mismatch")
  | kUInt64, VList (LUInt64 vs) => write_scalar_list field (LUInt64 vs)
  | kUInt64, _ => serr (Status_make kInvalidArgument "payload uint64-list field type mismatch")
  | kBool, VList (LBool vs) => write_bool_list field vs
  | kBool, _ => serr (Status_make kInvalidArgument "payload bool-list field type mismatch")
  | kString, VList (LString vs) => write_string_list field vs
  | kString, _ => serr (Status_make kInvalidArgument "payload string-list field type mismatch")
  end.

(** ** Encoding a payload for a layout *)

(** One round of the loop; a field the layout does not have is skipped. *)
Definition encode_field (layout : CompiledRowLayout) (decoded : DecodedField) : writer unit :=
  match FindField layout (decoded_id decoded) with
  | None => sret tt
  | Some field =>
      match decoded_value decoded with
      | VMonostate =>
          serr (Status_make kInvalidArgument "payload explicit null field is unsupported")
      | _ => if is_list field then WriteListFieldValue field decoded
             else WriteScalarFieldValue field decoded
      end
  end.

Definition EncodeForLayout (payload : DecodedPayload) (layout : option CompiledRowLayout)
    : StatusOr EncodedRow :=
  match layout with
  | None => FailedPrecondition "target layout is null"
  | Some l =>
      match sfor (encode_field l) (payload_fields payload) (Some (CreateEncodedRow l)) with
      | (Ok _, Some encoded) => let* _ := MaterializeRow layout encoded in Ok encoded
      | (Ok _, None) => Fault NullDereference
      | (Err e, _) => Err e
      | (Fault f, _) => Fault f
      end
  end.

(** ** Targets *)

Inductive UpdateGenerationRole : Type := kActive | kRebuild | kRebase | kCompaction.

(** [realtime_shards] are pointers into the store. *)
Record UpdateTargetRoute : Type := MkUpdateTargetRoute {
  route_role : UpdateGenerationRole;
  route_generation_id : Z;
  route_shard_count : Z;
  route_hash_seed : Z;
  route_hash_version : Z;
  route_layout : option CompiledRowLayout;
  realtime_shards : list (option nat);
}.

Record UpdateApplierOptions : Type := MkUpdateApplierOptions {
  logical_topic : cpp_string;
  targets : list UpdateTargetRoute;
}.

Definition check_shard (shard : option nat) : StatusM :=
  match shard with
  | None => FailedPrecondition "update target route contains a null realtime shard"
  | Some _ => Ok tt
  end.

Definition check_route (route : UpdateTargetRoute) : StatusM :=
  match route_layout route with
  | None => FailedPrecondition "update target route has no layout"
  | Some _ =>
      if (route_shard_count route =? 0) || negb (IsPowerOfTwo (route_shard_count route)) then
        InvalidArgument "update target shard_count must be a non-zero power of two"
      else if negb (Zlen (realtime_shards route) =? route_shard_count route) then
        InvalidArgument "update target realtime shard count does not match shard_count"
      else ofold (λ _, check_shard) (realtime_shards route) tt
  end.

Definition ValidateOptions (options : UpdateApplierOptions) : StatusM :=
  match logical_topic options with
  | [] => InvalidArgument "update applier logical topic is empty"
  | _ =>
      match targets options with
      | [] => FailedPrecondition "update applier has no target routes"
      | _ => ofold (λ _, check_route) (targets options) tt
      end
  end.

Definition ValidateMessageMetadata (message : KafkaUpsertMessage) (topic : cpp_string) : StatusM :=
  match message_topic message with
  | [] => InvalidArgument "kafka message topic is empty"
  | _ =>
      if negb (bool_decide (message_topic message = topic)) then
        FailedPrecondition "kafka message topic does not match coordinator logical topic"
      else if message_partition message <? 0 then
        InvalidArgument "kafka message partition is invalid"
      else if message_offset message <? 0 then
        InvalidArgument "kafka message offset is invalid"
      else Ok tt
  end.

Definition ShardFor (primary_key : Z) (route : UpdateTargetRoute) : Z :=
  let hash := StableHash64 primary_key (route_hash_seed route) (route_hash_version route) in
  Z.land hash (wrap64 (route_shard_count route - 1)).

(** ** Applying *)

Record PreparedPublish : Type := MkPreparedPublish {
  prepared_table : option nat;
  prepared_key : Z;
  prepared_position : SourcePosition;
  prepared_encoded : EncodedRow;
}.

Abbreviation tables_of := (list RealtimeDeltaAtomicTable).

Definition source_position (message : KafkaUpsertMessage) : SourcePosition :=
  MkSourcePosition (message_partition message) (message_offset message).

(** One round of the first loop of [Apply]. *)
Definition prepare (message : KafkaUpsertMessage) (decoded : DecodedPayload)
    (route : UpdateTargetRoute) : StatusOr PreparedPublish :=
  let shard := ShardFor (message_primary_key message) route in
  let* encoded := EncodeForLayout decoded (route_layout route) in
  let* table := at_ (realtime_shards route) shard in
  Ok (MkPreparedPublish table (message_primary_key message) (source_position message) encoded).

(** [publish.table->Publish(...)] *)
Definition publish_prepared (p : PreparedPublish) : stateful tables_of Status unit := λ ts,
  match prepared_table p with
  | None => (Fault NullDereference, ts)
  | Some i =>
      match ts !! i with
      | None => (Fault NullDereference, ts)
      | Some t =>
          let '(r, t') := Publish (prepared_key p) (prepared_position p) (prepared_encoded p) t in
          (r, <[i := t']> ts)
      end
  end.

Definition Apply (options : UpdateApplierOptions) (message : KafkaUpsertMessage)
    : stateful tables_of Status unit :=
  do* _ := slift (ValidateOptions options) in
  do* _ := slift (ValidateMessageMetadata message (logical_topic options)) in
  do* decoded := slift (DecodePayload (message_payload message)) in
  do* prepared := slift (omapM (prepare message decoded) (targets options)) in
  sfor publish_prepared prepared.

Definition ApplyBatch (options : UpdateApplierOptions) (messages : list KafkaUpsertMessage)
    : stateful tables_of Status unit :=
  sfor (Apply options) messages.
