(* ===== verification/UpdateCoordinator.v ===== *)
(** * Poll, apply, commit: [src/ingest/update_coordinator.{h,cc}]

    One step of ingestion: poll a batch, check it, compute the checkpoint that
    follows it, apply it, and only then commit the checkpoint.  The step is
    [stateful] in the consumer and the store of realtime tables. *)

From S2P Require Import Prelude Status Types RealtimeDelta Kafka UpdateApplier.

Record UpdateCoordinatorOptions : Type := MkUpdateCoordinatorOptions {
  coordinator_topic : cpp_string;
  poll_options : PollOptions;
}.

Definition ValidateOptions (options : UpdateCoordinatorOptions) : StatusM :=
  if bool_decide (coordinator_topic options = []) then
    InvalidArgument "update coordinator logical topic is empty"
  else if timeout_ms (poll_options options) <? 0 then
    InvalidArgument "poll timeout must not be negative"
  else if max_messages (poll_options options) =? 0 then
    InvalidArgument "poll max_messages must be positive"
  else Ok tt.

Definition check_message (topic : cpp_string) (message : KafkaUpsertMessage) : StatusM :=
  if bool_decide (message_topic message = []) then InvalidArgument "kafka message topic is empty"
  else if negb (bool_decide (message_topic message = topic)) then
    FailedPrecondition "coordinator stream contains multiple logical topics"
  else if message_partition message <? 0 then
    InvalidArgument "kafka message partition is invalid"
  else if message_offset message <? 0 then
    InvalidArgument "kafka message offset is invalid"
  else Ok tt.

Definition ValidateBatchTopicAndPositions (messages : list KafkaUpsertMessage)
    (topic : cpp_string) : StatusM :=
  ofold (λ _, check_message topic) messages tt.

(** ** The checkpoint *)

Definition message_key (m : KafkaUpsertMessage) : PartitionKey :=
  partition_key (metadata_partition (message_metadata m)).

(** One round of the loop over the messages. *)
Definition note_offset (max_offsets : gmap PartitionKey Z) (message : KafkaUpsertMessage)
    : StatusOr (gmap PartitionKey Z) :=
  if message_offset message =? i64_max then
    InvalidArgument "kafka message offset cannot advance"
  else
  match max_offsets !! message_key message with
  | None => Ok (<[message_key message := message_offset message]> max_offsets)
  | Some old =>
      if old <? message_offset message
      then Ok (<[message_key message := message_offset message]> max_offsets)
      else Ok max_offsets
  end.

(** The order of the keys of the [std::map]: topics byte by byte, then the
    partition. *)
Fixpoint string_compare (a b : cpp_string) : comparison :=
  match a, b with
  | [], [] => Eq
  | [], _ => Lt
  | _, [] => Gt
  | x :: a', y :: b' =>
      match (byte_to_Z x ?= byte_to_Z y) with Eq => string_compare a' b' | c => c end
  end.

Definition key_le (e1 e2 : PartitionKey * Z) : Prop :=
  match string_compare e1.1.1 e2.1.1 with
  | Lt => True
  | Eq => e1.1.2 ≤ e2.1.2
  | Gt => False
  end.

#[export] Instance key_le_dec : RelDecision key_le.
Proof. intros e1 e2. unfold key_le. destruct (string_compare _ _); apply _. Defined.

Definition BuildCommitCheckpoint (messages : list KafkaUpsertMessage) : StatusOr KafkaCheckpoint :=
  let* max_offsets := ofold note_offset messages ∅ in
  Ok (MkKafkaCheckpoint
        ((λ e : PartitionKey * Z,
            MkKafkaPosition (MkKafkaPartition e.1.1 e.1.2) (e.2 + 1))
         <$> merge_sort key_le (map_to_list max_offsets))).

(** ** The step *)

Section Coordinator.
Context {C : Type} `{KafkaClient C}.

(** The consumer (null when [None]) and the store. *)
Definition coordinator_state : Type :=
  option (KafkaUpdateConsumer C) * list RealtimeDeltaAtomicTable.

Definition on_consumer {A} (c : stateful (KafkaUpdateConsumer C) Status A)
    : stateful coordinator_state Status A := λ s,
  match s.1 with
  | None => (Fault NullDereference, s)
  | Some k => let '(r, k') := c k in (r, (Some k', s.2))
  end.

Definition on_tables {A} (c : stateful (list RealtimeDeltaAtomicTable) Status A)
    : stateful coordinator_state Status A := λ s,
  let '(r, ts) := c s.2 in (r, (s.1, ts)).

Definition check_consumer : stateful coordinator_state Status unit := λ s,
  match s.1 with
  | None => (FailedPrecondition "update coordinator has no consumer", s)
  | Some _ => (Ok tt, s)
  end.

(** [applier] is the options of the [UpdateApplier], or a null pointer. *)
Definition PollApplyCommitOnce (options : UpdateCoordinatorOptions)
    (applier : option UpdateApplierOptions) : stateful coordinator_state Status unit :=
  do* _ := check_consumer in
  match applier with
  | None => serr (Status_make kFailedPrecondition "update coordinator has no applier")
  | Some applier =>
      do* _ := slift (ValidateOptions options) in
      do* batch := on_consumer (Consumer_Poll (poll_options options)) in
      match batch with
      | [] => sret tt
      | _ =>
          do* _ := slift (ValidateBatchTopicAndPositions batch (coordinator_topic options)) in
          do* checkpoint := slift (BuildCommitCheckpoint batch) in
          do* _ := on_tables (ApplyBatch applier batch) in
          on_consumer (Consumer_Commit checkpoint)
      end
  end.
End Coordinator.
