(* ===== verification/EncodeProofs.v ===== *)
(** * An upsert's row holds the payload's values

    [EncodeForLayout] writes the decoded fields one by one: each is stored as
    its value, earlier fields keep theirs, and fields the payload does not
    carry stay absent.  For payloads up to [2^30] bytes it fails only on the
    payloads it should refuse. *)

From S2P Require Import Prelude Status ByteIo Types Schema SchemaProofs RowStorage RowSafety.
From S2P Require Import RowProofs RowListProofs RowAccess Payload Codec PayloadProofs UpdateApplier.

(** ** Arena string lists *)

(** The references to strings laid out one after another from [off]. *)
Fixpoint string_refs (off : Z) (ss : list cpp_string) : list ValueRef16 :=
  match ss with
  | [] => []
  | s :: ss' => MkValueRef16 off (Zlen s) 0 :: string_refs (off + Zlen s) ss'
  end.

Definition refs_block (off : Z) (ss : list cpp_string) : list byte :=
  concat (ref_bytes <$> string_refs off ss).

Lemma length_string_refs off ss : length (string_refs off ss) = length ss.
Proof. revert off. induction ss as [|s ss IH]; intros off; simpl; [done|by rewrite IH]. Qed.

Lemma length_refs_block off ss : length (refs_block off ss) = (16 * length ss)%nat.
Proof.
  unfold refs_block. revert off. induction ss as [|s ss IH]; intros off; [done|].
  cbn [string_refs]. change (concat (ref_bytes <$> ?x :: ?l))
    with (ref_bytes x ++ concat (ref_bytes <$> l)).
  rewrite length_app, length_ref_bytes, IH. simpl. lia.
Qed.

Lemma concat_cons_Zlen (s : cpp_string) ss : Zlen (concat (s :: ss)) = Zlen s + Zlen (concat ss).
Proof. apply Zlen_app. Qed.

Lemma splice_middle {A} (pre old post new : list A) :
  length old = length new → splice (length pre) new (pre ++ old ++ post) = pre ++ new ++ post.
Proof.
  intros Hl. unfold splice. rewrite take_app_length.
  rewrite drop_app_ge by lia. replace (length pre + length new - length pre)%nat with (length old) by lia.
  by rewrite drop_app_length.
Qed.

Lemma set_arena_twice a b r : set_arena b (set_arena a r) = set_arena b r.
Proof. done. Qed.

(** The loop turns the reserved zeros into the references. *)
Lemma write_string_refs_arena base done_refs ss tail i r :
  arena r = base ++ done_refs ++ replicate (16 * length ss) Byte.x00 ++ tail →
  length done_refs = (16 * i)%nat →
  Zlen (arena r) + Zlen (concat ss) < 2 ^ 32 →
  write_string_refs (Zlen base) i ss (Some r)
  = (Ok tt, Some (set_arena (base ++ done_refs ++ refs_block (Zlen (arena r)) ss ++ tail
                             ++ concat ss) r)).
Proof.
  revert done_refs tail i r. induction ss as [|s ss IH]; intros done_refs tail i r Ha Hd Hb.
  { simpl. rewrite app_nil_r. change (replicate (16 * length []) Byte.x00 ++ tail) with tail in Ha.
    rewrite <-Ha. by destruct r. }
  rewrite concat_cons_Zlen in Hb. pose proof (Zlen_nonneg s). pose proof (Zlen_nonneg (concat ss)).
  pose proof (Zlen_nonneg (arena r)) as Hr0. cbn [write_string_refs].
  rewrite (proj2 (Z.ltb_ge _ _)) by (unfold u32_max; lia).
  unfold sbind. cbn [get_row append_arena on_arena arena set_arena].
  rewrite wrap32_small by (unfold is_u32; lia).
  set (ref := MkValueRef16 (Zlen (arena r)) (Zlen s) 0).
  assert (ref_wf ref) as Hrw by (unfold ref_wf, is_u64, is_u32; simpl; lia).
  assert (arena r ++ s = (base ++ done_refs) ++ replicate 16 Byte.x00
    ++ (replicate (16 * length ss) Byte.x00 ++ tail ++ s)) as Hsplit.
  { rewrite Ha. replace (16 * length (s :: ss))%nat with (16 + 16 * length ss)%nat by (simpl; lia).
    rewrite replicate_add. by rewrite <-!app_assoc. }
  assert (Z.to_nat (Zlen base + Z.of_nat i * 16) = length (base ++ done_refs)) as Hoff
    by (rewrite length_app; unfold Zlen; lia).
  rewrite WriteValueRef16_in; [|done|unfold Zlen; lia|].
  2:{ rewrite Hsplit, !Zlen_app. unfold Zlen in *. rewrite length_replicate. lia. }
  rewrite Hoff, Hsplit, splice_middle by (by rewrite length_ref_bytes, length_replicate).
  cbv iota beta. rewrite set_arena_twice.
  set (r1 := set_arena _ r).
  rewrite (IH (done_refs ++ ref_bytes ref) (tail ++ s) (S i) r1).
  - unfold r1. cbn [arena set_arena]. f_equal. f_equal.
    unfold refs_block. cbn [string_refs]. fold ref.
    replace (Zlen ((base ++ done_refs) ++ ref_bytes ref ++ replicate (16 * length ss) Byte.x00
      ++ tail ++ s)) with (Zlen (arena r) + Zlen s).
    + destruct r. unfold set_arena. cbn. f_equal. by rewrite <-!app_assoc.
    + rewrite <-Zlen_app, Hsplit, !Zlen_app. unfold Zlen.
      rewrite length_ref_bytes, length_replicate. lia.
  - unfold r1. cbn [arena set_arena]. by rewrite <-!app_assoc.
  - rewrite length_app, length_ref_bytes, Hd. lia.
  - unfold r1. cbn [arena set_arena]. rewrite !Zlen_app in *.
    rewrite Ha, !Zlen_app in Hb. unfold Zlen in *.
    rewrite length_ref_bytes, length_replicate in *. simpl in Hb. lia.
Qed.

Lemma string_refs_lookup off ss i s :
  ss !! i = Some s →
  string_refs off ss !! i = Some (MkValueRef16 (off + Zlen (concat (take i ss))) (Zlen s) 0).
Proof.
  revert off i. induction ss as [|s' ss IH]; intros off i Hi; [done|]. destruct i as [|i]; simpl in *.
  - injection Hi as ->. by rewrite Z.add_0_r.
  - rewrite (IH _ _ Hi), Zlen_app. do 2 f_equal. lia.
Qed.

(** A block of a concatenation of equal-sized blocks. *)
Lemma slice_concat_block {A} (w : nat) (l : list (list A)) i b :
  Forall (λ x, length x = w) l → l !! i = Some b → slice (w * i) w (concat l) = b.
Proof.
  intros Hw. revert i. induction Hw as [|x l Hx Hl IH]; intros i Hi; [done|].
  destruct i as [|i]; simpl in Hi |- *.
  - injection Hi as ->. rewrite Nat.mul_0_r. unfold slice. rewrite drop_0, take_app_le by lia.
    by rewrite take_ge by lia.
  - rewrite <-(IH i Hi). unfold slice. rewrite drop_app_ge by lia. do 2 f_equal. lia.
Qed.

Lemma slice_concat_piece {A} (l : list (list A)) i x :
  l !! i = Some x → slice (length (concat (take i l))) (length x) (concat l) = x.
Proof.
  intros Hi. rewrite <-(take_drop_middle l i x Hi) at 2. rewrite concat_app.
  unfold slice. rewrite drop_app_length. simpl. by rewrite take_app_length.
Qed.

Lemma concat_take_le {A} (l : list (list A)) i x :
  l !! i = Some x → Zlen (concat (take i l)) + Zlen x ≤ Zlen (concat l).
Proof.
  intros Hi. rewrite <-(take_drop_middle l i x Hi) at 2. rewrite concat_app, Zlen_app.
  simpl. rewrite Zlen_app. pose proof (Zlen_nonneg (concat (drop (S i) l))). lia.
Qed.

Lemma slice_mid {A} (pre mid post : list A) o n :
  (o + n ≤ length mid)%nat → slice (length pre + o) n (pre ++ mid ++ post) = slice o n mid.
Proof.
  intros Hn. unfold slice. rewrite drop_app_ge by lia.
  replace (length pre + o - length pre)%nat with o by lia.
  rewrite drop_app_le by lia. rewrite take_app_le; [done|]. rewrite length_drop. lia.
Qed.

(** The arena of a string list: references, then the strings. *)
Lemma DecodeArenaStringList_refs base ss r :
  let off := Zlen base + 16 * Zlen ss in
  arena r = base ++ refs_block off ss ++ concat ss →
  Zlen (arena r) < 2 ^ 32 →
  DecodeArenaStringList (MkValueRef16 (Zlen base) (16 * Zlen ss) (Zlen ss)) r = Ok (LString ss).
Proof.
  intros off Ha Hb. pose proof (Zlen_nonneg base). pose proof (Zlen_nonneg ss). pose proof (Zlen_nonneg (concat ss)).
  assert (Zlen (refs_block off ss) = 16 * Zlen ss) as Hrl
    by (unfold Zlen; rewrite length_refs_block; lia).
  assert (Zlen (arena r) = off + Zlen (concat ss)) as Hal
    by (rewrite Ha, !Zlen_app, Hrl; unfold off; lia).
  unfold DecodeArenaStringList. cbn [byte_length element_count_or_flags ref_offset].
  rewrite (proj2 (Z.eqb_eq _ _)) by lia. cbn [negb].
  assert (ValidateRefBounds (MkValueRef16 (Zlen base) (16 * Zlen ss) (Zlen ss)) (Zlen (arena r))
    = Ok tt) as ->.
  { apply ValidateRefBounds_Ok. cbn [ref_offset byte_length]. unfold off in Hal. lia. }
  cbn [obind]. apply obind_Ok. exists ss. split; [|done].
  apply omapM_Ok, Forall2_same_length_lookup.
  split; [rewrite length_seqZ; unfold Zlen; lia|].
  intros i z s [-> Hi]%lookup_seqZ Hs. rewrite Z.add_0_l.
  pose proof (concat_take_le ss i s Hs) as Hle. pose proof (Zlen_nonneg s).
  pose proof (Zlen_nonneg (concat (take i ss))).
  set (ref := MkValueRef16 (off + Zlen (concat (take i ss))) (Zlen s) 0).
  assert (ref_wf ref) as Hrw by (unfold ref_wf, is_u64, is_u32, off in *; simpl; lia).
  rewrite wrap32_small by (unfold is_u32, off in *; lia).
  rewrite wrap64_small by (unfold is_u64, off in *; lia).
  rewrite (DecodeValueRef16_slice _ _ ref Hrw); [|lia|unfold off in *; lia|].
  2:{ replace (Z.to_nat (Zlen base + Z.of_nat i * 16)) with (length base + 16 * i)%nat
        by (unfold Zlen; lia).
      rewrite Ha, slice_mid by (rewrite length_refs_block; unfold Zlen in *; lia).
      apply (slice_concat_block 16).
      - apply Forall_fmap, Forall_forall. intros x _. apply length_ref_bytes.
      - by rewrite list_lookup_fmap, (string_refs_lookup _ _ _ _ Hs). }
  cbn [obind]. assert (ValidateRefBounds ref (Zlen (arena r)) = Ok tt) as Hv.
  { apply ValidateRefBounds_Ok. cbn [ref ref_offset byte_length]. lia. }
  rewrite Hv. cbn [obind]. rewrite (subspan_ref _ _ Hrw Hv). f_equal.
  cbn [ref ref_offset byte_length]. rewrite Ha.
  assert (Z.to_nat (off + Zlen (concat (take i ss)))
    = (length (base ++ refs_block off ss) + length (concat (take i ss)))%nat) as ->
    by (rewrite length_app; unfold off, Zlen in *; lia).
  rewrite app_assoc, <-(app_nil_r (concat ss)).
  unfold Zlen in Hle |- *. rewrite Nat2Z.id, slice_mid by lia.
  by apply slice_concat_piece.
Qed.

(** ** One field *)

(** The field is present and reads as the decoded value. *)
Definition holds (L : CompiledRowLayout) (f : FieldLayout) (v : DecodedValue) (r : EncodedRow)
    : Prop :=
  match v with
  | VMonostate => False
  | VScalar s => holds_scalar L f s r
  | VList vs => holds_list L f vs r
  end.

(** The value has the field's shape and type. *)
Definition fits (f : FieldLayout) (v : DecodedValue) : Prop :=
  match v with
  | VMonostate => False
  | VScalar s => is_list f = false ∧ type f = scalar_type s
  | VList vs => is_list f = true ∧ type f = list_type vs
  end.

(** Sizes after writing [n] bytes of fields. *)
Record room (n : Z) (r : EncodedRow) : Prop := {
  rm_arena : Zlen (arena r) ≤ 4 * n;
  rm_strings : Zlen (string_dictionary r) ≤ n;
  rm_scalar_lists : Zlen (scalar_list_dictionary r) ≤ n;
  rm_string_lists : Zlen (string_list_dictionary r) ≤ n;
  rm_elements : Zlen (string_element_dictionary r) ≤ n;
}.

(** Storing a value of [n - n0] encoded bytes. *)
Record written (L : CompiledRowLayout) (f : FieldLayout) (v : DecodedValue) (n : Z)
    (r r' : EncodedRow) : Prop := {
  wr_row : row_ok L r';
  wr_holds : holds L f v r';
  wr_others : others_kept L f r r';
  wr_slot : length (row_slot r') = length (row_slot r);
  wr_room : room n r';
}.

(** [r1] is [r] with entries added to its dictionaries. *)
Record pushed (r r1 : EncodedRow) : Prop := {
  pu_version : row_schema_version r1 = row_schema_version r;
  pu_fingerprint : row_layout_fingerprint r1 = row_layout_fingerprint r;
  pu_slot : row_slot r1 = row_slot r;
  pu_arena : arena r1 = arena r;
  pu_strings : string_dictionary r `prefix_of` string_dictionary r1;
  pu_scalar_lists : scalar_list_dictionary r `prefix_of` scalar_list_dictionary r1;
  pu_string_lists : string_list_dictionary r `prefix_of` string_list_dictionary r1;
  pu_elements : string_element_dictionary r `prefix_of` string_element_dictionary r1;
}.

Lemma pushed_refl r : pushed r r.
Proof. by split. Qed.

Lemma pushed_row_ok L r r1 : pushed r r1 → row_ok L r → row_ok L r1.
Proof. intros Hp [H1 H2 H3]. destruct Hp. split; congruence. Qed.

Lemma pushed_others L f r r1 : layout_wf L → row_ok L r → pushed r r1 → others_kept L f r r1.
Proof.
  intros Hwf Hr Hp. apply extends_others_kept; [done..|by eapply pushed_row_ok|].
  intros g _ _. destruct Hp as [_ _ Hs Ha ????].
  split; try done; rewrite ?Hs; try done. exists []. by rewrite app_nil_r.
Qed.

Lemma others_kept_trans L f r1 r2 r3 :
  others_kept L f r1 r2 → others_kept L f r2 r3 → others_kept L f r1 r3.
Proof.
  intros H1 H2 id T a Hid. destruct (H1 id T a Hid) as (A1 & B1 & C1).
  destruct (H2 id T a Hid) as (A2 & B2 & C2).
  split_and!; [by eapply keeps_trans|by eapply keeps_trans|congruence].
Qed.

Section WriteValue.
Context (L : CompiledRowLayout) (Hwf : layout_wf L).
Context (f : FieldLayout) (r : EncodedRow).
Hypotheses (Hf : f ∈ fields L) (Hr : row_ok L r).
Context (n0 n : Z).
Hypotheses (Hroom : room n0 r) (Hmono : n0 ≤ n).

(** Pushing dictionary entries, then storing the field. *)
Lemma stores_written r1 r' v k :
  pushed r r1 → stores L f (holds L f v) k r1 r' → room n r1 →
  Zlen (arena r) + k ≤ 4 * n → written L f v n r r'.
Proof.
  intros Hp [H1 H2 H3 H4 H5 H6] Hm Hk. destruct Hp as [? ? Hs Ha ????].
  split; [done|done| |by rewrite H4, Hs|].
  - eapply others_kept_trans; [by apply pushed_others|done].
  - injection H6 as E1 E2 E3 E4. destruct Hm.
    rewrite Ha in *. split; rewrite ?E1, ?E2, ?E3, ?E4; lia.
Qed.

Lemma room_grown : room n r.
Proof. destruct Hroom. split; lia. Qed.

(** Without dictionary entries. *)
Lemma stores_written_plain r' v k :
  stores L f (holds L f v) k r r' → Zlen (arena r) + k ≤ 4 * n → written L f v n r r'.
Proof. intros. by eapply stores_written; [apply pushed_refl|done|apply room_grown|]. Qed.

Lemma write_row_word s :
  is_list f = false → type f = scalar_type s → scalar_ok s →
  ∃ r', WriteScalarField f s (Some r) = (Ok tt, Some r') ∧ written L f (VScalar s) n r r'.
Proof.
  intros Hl Ht Hs. destruct (scalar_write_stores L Hwf f r Hf Hr s Hl Ht Hs) as (r' & Hw & Hst).
  exists r'. split; [done|]. eapply stores_written_plain; [done|].
  destruct Hroom. lia.
Qed.

Hypothesis Hn : n ≤ 2 ^ 30.

(** A dictionary entry added by this field has a small id. *)
Lemma new_id {A} (d : list A) x :
  Zlen d ≤ n0 → (u32_max <? Zlen d) = false ∧ wrap32 (Zlen d) = Zlen d ∧ is_u32 (Zlen d)
    ∧ (d ++ [x]) !! Z.to_nat (Zlen d) = Some x.
Proof.
  intros Hd. pose proof (Zlen_nonneg d). assert (is_u32 (Zlen d)) by (unfold is_u32; lia).
  split_and!; [apply Z.ltb_ge; unfold u32_max; lia|by apply wrap32_small|done|].
  unfold Zlen. rewrite Nat2Z.id. apply list_lookup_middle. done.
Qed.

Lemma write_string s :
  is_list f = false → type f = kString → 1 + n0 + Zlen s ≤ n →
  ∃ r', write_string_value f s (Some r) = (Ok tt, Some r')
    ∧ written L f (VScalar (SString s)) n r r'.
Proof.
  intros Hl Ht Hsz. pose proof (Zlen_nonneg s). pose proof (Zlen_nonneg (arena r)).
  destruct (lw_shape L Hwf f Hf) as (_ & _ & He & _). rewrite Hl, Ht in He.
  destruct Hroom as [Ra Rs Rl Rsl Re]. unfold write_string_value.
  destruct (encoding f) eqn:Henc; try done.
  - destruct (arena_string_stores L Hwf f r Hf Hr s Hl Ht Henc) as (r' & Hw & Hst);
      [unfold u32_max; lia|unfold is_u64; lia|].
    exists r'. split; [done|]. eapply stores_written_plain; [done|lia].
  - destruct (new_id (string_dictionary r) s Rs) as (Hlt & Hwrap & Hid & Hx).
    unfold sbind. cbn [check_not_null get_row]. rewrite Hlt. cbn [modify_row]. rewrite Hwrap.
    set (r1 := set_string_dictionary _ r).
    assert (pushed r r1) as Hp by (split; try done; by eexists).
    destruct (dictionary_string_stores L Hwf f r1 Hf (pushed_row_ok _ _ _ Hp Hr)
      (Zlen (string_dictionary r)) s Hl Ht Henc Hid Hx) as (r' & Hw & Hst).
    exists r'. split; [done|]. eapply stores_written; [done|done| |lia].
    split; simpl; rewrite ?Zlen_app; simpl; try lia. rewrite Zlen_cons. unfold Zlen at 2. simpl. lia.
Qed.

Lemma room_strings x : 1 + n0 ≤ n → Zlen (x : list byte) ≤ n →
  room n (set_scalar_list_dictionary (scalar_list_dictionary r ++ [x]) r).
Proof.
  intros H1 _. destruct room_grown, Hroom. split; simpl; try lia.
  rewrite Zlen_app, Zlen_cons. change (Zlen []) with 0. lia.
Qed.

Lemma write_scalar_words vs ws :
  is_list f = true → type f = list_type vs → type f ≠ kString → list_ok vs →
  list_words vs = Some ws →
  let payload := words_bytes (field_int_type (list_type vs)) ws in
  1 + n0 + Zlen payload ≤ n →
  ∃ r', write_scalar_list f vs (Some r) = (Ok tt, Some r') ∧ written L f (VList vs) n r r'.
Proof.
  intros Hl Ht Hns Hok Hw payload Hsz.
  destruct (payload_size vs ws Hok Hw) as [_ Hle]. fold payload in Hle.
  pose proof (Zlen_nonneg ws). pose proof (Zlen_nonneg (arena r)).
  destruct (lw_shape L Hwf f Hf) as (_ & _ & He & _). rewrite Hl in He.
  destruct Hroom as [Ra Rs Rl Rsl Re]. unfold write_scalar_list.
  destruct (encoding f) eqn:Henc; try (by destruct (type f)).
  - destruct (arena_list_stores L Hwf f r Hf Hr vs ws Hl Ht Henc Hok Hw) as (r' & Hwr & Hst);
      [unfold is_u64; lia|fold payload; unfold u32_max; lia|].
    exists r'. split; [done|]. eapply stores_written_plain; [done|fold payload; lia].
  - unfold WriteListDictionaryScalarList, sbind. cbn [check_not_null get_row].
    rewrite (list_size_words _ _ Hw), (EncodeScalarListSpan_words _ _ Hw). fold payload.
    destruct (new_id (scalar_list_dictionary r) payload Rl) as (Hlt & Hwrap & Hid & Hx).
    rewrite Hlt, (proj2 (Z.ltb_ge _ _)) by (unfold u32_max; lia).
    cbn [orb slift modify_row]. rewrite Hwrap, wrap32_small by (unfold is_u32; lia).
    set (r1 := set_scalar_list_dictionary _ r).
    assert (pushed r r1) as Hp by (split; try done; by eexists).
    destruct (list_dictionary_stores L Hwf f r1 Hf (pushed_row_ok _ _ _ Hp Hr)
      (Zlen (scalar_list_dictionary r)) vs (Zlen ws) Hl Ht Henc Hid) as (r' & Hwr & Hst).
    { unfold is_u32; lia. }
    { by apply read_scalar_list_dictionary. }
    exists r'. split; [done|]. eapply stores_written; [done|done| |lia].
    apply room_strings; lia.
Qed.

Lemma bool_list_payload vs :
  (λ b : bool, if b then Byte.x01 else Byte.x00) <$> vs = words_bytes uint8_t (bool_word <$> vs).
Proof.
  induction vs as [|b vs IH]; [done|]. rewrite !fmap_cons, words_bytes_cons, IH. by destruct b.
Qed.

(** Boolean lists are written like the other scalar lists. *)
Lemma write_bools_as_words vs :
  is_list f = true → type f = kBool → Zlen vs ≤ u32_max → Zlen (arena r) ≤ u64_max →
  Zlen (scalar_list_dictionary r) ≤ u32_max →
  write_bool_list f vs (Some r) = write_scalar_list f (LBool vs) (Some r).
Proof.
  intros Hl Ht Hvs Ha Hd. unfold write_bool_list, write_scalar_list.
  assert (EncodeBoolListBytes vs = Ok (words_bytes uint8_t (bool_word <$> vs))) as Hb.
  { unfold EncodeBoolListBytes. rewrite (proj2 (Z.ltb_ge _ _)) by done.
    by rewrite bool_list_payload. }
  pose proof (EncodeScalarListSpan_words (LBool vs) _ eq_refl) as Hs.
  cbn [list_type field_int_type] in Hs.
  destruct (encoding f) eqn:He; try done.
  - unfold WriteArenaBoolListField, WriteArenaListField, sbind. cbn [check_not_null].
    rewrite Hl, He, !bool_decide_eq_true_2 by done. cbn [orb negb].
    rewrite Hb, Hs. cbn [slift get_row].
    by rewrite (proj2 (Z.ltb_ge u64_max _)).
  - unfold WriteListDictionaryScalarList, sbind. cbn [check_not_null get_row].
    rewrite Hb, Hs. cbn [slift get_row list_size].
    rewrite (proj2 (Z.ltb_ge u32_max (Zlen vs))) by done.
    cbn [orb]. by rewrite (proj2 (Z.ltb_ge u32_max _)).
Qed.

(** The ids of the strings added to the element dictionary. *)
Lemma add_string_elements_spec ss r1 :
  Zlen (string_element_dictionary r1) + Zlen ss ≤ u32_max →
  let d := string_element_dictionary r1 in
  add_string_elements ss (Some r1)
  = (Ok (seqZ (Zlen d) (Zlen ss)), Some (set_string_element_dictionary (d ++ ss) r1)).
Proof.
  revert r1. induction ss as [|s ss IH]; intros r1 Hb; cbn zeta.
  { simpl. rewrite app_nil_r. by destruct r1. }
  rewrite Zlen_cons in Hb. pose proof (Zlen_nonneg ss).
  pose proof (Zlen_nonneg (string_element_dictionary r1)).
  cbn [add_string_elements]. unfold sbind. cbn [get_row].
  rewrite (proj2 (Z.ltb_ge _ _)) by (unfold u32_max in *; lia). cbn [modify_row].
  rewrite IH by (cbn [string_element_dictionary set_string_element_dictionary];
    rewrite Zlen_app, Zlen_cons; change (Zlen []) with 0; lia).
  cbn [string_element_dictionary set_string_element_dictionary].
  rewrite wrap32_small by (unfold is_u32, u32_max in *; lia).
  rewrite Zlen_cons, (seqZ_cons _ (1 + Zlen ss)) by lia.
  rewrite Zlen_app, Zlen_cons. change (Zlen []) with 0. unfold sret.
  replace (Z.pred (1 + Zlen ss)) with (Zlen ss) by lia. rewrite <-app_assoc.
  by replace (Zlen (string_element_dictionary r1) + (1 + 0))
    with (Z.succ (Zlen (string_element_dictionary r1))) by lia.
Qed.

(** A string list in the arena: references, then the strings. *)
Lemma arena_strings_written ss :
  is_list f = true → type f = kString → encoding f = kArena →
  4 + n0 + 4 * Zlen ss + Zlen (concat ss) ≤ n →
  ∃ r', WriteArenaStringListField f ss (Some r) = (Ok tt, Some r')
    ∧ written L f (VList (LString ss)) n r r'.
Proof.
  intros Hl Ht He Hsz. pose proof (Zlen_nonneg ss). pose proof (Zlen_nonneg (concat ss)).
  pose proof (Zlen_nonneg (arena r)). destruct Hroom as [Ra _ _ _ _].
  unfold WriteArenaStringListField, sbind. cbn [check_not_null].
  rewrite Hl, He, !bool_decide_eq_true_2 by done. cbn [orb negb].
  rewrite (proj2 (Z.ltb_ge _ _)) by (unfold u32_max; lia). cbn [get_row].
  rewrite (proj2 (Z.ltb_ge _ _)) by (unfold u32_max; lia). cbn [append_arena on_arena].
  set (zeros := replicate _ Byte.x00).
  assert (Zlen zeros = 16 * Zlen ss) as Hz
    by (unfold zeros, Zlen; rewrite length_replicate; unfold Zlen in *; lia).
  rewrite (write_string_refs_arena (arena r) [] ss [] 0); [|..].
  2:{ cbn [arena set_arena app]. rewrite app_nil_r. unfold zeros. do 2 f_equal. unfold Zlen; lia. }
  2:{ done. }
  2:{ cbn [arena set_arena]. rewrite Zlen_app. lia. }
  cbn [arena set_arena app]. rewrite set_arena_twice, Zlen_app, Hz.
  rewrite !wrap32_small by (unfold is_u32; lia).
  set (more := refs_block _ ss ++ concat ss).
  set (ref := MkValueRef16 (Zlen (arena r)) (Zlen ss * 16) (Zlen ss)).
  assert (ref_wf ref) as Hrw by (unfold ref_wf, is_u64, is_u32; simpl; lia).
  pose proof (uses_ref_list _ _ Hwf Hf Hl) as Hu.
  rewrite (WriteValueRefField_stored L Hwf f r Hf Hr ref more Hu Hrw).
  assert (Zlen more = 16 * Zlen ss + Zlen (concat ss)) as Hm.
  { unfold more. rewrite Zlen_app. unfold Zlen at 1. rewrite length_refs_block. unfold Zlen; lia. }
  eexists. split; [done|]. eapply (stores_written_plain _ _ (Zlen more)); [|lia].
  apply list_stores; [done..|].
  rewrite (list_value_stored L Hwf f r Hf Hr Hu ref more Hrw). cbv zeta. rewrite He.
  assert (ValidateRefBounds ref (Zlen (arena r ++ more)) = Ok tt) as ->.
  { apply ValidateRefBounds_Ok. rewrite Zlen_app. cbn [ref ref_offset byte_length]. lia. }
  cbn [obind]. rewrite subspan_in by
    (rewrite ?Zlen_app; cbn [ref ref_offset byte_length]; lia).
  cbn [obind]. rewrite decide_True by done. unfold ref. rewrite (Z.mul_comm (Zlen ss) 16).
  apply DecodeArenaStringList_refs; cbn [stored set_row_slot set_arena arena]; [done|].
  rewrite Zlen_app. lia.
Qed.

Lemma element_strings_written ss :
  is_list f = true → type f = kString → encoding f = kElementDictionary →
  n0 + 4 * Zlen ss ≤ n →
  ∃ r', write_string_list f ss (Some r) = (Ok tt, Some r')
    ∧ written L f (VList (LString ss)) n r r'.
Proof.
  intros Hl Ht He Hsz. pose proof (Zlen_nonneg ss). pose proof (Zlen_nonneg (arena r)).
  destruct Hroom as [Ra Rs Rl Rsl Re]. set (d := string_element_dictionary r) in *.
  pose proof (Zlen_nonneg d).
  unfold write_string_list, sbind. rewrite He. cbn [check_not_null].
  rewrite add_string_elements_spec by (fold d; unfold u32_max; lia). fold d. cbv iota beta zeta.
  set (r1 := set_string_element_dictionary _ r).
  assert (pushed r r1) as Hp by (split; try done; by eexists).
  assert (Zlen (seqZ (Zlen d) (Zlen ss)) = Zlen ss) as Hids
    by (unfold Zlen at 1; rewrite length_seqZ; lia).
  destruct (element_dictionary_stores L Hwf f r1 Hf (pushed_row_ok _ _ _ Hp Hr)
    (seqZ (Zlen d) (Zlen ss)) ss Hl Ht He) as (r' & Hw & Hst).
  - apply Forall_forall. intros z Hz%elem_of_seqZ. unfold is_u32. lia.
  - rewrite Hids. unfold u32_max. lia.
  - change (arena r1) with (arena r). unfold u32_max. lia.
  - apply Forall2_same_length_lookup. split; [unfold Zlen in *; lia|].
    intros i z s [-> Hi]%lookup_seqZ Hs. cbn [string_element_dictionary r1].
    change (string_element_dictionary r1) with (d ++ ss).
    rewrite lookup_app_r by (unfold Zlen; lia). rewrite <-Hs. f_equal. unfold Zlen. lia.
  - exists r'. split; [done|]. eapply stores_written; [done|done| |rewrite Hids; lia].
    split; simpl; fold d; rewrite ?Zlen_app; lia.
Qed.

Lemma write_strings ss :
  is_list f = true → type f = kString → 4 + n0 + 4 * Zlen ss + Zlen (concat ss) ≤ n →
  ∃ r', write_string_list f ss (Some r) = (Ok tt, Some r')
    ∧ written L f (VList (LString ss)) n r r'.
Proof.
  intros Hl Ht Hsz. pose proof (Zlen_nonneg ss). pose proof (Zlen_nonneg (concat ss)).
  pose proof (Zlen_nonneg (arena r)).
  destruct (lw_shape L Hwf f Hf) as (_ & _ & He & _). rewrite Hl, Ht in He.
  destruct (encoding f) eqn:Henc; try done.
  - unfold write_string_list. rewrite Henc. by apply arena_strings_written.
  - destruct Hroom as [Ra Rs Rl Rsl Re]. unfold write_string_list, sbind. rewrite Henc.
    cbn [check_not_null get_row].
    destruct (new_id (string_list_dictionary r) ss Rsl) as (Hlt & Hwrap & Hid & Hx).
    rewrite Hlt, (proj2 (Z.ltb_ge _ _)) by (unfold u32_max; lia).
    cbn [orb modify_row]. rewrite Hwrap, wrap32_small by (unfold is_u32; lia).
    set (r1 := set_string_list_dictionary _ r).
    assert (pushed r r1) as Hp by (split; try done; by eexists).
    destruct (list_dictionary_stores L Hwf f r1 Hf (pushed_row_ok _ _ _ Hp Hr)
      (Zlen (string_list_dictionary r)) (LString ss) (Zlen ss) Hl Ht Henc Hid) as (r' & Hwr & Hst).
    { unfold is_u32; lia. }
    { by apply read_string_list_dictionary. }
    exists r'. split; [done|]. eapply stores_written; [done|done| |lia].
    split; simpl; rewrite ?Zlen_app; try lia. rewrite Zlen_cons. change (Zlen []) with 0. lia.
  - apply element_strings_written; (done || lia).
Qed.
End WriteValue.

(** ** Any decoded value *)

Lemma field_bytes_size d :
  Zlen (decoded_field_bytes d) = 9 + Zlen (value_bytes (decoded_value d)).
Proof.
  unfold decoded_field_bytes, string_bytes, count_bytes, kind_byte. rewrite !Zlen_app.
  unfold Zlen. rewrite !length_int_bytes. simpl. lia.
Qed.

Lemma count_bytes_size {A} (l : list A) : Zlen (count_bytes l) = 4.
Proof. unfold Zlen, count_bytes. by rewrite length_int_bytes. Qed.

Lemma string_bytes_size ss :
  Zlen (concat (string_bytes <$> ss)) = 4 * Zlen ss + Zlen (concat ss).
Proof.
  induction ss as [|s ss IH]; [done|].
  change (concat (string_bytes <$> s :: ss))
    with (string_bytes s ++ concat (string_bytes <$> ss)).
  rewrite Zlen_app, IH, Zlen_cons. change (concat (s :: ss)) with (s ++ concat ss).
  unfold string_bytes. rewrite !Zlen_app, count_bytes_size. lia.
Qed.

Lemma bool_bytes_words bs : concat (bool_bytes <$> bs) = words_bytes uint8_t (bool_word <$> bs).
Proof.
  induction bs as [|b bs IH]; [done|]. rewrite !fmap_cons, words_bytes_cons, <-IH.
  unfold bool_bytes. by rewrite <-int_bytes_uint8.
Qed.

(** Writing the value of a field of the layout: [encode_field] for a field
    that was found. *)
Definition write_value (f : FieldLayout) (d : DecodedField) : writer unit :=
  if is_list f then WriteListFieldValue f d else WriteScalarFieldValue f d.

Section WriteField.
Context (L : CompiledRowLayout) (Hwf : layout_wf L).
Context (f : FieldLayout) (r : EncodedRow) (d : DecodedField).
Hypotheses (Hf : f ∈ fields L) (Hr : row_ok L r) (Hd : field_ok d).

Lemma words_list_ok t vs ws :
  words_ok t ws → list_words vs = Some ws → t = field_int_type (list_type vs) → list_ok vs.
Proof. intros [_ H] Hw ->. unfold list_ok. by rewrite Hw. Qed.

Lemma bools_ok bs : list_ok (LBool bs).
Proof.
  unfold list_ok. simpl. apply Forall_fmap, Forall_forall. intros b _.
  unfold compose, in_int_range, it_modulus. destruct b; simpl; lia.
Qed.

Lemma write_value_fits n :
  room n r → n + Zlen (decoded_field_bytes d) ≤ 2 ^ 30 → fits f (decoded_value d) →
  ∃ r', write_value f d (Some r) = (Ok tt, Some r')
    ∧ written L f (decoded_value d) (n + Zlen (decoded_field_bytes d)) r r'.
Proof.
  intros Hroom Hn Hfit. rewrite field_bytes_size in *.
  destruct Hd as [_ _ Hv _]. unfold write_value, WriteListFieldValue, WriteScalarFieldValue.
  destruct (decoded_value d) as [|s|vs]; [done| |];
    destruct Hfit as [Hl Ht]; rewrite Hl; cbn [negb].
  - pose proof (Zlen_nonneg (value_bytes (VScalar s))).
    destruct s as [w|w|w|w|b|s]; cbn [scalar_type] in Ht; rewrite Ht.
    1-5: eapply write_row_word; [done..|lia|done|by rewrite Ht|done].
    eapply write_string; [done..|lia|lia|done|done|]. cbn [value_bytes] in *. lia.
  - pose proof (Zlen_nonneg (value_bytes (VList vs))).
    destruct vs as [ws|ws|ws|ws|bs|ss]; cbn [list_type] in Ht; rewrite Ht.
    1-4: (cbn [value_bytes] in *; rewrite Zlen_app, count_bytes_size in *;
      eapply write_scalar_words;
        [done..|lia|lia|done|by rewrite Ht|by rewrite Ht|by eapply words_list_ok|done|];
      cbn [list_type field_int_type]; lia).
    + cbn [value_bytes value_ok] in *. rewrite bool_bytes_words, Zlen_app, count_bytes_size in *.
      unfold is_u32 in Hv. destruct Hroom as [Ra Rs Rl Rsl Re].
      rewrite (write_bools_as_words f r) by (done || unfold u32_max, u64_max; lia).
      eapply write_scalar_words;
        [done..|lia|lia|done|by rewrite Ht|by rewrite Ht|apply bools_ok|done|].
      cbn [list_type field_int_type]. lia.
    + cbn [value_bytes] in *. rewrite Zlen_app, count_bytes_size, string_bytes_size in *.
      eapply write_strings; [done..|lia|lia|done|done|lia].
Qed.

Lemma write_value_unfit :
  decoded_value d ≠ VMonostate → ¬ fits f (decoded_value d) →
  ∃ e, write_value f d (Some r) = (Err e, Some r) ∧ status_code e = kInvalidArgument.
Proof.
  intros Hn Hfit. unfold write_value, WriteListFieldValue, WriteScalarFieldValue.
  destruct (is_list f) eqn:Hl; cbn [negb]; destruct (type f) eqn:Ht;
    destruct (decoded_value d) as [|[]|[]]; try done; try (by eexists);
    exfalso; apply Hfit; cbn [fits scalar_type list_type]; by rewrite Hl, Ht.
Qed.
End WriteField.

(** ** The whole payload *)

Lemma CreateEncodedRow_ok L :
  layout_wf L → row_ok L (CreateEncodedRow L)
  ∧ Zlen (row_slot (CreateEncodedRow L)) = row_slot_size L
  ∧ room 0 (CreateEncodedRow L)
  ∧ ∀ f, f ∈ fields L → Row_Has (row_of L (CreateEncodedRow L)) (field_id f) = Ok false.
Proof.
  intros Hwf. pose proof (lw_size L Hwf). pose proof (bitmap_nonneg L Hwf).
  assert (Zlen (row_slot (CreateEncodedRow L)) = row_slot_size L) as Hz
    by (unfold Zlen; simpl; rewrite length_replicate; lia).
  split_and!; [split; (done || lia)|done|by split|].
  intros f Hf. unfold Row_Has, row_of. cbn [row_layout row_encoded].
  rewrite FindField_in by done. pose proof (field_bit L f Hwf Hf).
  rewrite FieldPresent_bit by lia. f_equal. unfold presence_bit. simpl row_slot.
  destruct (replicate _ _ !! _) as [b|] eqn:Hb; [|done].
  apply lookup_replicate in Hb as [-> _]. apply Z.bits_0.
Qed.

Lemma holds_kept L f g v r r' :
  layout_wf L → g ∈ fields L → field_id g ≠ field_id f → others_kept L f r r' →
  holds L g v r → holds L g v r'.
Proof.
  intros Hwf Hg Hne Ho Hh. destruct (Ho (field_id g) (type g) None Hne) as (H1 & H2 & H3).
  destruct v as [|s|vs]; [done| |]; destruct Hh as (Hl & Ht & Hhas & Hread).
  - split_and!; [done..|by rewrite H3|]. by rewrite Hread in H1.
  - split_and!; [done..|by rewrite H3|]. by rewrite Hread in H2.
Qed.

Lemma holds_fits L f v r : holds L f v r → fits f v.
Proof. destruct v as [|s|vs]; [done| |]; by intros (? & ? & _). Qed.

Definition fields_size (ds : list DecodedField) : Z := Zlen (concat (decoded_field_bytes <$> ds)).

Lemma fields_size_app ds ds' : fields_size (ds ++ ds') = fields_size ds + fields_size ds'.
Proof. unfold fields_size. by rewrite fmap_app, concat_app, Zlen_app. Qed.

Lemma fields_size_one d : fields_size [d] = Zlen (decoded_field_bytes d).
Proof. unfold fields_size. simpl. by rewrite app_nil_r. Qed.

Lemma fields_size_nonneg ds : 0 ≤ fields_size ds.
Proof. apply Zlen_nonneg. Qed.

Lemma fields_size_payload p : fields_size (payload_fields p) ≤ Zlen (payload_bytes p).
Proof.
  unfold payload_bytes, fields_size. rewrite !Zlen_app.
  pose proof (Zlen_nonneg kMagic). pose proof (Zlen_nonneg (int_bytes uint16_t 1)).
  pose proof (Zlen_nonneg (int_bytes uint16_t 0)).
  pose proof (Zlen_nonneg (count_bytes (payload_fields p))). lia.
Qed.

(** The row after the fields [ds]. *)
Record row_holds (L : CompiledRowLayout) (ds : list DecodedField) (r : EncodedRow) : Prop := {
  rh_row : row_ok L r;
  rh_slot : Zlen (row_slot r) = row_slot_size L;
  rh_values : ∀ d f, d ∈ ds → FindField L (decoded_id d) = Some f → holds L f (decoded_value d) r;
  rh_absent : ∀ f, f ∈ fields L → field_id f ∉ decoded_id <$> ds →
    Row_Has (row_of L r) (field_id f) = Ok false;
}.

#[export] Instance fits_dec f v : Decision (fits f v).
Proof. destruct v; apply _. Defined.

Lemma encode_field_found L d f :
  FindField L (decoded_id d) = Some f → decoded_value d ≠ VMonostate →
  encode_field L d = write_value f d.
Proof. intros Hf Hn. unfold encode_field. rewrite Hf. by destruct (decoded_value d). Qed.

Lemma encode_field_unfit L d f r :
  FindField L (decoded_id d) = Some f → ¬ fits f (decoded_value d) →
  ∃ e, encode_field L d (Some r) = (Err e, Some r).
Proof.
  intros Hf Hn. assert (decoded_value d = VMonostate ∨ decoded_value d ≠ VMonostate) as [Hv|Hv]
    by (destruct (decoded_value d); auto).
  - unfold encode_field. rewrite Hf, Hv. by eexists.
  - rewrite (encode_field_found L d f) by done.
    destruct (write_value_unfit f r d Hv Hn) as (e & He & _). eauto.
Qed.

Lemma encode_field_step L ds d r :
  layout_wf L → field_ok d → decoded_id d ∉ decoded_id <$> ds →
  row_holds L ds r → room (fields_size ds) r → fields_size (ds ++ [d]) ≤ 2 ^ 30 →
  match encode_field L d (Some r) with
  | (Ok _, o) => ∃ r', o = Some r' ∧ row_holds L (ds ++ [d]) r' ∧ room (fields_size (ds ++ [d])) r'
  | (Err e, _) => ∃ f, FindField L (decoded_id d) = Some f ∧ ¬ fits f (decoded_value d)
  | (Fault _, _) => False
  end.
Proof.
  intros Hwf Hd Hnew [Hrow Hslot Hvals Habs] Hroom Hsz.
  rewrite fields_size_app, fields_size_one in *.
  destruct (FindField L (decoded_id d)) as [f|] eqn:Hff.
  - assert (f ∈ fields L ∧ field_id f = decoded_id d) as [Hf Hid]
      by (rewrite FindField_key in Hff; by apply find_key_Some_1 in Hff).
    destruct (decide (fits f (decoded_value d))) as [Hfit|Hunfit].
    + rewrite (encode_field_found L d f) by (done || by destruct (decoded_value d)).
      destruct (write_value_fits L Hwf f r d Hf Hrow Hd _ Hroom Hsz Hfit) as (r' & Hw & Hwr).
      rewrite Hw. destruct Hwr as [Hrow' Hh Ho Hs Hroom']. exists r'.
      split_and!; [done| |done]. split; [done|by unfold Zlen in *; rewrite Hs| |].
      * intros d' f' [Hin| ->%list_elem_of_singleton]%elem_of_app Hff'; [|congruence].
        assert (f' ∈ fields L ∧ field_id f' = decoded_id d') as [Hf' Hid']
          by (rewrite FindField_key in Hff'; by apply find_key_Some_1 in Hff').
        eapply holds_kept; [done..| |done|by apply Hvals].
        rewrite Hid, Hid'. intros Heq. apply Hnew. rewrite <-Heq. by apply list_elem_of_fmap_2.
      * intros g Hg Hni. rewrite fmap_app, not_elem_of_app in Hni. destruct Hni as [Hni Hnd].
        assert (field_id g ≠ field_id f) as Hne by (rewrite Hid; set_solver).
        destruct (Ho (field_id g) (type g) None Hne) as (_ & _ & ->). by apply Habs.
    + destruct (encode_field_unfit L d f r Hff Hunfit) as [e ->]. by exists f.
  - unfold encode_field. rewrite Hff. exists r. split_and!; [done| |].
    + split; [done|done| |].
      * intros d' f' [Hin| ->%list_elem_of_singleton]%elem_of_app Hff'; [by apply Hvals|congruence].
      * intros g Hg Hni. rewrite fmap_app, not_elem_of_app in Hni. by apply Habs; [|apply Hni].
    + destruct Hroom. pose proof (Zlen_nonneg (decoded_field_bytes d)). split; lia.
Qed.

Lemma encode_fields_spec L p :
  layout_wf L → payload_ok p → Zlen (payload_bytes p) ≤ 2 ^ 30 →
  match sfor (encode_field L) (payload_fields p) (Some (CreateEncodedRow L)) with
  | (Ok _, o) => ∃ r, o = Some r ∧ row_holds L (payload_fields p) r
  | (Err _, _) => ∃ d f, d ∈ payload_fields p ∧ FindField L (decoded_id d) = Some f
                         ∧ ¬ fits f (decoded_value d)
  | (Fault _, _) => False
  end.
Proof.
  intros Hwf [_ Hok Hnd] Hsz. pose proof (fields_size_payload p) as Hps.
  destruct (CreateEncodedRow_ok L Hwf) as (H1 & H2 & H3 & H4).
  set (Q (_ : Status) (_ : option EncodedRow) := ∃ d f, d ∈ payload_fields p
    ∧ FindField L (decoded_id d) = Some f ∧ ¬ fits f (decoded_value d)).
  assert (match sfor (encode_field L) (payload_fields p) (Some (CreateEncodedRow L)) with
    | (Ok _, o) => ∃ r, o = Some r ∧ row_holds L (payload_fields p) r
                        ∧ room (fields_size (payload_fields p)) r
    | (Err e, o) => Q e o
    | (Fault _, _) => False
    end) as Hrun.
  { apply (sfor_rule (encode_field L)
      (λ ds o, ∃ r, o = Some r ∧ row_holds L ds r ∧ room (fields_size ds) r) Q).
    { exists (CreateEncodedRow L). split_and!; [done| |done].
      split; [done|done| |intros f Hf _; by apply H4]. intros d f H. by apply elem_of_nil in H. }
    intros ds d rest o Hl (r & -> & Hr & Hroom).
    assert (fields_size (ds ++ [d]) ≤ 2 ^ 30) as Hle.
    { replace (payload_fields p) with ((ds ++ [d]) ++ rest) in Hps by (by rewrite <-app_assoc).
      rewrite fields_size_app in Hps. pose proof (fields_size_nonneg rest). lia. }
    rewrite Hl, Forall_app, Forall_cons in Hok. destruct Hok as (_ & Hd & _).
    assert (decoded_id d ∉ decoded_id <$> ds) as Hni.
    { rewrite Hl, fmap_app, fmap_cons in Hnd. apply NoDup_app in Hnd as (_ & Hnd & _).
      intros Hin. apply (Hnd _ Hin). by left. }
    pose proof (encode_field_step L ds d r Hwf Hd Hni Hr Hroom Hle) as Hstep.
    destruct (encode_field L d (Some r)) as [[v|e|ft] o']; [done| |done].
    destruct Hstep as (f & Hf & Hnf). exists d, f. split; [|done].
    rewrite Hl. apply elem_of_app. right. left. }
  destruct (sfor _ _ _) as [[u|e|ft] o]; [|done..].
  destruct Hrun as (r & -> & Hr & _). by exists r.
Qed.

(** The payloads a layout cannot take: a field of the wrong shape or type, an
    explicit null, or a required field that is missing. *)
Definition refused (L : CompiledRowLayout) (p : DecodedPayload) : Prop :=
  (∃ d f, d ∈ payload_fields p ∧ FindField L (decoded_id d) = Some f ∧ ¬ fits f (decoded_value d))
  ∨ ∃ f, f ∈ fields L ∧ required f = true ∧ field_id f ∉ decoded_id <$> payload_fields p.

Lemma row_holds_not_refused L p r :
  row_holds L (payload_fields p) r →
  (∀ f, f ∈ fields L → required f = true → Row_Has (row_of L r) (field_id f) = Ok true) →
  ¬ refused L p.
Proof.
  intros [_ _ Hv Ha] Hreq [(d & f & Hd & Hf & Hn)|(f & Hf & Hq & Hn)].
  - apply Hn. by eapply holds_fits, Hv.
  - specialize (Ha f Hf Hn). by rewrite Hreq in Ha.
Qed.

Lemma row_has_bit L f r :
  layout_wf L → f ∈ fields L →
  Row_Has (row_of L r) (field_id f) = Ok (presence_bit f (row_slot r)).
Proof.
  intros Hwf Hf. unfold Row_Has, row_of. cbn [row_layout row_encoded].
  rewrite FindField_in by done. pose proof (field_bit L f Hwf Hf). by apply FieldPresent_bit; lia.
Qed.

Lemma EncodeForLayout_spec L p :
  layout_wf L → payload_ok p → Zlen (payload_bytes p) ≤ 2 ^ 30 →
  match EncodeForLayout p (Some L) with
  | Ok r => row_holds L (payload_fields p) r ∧ ¬ refused L p
            ∧ MaterializeRow (Some L) r = Ok (row_of L r)
  | Err _ => refused L p
  | Fault _ => False
  end.
Proof.
  intros Hwf Hp Hsz. unfold EncodeForLayout.
  pose proof (encode_fields_spec L p Hwf Hp Hsz) as Hs.
  destruct (sfor _ _ _) as [[u|e|ft] o]; [|left; exact Hs|done].
  destruct Hs as (r & -> & Hr). pose proof Hr as [[Hv Hfp Hle] Hslot Hvals Habs].
  assert (MaterializeRow (Some L) r
    = let* _ := ofold (check_required r) (fields L) tt in Ok (row_of L r)) as Hm.
  { unfold MaterializeRow. rewrite Hv, Hfp, !Z.eqb_refl. cbn [negb orb].
    by rewrite (proj2 (Z.ltb_ge _ _)) by lia. }
  assert (∀ f, f ∈ fields L → 0 ≤ presence_bit_index f) as Hbits
    by (intros f Hf; pose proof (field_bit L f Hwf Hf); lia).
  pose proof (required_loop r (fields L) Hbits) as Hreq.
  destruct (ofold (check_required r) (fields L) tt) as [[]|e|ft]; cbn [obind] in Hm;
    rewrite Hm; cbn [obind]; [| |done].
  - split_and!; [done| |done]. apply (row_holds_not_refused L p r); [done|].
    intros f Hf Hq. rewrite row_has_bit by done. f_equal. by apply Hreq.
  - destruct Hreq as (_ & f & Hf & Hq & Hbit). right. exists f. split_and!; [done..|].
    intros (d & Hid & Hd)%list_elem_of_fmap.
    assert (FindField L (decoded_id d) = Some f) as Hff by (rewrite <-Hid; by apply FindField_in).
    specialize (Hvals d f Hd Hff).
    assert (Row_Has (row_of L r) (field_id f) = Ok true) as Hh
      by (destruct (decoded_value d); [done|apply Hvals..]).
    rewrite row_has_bit, Hbit in Hh by done. done.
Qed.

(** What a typed read of the field gives. *)
Definition reads_back (row : Row) (f : FieldLayout) (v : DecodedValue) : Prop :=
  match v with
  | VMonostate => False
  | VScalar s => Row_Get (type f) row (field_id f) None = Ok (Some s)
  | VList vs => Row_GetList (type f) row (field_id f) None = Ok vs
  end.

Lemma holds_reads_back L f v r : holds L f v r → reads_back (row_of L r) f v.
Proof.
  destruct v as [|s|vs]; [done| |]; intros (Hl & Ht & _ & Hr).
  - by apply Row_Get_Ok.
  - by apply Row_GetList_Ok.
Qed.

Definition reads_default (row : Row) (f : FieldLayout) : Prop :=
  if is_list f then Row_GetList (type f) row (field_id f) None = Ok (default_list f)
  else Row_Get (type f) row (field_id f) None = Ok (default_scalar f).

(** *** C15: An upsert's row reads back the message's values.

    Take any message of at most [2^30] bytes whose payload decodes, and the
    layout of any schema the program can build.  Encoding the payload for the
    layout never faults, and it fails exactly when the message should be
    refused: a field of the layout arrives with another shape or type or as an
    explicit null, or a required field is missing.  Otherwise the row answers
    every field of the message with the very value sent, whatever its
    encoding, and every other field of the layout with its default; fields the
    layout does not know are ignored. *)
Theorem upsert_row_reads_payload (ver : Z) (s : RuntimeSchema) (L : CompiledRowLayout)
    (bytes : list byte) (p : DecodedPayload)
    (Hs : reachable_schema ver s) (HL : Compile s = Ok L)
    (Hdec : DecodePayload bytes = Ok p) (Hsize : Zlen bytes ≤ 2 ^ 30) :
  match EncodeForLayout p (Some L) with
  | Ok r =>
      ¬ refused L p ∧ row_ok L r
      ∧ (∀ d f, d ∈ payload_fields p → FindField L (decoded_id d) = Some f →
          reads_back (row_of L r) f (decoded_value d))
      ∧ ∀ f, f ∈ fields L → field_id f ∉ decoded_id <$> payload_fields p →
          Row_Has (row_of L r) (field_id f) = Ok false ∧ reads_default (row_of L r) f
  | Err _ => refused L p
  | Fault _ => False
  end.
Proof.
  injection HL as <-. pose proof (compile_layout_wf s (reachable_schema_ok _ _ Hs)) as Hwf.
  destruct (decode_sound bytes p Hdec) as [Hp ->].
  pose proof (EncodeForLayout_spec _ p Hwf Hp Hsize) as H.
  destruct (EncodeForLayout _ _) as [r|e|ft]; [|done..].
  destruct H as ([Hrow Hslot Hvals Habs] & Hnr & Hm). split_and!; [done..| |].
  - intros d f Hd Hf. by eapply holds_reads_back, Hvals.
  - intros f Hf Hni. specialize (Habs f Hf Hni). split; [done|].
    assert (required f = false) as Hq.
    { destruct (required f) eqn:E; [|done]. destruct Hnr. right. by exists f. }
    rewrite row_has_bit in Habs by done. injection Habs as Hbit.
    unfold reads_default. destruct (is_list f) eqn:Hl; [by apply absent_list|by apply absent_scalar].
Qed.
