(* ===== verification/ApplyProofs.v ===== *)
(** * Applying an upsert publishes it to every target

    The store of realtime tables is viewed as a list of finite maps.  [Apply]
    does to the view what its specification [deliver] says: every target
    route's shard of the key gets the row encoded for the route's layout,
    unless it already has a newer one.  Whatever can be refused is refused
    before the first publication. *)

From S2P Require Import Prelude Status ByteIo Hash Types Schema SchemaProofs RowStorage RowSafety.
From S2P Require Import RowProofs RowAccess RealtimeDelta RealtimeProofs RealtimeTable.
From S2P Require Import Payload Codec PayloadProofs Kafka UpdateApplier EncodeProofs.

(** ** The store *)

Abbreviation view := (list (gmap Z (SourcePosition * EncodedRow))).

Definition views (ts : tables_of) : view := visible_rows <$> ts.

(** The shard pointer of a key in a route. *)
Definition shard_of (route : UpdateTargetRoute) (k : Z) : option nat :=
  mjoin (realtime_shards route !! Z.to_nat (ShardFor k route)).

(** The tables a route points to hold rows of its layout. *)
Definition route_wired (ts : tables_of) (route : UpdateTargetRoute) : Prop :=
  is_u64 (route_shard_count route)
  ∧ ∀ L, route_layout route = Some L → layout_wf L
    ∧ ∀ i, Some i ∈ realtime_shards route → ∃ t, ts !! i = Some t ∧ table_ok L t.

Definition wired (options : UpdateApplierOptions) (ts : tables_of) : Prop :=
  Forall (route_wired ts) (targets options).

(** What delivering a payload to one route does. *)
Definition deliver_route (k : Z) (pos : SourcePosition) (p : DecodedPayload) (v : view)
    (route : UpdateTargetRoute) : view :=
  match shard_of route k, EncodeForLayout p (route_layout route) with
  | Some i, Ok e => alter (publish_row k pos e) i v
  | _, _ => v
  end.

Definition deliver (routes : list UpdateTargetRoute) (k : Z) (pos : SourcePosition)
    (p : DecodedPayload) (v : view) : view := foldl (deliver_route k pos p) v routes.

(** ** Validated options *)

Record route_valid (route : UpdateTargetRoute) : Prop := {
  rv_layout : is_Some (route_layout route);
  rv_count : single_bit (route_shard_count route) = true;
  rv_shards : Zlen (realtime_shards route) = route_shard_count route;
  rv_pointers : ∀ s, s ∈ realtime_shards route → is_Some s;
}.

Lemma check_shards_spec l :
  match ofold (λ _, check_shard) l tt with
  | Ok _ => ∀ s, s ∈ l → is_Some s
  | Err _ => True
  | Fault _ => False
  end.
Proof.
  induction l as [|[i|] l IH]; simpl; [by intros s H%elem_of_nil| |done].
  destruct (ofold _ l tt); [|done..]. intros s [->|Hs]%elem_of_cons; [by eexists|by apply IH].
Qed.

Lemma check_route_spec route :
  is_u64 (route_shard_count route) →
  match check_route route with Ok _ => route_valid route | Err _ => True | Fault _ => False end.
Proof.
  intros Hc. unfold check_route. destruct (route_layout route) as [L|] eqn:HL; [|done].
  destruct (_ || _) eqn:Hp; [done|]. apply orb_false_iff in Hp as [_ Hp].
  apply negb_false_iff in Hp. rewrite IsPowerOfTwo_single_bit in Hp
    by (unfold is_u64, u64_max in *; lia).
  destruct (Z.eqb_spec (Zlen (realtime_shards route)) (route_shard_count route)) as [Hl|];
    [|done]. cbn [negb].
  pose proof (check_shards_spec (realtime_shards route)) as Hs.
  destruct (ofold _ _ _); [|done..]. split; [by rewrite HL|done..].
Qed.

Lemma ValidateOptions_spec options ts :
  wired options ts →
  match ValidateOptions options with
  | Ok _ => Forall route_valid (targets options) | Err _ => True | Fault _ => False
  end.
Proof.
  intros Hw. unfold ValidateOptions. destruct (logical_topic options); [done|].
  unfold wired in Hw. destruct (targets options) as [|route0 routes0]; [done|].
  revert Hw. generalize (route0 :: routes0). intros routes. induction routes as [|r rest IH];
    intros Hw; simpl; [done|].
  apply Forall_cons in Hw as [[Hr _] Hw]. pose proof (check_route_spec r Hr) as Hc.
  destruct (check_route r) as [[]|e|ft]; simpl; [|done..].
  specialize (IH Hw). destruct (ofold _ rest tt); [|done..]. by constructor.
Qed.

Lemma ShardFor_range k route :
  is_u64 (route_shard_count route) → route_valid route →
  0 ≤ ShardFor k route < Zlen (realtime_shards route).
Proof.
  intros Hu [_ Hb Hl _]. rewrite Hl. unfold ShardFor.
  assert (0 < route_shard_count route) as Hpos.
  { unfold is_u64 in Hu. destruct (Z.eq_dec (route_shard_count route) 0) as [E|]; [|lia].
    rewrite E in Hb. done. }
  rewrite wrap64_small by (unfold is_u64 in *; lia).
  rewrite land_single_bit by (done || lia). apply Z.mod_pos_bound. lia.
Qed.

(** The shard a key goes to exists. *)
Lemma shard_of_valid k route :
  is_u64 (route_shard_count route) → route_valid route →
  ∃ i, shard_of route k = Some i ∧ Some i ∈ realtime_shards route
    ∧ at_ (E := Status) (realtime_shards route) (ShardFor k route) = Ok (Some i).
Proof.
  intros Hu Hv. pose proof (ShardFor_range k route Hu Hv) as Hr.
  destruct (at_in (E := Status) (realtime_shards route) _ Hr) as (s & Hs & Hat).
  apply list_elem_of_lookup_2 in Hs as Hin.
  destruct (rv_pointers route Hv s Hin) as [i ->].
  exists i. split_and!; [|done..]. unfold shard_of. by rewrite Hs.
Qed.

Lemma metadata_spec m topic :
  match ValidateMessageMetadata m topic with
  | Ok _ => message_topic m = topic ∧ IsValidSourcePosition (source_position m) = true
  | Err _ => True
  | Fault _ => False
  end.
Proof.
  unfold ValidateMessageMetadata. destruct (message_topic m) eqn:Ht; [done|]. rewrite <-Ht.
  destruct (bool_decide (message_topic m = topic)) eqn:Hb; cbn [negb]; [|done].
  apply bool_decide_eq_true in Hb.
  destruct (Z.ltb_spec (message_partition m) 0); [done|].
  destruct (Z.ltb_spec (message_offset m) 0); [done|]. split; [done|].
  unfold IsValidSourcePosition, source_position. cbn [partition offset].
  rewrite !(proj2 (Z.leb_le _ _)) by lia. done.
Qed.

(** ** Preparing *)

Lemma layout_bits_ok L : layout_wf L → bits_ok L.
Proof. intros Hwf f Hf. pose proof (field_bit L f Hwf Hf). lia. Qed.

(** An encoded payload is accepted by the tables of its layout. *)
Lemma encoded_accepted L p r pos :
  row_holds L (payload_fields p) r → MaterializeRow (Some L) r = Ok (row_of L r) →
  IsValidSourcePosition pos = true → accepted L pos r.
Proof.
  intros [[Hv Hfp _] Hs _ _] Hm Hpos. split; [done..|].
  unfold MaterializeRow in Hm. case_match; [done|]. case_match; [done|].
  destruct (ofold _ _ _) as [[]|e|ft]; done.
Qed.

(** A prepared publication goes to the route's shard with the route's row. *)
Record prepared_ok (m : KafkaUpsertMessage) (p : DecodedPayload)
    (route : UpdateTargetRoute) (pr : PreparedPublish) : Prop := {
  pk_key : prepared_key pr = message_primary_key m;
  pk_position : prepared_position pr = source_position m;
  pk_encoded : EncodeForLayout p (route_layout route) = Ok (prepared_encoded pr);
  pk_table : prepared_table pr = shard_of route (message_primary_key m);
  pk_target : ∃ i L, shard_of route (message_primary_key m) = Some i
    ∧ Some i ∈ realtime_shards route ∧ route_layout route = Some L
    ∧ layout_wf L ∧ accepted L (source_position m) (prepared_encoded pr);
}.

Lemma prepare_spec ts m p route :
  route_wired ts route → route_valid route → payload_ok p → Zlen (payload_bytes p) ≤ 2 ^ 30 →
  IsValidSourcePosition (source_position m) = true →
  match prepare m p route with
  | Ok pr => prepared_ok m p route pr
  | Err _ => ∃ L, route_layout route = Some L ∧ refused L p
  | Fault _ => False
  end.
Proof.
  intros [Hu Hw] Hv Hp Hsz Hpos. destruct (rv_layout route Hv) as [L HL].
  destruct (Hw L HL) as [Hwf _]. unfold prepare. rewrite HL.
  pose proof (EncodeForLayout_spec L p Hwf Hp Hsz) as He.
  destruct (EncodeForLayout p (Some L)) as [e|err|ft] eqn:Henc; cbn [obind]; [|by exists L|done].
  destruct He as (Hrow & _ & Hm).
  destruct (shard_of_valid (message_primary_key m) route Hu Hv) as (i & Hi & Hin & Hat).
  rewrite Hat. cbn [obind]. split; cbn [prepared_key prepared_position prepared_encoded
    prepared_table]; [done..|by rewrite HL|done|].
  exists i, L. split_and!; [done..|]. by eapply encoded_accepted.
Qed.

Lemma prepare_all_spec ts m p routes :
  Forall (route_wired ts) routes → Forall route_valid routes → payload_ok p →
  Zlen (payload_bytes p) ≤ 2 ^ 30 → IsValidSourcePosition (source_position m) = true →
  match omapM (prepare m p) routes with
  | Ok prs => Forall2 (prepared_ok m p) routes prs
  | Err _ => ∃ route L, route ∈ routes ∧ route_layout route = Some L ∧ refused L p
  | Fault _ => False
  end.
Proof.
  intros Hw Hv Hp Hsz Hpos. induction routes as [|route routes IH]; simpl; [constructor|].
  apply Forall_cons in Hw as [Hw1 Hw], Hv as [Hv1 Hv]. specialize (IH Hw Hv).
  pose proof (prepare_spec ts m p route Hw1 Hv1 Hp Hsz Hpos) as H1.
  destruct (prepare m p route) as [pr|e|ft]; cbn [obind]; [| |done].
  - destruct (omapM _ routes) as [prs|e|ft]; cbn [obind]; [by constructor| |done].
    destruct IH as (r & L & Hr & HL & Hrf). exists r, L. split_and!; [by right|done..].
  - destruct H1 as (L & HL & Hrf). exists route, L. split_and!; [left|done..].
Qed.

(** ** Publishing *)

(** Why a route may refuse an upsert when it is published. *)
Definition conflict (ts : tables_of) (route : UpdateTargetRoute) (k : Z) (pos : SourcePosition)
    : Prop :=
  ∃ i t, shard_of route k = Some i ∧ ts !! i = Some t
    ∧ ((∃ old e0, visible_rows t !! k = Some (old, e0) ∧ partition old ≠ partition pos)
       ∨ visible_rows t !! k = None ∧ no_slot_left t k).

(** The route's shard has the message, or something newer. *)
Definition delivered (v : view) (k : Z) (pos : SourcePosition) (route : UpdateTargetRoute) : Prop :=
  ∃ i rows cur e, shard_of route k = Some i ∧ v !! i = Some rows ∧ rows !! k = Some (cur, e)
    ∧ partition cur = partition pos ∧ offset pos ≤ offset cur.

Lemma views_insert ts i t : views (<[i := t]> ts) = <[i := visible_rows t]> (views ts).
Proof. apply list_fmap_insert. Qed.

Lemma views_lookup ts i t : ts !! i = Some t → views ts !! i = Some (visible_rows t).
Proof. intros H. unfold views. by rewrite list_lookup_fmap, H. Qed.

Lemma route_wired_insert ts route i t t' :
  ts !! i = Some t → (∀ L, table_ok L t → table_ok L t') →
  route_wired ts route → route_wired (<[i := t']> ts) route.
Proof.
  intros Hi Ht [Hu Hw]. split; [done|]. intros L HL. destruct (Hw L HL) as [Hwf Hs].
  split; [done|]. intros j Hj. destruct (Hs j Hj) as (u & Hu' & Hok).
  destruct (decide (i = j)) as [<-|Hne].
  - exists t'. rewrite Hi in Hu'. injection Hu' as <-.
    split; [apply list_lookup_insert_eq; by eapply lookup_lt_Some|by apply Ht].
  - exists u. by rewrite list_lookup_insert_ne.
Qed.

Lemma publish_row_newest rows k pos e :
  (∀ old e0, rows !! k = Some (old, e0) → partition old = partition pos) →
  ∃ cur e', publish_row k pos e rows !! k = Some (cur, e')
    ∧ partition cur = partition pos ∧ offset pos ≤ offset cur.
Proof.
  intros Hp. unfold publish_row. destruct (rows !! k) as [[old e0]|] eqn:Hk.
  - specialize (Hp _ _ eq_refl). destruct (Z.ltb_spec (offset old) (offset pos)).
    + exists pos, e. by rewrite lookup_insert_eq.
    + exists old, e0. split_and!; [done..|lia].
  - exists pos, e. by rewrite lookup_insert_eq.
Qed.

Lemma table_ok_layout L L' t : table_ok L t → table_ok L' t → L = L'.
Proof. intros [H1 _ _ _ _ _] [H2 _ _ _ _ _]. congruence. Qed.

(** ** Progress of what is visible *)

(** [v'] shows every key of [v], from the same partition, as new or newer. *)
Definition advances (v v' : view) : Prop :=
  ∀ i rows k pos e, v !! i = Some rows → rows !! k = Some (pos, e) →
    ∃ rows' pos' e', v' !! i = Some rows' ∧ rows' !! k = Some (pos', e')
      ∧ partition pos' = partition pos ∧ offset pos ≤ offset pos'.

Lemma advances_refl v : advances v v.
Proof. intros i rows k pos e Hi Hk. exists rows, pos, e. split_and!; done || lia. Qed.

Lemma advances_trans v1 v2 v3 : advances v1 v2 → advances v2 v3 → advances v1 v3.
Proof.
  intros H12 H23 i rows k pos e Hi Hk.
  destruct (H12 i rows k pos e Hi Hk) as (rows2 & pos2 & e2 & Hi2 & Hk2 & Hp2 & Ho2).
  destruct (H23 i rows2 k pos2 e2 Hi2 Hk2) as (rows3 & pos3 & e3 & Hi3 & Hk3 & Hp3 & Ho3).
  exists rows3, pos3, e3. split_and!; [done..|congruence|lia].
Qed.

Lemma delivered_advances v v' k pos route :
  advances v v' → delivered v k pos route → delivered v' k pos route.
Proof.
  intros Hv (i & rows & cur & e & Hi & Hr & Hk & Hp & Ho).
  destruct (Hv i rows k cur e Hr Hk) as (rows' & cur' & e' & Hr' & Hk' & Hp' & Ho').
  exists i, rows', cur', e'. split_and!; [done..|congruence|lia].
Qed.

Lemma publish_row_advances rows k pos e k' pos' e' :
  (∀ old e0, rows !! k = Some (old, e0) → partition old = partition pos) →
  rows !! k' = Some (pos', e') →
  ∃ pos2 e2, publish_row k pos e rows !! k' = Some (pos2, e2)
    ∧ partition pos2 = partition pos' ∧ offset pos' ≤ offset pos2.
Proof.
  intros Hp Hk'. destruct (decide (k' = k)) as [->|Hne].
  - unfold publish_row. rewrite Hk'. specialize (Hp _ _ Hk').
    destruct (Z.ltb_spec (offset pos') (offset pos)).
    + exists pos, e. rewrite lookup_insert_eq. split_and!; [done..|lia].
    + exists pos', e'. split_and!; done || lia.
  - exists pos', e'. split_and!; [|done|lia]. unfold publish_row.
    repeat case_match; by rewrite ?lookup_insert_ne by done.
Qed.

(** Publishing to one table advances the view. *)
Lemma alter_advances v i rows k pos e :
  v !! i = Some rows → (∀ old e0, rows !! k = Some (old, e0) → partition old = partition pos) →
  advances v (alter (publish_row k pos e) i v).
Proof.
  intros Hi Hp j rows' k' pos' e' Hj Hk'. destruct (decide (i = j)) as [<-|Hne].
  - rewrite Hi in Hj. injection Hj as <-.
    destruct (publish_row_advances rows k pos e k' pos' e' Hp Hk') as (pos2 & e2 & H2).
    exists (publish_row k pos e rows), pos2, e2. by rewrite list_lookup_alter_eq, Hi.
  - exists rows', pos', e'. rewrite list_lookup_alter_ne by done. split_and!; done || lia.
Qed.

Lemma insert_as_alter {A} (f : A → A) (i : nat) (l : list A) x : l !! i = Some x → <[i := f x]> l = alter f i l.
Proof.
  intros Hx. apply list_eq. intros j. rewrite list_lookup_alter. case_decide as Hij.
  - subst j. rewrite Hx. apply list_lookup_insert_eq. by eapply lookup_lt_Some.
  - by rewrite list_lookup_insert_ne.
Qed.

Lemma publish_prepared_spec ts m p route pr :
  is_u64 (message_primary_key m) → route_wired ts route → prepared_ok m p route pr →
  let k := message_primary_key m in
  let pos := source_position m in
  match publish_prepared pr ts with
  | (Ok _, ts') =>
      views ts' = deliver_route k pos p (views ts) route
      ∧ delivered (views ts') k pos route ∧ advances (views ts) (views ts')
      ∧ (∀ r, route_wired ts r → route_wired ts' r)
  | (Err _, ts') =>
      views ts' = views ts ∧ conflict ts' route k pos
      ∧ (∀ r, route_wired ts r → route_wired ts' r)
  | (Fault _, _) => False
  end.
Proof.
  intros Hk [Hu Hw] [Hkey Hpos Henc Htab (i & L & Hi & Hin & HL & Hwf & Hacc)] k pos.
  destruct (Hw L HL) as [_ Hs]. destruct (Hs i Hin) as (t & Ht & Hok).
  unfold publish_prepared. rewrite Htab, Hi, Ht, Hkey, Hpos. fold k pos.
  pose proof (Publish_spec L t k pos (prepared_encoded pr) Hok (layout_bits_ok L Hwf) Hk) as Hp.
  pose proof (Publish_refused_map L t k pos (prepared_encoded pr)) as Hmap.
  destruct (Publish _ _ _ t) as [[u|e|ft] t']; cbv iota; [| |done].
  - destruct Hp as (_ & Hok' & Hvis & Hpart). pose proof (views_lookup ts i t Ht) as Hvt.
    assert (views (<[i := t']> ts) = alter (publish_row k pos (prepared_encoded pr)) i (views ts))
      as Hv by (rewrite views_insert, Hvis; by apply (insert_as_alter _ i)).
    split_and!.
    + unfold deliver_route. fold k in Hi. by rewrite Hi, Henc.
    + destruct (publish_row_newest (visible_rows t) k pos (prepared_encoded pr) Hpart)
        as (cur & e & Hc & Hpc & Hoc).
      exists i, (visible_rows t'), cur, e. split_and!; [done| |by rewrite Hvis|done..].
      rewrite Hv, list_lookup_alter_eq, Hvt, Hvis. done.
    + rewrite Hv. by apply (alter_advances _ _ (visible_rows t)).
    + intros r. apply (route_wired_insert ts r i t); [done|].
      intros L' HL'. by rewrite (table_ok_layout L' L t).
  - destruct Hp as (Hok' & Hvis & Hwhy). pose proof (views_lookup ts i t Ht) as Hvt.
    split_and!.
    + rewrite views_insert, Hvis. by apply list_insert_id.
    + exists i, t'. split_and!; [done|apply list_lookup_insert_eq; by eapply lookup_lt_Some|].
      rewrite Hvis. unfold no_slot_left.
      rewrite (Hmap _ _ Hok (layout_bits_ok L Hwf) Hk eq_refl). by destruct Hwhy as [Hna|Hwhy].
    + intros r. apply (route_wired_insert ts r i t); [done|].
      intros L' HL'. by rewrite (table_ok_layout L' L t).
Qed.


(** ** One message *)

Lemma publish_all_spec m p routes prs ts :
  is_u64 (message_primary_key m) → Forall (route_wired ts) routes →
  Forall2 (prepared_ok m p) routes prs →
  let k := message_primary_key m in
  let pos := source_position m in
  match sfor publish_prepared prs ts with
  | (Ok _, ts') =>
      views ts' = deliver routes k pos p (views ts)
      ∧ Forall (delivered (views ts') k pos) routes ∧ advances (views ts) (views ts')
      ∧ (∀ r, route_wired ts r → route_wired ts' r)
  | (Err _, ts') =>
      ∃ before route after, routes = before ++ route :: after
        ∧ views ts' = deliver before k pos p (views ts)
        ∧ conflict ts' route k pos
        ∧ advances (views ts) (views ts') ∧ (∀ r, route_wired ts r → route_wired ts' r)
  | (Fault _, _) => False
  end.
Proof.
  intros Hk Hw Hprs k pos. revert ts Hw. induction Hprs as [|route pr routes prs Hpr _ IH];
    intros ts Hw; cbn [sfor].
  { split_and!; [done|constructor|apply advances_refl|done]. }
  apply Forall_cons in Hw as [Hw1 Hw]. unfold sbind.
  pose proof (publish_prepared_spec ts m p route pr Hk Hw1 Hpr) as H1. fold k pos in H1.
  destruct (publish_prepared pr ts) as [[u|e|ft] ts1]; cbv zeta in H1; [| |done].
  - destruct H1 as (Hv1 & Hd1 & Ha1 & Hk1).
    assert (Forall (route_wired ts1) routes) as Hw' by (eapply Forall_impl; [exact Hw|apply Hk1]).
    specialize (IH ts1 Hw').
    destruct (sfor publish_prepared prs ts1) as [[u'|e'|ft'] ts']; [| |done].
    + destruct IH as (Hv & Hd & Ha & Hkeep). split_and!.
      * by rewrite Hv, Hv1.
      * constructor; [by eapply delivered_advances|done].
      * by eapply advances_trans.
      * intros r Hr. by apply Hkeep, Hk1.
    + destruct IH as (before & r & after & -> & Hv & Hc & Ha & Hkeep).
      exists (route :: before), r, after. split_and!; [done|by rewrite Hv, Hv1|done| |].
      * by eapply advances_trans.
      * intros r' Hr'. by apply Hkeep, Hk1.
  - destruct H1 as (Hv1 & Hc & Hk1). exists [], route, routes.
    split_and!; [done|done|done|rewrite Hv1; apply advances_refl|done].
Qed.

(** Messages that are refused before anything is published. *)
Definition rejected (options : UpdateApplierOptions) (m : KafkaUpsertMessage) : Prop :=
  ValidateOptions options ≠ Ok tt
  ∨ ValidateMessageMetadata m (logical_topic options) ≠ Ok tt
  ∨ (∀ p, DecodePayload (message_payload m) ≠ Ok p)
  ∨ ∃ p route L, DecodePayload (message_payload m) = Ok p ∧ route ∈ targets options
      ∧ route_layout route = Some L ∧ refused L p.

Record message_ok (m : KafkaUpsertMessage) : Prop := {
  mo_key : is_u64 (message_primary_key m);
  mo_size : Zlen (message_payload m) ≤ 2 ^ 30;
}.

(** The outcome of [Apply] and the store it leaves. *)
Definition apply_post (options : UpdateApplierOptions) (m : KafkaUpsertMessage) (ts : tables_of)
    (res : StatusM * tables_of) : Prop :=
  let k := message_primary_key m in
  let pos := source_position m in
  match res with
  | (Ok _, ts') =>
      ∃ p, DecodePayload (message_payload m) = Ok p
        ∧ views ts' = deliver (targets options) k pos p (views ts)
        ∧ Forall (delivered (views ts') k pos) (targets options)
        ∧ message_topic m = logical_topic options
        ∧ advances (views ts) (views ts') ∧ wired options ts'
  | (Err _, ts') =>
      (ts' = ts ∧ rejected options m)
      ∨ ∃ p before route after, DecodePayload (message_payload m) = Ok p
          ∧ targets options = before ++ route :: after
          ∧ views ts' = deliver before k pos p (views ts)
          ∧ conflict ts' route k pos
          ∧ advances (views ts) (views ts') ∧ wired options ts'
  | (Fault _, _) => False
  end.

Lemma Apply_spec options m ts :
  wired options ts → message_ok m → apply_post options m ts (Apply options m ts).
Proof.
  intros Hw [Hk Hsz]. unfold Apply, sbind, slift.
  pose proof (ValidateOptions_spec options ts Hw) as Hvo.
  destruct (ValidateOptions options) as [[]|e|ft] eqn:Eo; [|left; split; [done|]; left; by rewrite Eo|done].
  pose proof (metadata_spec m (logical_topic options)) as Hmd.
  destruct (ValidateMessageMetadata _ _) as [[]|e|ft] eqn:Em; [|left; split; [done|]|done].
  2:{ right. left. by rewrite Em. }
  destruct Hmd as [Htopic Hpos]. pose proof (decode_no_fault (message_payload m)) as Hnf.
  destruct (DecodePayload (message_payload m)) as [p|e|ft] eqn:Ep; [|left; split; [done|]|done].
  2:{ right. right. left. intros p Hdp. congruence. }
  destruct (decode_sound _ _ Ep) as [Hp Hbytes]. rewrite Hbytes in Hsz.
  pose proof (prepare_all_spec ts m p (targets options) Hw Hvo Hp Hsz Hpos) as Hprep.
  destruct (omapM _ _) as [prs|e|ft]; [|left; split; [done|]|done].
  2:{ right. right. right. destruct Hprep as (route & L & Hr & HL & Hrf). by exists p, route, L. }
  pose proof (publish_all_spec m p (targets options) prs ts Hk Hw Hprep) as Hpub.
  assert (∀ ts', (∀ r, route_wired ts r → route_wired ts' r) → wired options ts') as Hwired
    by (intros ts' Hr; eapply Forall_impl; [exact Hw|apply Hr]).
  destruct (sfor publish_prepared prs ts) as [[u|e|ft] ts']; cbv zeta in Hpub; [| |done].
  - destruct Hpub as (Hv & Hd & Ha & Hkeep). exists p. split_and!; auto.
  - destruct Hpub as (before & route & after & Heq & Hv & Hc & Ha & Hkeep).
    right. exists p, before, route, after. split_and!; auto.
Qed.

(** *** C13: applying an upsert delivers it to every target, or says why
    it stopped.

    The view is every shard's visible rows.  When [Apply] succeeds, the view
    is the specification's: every route's shard of the key got the payload,
    encoded for the route's own layout, unless it had a newer one.  When it
    fails, either the message was malformed for one of the targets and no
    target was touched, or a target refused to publish (the key comes from
    another partition, or the shard has no slot for a new key), and the targets
    before it, only, got the message.  No key is ever lost or goes back. *)
Theorem Apply_delivers options m ts :
  wired options ts → message_ok m →
  let k := message_primary_key m in
  let pos := source_position m in
  match Apply options m ts with
  | (Ok _, ts') =>
      ∃ p, DecodePayload (message_payload m) = Ok p
        ∧ views ts' = deliver (targets options) k pos p (views ts)
        ∧ Forall (delivered (views ts') k pos) (targets options)
        ∧ message_topic m = logical_topic options
        ∧ advances (views ts) (views ts') ∧ wired options ts'
  | (Err _, ts') =>
      (ts' = ts ∧ rejected options m)
      ∨ ∃ p before route after, DecodePayload (message_payload m) = Ok p
          ∧ targets options = before ++ route :: after
          ∧ views ts' = deliver before k pos p (views ts)
          ∧ conflict ts' route k pos
          ∧ advances (views ts) (views ts') ∧ wired options ts'
  | (Fault _, _) => False
  end.
Proof. exact (Apply_spec options m ts). Qed.
