(* ===== verification/CheckpointProofs.v ===== *)
(** * The checkpoint of a batch

    [BuildCommitCheckpoint] gives, for every partition of a batch, one past its
    highest offset, in the order of the keys, and nothing else. *)

From S2P Require Import Prelude Status Types Kafka UpdateApplier UpdateCoordinator.

(** ** The highest offset of a partition *)

Definition highest (ms : list KafkaUpsertMessage) (key : PartitionKey) (n : Z) : Prop :=
  (∃ m, m ∈ ms ∧ message_key m = key ∧ message_offset m = n)
  ∧ ∀ m, m ∈ ms → message_key m = key → message_offset m ≤ n.

Lemma highest_unique ms key n1 n2 : highest ms key n1 → highest ms key n2 → n1 = n2.
Proof.
  intros [(m1 & Hin1 & Hk1 & <-) Hmax1] [(m2 & Hin2 & Hk2 & <-) Hmax2].
  specialize (Hmax1 m2 Hin2 Hk2). specialize (Hmax2 m1 Hin1 Hk1). lia.
Qed.

Lemma highest_other ms m key n :
  message_key m ≠ key → highest ms key n → highest (ms ++ [m]) key n.
Proof.
  intros Hne [(x & Hx & Hk & Ho) Hmax]. split.
  - exists x. split; [apply elem_of_app; by left|done].
  - intros y [Hy| ->%list_elem_of_singleton]%elem_of_app Hky; [by apply Hmax|done].
Qed.

Lemma highest_lower ms m n :
  message_offset m ≤ n → highest ms (message_key m) n → highest (ms ++ [m]) (message_key m) n.
Proof.
  intros Hle [(x & Hx & Hk & Ho) Hmax]. split.
  - exists x. split; [apply elem_of_app; by left|done].
  - intros y [Hy| ->%list_elem_of_singleton]%elem_of_app Hky; [by apply Hmax|done].
Qed.

Lemma highest_new ms m :
  (∀ y, y ∈ ms → message_key y = message_key m → message_offset y ≤ message_offset m) →
  highest (ms ++ [m]) (message_key m) (message_offset m).
Proof.
  intros Hmax. split; [exists m; split; [apply elem_of_app; right; left|done]|].
  intros y [Hy| ->%list_elem_of_singleton]%elem_of_app Hky; [by apply Hmax|done].
Qed.

Lemma highest_exists ms key :
  (∃ m, m ∈ ms ∧ message_key m = key) → ∃ n, highest ms key n.
Proof.
  induction ms as [|m ms IH] using rev_ind; intros (x & Hx & Hk); [by apply elem_of_nil in Hx|].
  destruct (decide (message_key m = key)) as [<-|Hne].
  - destruct (decide (Exists (λ y, message_key y = message_key m) ms)) as [Hex|Hno].
    + apply Exists_exists in Hex as (y & Hy & Hky). destruct IH as [n Hn]; [by exists y|].
      destruct (Z.le_gt_cases (message_offset m) n).
      * exists n. by apply highest_lower.
      * exists (message_offset m). apply highest_new. intros z Hz Hkz.
        pose proof (proj2 Hn z Hz Hkz). lia.
    + exists (message_offset m). apply highest_new. intros y Hy Hky. destruct Hno.
      apply Exists_exists. by exists y.
  - apply elem_of_app in Hx as [Hx| ->%list_elem_of_singleton]; [|done].
    destruct IH as [n Hn]; [by exists x|]. exists n. by apply highest_other.
Qed.

(** What the map holds after the messages [ms]. *)
Record noted (ms : list KafkaUpsertMessage) (M : gmap PartitionKey Z) : Prop := {
  noted_max : ∀ key n, M !! key = Some n → highest ms key n;
  noted_all : ∀ m, m ∈ ms → is_Some (M !! message_key m);
  noted_advance : ∀ m, m ∈ ms → message_offset m ≠ i64_max;
}.

Lemma noted_iff ms M key n : noted ms M → M !! key = Some n ↔ highest ms key n.
Proof.
  intros [Hmax Hall _]. split; [apply Hmax|]. intros Hh.
  pose proof Hh as [(m & Hin & <- & _) _]. destruct (Hall m Hin) as [n' Hn'].
  rewrite Hn'. f_equal. by eapply highest_unique; [apply Hmax|].
Qed.

Lemma noted_insert ms M m n :
  noted ms M → message_offset m ≠ i64_max → highest (ms ++ [m]) (message_key m) n →
  noted (ms ++ [m]) (<[message_key m := n]> M).
Proof.
  intros [Hmax Hall Hadv] Hm Hn. split.
  - intros key x. destruct (decide (message_key m = key)) as [<-|Hne].
    + rewrite lookup_insert_eq. by intros [= <-].
    + rewrite lookup_insert_ne by done. intros Hx. by apply highest_other, Hmax.
  - intros y Hy. destruct (decide (message_key m = message_key y)) as [->|Hne].
    + rewrite lookup_insert_eq. by eexists.
    + rewrite lookup_insert_ne by done.
      apply elem_of_app in Hy as [Hy| ->%list_elem_of_singleton]; [by apply Hall|done].
  - intros y [Hy| ->%list_elem_of_singleton]%elem_of_app; [by apply Hadv|done].
Qed.

Lemma note_offset_spec ms M m :
  noted ms M →
  match note_offset M m with
  | Ok M' => noted (ms ++ [m]) M'
  | Err e => e = Status_make kInvalidArgument "kafka message offset cannot advance"
             ∧ message_offset m = i64_max
  | Fault _ => False
  end.
Proof.
  intros Hn. unfold note_offset. destruct (Z.eqb_spec (message_offset m) i64_max); [done|].
  pose proof (λ k n, noted_max ms M Hn k n) as Hmax.
  destruct (M !! message_key m) as [old|] eqn:Hold.
  - pose proof (Hmax _ _ Hold) as Hh. destruct (Z.ltb_spec old (message_offset m)).
    + apply noted_insert; [done..|]. apply highest_new. intros y Hy Hk.
      pose proof (proj2 Hh y Hy Hk). lia.
    + rewrite <-(insert_id M _ _ Hold). apply noted_insert; [done..|]. by apply highest_lower.
  - apply noted_insert; [done..|]. apply highest_new. intros y Hy Hk.
    destruct (noted_all ms M Hn y Hy) as [x Hx]. rewrite Hk in Hx. congruence.
Qed.

Lemma note_offsets_spec rest ms M :
  noted ms M →
  match ofold note_offset rest M with
  | Ok M' => noted (ms ++ rest) M'
  | Err e => e = Status_make kInvalidArgument "kafka message offset cannot advance"
             ∧ ∃ m, m ∈ rest ∧ message_offset m = i64_max
  | Fault _ => False
  end.
Proof.
  revert ms M. induction rest as [|m rest IH]; intros ms M Hn; cbn [ofold].
  { by rewrite app_nil_r. }
  pose proof (note_offset_spec ms M m Hn) as H1.
  destruct (note_offset M m) as [M1|e|ft]; cbn [obind]; [| |done].
  - specialize (IH _ _ H1). rewrite <-app_assoc in IH. destruct (ofold _ rest M1); [done| |done].
    destruct IH as (-> & x & Hx & Ho). split; [done|]. exists x. split; [by right|done].
  - destruct H1 as [-> Ho]. split; [done|]. exists m. split; [left|done].
Qed.

(** ** The order of the keys *)

Lemma string_compare_refl a : string_compare a a = Eq.
Proof. induction a as [|x a IH]; simpl; [done|]. by rewrite Z.compare_refl. Qed.

Lemma string_compare_eq a b : string_compare a b = Eq → a = b.
Proof.
  revert b. induction a as [|x a IH]; intros [|y b]; simpl; [done..|].
  destruct (Z.compare_spec (byte_to_Z x) (byte_to_Z y)) as [E| |]; [|done..].
  intros H. f_equal; [|by apply IH]. rewrite <-(byte_of_to_Z x), E. apply byte_of_to_Z.
Qed.

Lemma string_compare_antisym a b : string_compare b a = CompOpp (string_compare a b).
Proof.
  revert b. induction a as [|x a IH]; intros [|y b]; simpl; [done..|].
  rewrite (Z.compare_antisym (byte_to_Z x)). destruct (byte_to_Z x ?= byte_to_Z y)%Z; simpl; auto.
Qed.

Lemma string_compare_trans a b c :
  string_compare a b = Lt → string_compare b c = Lt → string_compare a c = Lt.
Proof.
  revert b c. induction a as [|x a IH]; intros [|y b] [|z c]; simpl; try done.
  destruct (Z.compare_spec (byte_to_Z x) (byte_to_Z y)) as [Exy|Exy|]; [| |done];
    destruct (Z.compare_spec (byte_to_Z y) (byte_to_Z z)) as [Eyz|Eyz|]; try done;
    destruct (Z.compare_spec (byte_to_Z x) (byte_to_Z z)) as [Exz|Exz|]; try lia; try done.
  apply IH.
Qed.

#[export] Instance key_le_total : Total key_le.
Proof.
  intros e1 e2. unfold key_le. rewrite (string_compare_antisym e1.1.1 e2.1.1).
  destruct (string_compare e1.1.1 e2.1.1); simpl; [lia|by left|by right].
Qed.

#[export] Instance key_le_trans : Transitive key_le.
Proof.
  intros e1 e2 e3. unfold key_le.
  destruct (string_compare e1.1.1 e2.1.1) eqn:E12; [apply string_compare_eq in E12 as ->| |done];
    destruct (string_compare e2.1.1 e3.1.1) eqn:E23; try done.
  - lia.
  - apply string_compare_eq in E23 as <-. by rewrite E12.
  - by rewrite (string_compare_trans _ _ _ E12 E23).
Qed.

(** ** The checkpoint *)

Definition position_key (p : KafkaPosition) : PartitionKey := partition_key (position_partition p).

(** Sorted by key, one position per key. *)
Definition ordered_checkpoint (c : KafkaCheckpoint) : Prop :=
  NoDup (position_key <$> next_offsets c)
  ∧ StronglySorted key_le ((λ p, (position_key p, position_offset p)) <$> next_offsets c).

Lemma position_of_entry (l : list (PartitionKey * Z)) :
  (λ p, (position_key p, position_offset p))
    <$> ((λ e : PartitionKey * Z, MkKafkaPosition (MkKafkaPartition e.1.1 e.1.2) (e.2 + 1)) <$> l)
  = (λ e : PartitionKey * Z, (e.1, e.2 + 1)) <$> l.
Proof. rewrite <-list_fmap_compose. apply list_fmap_ext. by intros _ [[t p] o] _. Qed.

Lemma sorted_entries (l : list (PartitionKey * Z)) :
  StronglySorted key_le l → StronglySorted key_le ((λ e : PartitionKey * Z, (e.1, e.2 + 1)) <$> l).
Proof.
  induction 1 as [|e l _ IH Hall]; simpl; constructor; [done|].
  apply Forall_fmap. eapply Forall_impl; [exact Hall|]. done.
Qed.

Lemma BuildCommitCheckpoint_spec ms :
  match BuildCommitCheckpoint ms with
  | Ok c =>
      ordered_checkpoint c
      ∧ (∀ p, p ∈ next_offsets c ↔ highest ms (position_key p) (position_offset p - 1))
      ∧ ∀ m, m ∈ ms → message_offset m ≠ i64_max
  | Err e =>
      e = Status_make kInvalidArgument "kafka message offset cannot advance"
      ∧ ∃ m, m ∈ ms ∧ message_offset m = i64_max
  | Fault _ => False
  end.
Proof.
  unfold BuildCommitCheckpoint. assert (noted [] ∅) as Hn.
  { split; [by intros ???|..]; by intros ? ?%elem_of_nil. }
  pose proof (note_offsets_spec ms [] ∅ Hn) as Hs.
  destruct (ofold note_offset ms ∅) as [M|e|ft]; cbn [obind]; [|done..].
  cbn [app] in Hs. unfold ordered_checkpoint. cbn [next_offsets]. split_and!.
  - rewrite <-list_fmap_compose.
    erewrite (list_fmap_ext _ fst); [|by intros _ [[t p] o] _].
    rewrite merge_sort_Permutation. apply NoDup_fst_map_to_list.
  - rewrite position_of_entry. apply sorted_entries, StronglySorted_merge_sort; apply _.
  - intros p. rewrite <-(noted_iff ms M _ _ Hs), list_elem_of_fmap. split.
    + intros ([[t n] o] & -> & Hin). cbn. rewrite merge_sort_Permutation in Hin.
      apply elem_of_map_to_list in Hin. unfold position_key, partition_key. cbn.
      rewrite Hin. f_equal. lia.
    + intros Hp. exists (position_key p, position_offset p - 1). split.
      * destruct p as [[t n] o]. unfold position_key, partition_key. cbn. f_equal. lia.
      * rewrite merge_sort_Permutation. by apply elem_of_map_to_list.
  - apply (noted_advance _ _ Hs).
Qed.

(** *** C29: the checkpoint of a batch is exact.

    When no message of the batch has the last representable offset, the
    checkpoint has, for each topic and partition of the batch and for no
    other, the position one past its highest offset, once, in the order of the
    keys of the [std::map]; otherwise the batch is refused and nothing is
    committed. *)
Theorem BuildCommitCheckpoint_exact ms :
  match BuildCommitCheckpoint ms with
  | Ok c =>
      ordered_checkpoint c
      ∧ (∀ p, p ∈ next_offsets c ↔ highest ms (position_key p) (position_offset p - 1))
      ∧ ∀ m, m ∈ ms → message_offset m ≠ i64_max
  | Err e =>
      e = Status_make kInvalidArgument "kafka message offset cannot advance"
      ∧ ∃ m, m ∈ ms ∧ message_offset m = i64_max
  | Fault _ => False
  end.
Proof. apply BuildCommitCheckpoint_spec. Qed.
