(* ===== verification/CoordinatorProofs.v ===== *)
(** * Offsets are committed after everything before them is applied

    [ApplyBatch] delivers every message of a batch or stops with an error; a
    batch delivered twice changes nothing the second time.  The checkpoint of
    a batch is, for every partition, one past its highest offset.  The step
    commits it only when the whole batch is visible in every target. *)

From S2P Require Import Prelude Status ByteIo Hash Types Schema SchemaProofs RowStorage RowSafety.
From S2P Require Import RowProofs RowAccess RealtimeDelta RealtimeProofs RealtimeTable.
From S2P Require Import Payload Codec PayloadProofs Kafka UpdateApplier UpdateCoordinator.
From S2P Require Import EncodeProofs ApplyProofs CheckpointProofs.

(** ** Batches *)

(** The message is visible in every target, or something newer is. *)
Definition delivered_all (options : UpdateApplierOptions) (v : view) (m : KafkaUpsertMessage)
    : Prop :=
  Forall (delivered v (message_primary_key m) (source_position m)) (targets options).

Lemma delivered_all_advances options v v' m :
  advances v v' → delivered_all options v m → delivered_all options v' m.
Proof.
  unfold delivered_all. intros Hv H. eapply Forall_impl; [exact H|]. intros r.
  by apply delivered_advances.
Qed.

(** The specification of a batch: deliver its messages in order. *)
Definition deliver_message (options : UpdateApplierOptions) (v : view) (m : KafkaUpsertMessage)
    : view :=
  match DecodePayload (message_payload m) with
  | Ok p => deliver (targets options) (message_primary_key m) (source_position m) p v
  | _ => v
  end.

Definition deliver_batch (options : UpdateApplierOptions) (ms : list KafkaUpsertMessage) (v : view)
    : view := foldl (deliver_message options) v ms.

Lemma ApplyBatch_spec options ms ts :
  wired options ts → Forall message_ok ms →
  match ApplyBatch options ms ts with
  | (Ok _, ts') =>
      views ts' = deliver_batch options ms (views ts)
      ∧ Forall (delivered_all options (views ts')) ms
      ∧ advances (views ts) (views ts') ∧ wired options ts'
  | (Err _, ts') =>
      advances (views ts) (views ts') ∧ wired options ts'
  | (Fault _, _) => False
  end.
Proof.
  intros Hw Hms. revert ts Hw. induction Hms as [|m ms Hm _ IH]; intros ts Hw; cbn [ApplyBatch sfor].
  { split_and!; [done|constructor|apply advances_refl|done]. }
  unfold sbind. pose proof (Apply_spec options m ts Hw Hm) as Ha. unfold apply_post in Ha.
  destruct (Apply options m ts) as [[u|e|ft] ts1]; [| |done].
  - destruct Ha as (p & Hp & Hv & Hd & _ & Hadv & Hw1). specialize (IH ts1 Hw1).
    change (sfor (Apply options) ms ts1) with (ApplyBatch options ms ts1).
    destruct (ApplyBatch options ms ts1) as [[u'|e'|ft'] ts']; [| |done].
    + destruct IH as (Hv' & Hd' & Hadv' & Hw'). split_and!; [| |by eapply advances_trans|done].
      * unfold deliver_batch. cbn [foldl]. unfold deliver_message at 2. by rewrite Hp, <-Hv.
      * constructor; [by eapply delivered_all_advances|done].
    + destruct IH as [Hadv' Hw']. split; [by eapply advances_trans|done].
  - destruct Ha as [[-> _]|(p & before & route & after & _ & _ & _ & _ & Hadv & Hw1)];
      (split; [done || apply advances_refl|done]).
Qed.

(** ** Redelivery *)

Lemma publish_row_older rows k pos e cur e0 :
  rows !! k = Some (cur, e0) → offset pos ≤ offset cur → publish_row k pos e rows = rows.
Proof.
  intros Hk Ho. unfold publish_row. rewrite Hk. by rewrite (proj2 (Z.ltb_ge _ _)) by lia.
Qed.

Lemma alter_id {A} (f : A → A) (i : nat) (l : list A) x :
  l !! i = Some x → f x = x → alter f i l = l.
Proof.
  intros Hx Hf. apply list_eq. intros j. rewrite list_lookup_alter. case_decide; [|done].
  subst j. rewrite Hx. simpl. by rewrite Hf.
Qed.

Lemma deliver_route_again k pos p v route :
  delivered v k pos route → deliver_route k pos p v route = v.
Proof.
  intros (i & rows & cur & e & Hi & Hr & Hk & _ & Ho). unfold deliver_route. rewrite Hi.
  destruct (EncodeForLayout _ _); [|done..].
  eapply alter_id; [done|]. by eapply publish_row_older.
Qed.

Lemma deliver_again routes k pos p v :
  Forall (delivered v k pos) routes → deliver routes k pos p v = v.
Proof.
  induction 1 as [|r routes Hr _ IH]; [done|]. unfold deliver. cbn [foldl].
  by rewrite deliver_route_again.
Qed.

Lemma deliver_batch_again options ms v :
  Forall (delivered_all options v) ms → deliver_batch options ms v = v.
Proof.
  induction 1 as [|m ms Hm _ IH]; [done|]. unfold deliver_batch. cbn [foldl].
  assert (deliver_message options v m = v) as ->; [|done].
  unfold deliver_message. destruct (DecodePayload _); [|done..]. by apply deliver_again.
Qed.

(** What an accepted message does before it publishes depends on the message
    only. *)
Lemma Apply_inv options m ts ts' :
  wired options ts → message_ok m → Apply options m ts = (Ok tt, ts') →
  ∃ p prs, DecodePayload (message_payload m) = Ok p
    ∧ Forall2 (prepared_ok m p) (targets options) prs
    ∧ ∀ ts2, Apply options m ts2 = sfor publish_prepared prs ts2.
Proof.
  intros Hw [_ Hsz]. unfold Apply, sbind, slift.
  pose proof (ValidateOptions_spec options ts Hw) as Hvo.
  destruct (UpdateApplier.ValidateOptions options) as [[]|e|ft]; [|done..].
  pose proof (metadata_spec m (logical_topic options)) as Hmd.
  destruct (ValidateMessageMetadata _ _) as [[]|e|ft]; [|done..]. destruct Hmd as [_ Hpos].
  destruct (DecodePayload (message_payload m)) as [p|e|ft] eqn:Ep; [|done..].
  destruct (decode_sound _ _ Ep) as [Hp Hbytes]. rewrite Hbytes in Hsz.
  pose proof (prepare_all_spec ts m p (targets options) Hw Hvo Hp Hsz Hpos) as Hprep.
  destruct (omapM _ _) as [prs|e|ft]; [|done..]. by intros _; exists p, prs.
Qed.

(** A route that has the message, or something newer, cannot refuse it. *)
Lemma delivered_no_conflict ts route k pos :
  delivered (views ts) k pos route → ¬ conflict ts route k pos.
Proof.
  intros (i & rows & cur & e & Hi & Hr & Hk & Hp & _) (j & t & Hj & Ht & Hwhy).
  rewrite Hi in Hj. injection Hj as <-. rewrite (views_lookup ts i t Ht) in Hr.
  injection Hr as <-. destruct Hwhy as [(old & e0 & Hold & Hne)|[Hnone _]]; congruence.
Qed.

(** Applying a delivered message again succeeds and changes nothing. *)
Lemma Apply_again options m ts ts' ts2 :
  wired options ts → message_ok m → Apply options m ts = (Ok tt, ts') →
  wired options ts2 → delivered_all options (views ts2) m →
  ∃ ts3, Apply options m ts2 = (Ok tt, ts3) ∧ views ts3 = views ts2 ∧ wired options ts3.
Proof.
  intros Hw Hm Ha Hw2 Hd. destruct (Apply_inv options m ts ts' Hw Hm Ha) as (p & prs & _ & Hprs & Heq).
  rewrite Heq. pose proof (publish_all_spec m p _ prs ts2 (mo_key m Hm) Hw2 Hprs) as Hpub.
  destruct (sfor publish_prepared prs ts2) as [[[]|e|ft] ts3]; cbv zeta in Hpub; [| |done].
  - destruct Hpub as (Hv & _ & _ & Hkeep). exists ts3. split; [done|]. split.
    + rewrite Hv. by apply deliver_again.
    + eapply Forall_impl; [exact Hw2|apply Hkeep].
  - destruct Hpub as (before & route & after & Hr & Hv & Hc & _).
    exfalso. revert Hc. apply delivered_no_conflict. rewrite Hv.
    unfold delivered_all in Hd. rewrite Hr in Hd. pose proof Hd as [Hb Hin]%Forall_app.
    rewrite deliver_again by done. by apply Forall_cons in Hin as [Hin _].
Qed.

Lemma ApplyBatch_again options ms ts ts' ts2 :
  wired options ts → Forall message_ok ms → ApplyBatch options ms ts = (Ok tt, ts') →
  wired options ts2 → Forall (delivered_all options (views ts2)) ms →
  ∃ ts3, ApplyBatch options ms ts2 = (Ok tt, ts3) ∧ views ts3 = views ts2.
Proof.
  intros Hw Hms. revert ts ts2 Hw. induction Hms as [|m ms Hm _ IH]; intros ts ts2 Hw Ha Hw2 Hd.
  { by exists ts2. }
  apply Forall_cons in Hd as [Hd1 Hd].
  change (ApplyBatch options (m :: ms)) with (sbind (Apply options m) (λ _, ApplyBatch options ms))
    in *.
  unfold sbind in *. pose proof (Apply_spec options m ts Hw Hm) as Hpost.
  destruct (Apply options m ts) as [[[]|e|ft] ts1] eqn:E1; [|done..].
  destruct Hpost as (_ & _ & _ & _ & _ & _ & Hw1).
  destruct (Apply_again options m ts ts1 ts2 Hw Hm E1 Hw2 Hd1) as (ts3 & -> & Hv3 & Hw3).
  rewrite <-Hv3 in Hd. destruct (IH ts1 ts3 Hw1 Ha Hw3 Hd) as (ts4 & -> & Hv4).
  exists ts4. split; [done|]. by rewrite Hv4.
Qed.

(** *** C27: delivering a batch again is harmless.

    Kafka delivers at least once: after a crash, or a failed commit, the
    messages of a batch come again, possibly when the targets have moved on.
    When a batch was applied, applying it again to any later state of the
    targets (every key it left is there, from the same partition and as new)
    succeeds and leaves every visible row as it was. *)
Theorem ApplyBatch_redelivery options ms ts ts' later :
  wired options ts → Forall message_ok ms → ApplyBatch options ms ts = (Ok tt, ts') →
  wired options later → advances (views ts') (views later) →
  ∃ ts'', ApplyBatch options ms later = (Ok tt, ts'') ∧ views ts'' = views later.
Proof.
  intros Hw Hms Ha Hl Hadv. pose proof (ApplyBatch_spec options ms ts Hw Hms) as Hpost.
  rewrite Ha in Hpost. destruct Hpost as (_ & Hd & _ & _).
  eapply ApplyBatch_again; [exact Hw|done..|].
  eapply Forall_impl; [exact Hd|]. intros m. by apply delivered_all_advances.
Qed.

(** ** The checkpoint of a checked batch passes the consumer's checks *)

Definition position_ok (p : KafkaPosition) : Prop :=
  partition_topic (position_partition p) ≠ [] ∧ 0 ≤ partition_number (position_partition p)
  ∧ 0 ≤ position_offset p.

Lemma check_positions_ok ps seen :
  Forall position_ok ps → NoDup (position_key <$> ps) →
  (∀ p, p ∈ ps → position_key p ∉ seen) →
  ∃ seen', ofold check_position ps seen = Ok seen'.
Proof.
  intros Hps. revert seen. induction Hps as [|p ps (Ht & Hn & Ho) _ IH]; intros seen Hnd Hseen.
  { by exists seen. }
  apply NoDup_cons in Hnd as [Hp Hnd]. cbn [ofold].
  assert (check_position seen p = Ok ({[position_key p]} ∪ seen)) as ->.
  { unfold check_position, ValidatePartition. rewrite bool_decide_eq_false_2 by done.
    rewrite !(proj2 (Z.ltb_ge _ _)) by lia. cbn [obind].
    rewrite decide_False; [done|]. apply Hseen. left. }
  apply IH; [done|]. intros q Hq. apply not_elem_of_union. split; [|by apply Hseen; right].
  rewrite not_elem_of_singleton. intros E. apply Hp. rewrite <-E. by apply list_elem_of_fmap_2.
Qed.

(** What [ValidateBatchTopicAndPositions] checks. *)
Record message_checked (topic : cpp_string) (m : KafkaUpsertMessage) : Prop := {
  mc_topic : message_topic m = topic;
  mc_nonempty : message_topic m ≠ [];
  mc_partition : 0 ≤ message_partition m;
  mc_offset : 0 ≤ message_offset m;
}.

Lemma check_message_spec topic m :
  match check_message topic m with
  | Ok _ => message_checked topic m | Err _ => ¬ message_checked topic m | Fault _ => False
  end.
Proof.
  unfold check_message.
  destruct (bool_decide_reflect (message_topic m = [])); [by intros []|].
  destruct (bool_decide_reflect (message_topic m = topic)); cbn [negb]; [|by intros []].
  destruct (Z.ltb_spec (message_partition m) 0); [intros []; lia|].
  destruct (Z.ltb_spec (message_offset m) 0); [intros []; lia|]. done.
Qed.

(** A check of every element finds the first that fails. *)
Lemma check_all {A} (check : A → StatusM) (P : A → Prop) l :
  (∀ x, match check x with Ok _ => P x | Err _ => ¬ P x | Fault _ => False end) →
  match ofold (λ _, check) l tt with
  | Ok _ => Forall P l | Err _ => ¬ Forall P l | Fault _ => False
  end.
Proof.
  intros Hc. induction l as [|x l IH]; cbn [ofold]; [constructor|]. specialize (Hc x).
  destruct (check x) as [[]|e|f]; cbn [obind]; [| |done].
  - destruct (ofold _ l tt); [by constructor| |done]. by intros [_ ?]%Forall_cons.
  - by intros [? _]%Forall_cons.
Qed.

Lemma ValidateBatch_spec ms topic :
  match ValidateBatchTopicAndPositions ms topic with
  | Ok _ => Forall (message_checked topic) ms
  | Err _ => ¬ Forall (message_checked topic) ms
  | Fault _ => False
  end.
Proof. apply check_all, check_message_spec. Qed.

(** What the consumer checks of a message. *)
Definition message_valid (m : KafkaUpsertMessage) : Prop :=
  message_topic m ≠ [] ∧ 0 ≤ message_partition m ∧ 0 ≤ message_offset m.

Lemma ValidateMessage_spec m :
  match ValidateMessage m with
  | Ok _ => message_valid m | Err _ => ¬ message_valid m | Fault _ => False
  end.
Proof.
  unfold ValidateMessage, ValidatePartition, message_valid, message_topic, message_partition,
    message_offset.
  destruct (bool_decide_reflect (partition_topic (metadata_partition (message_metadata m)) = []));
    cbn [obind]; [by intros (? & _)|].
  destruct (Z.ltb_spec (partition_number (metadata_partition (message_metadata m))) 0);
    cbn [obind]; [intros (_ & ? & _); lia|].
  destruct (Z.ltb_spec (metadata_offset (message_metadata m)) 0); [intros (_ & _ & ?); lia|].
  done.
Qed.

Lemma checked_valid topic ms : Forall (message_checked topic) ms → Forall message_valid ms.
Proof. intros Hms. eapply Forall_impl; [exact Hms|]. intros m [_ ? ? ?]. by unfold message_valid. Qed.

Lemma checkpoint_valid ms topic c :
  ms ≠ [] → Forall (message_checked topic) ms → BuildCommitCheckpoint ms = Ok c →
  ValidateCheckpoint c = Ok tt.
Proof.
  intros Hne Hms Hc. pose proof (BuildCommitCheckpoint_spec ms) as Hs. rewrite Hc in Hs.
  destruct Hs as ([Hnd _] & Hp & _). unfold ValidateCheckpoint.
  assert (Forall position_ok (next_offsets c)) as Hok.
  { apply Forall_forall. intros p [(m & Hm & Hk & Ho) _]%Hp.
    rewrite Forall_forall in Hms. destruct (Hms m Hm) as [_ Ht Hn Hof].
    unfold position_key, message_key, partition_key in Hk. injection Hk as Hk1 Hk2.
    unfold position_ok. rewrite <-Hk1, <-Hk2.
    unfold message_topic, message_partition in *. split_and!; [done..|lia]. }
  destruct (check_positions_ok (next_offsets c) ∅ Hok Hnd) as [seen' Hseen].
  { intros p _. by apply not_elem_of_empty. }
  destruct (next_offsets c) as [|p ps] eqn:E; [|by rewrite Hseen].
  destruct ms as [|m ms]; [done|]. exfalso.
  destruct (highest_exists (m :: ms) (message_key m)) as [n Hn]; [by exists m; split; [left|]|].
  apply (elem_of_nil (MkKafkaPosition (metadata_partition (message_metadata m)) (n + 1))).
  rewrite <-E in Hp |- *.
  apply Hp. unfold position_key. cbn. by replace (n + 1 - 1) with n by lia.
Qed.

(** ** The step *)

(** What is relied on of a client: its keys are 64-bit, its payloads no larger
    than Kafka messages can be, and its methods return. *)
Class KafkaClientLaws (C : Type) `{KafkaClient C} : Prop := {
  poll_law : ∀ options c,
    match client_Poll options c with
    | (Ok batch, _) => Forall message_ok batch
    | (Err _, _) => True
    | (Fault _, _) => False
    end;
  commit_law : ∀ cp c f, (client_Commit cp c).1 ≠ Fault f;
}.

Section Step.
Context {C : Type} `{KafkaClientLaws C}.
Variables (options : UpdateCoordinatorOptions) (applier : UpdateApplierOptions).
Variables (config : KafkaConsumerConfig) (c : C) (ts : tables_of).

(** A batch the step accepts. *)
Definition batch_accepted (batch : list KafkaUpsertMessage) : Prop :=
  Forall (message_checked (coordinator_topic options)) batch
  ∧ ∀ m, m ∈ batch → message_offset m ≠ i64_max.

(** How a step ends: its result, the client and the tables. *)
Inductive step_outcome : StatusM → C → tables_of → Prop :=
| step_refused e :
    ValidateOptions options = Err e → step_outcome (Err e) c ts
| step_poll_failed e c' :
    client_Poll (poll_options options) c = (Err e, c') → step_outcome (Err e) c' ts
| step_idle c' :
    client_Poll (poll_options options) c = (Ok [], c') → step_outcome (Ok tt) c' ts
| step_batch_refused batch e c' :
    client_Poll (poll_options options) c = (Ok batch, c') → ¬ batch_accepted batch →
    step_outcome (Err e) c' ts
| step_apply_failed batch c' e ts' :
    client_Poll (poll_options options) c = (Ok batch, c') →
    ApplyBatch applier batch ts = (Err e, ts') →
    advances (views ts) (views ts') →
    step_outcome (Err e) c' ts'
| step_committed batch c' ts' cp r c'' :
    client_Poll (poll_options options) c = (Ok batch, c') →
    batch ≠ [] → batch_accepted batch →
    ApplyBatch applier batch ts = (Ok tt, ts') →
    Forall (delivered_all applier (views ts')) batch →
    BuildCommitCheckpoint batch = Ok cp →
    client_Commit cp c' = (r, c'') →
    step_outcome r c'' ts'.

Definition step_ends (res : StatusM * coordinator_state) : Prop :=
  match res with
  | (r, (Some (MkKafkaUpdateConsumer config' (Some c')), ts')) =>
      config' = config ∧ step_outcome r c' ts' ∧ wired applier ts' ∧ ∀ f, r ≠ Fault f
  | _ => False
  end.

Lemma Consumer_Poll_spec po :
  ValidatePollOptions po = Ok tt →
  match Consumer_Poll po (MkKafkaUpdateConsumer config (Some c)) with
  | (Ok batch, k) => ∃ c', client_Poll po c = (Ok batch, c')
      ∧ k = MkKafkaUpdateConsumer config (Some c') ∧ Forall message_ok batch
  | (Err e, k) => ∃ r c', client_Poll po c = (r, c')
      ∧ k = MkKafkaUpdateConsumer config (Some c')
      ∧ (r = Err e ∨ ∃ batch, r = Ok batch ∧ ¬ Forall message_valid batch)
  | (Fault _, _) => False
  end.
Proof.
  intros Ev. unfold Consumer_Poll, sbind, slift, with_client. cbn [client_ config_]. rewrite Ev.
  pose proof (poll_law po c) as Hl. destruct (client_Poll po c) as [[batch|e|f] c'];
    [|eexists _, c'; by split_and!; [..|left]|done].
  pose proof (check_all ValidateMessage message_valid batch ValidateMessage_spec) as Hm.
  destruct (ofold _ batch tt) as [[]|e|f]; [by exists c'| |done].
  eexists _, c'. split_and!; [done..|]. right. by exists batch.
Qed.

Lemma ValidateOptions_poll :
  match ValidateOptions options with
  | Ok _ => ValidatePollOptions (poll_options options) = Ok tt
  | Err _ => True
  | Fault _ => False
  end.
Proof. unfold ValidateOptions, ValidatePollOptions. by repeat case_match. Qed.

Lemma PollApplyCommitOnce_ends :
  wired applier ts →
  step_ends (PollApplyCommitOnce options (Some applier)
               (Some (MkKafkaUpdateConsumer config (Some c)), ts)).
Proof.
  intros Hw. unfold PollApplyCommitOnce, check_consumer, sbind, slift. cbn [fst snd].
  pose proof ValidateOptions_poll as Hv.
  destruct (ValidateOptions options) as [[]|e|f] eqn:Eo; [| |done].
  2:{ split_and!; [done|by apply step_refused|done..]. }
  unfold on_consumer at 1. cbn [fst snd]. pose proof (Consumer_Poll_spec _ Hv) as Hp.
  destruct (Consumer_Poll _ _) as [[batch|e|f] k]; [| |done].
  2:{ destruct Hp as (r & c' & Hc & -> & [->|(batch & -> & Hm)]).
      - split_and!; [done|by apply step_poll_failed|done..].
      - split_and!; [done| |done..]. apply (step_batch_refused batch); [done|].
        intros [Hck _]. by eapply Hm, checked_valid. }
  destruct Hp as (c' & Hc & -> & Hok). destruct batch as [|m batch].
  { unfold sret. split_and!; [done|by apply step_idle|done..]. }
  pose proof (ValidateBatch_spec (m :: batch) (coordinator_topic options)) as Hb.
  destruct (ValidateBatchTopicAndPositions _ _) as [[]|e|f]; [| |done].
  2:{ split_and!; [done| |done..]. apply (step_batch_refused (m :: batch)); [done|]. by intros []. }
  pose proof (BuildCommitCheckpoint_spec (m :: batch)) as Hcp.
  destruct (BuildCommitCheckpoint _) as [cp|e|f] eqn:Ecp; [| |done].
  2:{ split_and!; [done| |done..]. apply (step_batch_refused (m :: batch)); [done|].
      intros [_ Hmax]. destruct Hcp as (_ & x & Hx & Ho). by apply (Hmax x). }
  unfold on_tables. cbn [fst snd]. pose proof (ApplyBatch_spec applier _ ts Hw Hok) as Ha.
  destruct (ApplyBatch applier _ ts) as [[[]|e|f] ts'] eqn:Ea; [| |done].
  2:{ destruct Ha as [Hadv Hw']. split_and!; [done| |done..]. by eapply step_apply_failed. }
  destruct Ha as (_ & Hd & _ & Hw'). unfold on_consumer, Consumer_Commit, sbind, slift. cbn [fst snd].
  rewrite (checkpoint_valid (m :: batch) (coordinator_topic options) cp) by done. unfold with_client.
  cbn [client_ config_]. pose proof (commit_law cp c') as Hf.
  destruct (client_Commit cp c') as [r c''] eqn:Ec. split_and!; [done| |done|exact Hf].
  eapply step_committed; [exact Hc|done| |exact Ea|exact Hd|exact Ecp|exact Ec].
  split; [done|]. apply Hcp.
Qed.

(** *** C17: offsets are committed only after everything before them is
    applied.

    A step ends in one of six ways: invalid options; a failed poll; nothing
    polled; a batch refused (a message of another topic, or at an offset that
    is negative or the last one) with no table touched; an apply that failed,
    with no commit; or, when every message of the batch was delivered to every
    target, the commit of the batch's checkpoint, whose result is the step's.
    The client is called in no other way, the checks of the consumer never
    refuse the checkpoint, and the step never faults. *)
Theorem PollApplyCommitOnce_commits_applied :
  wired applier ts →
  match PollApplyCommitOnce options (Some applier)
          (Some (MkKafkaUpdateConsumer config (Some c)), ts) with
  | (r, (Some (MkKafkaUpdateConsumer config' (Some c')), ts')) =>
      config' = config ∧ step_outcome r c' ts' ∧ wired applier ts' ∧ ∀ f, r ≠ Fault f
  | _ => False
  end.
Proof. exact PollApplyCommitOnce_ends. Qed.
End Step.
