(* ===== verification/IngestProgress.v ===== *)
(** * The ingest makes progress

    The librdkafka client keeps the laws of clients: primary keys are exactly
    the decimal strings that fit 64 bits, and a poll returns at most the number
    of messages asked for, each with a 64-bit key and the payload of a record
    of the log.  Whatever librdkafka answers, with records, timeouts, ends of
    partitions or errors, steps that succeed deliver and commit every record
    they were answered with, in order, and commit nothing else. *)

From S2P Require Import Prelude Status Types RealtimeDelta Kafka UpdateApplier UpdateCoordinator.
From S2P Require Import ApplyProofs CheckpointProofs CoordinatorProofs.

(** ** The librdkafka client *)

(** ** Primary keys *)

Definition is_digit (b : byte) : Prop := 48 ≤ byte_to_Z b ≤ 57.

(** The number a string of digits writes. *)
Definition decimal (s : list byte) : Z := foldl (λ v b, v * 10 + (byte_to_Z b - 48)) 0 s.

Lemma digit_value_spec b :
  match digit_value b with Some d => is_digit b ∧ d = byte_to_Z b - 48 | None => ¬ is_digit b end.
Proof.
  unfold digit_value, is_digit. destruct (Z.leb_spec 0 (byte_to_Z b - 48)); cbn [andb]; [|lia].
  destruct (Z.leb_spec (byte_to_Z b - 48) 9); [split; [lia|done]|lia].
Qed.

Lemma digits_prefix_spec s :
  let '(ds, rest) := digits_prefix s in
  ∃ front, s = front ++ rest ∧ Forall is_digit front
    ∧ ds = (λ b, byte_to_Z b - 48) <$> front
    ∧ match rest with [] => True | b :: _ => ¬ is_digit b end.
Proof.
  induction s as [|b s IH]; simpl; [by exists []|].
  pose proof (digit_value_spec b) as Hb. destruct (digit_value b) as [d|]; [|by exists []].
  destruct (digits_prefix s) as [ds rest]. destruct IH as (front & -> & Hf & -> & Hr).
  destruct Hb as [Hb ->]. exists (b :: front). by split_and!; [|constructor|..].
Qed.

Lemma decimal_nonneg s v : Forall is_digit s → 0 ≤ v →
  0 ≤ foldl (λ v b, v * 10 + (byte_to_Z b - 48)) v s.
Proof.
  intros Hs. revert v. induction Hs as [|b s Hb _ IH]; intros v Hv; simpl; [done|].
  apply IH. unfold is_digit in Hb. lia.
Qed.

Lemma ParsePrimaryKey_spec key :
  match ParsePrimaryKey key with
  | Ok n => key ≠ [] ∧ Forall is_digit key ∧ n = decimal key ∧ is_u64 n
  | Err _ => ¬ (key ≠ [] ∧ Forall is_digit key ∧ decimal key ≤ u64_max)
  | Fault _ => False
  end.
Proof.
  unfold ParsePrimaryKey, from_chars_u64. destruct key as [|b0 key0]; [by intros []|].
  set (key := b0 :: key0). pose proof (digits_prefix_spec key) as H.
  destruct (digits_prefix key) as [ds rest]. destruct H as (front & Hkey & Hf & -> & Hr).
  assert (digits_value ((λ b, byte_to_Z b - 48) <$> front) = decimal front) as ->
    by (unfold digits_value, decimal; generalize 0; clear; induction front; intros v; simpl; auto).
  destruct rest as [|b rest].
  - rewrite app_nil_r in Hkey. rewrite Hkey. destruct front as [|b front]; [done|].
    cbn [fmap list_fmap]. destruct (Z.ltb_spec u64_max (decimal (b :: front))).
    + intros (_ & _ & ?). lia.
    + split_and!; [done..|]. unfold is_u64, u64_max in *.
      pose proof (decimal_nonneg (b :: front) 0 Hf). unfold decimal in *. lia.
  - assert (¬ Forall is_digit key) as Hn.
    { rewrite Hkey. intros Hall. apply Forall_app in Hall as [_ Hall].
      by apply Forall_cons in Hall as [? _]. }
    destruct ((λ b, byte_to_Z b - 48) <$> front); [by intros (_ & ? & _)|].
    destruct (u64_max <? decimal front); by intros (_ & ? & _).
Qed.

(** a Kafka key is a primary key exactly when it is a decimal 64-bit
    number.

    [ParsePrimaryKey] accepts the non-empty strings of decimal digits whose
    value is at most [2^64 - 1] and returns that value; signs, spaces, an empty
    key, trailing bytes and larger numbers are refused. *)
Theorem ParsePrimaryKey_decimal key :
  match ParsePrimaryKey key with
  | Ok n => key ≠ [] ∧ Forall is_digit key ∧ n = decimal key ∧ is_u64 n
  | Err _ => ¬ (key ≠ [] ∧ Forall is_digit key ∧ decimal key ≤ u64_max)
  | Fault _ => False
  end.
Proof. apply ParsePrimaryKey_spec. Qed.

(** ** The client *)

(** librdkafka bounds the size of a message by 1,000,000,000 bytes. *)
Class LibrdkafkaLaws (R Conf : Type) `{Librdkafka R Conf} : Prop := {
  payload_law : ∀ timeout r m r',
    rd_kafka_consumer_poll timeout r = (Some m, r') → Zlen (rd_payload m) ≤ 2 ^ 30;
}.

Section Client.
Context {R Conf : Type} `{LibrdkafkaLaws R Conf}.

Lemma ConvertMessage_spec m :
  match ConvertMessage m with
  | Ok u => message_valid u ∨ message_topic u = []
  | Err _ => True
  | Fault _ => False
  end.
Proof.
  unfold ConvertMessage. destruct (rd_rkt m) as [topic|]; [|done].
  destruct (Z.ltb_spec (rd_partition m) 0); [done|].
  destruct (Z.ltb_spec (rd_offset m) 0); [done|]. cbn [orb].
  pose proof (ParsePrimaryKey_spec (rd_key m)) as Hk.
  destruct (ParsePrimaryKey (rd_key m)) as [k|e|f]; cbn [obind]; [|done..].
  unfold message_valid, message_topic, message_partition, message_offset. cbn.
  destruct topic; [by right|left]. by split_and!.
Qed.

Lemma ConvertMessage_ok m u :
  Zlen (rd_payload m) ≤ 2 ^ 30 → ConvertMessage m = Ok u →
  message_ok u ∧ message_payload u = rd_payload m.
Proof.
  intros Hsz. unfold ConvertMessage. destruct (rd_rkt m) as [topic|]; [|done].
  destruct (_ || _); [done|]. pose proof (ParsePrimaryKey_spec (rd_key m)) as Hk.
  destruct (ParsePrimaryKey (rd_key m)) as [k|e|f]; cbn [obind]; [|done..].
  intros [= <-]. by destruct Hk as (_ & _ & _ & Hk).
Qed.

Lemma poll_loop_spec timeout n messages r :
  Forall message_ok messages →
  match poll_loop timeout n messages r with
  | (Ok batch, _) => Forall message_ok batch ∧ ∃ new, batch = messages ++ new ∧ (length new ≤ n)%nat
  | (Err _, _) => True
  | (Fault _, _) => False
  end.
Proof.
  revert messages r. induction n as [|n IH]; intros messages r Hms; cbn [poll_loop].
  { split; [done|]. exists []. by rewrite app_nil_r. }
  destruct (rd_kafka_consumer_poll _ r) as [[m|] r'] eqn:Ep.
  2:{ split; [done|]. exists []. rewrite app_nil_r. split; [done|simpl; lia]. }
  destruct (rd_err m); [|..|done].
  - pose proof (ConvertMessage_spec m) as Hf. pose proof (ConvertMessage_ok m) as Hok.
    destruct (ConvertMessage m) as [u|e|f]; [|done..].
    destruct (Hok u (payload_law _ _ _ _ Ep) eq_refl) as [Hu _].
    assert (Forall message_ok (messages ++ [u])) as Hms'
      by (apply Forall_app; split; [done|by constructor]).
    specialize (IH _ r' Hms'). destruct (poll_loop _ _ _ _) as [[batch|e|f] ?]; [|done..].
    destruct IH as (Hb & new & -> & Hn). split; [done|]. exists (u :: new).
    rewrite <-app_assoc. split; [done|simpl; lia].
  - specialize (IH _ r' Hms). destruct (poll_loop _ _ _ _) as [[batch|e|f] ?]; [|done..].
    destruct IH as (Hb & new & -> & Hn). split; [done|]. exists new. split; [done|lia].
Qed.

#[export] Instance librdkafka_laws : KafkaClientLaws R.
Proof.
  split.
  - intros po r. cbn [client_Poll librdkafka_client]. unfold Librdkafka_Poll.
    pose proof (poll_loop_spec (timeout_ms po) (Z.to_nat (max_messages po)) [] r
      (List.Forall_nil _)) as Hp.
    destruct (poll_loop _ _ _ _) as [[batch|e|f] r']; [|done..]. by destruct Hp.
  - intros cp r f. cbn. unfold Librdkafka_Commit, rd_call.
    by destruct (rd_kafka_commit _ r) as [[text|] r'].
Qed.
End Client.

(** ** The calls of librdkafka *)

(** What a run asked of the consumer: the answer of a poll, or a commit with
    its error. *)
Inductive client_call : Type :=
| Polled (answer : option rd_kafka_message)
| Committed (positions : list rd_topic_partition) (error : option string).

(** The record of the log an answer carries. *)
Definition answer_record (call : client_call) : option rd_kafka_message :=
  match call with
  | Polled (Some m) => match rd_err m with RD_NO_ERROR => Some m | _ => None end
  | _ => None
  end.

(** The records a run was answered with, in order. *)
Definition polled (calls : list client_call) : list rd_kafka_message := omap answer_record calls.

(** A poll answered without a record: a timeout, the end of a partition or an
    error. *)
Definition is_silent (call : client_call) : bool :=
  match call, answer_record call with Polled _, None => true | _, _ => false end.

Definition silences (calls : list client_call) : nat := length (List.filter is_silent calls).

Section Calls.
Context {R Conf : Type} `{LibrdkafkaLaws R Conf}.

(** The calls that take a consumer from one state to another. *)
Inductive calls_to : R → list client_call → R → Prop :=
| calls_done r : calls_to r [] r
| calls_poll timeout r answer r1 calls r' :
    rd_kafka_consumer_poll timeout r = (answer, r1) → calls_to r1 calls r' →
    calls_to r (Polled answer :: calls) r'
| calls_commit positions r error r1 calls r' :
    rd_kafka_commit positions r = (error, r1) → calls_to r1 calls r' →
    calls_to r (Committed positions error :: calls) r'.

Lemma calls_app r1 l1 r2 l2 r3 :
  calls_to r1 l1 r2 → calls_to r2 l2 r3 → calls_to r1 (l1 ++ l2) r3.
Proof. induction 1; intros ?; cbn [app]; [done|econstructor; by eauto..]. Qed.

Lemma silences_app l1 l2 : silences (l1 ++ l2) = (silences l1 + silences l2)%nat.
Proof. unfold silences. by rewrite List.filter_app, length_app. Qed.

Definition commits_nothing (calls : list client_call) : Prop := ∀ ps, Committed ps None ∉ calls.

Lemma commits_nothing_app l1 l2 :
  commits_nothing l1 → commits_nothing l2 → commits_nothing (l1 ++ l2).
Proof. intros H1 H2 ps [?|?]%elem_of_app; [by eapply H1|by eapply H2]. Qed.

Lemma commits_nothing_polled answer calls :
  commits_nothing calls → commits_nothing (Polled answer :: calls).
Proof. intros Hc ps [?|?]%elem_of_cons; [done|by eapply Hc]. Qed.

(** A poll loop commits nothing; what it returns is all it was answered, and
    it asks at least once. *)
Lemma poll_loop_calls timeout n messages r :
  let '(res, r') := poll_loop timeout n messages r in
  ∃ calls, calls_to r calls r' ∧ commits_nothing calls ∧
    match res with
    | Ok batch => ∃ got, omapM ConvertMessage (polled calls) = Ok got ∧ batch = messages ++ got
        ∧ (0 < n → 0 < length got + silences calls)%nat
    | _ => True
    end.
Proof.
  assert (commits_nothing []) as Hnil by (intros ps; apply not_elem_of_nil).
  revert messages r. induction n as [|n IH]; intros messages r; cbn [poll_loop].
  { exists []. split_and!; [constructor|done|]. exists []. by rewrite app_nil_r. }
  destruct (rd_kafka_consumer_poll _ r) as [[m|] r1] eqn:Ep.
  2:{ exists [Polled None]. split_and!; [by repeat econstructor|by apply commits_nothing_polled|].
      exists []. rewrite app_nil_r. split_and!; [done..|]. intros _. cbn. lia. }
  assert (∃ calls, calls_to r calls r1 ∧ commits_nothing calls ∧ True) as Hstop.
  { exists [Polled (Some m)]. split_and!; [by repeat econstructor|by apply commits_nothing_polled|done]. }
  destruct (rd_err m) eqn:Em; [| |exact Hstop].
  - destruct (ConvertMessage m) as [u|e|f] eqn:Eu; [|exact Hstop..].
    specialize (IH (messages ++ [u]) r1). destruct (poll_loop _ _ _ r1) as [res r'].
    destruct IH as (calls & Hc & Hn & Hres). exists (Polled (Some m) :: calls).
    split_and!; [by econstructor|by apply commits_nothing_polled|].
    destruct res as [batch|e|f]; [|done..]. destruct Hres as (got & Hgot & -> & _).
    exists (u :: got). split_and!; [|by rewrite <-app_assoc|intros _; cbn; lia].
    unfold polled. cbn [omap list_omap answer_record]. rewrite Em. cbn [omapM].
    rewrite Eu. cbn [obind]. unfold polled in Hgot. by rewrite Hgot.
  - specialize (IH messages r1). destruct (poll_loop _ _ _ r1) as [res r'].
    destruct IH as (calls & Hc & Hn & Hres). exists (Polled (Some m) :: calls).
    split_and!; [by econstructor|by apply commits_nothing_polled|].
    destruct res as [batch|e|f]; [|done..]. destruct Hres as (got & Hgot & -> & _).
    exists got. split_and!; [|done|].
    + unfold polled. cbn [omap list_omap answer_record]. by rewrite Em.
    + intros _. unfold silences. cbn [List.filter is_silent answer_record]. rewrite Em. cbn. lia.
Qed.

Lemma Librdkafka_Commit_calls cp r :
  let '(res, r') := Librdkafka_Commit cp r in
  ∃ error, calls_to r [Committed (BuildTopicPartitionList cp) error] r' ∧ (res = Ok tt ↔ error = None).
Proof.
  unfold Librdkafka_Commit, rd_call. destruct (rd_kafka_commit _ r) as [error r'] eqn:Ec.
  destruct error as [text|]; eexists; (split; [by repeat econstructor|by split]).
Qed.
End Calls.

(** ** Settled records *)

(** The position of a record in librdkafka's lists. *)
Definition is_position_after (m : KafkaUpsertMessage) (p : rd_topic_partition) : Prop :=
  tp_topic p = c_str (message_topic m) ∧ tp_partition p = message_partition m
  ∧ tp_offset p = message_offset m + 1.

(** The commit tells the broker not to deliver the message again. *)
Definition covers (ps : list rd_topic_partition) (m : KafkaUpsertMessage) : Prop :=
  ∃ p, p ∈ ps ∧ tp_topic p = c_str (message_topic m) ∧ tp_partition p = message_partition m
    ∧ message_offset m < tp_offset p.

Lemma checkpoint_covers batch cp :
  BuildCommitCheckpoint batch = Ok cp → Forall (covers (BuildTopicPartitionList cp)) batch.
Proof.
  intros Hcp. pose proof (BuildCommitCheckpoint_spec batch) as Hs. rewrite Hcp in Hs.
  destruct Hs as (_ & Hp & _). apply Forall_forall. intros m Hm.
  destruct (highest_exists batch (message_key m)) as [n Hn]; [by exists m|].
  set (p := MkKafkaPosition (metadata_partition (message_metadata m)) (n + 1)).
  exists (MkRdTopicPartition (c_str (partition_topic (position_partition p)))
            (partition_number (position_partition p)) (position_offset p) None).
  split_and!; [|done..|].
  - apply list_elem_of_fmap. exists p. split; [done|]. apply Hp. cbn.
    by replace (n + 1 - 1) with n by lia.
  - cbn. pose proof (proj2 Hn m Hm eq_refl). lia.
Qed.

(** A checkpoint reaches no further than the batch. *)
Lemma checkpoint_after batch cp p :
  BuildCommitCheckpoint batch = Ok cp → p ∈ BuildTopicPartitionList cp →
  ∃ m, m ∈ batch ∧ is_position_after m p.
Proof.
  intros Hcp (q & -> & Hq)%list_elem_of_fmap.
  pose proof (BuildCommitCheckpoint_spec batch) as Hs. rewrite Hcp in Hs.
  destruct Hs as (_ & Hp & _). apply Hp in Hq as [(m & Hm & Hk & Ho) _].
  exists m. split; [done|]. unfold is_position_after, message_topic, message_partition. cbn.
  unfold message_key, position_key, partition_key in Hk. injection Hk as <- <-.
  split_and!; [done..|]. lia.
Qed.

Section Progress.
Context {R Conf : Type} `{LibrdkafkaLaws R Conf}.
Variables (options : UpdateCoordinatorOptions) (applier : UpdateApplierOptions).
Variable config : KafkaConsumerConfig.

Abbreviation at_client r := (Some (MkKafkaUpdateConsumer config (Some r))).

(** [n] steps, as long as they succeed. *)
Definition steps (n : nat) : stateful (coordinator_state (C := R)) Status unit :=
  sfor (λ _, PollApplyCommitOnce options (Some applier)) (replicate n tt).

(** The messages are delivered to every target and covered by a commit that
    succeeded, and no such commit reaches further than they do. *)
Record accounted (calls : list client_call) (ts : tables_of) (ms : list KafkaUpsertMessage)
    : Prop := {
  ac_settled : Forall (λ m, delivered_all applier (views ts) m
                  ∧ ∃ ps, Committed ps None ∈ calls ∧ covers ps m) ms;
  ac_commits : ∀ ps p, Committed ps None ∈ calls → p ∈ ps →
                 ∃ m, m ∈ ms ∧ is_position_after m p;
}.

Lemma accounted_nothing calls ts : commits_nothing calls → accounted calls ts [].
Proof. intros Hc. split; [constructor|]. intros ps p Hin. by destruct (Hc ps). Qed.

Lemma accounted_app l1 l2 ts1 ts2 ms1 ms2 :
  accounted l1 ts1 ms1 → advances (views ts1) (views ts2) → accounted l2 ts2 ms2 →
  accounted (l1 ++ l2) ts2 (ms1 ++ ms2).
Proof.
  intros [Hs1 Hc1] Hv [Hs2 Hc2]. split.
  - apply Forall_app. split; (eapply Forall_impl; [eassumption|]); intros m (Hd & ps & Hin & Hcov);
      (split; [|exists ps; split; [apply elem_of_app; auto|done]]); [|done].
    by eapply delivered_all_advances.
  - intros ps p [Hin|Hin]%elem_of_app Hp; [destruct (Hc1 ps p Hin Hp) as (m & Hm & Ha)
      |destruct (Hc2 ps p Hin Hp) as (m & Hm & Ha)]; exists m; split; try done; apply elem_of_app; auto.
Qed.

Lemma accounted_commit calls ts batch cp :
  commits_nothing calls → Forall (delivered_all applier (views ts)) batch →
  BuildCommitCheckpoint batch = Ok cp →
  accounted (calls ++ [Committed (BuildTopicPartitionList cp) None]) ts batch.
Proof.
  intros Hn Hd Hcp. set (ps := BuildTopicPartitionList cp). split.
  - pose proof (checkpoint_covers batch cp Hcp) as Hcov. rewrite Forall_forall in Hcov, Hd.
    apply Forall_forall. intros m Hm. split; [by apply Hd|]. exists ps.
    split; [apply elem_of_app; right; by left|by apply Hcov].
  - intros ps' p [Hin|[= ->]%list_elem_of_singleton]%elem_of_app Hp; [by destruct (Hn ps')|].
    by apply (checkpoint_after batch cp).
Qed.

(** One step settles all it was answered, or fails and commits nothing. *)
Lemma step_progress r ts :
  wired applier ts → 0 ≤ max_messages (poll_options options) →
  match PollApplyCommitOnce options (Some applier) (at_client r, ts) with
  | (Ok _, (k, ts')) => ∃ calls ms r', k = at_client r' ∧ wired applier ts'
      ∧ calls_to r calls r' ∧ omapM ConvertMessage (polled calls) = Ok ms
      ∧ views ts' = deliver_batch applier ms (views ts) ∧ accounted calls ts' ms
      ∧ (0 < length ms + silences calls)%nat ∧ advances (views ts) (views ts')
  | (Err _, (k, ts')) => ∃ calls r', k = at_client r' ∧ calls_to r calls r'
      ∧ commits_nothing calls ∧ advances (views ts) (views ts')
  | (Fault _, _) => False
  end.
Proof.
  intros Hw Hmax. pose proof (PollApplyCommitOnce_ends options applier config r ts Hw) as Hs.
  unfold step_ends in Hs.
  destruct (PollApplyCommitOnce _ _ _) as [x [[[config' [r'|]]|] ts']] eqn:Estep; [|done..].
  destruct Hs as (-> & Ho & Hw' & Hf).
  assert (x = Ok tt → 0 < Z.to_nat (max_messages (poll_options options)))%nat as Hpos.
  { intros ->. assert (ValidateOptions options = Ok tt) as Hv.
    { revert Estep. unfold PollApplyCommitOnce, check_consumer, sbind, slift. cbn [fst snd].
      pose proof (ValidateOptions_poll options). by destruct (ValidateOptions options) as [[]|?|?]. }
    unfold ValidateOptions in Hv. repeat case_match; try done; btoprop; lia. }
  pose proof (poll_loop_calls (timeout_ms (poll_options options))
    (Z.to_nat (max_messages (poll_options options))) [] r) as Hp.
  change (poll_loop _ _ [] r) with (client_Poll (poll_options options) r) in Hp.
  destruct Ho as [e He|e c1 Hc|c1 Hc|batch e c1 Hc Hb|batch c1 e ts' Hc Ha Hadv
    |batch c1 ts' cp x c2 Hc Hb1 Hb2 Ha Hd Hcp Hcommit]; try rewrite Hc in Hp;
    try destruct Hp as (calls & Hcalls & Hn & Hres).
  - exists [], r. split_and!; [done|constructor|intros ps; apply not_elem_of_nil|apply advances_refl].
  - exists calls, c1. split_and!; [done..|apply advances_refl].
  - destruct Hres as (got & Hgot & E & Hlen). cbn [app] in E. subst got. exists calls, [], c1.
    split_and!; try done; [by apply accounted_nothing|by apply Hlen, Hpos|apply advances_refl].
  - exists calls, c1. split_and!; [done..|apply advances_refl].
  - by exists calls, c1.
  - destruct Hres as (got & Hgot & E & Hlen). cbn [app] in E. subst got.
    pose proof (ApplyBatch_spec applier batch ts Hw) as Hspec. rewrite Ha in Hspec.
    destruct Hspec as (Hv & _ & Hadv & _).
    { pose proof (poll_law (poll_options options) r) as Hl. by rewrite Hc in Hl. }
    pose proof (Librdkafka_Commit_calls cp c1) as Hcc.
    change (client_Commit cp c1) with (Librdkafka_Commit cp c1) in Hcommit. rewrite Hcommit in Hcc.
    destruct Hcc as (error & Hcc & Hx). pose proof (calls_app _ _ _ _ _ Hcalls Hcc) as Hall.
    destruct x as [[]|e|f]; [| |by destruct (Hf f)].
    + rewrite (proj1 Hx eq_refl) in Hall. eexists _, batch, c2.
      do 2 (split; [done|]). split; [exact Hall|]. split_and!; [|done|..|done].
      * unfold polled. rewrite omap_app. cbn. by rewrite app_nil_r.
      * by apply accounted_commit.
      * rewrite silences_app. specialize (Hlen (Hpos eq_refl)). lia.
    + eexists _, c2. split; [done|]. split; [exact Hall|]. split; [|done]. apply commits_nothing_app; [done|].
      intros ps Heq%list_elem_of_singleton. injection Heq as _ E.
      discriminate (proj2 Hx (eq_sym E)).
Qed.

Lemma deliver_batch_app ms1 ms2 v :
  deliver_batch applier (ms1 ++ ms2) v = deliver_batch applier ms2 (deliver_batch applier ms1 v).
Proof. apply foldl_app. Qed.

(** Two runs in a row convert what both were answered. *)
Lemma converted_app l1 l2 ms1 ms2 :
  omapM ConvertMessage (polled l1) = Ok ms1 → omapM ConvertMessage (polled l2) = Ok ms2 →
  omapM ConvertMessage (polled (l1 ++ l2)) = Ok (ms1 ++ ms2).
Proof. unfold polled. rewrite omap_app, !omapM_Ok. apply Forall2_app. Qed.

Lemma steps_progress n r ts :
  wired applier ts → 0 ≤ max_messages (poll_options options) →
  match steps n (at_client r, ts) with
  | (Ok _, (k, ts')) => ∃ calls ms r', k = at_client r' ∧ calls_to r calls r'
      ∧ omapM ConvertMessage (polled calls) = Ok ms
      ∧ views ts' = deliver_batch applier ms (views ts) ∧ accounted calls ts' ms
      ∧ (n ≤ length ms + silences calls)%nat ∧ advances (views ts) (views ts')
  | (Err _, (k, ts')) => ∃ calls failed ms r', k = at_client r'
      ∧ calls_to r (calls ++ failed) r' ∧ omapM ConvertMessage (polled calls) = Ok ms
      ∧ commits_nothing failed ∧ accounted (calls ++ failed) ts' ms
      ∧ advances (views ts) (views ts')
  | (Fault _, _) => False
  end.
Proof.
  intros Hw Hmax. revert r ts Hw. induction n as [|n IH]; intros r ts Hw.
  { exists [], [], r. split_and!; try done; [constructor|..|apply advances_refl].
    apply accounted_nothing. intros ps. apply not_elem_of_nil. }
  unfold steps. cbn [replicate sfor]. unfold sbind. fold (steps n).
  pose proof (step_progress r ts Hw Hmax) as Hstep.
  destruct (PollApplyCommitOnce _ _ _) as [[[]|e|f] [k ts1]]; [| |done].
  - destruct Hstep as (l1 & ms1 & r1 & -> & Hw1 & Hc1 & Ho1 & Hv1 & Ha1 & Hn1 & Hadv1).
    specialize (IH r1 ts1 Hw1). destruct (steps n (at_client r1, ts1)) as [[[]|e|f] [k ts']]; [| |done].
    + destruct IH as (l2 & ms2 & r' & -> & Hc2 & Ho2 & Hv2 & Ha2 & Hn2 & Hadv2).
      exists (l1 ++ l2), (ms1 ++ ms2), r'. split_and!; [done|by eapply calls_app
        |by apply converted_app|by rewrite deliver_batch_app, <-Hv1|by eapply accounted_app
        | |by eapply advances_trans].
      rewrite length_app, silences_app. lia.
    + destruct IH as (l2 & failed & ms2 & r' & -> & Hc2 & Ho2 & Hf & Ha2 & Hadv2).
      exists (l1 ++ l2), failed, (ms1 ++ ms2), r'. rewrite <-app_assoc. split_and!; [done
        |by eapply calls_app|by apply converted_app|done|by eapply accounted_app
        |by eapply advances_trans].
  - destruct Hstep as (l & r' & -> & Hc & Hn & Hadv). exists [], l, [], r'.
    split_and!; [done..|by apply accounted_nothing|done].
Qed.

(** *** C28: Ingestion over librdkafka loses nothing.

    Take any consumer of librdkafka, whatever its polls and commits answer:
    records, timeouts, ends of partitions, errors, failing commits.  After [n]
    steps that succeed, every record it was polled for has been converted and
    delivered, in the order of the polls, to every target, and is covered by a
    commit that succeeded; every position of such a commit is one past a
    delivered record, so none reaches past what was delivered.  When a step
    fails, this holds of the steps before it, and the step that failed has
    committed nothing; what that step was answered with is not polled again by
    the same consumer unless it seeks.  Each step polls: [n] steps that succeed
    have been answered at least [n] times, with a record or without one, so
    that a log of [l] records is drained by [l] steps and one more for each
    silent answer. *)
Theorem steps_lose_nothing n r ts :
  wired applier ts → 0 ≤ max_messages (poll_options options) →
  match steps n (at_client r, ts) with
  | (Ok _, (k, ts')) => ∃ calls ms r', k = at_client r' ∧ calls_to r calls r'
      ∧ omapM ConvertMessage (polled calls) = Ok ms
      ∧ views ts' = deliver_batch applier ms (views ts)
      ∧ accounted calls ts' ms
      ∧ (n ≤ length (polled calls) + silences calls)%nat
  | (Err _, (k, ts')) => ∃ calls failed ms r', k = at_client r'
      ∧ calls_to r (calls ++ failed) r'
      ∧ omapM ConvertMessage (polled calls) = Ok ms
      ∧ commits_nothing failed
      ∧ accounted (calls ++ failed) ts' ms
  | (Fault _, _) => False
  end.
Proof.
  intros Hw Hmax. pose proof (steps_progress n r ts Hw Hmax) as Hs.
  destruct (steps n _) as [[[]|e|f] [k ts']]; [| |done].
  - destruct Hs as (l & ms & r' & Hk & Hc & Ho & Hv & Ha & Hn & _). exists l, ms, r'.
    split_and!; try done. by rewrite (Forall2_length _ _ _ (proj1 (omapM_Ok _ _ _) Ho)).
  - destruct Hs as (l & failed & ms & r' & Hk & Hc & Ho & Hf & Ha & _). by exists l, failed, ms, r'.
Qed.
End Progress.
