(* ===== verification/IngestSamples.v ===== *)
(** * Sample ingestion

    One message for the sample table, over a queue of recorded messages and over
    a consumer of librdkafka that follows a script. *)

From S2P Require Import Prelude Status ByteIo Types Schema SchemaProofs RowStorage RowSafety.
From S2P Require Import RowProofs RowAccess StoreSamples RealtimeDelta RealtimeProofs RealtimeTable.
From S2P Require Import Payload Codec PayloadProofs Kafka UpdateApplier UpdateCoordinator.
From S2P Require Import EncodeProofs ApplyProofs CheckpointProofs CoordinatorProofs IngestProgress.

(** ** A payload *)

Definition sample_field (id : Z) (v : DecodedValue) : DecodedField :=
  MkDecodedField id (wire_kind v) v.

Definition sample_payload : DecodedPayload := MkDecodedPayload
  [sample_field 1 (VScalar (SInt32 (-5)));
   sample_field 2 (VScalar (SString (str "hello")));
   sample_field 3 (VList (LInt8 [1; -2]));
   sample_field 4 (VScalar (SString (str "red")));
   sample_field 5 (VList (LInt32 [7; 8; 9]));
   sample_field 6 (VList (LString [str "a"; str "b"]));
   sample_field 99 (VScalar (SBool true))].

Definition sample_bytes : list byte := payload_bytes sample_payload.

Lemma sample_decodes : DecodePayload sample_bytes = Ok sample_payload.
Proof. vm_compute. reflexivity. Qed.

Lemma sample_payload_ok : payload_ok sample_payload.
Proof. exact (proj1 (decode_sound _ _ sample_decodes)). Qed.

Lemma DecodePayload_iff_encoded_witness :
  DecodePayload (payload_bytes sample_payload) = Ok sample_payload
  ∧ ¬ ∃ p, payload_ok p ∧ take 100 sample_bytes = payload_bytes p.
Proof.
  split.
  - exact (proj1 DecodePayload_iff_encoded sample_payload sample_payload_ok).
  - exact (proj2 DecodePayload_iff_encoded (take 100 sample_bytes)).
Defined.

(** What the message's row shows of it. *)
Definition sample_reads : Prop :=
  match EncodeForLayout sample_payload (Some table_layout) with
  | Ok r =>
      Row_Get kString (row_of table_layout r) 2 None = Ok (Some (SString (str "hello")))
      ∧ Row_GetList kString (row_of table_layout r) 6 None
        = Ok (LString [str "a"; str "b"])
      ∧ Row_Has (row_of table_layout r) 7 = Ok false
  | _ => False
  end.


(** ** A target and a message *)

Definition sample_route : UpdateTargetRoute :=
  MkUpdateTargetRoute kActive 1 1 0 1 (Some table_layout) [Some 0%nat].

Definition sample_applier : UpdateApplierOptions :=
  MkUpdateApplierOptions (str "updates") [sample_route].

Definition sample_message (offset : Z) : KafkaUpsertMessage :=
  MkKafkaUpsertMessage
    (MkKafkaMessageMetadata (MkKafkaPartition (str "updates") 0) offset (str "7") 0)
    7 sample_bytes.

Definition sample_tables : tables_of := [empty_table].

Lemma sample_message_ok o : message_ok (sample_message o).
Proof. split; [unfold is_u64; simpl; lia|]. vm_compute. discriminate. Qed.

Lemma table_layout_wf : layout_wf table_layout.
Proof. exact (compile_layout_wf _ (reachable_schema_ok _ _ table_reachable)). Qed.

Lemma sample_wired : wired sample_applier sample_tables.
Proof.
  constructor; [|constructor]. split; [unfold is_u64; simpl; lia|].
  intros L [= <-]. split; [exact table_layout_wf|].
  intros i [= ->]%list_elem_of_singleton. exists empty_table. split; [done|].
  apply make_table_ok; unfold u64_max; lia.
Qed.

(** What an operation did, when it succeeded. *)
Definition success {A B} (P : B → Prop) (r : StatusOr A * B) : Prop :=
  match r with (Ok _, s) => P s | _ => False end.

Lemma upsert_row_reads_payload_witness : sample_reads.
Proof.
  pose proof (upsert_row_reads_payload 3 table_schema table_layout sample_bytes sample_payload
    table_reachable eq_refl sample_decodes ltac:(vm_compute; discriminate)) as H.
  unfold sample_reads.
  assert (match EncodeForLayout sample_payload (Some table_layout) with
    | Ok _ => True | _ => False end) as Hok by (vm_compute; exact I).
  destruct (EncodeForLayout sample_payload (Some table_layout)) as [r|e|f]; [|done..].
  destruct H as (_ & _ & Hread & Hdef). split_and!.
  - apply (Hread (sample_field 2 (VScalar (SString (str "hello")))) (table_field 2)); [|reflexivity].
    right. left.
  - apply (Hread (sample_field 6 (VList (LString [str "a"; str "b"]))) (table_field 6));
      [|reflexivity].
    do 5 right. left.
  - apply (Hdef (table_field 7)).
    + exact (table_field_in 7 eq_refl).
    + simpl. set_solver.
Defined.

Lemma Apply_delivers_witness :
  success (λ ts', Forall (delivered (views ts') 7 (MkSourcePosition 0 5)) [sample_route])
    (Apply sample_applier (sample_message 5) sample_tables).
Proof.
  pose proof (Apply_delivers sample_applier (sample_message 5) sample_tables sample_wired
    (sample_message_ok 5)) as H.
  assert (success (λ _, True) (Apply sample_applier (sample_message 5) sample_tables)) as Hok
    by (vm_compute; exact I).
  destruct (Apply sample_applier (sample_message 5) sample_tables) as [[u|e|f] ts']; [|done..].
  destruct H as (p & _ & _ & Hd & _). exact Hd.
Defined.

(** A batch of two messages for the same key. *)
Definition sample_batch : list KafkaUpsertMessage := [sample_message 5; sample_message 6].

Definition sample_applied : tables_of := (ApplyBatch sample_applier sample_batch sample_tables).2.

Lemma sample_batch_applies :
  ApplyBatch sample_applier sample_batch sample_tables = (Ok tt, sample_applied).
Proof.
  assert (success (λ _, True) (ApplyBatch sample_applier sample_batch sample_tables)) as Hok
    by (vm_compute; exact I).
  unfold sample_applied.
  by destruct (ApplyBatch sample_applier sample_batch sample_tables) as [[[]|e|f] ts'].
Qed.

Lemma sample_batch_ok : Forall message_ok sample_batch.
Proof. repeat constructor; apply sample_message_ok. Qed.

Lemma ApplyBatch_redelivery_witness :
  ∃ ts'', ApplyBatch sample_applier sample_batch sample_applied = (Ok tt, ts'')
    ∧ views ts'' = views sample_applied.
Proof.
  pose proof (ApplyBatch_spec sample_applier sample_batch sample_tables sample_wired
    sample_batch_ok) as Hs. rewrite sample_batch_applies in Hs. destruct Hs as (_ & _ & _ & Hw).
  exact (ApplyBatch_redelivery sample_applier sample_batch sample_tables sample_applied
    sample_applied sample_wired sample_batch_ok sample_batch_applies Hw (advances_refl _)).
Defined.

(** ** A queue *)

(** A client that serves recorded messages one by one, named by their
    offsets. *)
Record queue : Type := MkQueue { queued : list Z; commits : list KafkaCheckpoint }.

#[export] Instance queue_client : KafkaClient queue := {
  client_Poll _ q :=
    match queued q with
    | [] => (Ok [], q)
    | o :: rest => (Ok [sample_message o], MkQueue rest (commits q))
    end;
  client_Seek _ q := (Ok tt, q);
  client_Progress q := (Ok (MkKafkaProgress []), q);
  client_Commit cp q := (Ok tt, MkQueue (queued q) (commits q ++ [cp]));
}.

#[export] Instance queue_laws : KafkaClientLaws queue.
Proof.
  split.
  - intros po [[|o l] cs]; [constructor|]. constructor; [apply sample_message_ok|constructor].
  - done.
Qed.

Definition sample_coordinator : UpdateCoordinatorOptions :=
  MkUpdateCoordinatorOptions (str "updates") (MkPollOptions 100 128).

Definition sample_config : KafkaConsumerConfig :=
  MkKafkaConsumerConfig (str "localhost") (str "group") [str "updates"].

Definition sample_state (offsets : list Z) : coordinator_state (C := queue) :=
  (Some (MkKafkaUpdateConsumer sample_config (Some (MkQueue offsets []))), sample_tables).

(** The step over one message commits the offset after it. *)
Lemma PollApplyCommitOnce_commits_applied_witness :
  success (λ s, ∃ ts', s.2 = ts' ∧ delivered_all sample_applier (views ts') (sample_message 5))
    (PollApplyCommitOnce sample_coordinator (Some sample_applier) (sample_state [5])).
Proof.
  pose proof (PollApplyCommitOnce_commits_applied sample_coordinator sample_applier sample_config
    (MkQueue [5] []) sample_tables sample_wired) as H. fold (sample_state [5]) in H.
  assert (success (λ _, True)
    (PollApplyCommitOnce sample_coordinator (Some sample_applier) (sample_state [5]))) as Hok
    by (vm_compute; exact I).
  destruct (PollApplyCommitOnce _ _ (sample_state [5])) as [[[]|e|f] [[[cfg [q|]]|] ts']];
    [|done..].
  destruct H as (_ & Ho & _). exists ts'. split; [done|].
  inversion Ho as [| |c1 Hc| | |batch c1 ts1 cp r c2 Hc Hne Hb Ha Hd Hcp Hcm].
  - discriminate Hc.
  - injection Hc as <- _. exact (Forall_inv Hd).
Defined.

(** ** A script *)

(** A consumer of librdkafka that answers polls and commits from a script. *)
Record script : Type := MkScript {
  script_answers : list (option rd_kafka_message);
  script_commits : list (option string);
}.

#[export] Instance script_rdkafka : Librdkafka script () := {
  rd_kafka_conf_new := tt;
  rd_kafka_conf_set _ _ _ := inr tt;
  rd_kafka_new _ := inr (MkScript [] []);
  rd_kafka_poll_set_consumer r := (None, r);
  rd_kafka_subscribe _ r := (None, r);
  rd_kafka_consumer_poll _ r :=
    match script_answers r with
    | Some m :: l =>
        (if Zlen (rd_payload m) <=? 2 ^ 30 then Some m else None, MkScript l (script_commits r))
    | l => (None, MkScript (tail l) (script_commits r))
    end;
  rd_kafka_seek_partitions _ r := (None, r);
  rd_kafka_commit _ r :=
    match script_commits r with
    | [] => (None, r)
    | error :: l => (error, MkScript (script_answers r) l)
    end;
  rd_kafka_assignment r := (inr None, r);
  rd_kafka_committed ps r := (inr ps, r);
  rd_kafka_query_watermark_offsets _ _ r := (inr (0, 0), r);
}.

#[export] Instance script_laws : LibrdkafkaLaws script ().
Proof.
  split. intros timeout [[|[m0|] l] cs] m r'; cbn -[Z.pow]; [done| |done].
  destruct (Z.leb_spec (Zlen (rd_payload m0)) (2 ^ 30)); [|done]. by intros [= <- _].
Qed.

Definition sample_record (offset : Z) : rd_kafka_message :=
  MkRdMessage RD_NO_ERROR (Some (str "updates")) 0 offset (str "7") sample_bytes.

Definition partition_eof : rd_kafka_message :=
  MkRdMessage RD_PARTITION_EOF (Some (str "updates")) 0 7 [] [].

(** A timeout, the end of the partition, and two records with a timeout
    between them. *)
Definition slow_answers : list (option rd_kafka_message) :=
  [None; Some partition_eof; Some (sample_record 5); None; Some (sample_record 6)].

Definition script_state (commits : list (option string)) : coordinator_state (C := script) :=
  (Some (MkKafkaUpdateConsumer sample_config (Some (MkScript slow_answers commits))), sample_tables).

(** Three steps over the script: all of it is delivered and committed; when
    the second commit fails, so does the step. *)
Lemma steps_lose_nothing_witness :
  success (λ s, ∃ calls ms, omapM ConvertMessage (polled calls) = Ok ms
      ∧ accounted sample_applier calls s.2 ms
      ∧ views s.2 = deliver_batch sample_applier ms (views sample_tables)
      ∧ (3 ≤ length (polled calls) + silences calls)%nat)
    (steps sample_coordinator sample_applier 3 (script_state []))
  ∧ ∃ e k ts' calls failed ms,
      steps sample_coordinator sample_applier 3 (script_state [None; Some "down"%string])
        = (Err e, (k, ts'))
      ∧ commits_nothing failed ∧ accounted sample_applier (calls ++ failed) ts' ms.
Proof.
  pose proof (λ cs, steps_lose_nothing sample_coordinator sample_applier sample_config 3
    (MkScript slow_answers cs) sample_tables sample_wired ltac:(done)) as H.
  split.
  - specialize (H []). fold (script_state []) in H.
    assert (success (λ _, True)
      (steps sample_coordinator sample_applier 3 (script_state []))) as Hok
      by (vm_compute; exact I).
    destruct (steps _ _ _ (script_state [])) as [[[]|e|f] [k ts']]; [|done..].
    destruct H as (calls & ms & r' & _ & _ & Ho & Hv & Ha & Hn). exists calls, ms. by split_and!.
  - specialize (H [None; Some "down"%string]). fold (script_state [None; Some "down"%string]) in H.
    assert (match (steps sample_coordinator sample_applier 3
      (script_state [None; Some "down"%string])).1 with Err _ => True | _ => False end) as Hok
      by (vm_compute; exact I).
    destruct (steps _ _ _ (script_state [None; Some "down"%string])) as [[[]|e|f] [k ts']]; [done| |done].
    destruct H as (calls & failed & ms & r' & _ & _ & _ & Hf & Ha).
    exists e, k, ts', calls, failed, ms. by split_and!.
Defined.

Lemma BuildCommitCheckpoint_sample :
  BuildCommitCheckpoint [sample_message 6; sample_message 5]
  = Ok (MkKafkaCheckpoint [MkKafkaPosition (MkKafkaPartition (str "updates") 0) 7]).
Proof. reflexivity. Qed.
