(* ===== verification/ArtifactFormat.v ===== *)
(** * The artifact file format: [src/artifact/artifact_format.{h,cc}]

    An artifact is a header of 128 bytes, a directory of 64-byte section
    entries, and the sections: the schema, the source progress and, for every
    shard, a frozen index, the row slots, the row payloads and four pools.
    [ParseArtifact] checks all of it.  A byte span and the [std::size_t] passed
    by address next to it are a [ByteReader]. *)

From S2P Require Import Prelude Status ByteIo Types Schema RowStorage Payload Kafka.

Definition kArtifactMagic : Z := 0x3149564b54524146.
Definition kArtifactFormatVersion : Z := 1.
Definition kArtifactHeaderSize : Z := 128.
Definition kArtifactSectionEntrySize : Z := 64.
Definition kArtifactGlobalShardId : Z := 0xffffffff.

Inductive ArtifactSectionType : Type :=
| kSchemaMetadata | kSourceProgress | kFrozenPrimaryKeyIndex | kRowSlots | kRowArena
| kStringPools | kScalarListPools | kStringListPools | kStringElementPools.

#[export] Instance ArtifactSectionType_eq_dec : EqDecision ArtifactSectionType.
Proof. solve_decision. Defined.

Definition section_type_value (t : ArtifactSectionType) : Z :=
  match t with
  | kSchemaMetadata => 1 | kSourceProgress => 2 | kFrozenPrimaryKeyIndex => 100
  | kRowSlots => 101 | kRowArena => 102 | kStringPools => 103 | kScalarListPools => 104
  | kStringListPools => 105 | kStringElementPools => 106
  end.

(** The only algorithm, [kFnv1a64]. *)
Definition kFnv1a64 : Z := 1.

Inductive ArtifactSourceProgressPolicy : Type := kRequired | kOptional.

#[export] Instance ArtifactSourceProgressPolicy_eq_dec : EqDecision ArtifactSourceProgressPolicy.
Proof. solve_decision. Defined.

Record ArtifactValidationOptions : Type := MkArtifactValidationOptions {
  expected_shard_count : Z;
  expected_hash_seed : Z;
  expected_hash_version : Z;
  source_progress_policy : ArtifactSourceProgressPolicy;
}.

Record ArtifactSection : Type := MkArtifactSection {
  section_type : ArtifactSectionType;
  section_shard_id : Z;
  section_offset : Z;
  section_length : Z;
  section_checksum : Z;
}.

Record ArtifactSourceProgress : Type := MkArtifactSourceProgress {
  source_topic : cpp_string;
  source_partition : Z;
  checkpoint_next_offset : Z;
  source_high_watermark : Z;
}.

Record ParsedArtifact : Type := MkParsedArtifact {
  artifact_id : cpp_string;
  artifact_shard_count : Z;
  artifact_hash_seed : Z;
  artifact_hash_version : Z;
  artifact_schema_version : Z;
  artifact_layout_fingerprint : Z;
  artifact_layout : option CompiledRowLayout;
  source_progress : list ArtifactSourceProgress;
  artifact_sections : list ArtifactSection;
  artifact_bytes : list byte;
}.

Definition Fnv1a64 (bytes : list byte) : Z :=
  foldl (λ hash b, wrap64 (Z.lxor hash (byte_to_Z b) * 1099511628211))
    14695981039346656037 bytes.

(** ** The offsets of the header and of a directory entry *)

Definition kMagicOffset : Z := 0.
Definition kVersionOffset : Z := 8.
Definition kHeaderSizeOffset : Z := 12.
Definition kEntrySizeOffset : Z := 16.
Definition kSectionCountOffset : Z := 20.
Definition kChecksumAlgorithmOffset : Z := 24.
Definition kShardCountOffset : Z := 28.
Definition kHashSeedOffset : Z := 32.
Definition kHashVersionOffset : Z := 40.
Definition kSchemaVersionOffset : Z := 48.
Definition kLayoutFingerprintOffset : Z := 56.
Definition kArtifactIdLengthOffset : Z := 64.
Definition kArtifactIdOffset : Z := 68.
Definition kArtifactIdCapacity : Z := 60.

Definition kEntryTypeOffset : Z := 0.
Definition kEntryShardIdOffset : Z := 4.
Definition kEntryFileOffsetOffset : Z := 8.
Definition kEntryLengthOffset : Z := 16.
Definition kEntryChecksumOffset : Z := 24.

(** ** Reading sections *)

(** [ReadLittleEndian<T>(bytes, offset)], then [offset += sizeof(T)]. *)
Definition ReadNext (t : int_type) : reader Z := λ r,
  (do* value := slift (ReadLittleEndian t (reader_bytes r) (reader_offset r)) in
   do* _ := advance (Z.of_nat (it_size t)) in
   sret value) r.

(** [bytes[offset++]] *)
Definition next_byte : reader Z := λ r,
  (do* b := slift (at_ (reader_bytes r) (reader_offset r)) in
   do* _ := advance 1 in
   sret (byte_to_Z b)) r.

(** [ReadString]; [truncated] is the text of its error. *)
Definition read_string (truncated : string) : reader cpp_string :=
  do* size := ReadNext uint32_t in
  λ r,
    if (Zlen (reader_bytes r) <? reader_offset r) || (remaining r <? size)
    then (InvalidArgument truncated, r)
    else (do* value := slift (subspan (reader_bytes r) (reader_offset r) size) in
          do* _ := advance size in
          sret value) r.

Definition ReadString : reader cpp_string := read_string "artifact string is truncated".

Definition all_field_types : list FieldType := [kInt8; kInt32; kInt64; kUInt64; kBool; kString].
Definition all_field_encodings : list FieldEncoding :=
  [kFixed; kArena; kDictionary; kListDictionary; kElementDictionary].

(** [static_cast] of a byte to the enum, [None] without an enumerator. *)
Definition FieldType_of_value (v : Z) : option FieldType :=
  find_key FieldType_value v all_field_types.
Definition FieldEncoding_of_value (v : Z) : option FieldEncoding :=
  find_key FieldEncoding_value v all_field_encodings.

(** [schema.AddField] of a parsed field.  An encoding without enumerator fails
    the last check of the policy; a type without one is not followed. *)
Definition add_parsed_field (id type_value : Z) (is_list nullable : bool) (encoding_value : Z)
    (name : cpp_string) (schema : RuntimeSchema) : StatusOr RuntimeSchema :=
  match FieldType_of_value type_value, FieldEncoding_of_value encoding_value with
  | Some type, Some encoding =>
      match AddField (MkFieldSpec id name type is_list nullable encoding DMonostate false) schema
      with
      | (Ok _, schema') => Ok schema'
      | (Err e, _) => Err e
      | (Fault f, _) => Fault f
      end
  | Some _, None =>
      match RuntimeSchema_FindField schema id, FindDeletedField schema id with
      | None, None =>
          match name with
          | [] => InvalidArgument "field name must not be empty"
          | _ => InvalidArgument "fixed scalar field has invalid encoding"
          end
      | _, _ => FailedPrecondition "field id already exists in schema history"
      end
  | None, _ => Fault UnknownEnumerator
  end.

(** One round of the loop over the fields. *)
Definition read_schema_field (schema : RuntimeSchema) : reader RuntimeSchema :=
  do* field_id := ReadNext uint32_t in
  do* unread := get_remaining in
  if unread <? 4 then serr (Status_make kInvalidArgument "schema field entry is truncated")
  else
  do* type_value := next_byte in
  do* is_list := next_byte in
  do* nullable := next_byte in
  do* encoding_value := next_byte in
  do* name := ReadString in
  slift (add_parsed_field field_id type_value (negb (is_list =? 0)) (negb (nullable =? 0))
           encoding_value name schema).

Fixpoint read_schema_fields (n : nat) (schema : RuntimeSchema) : reader RuntimeSchema :=
  match n with
  | O => sret schema
  | S n' => do* schema' := read_schema_field schema in read_schema_fields n' schema'
  end.

Definition read_schema (expected_schema_version : Z) : reader RuntimeSchema :=
  do* schema_version := ReadNext uint64_t in
  if negb (schema_version =? expected_schema_version) then
    serr (Status_make kFailedPrecondition "schema section version mismatch")
  else
  do* field_count := ReadNext uint32_t in
  do* schema := read_schema_fields (Z.to_nat field_count) (MkRuntimeSchema schema_version [] []) in
  do* unread := get_remaining in
  if negb (unread =? 0) then
    serr (Status_make kInvalidArgument "schema section has trailing bytes")
  else sret schema.

Definition ParseSchemaSection (bytes : list byte)
    (expected_schema_version expected_layout_fingerprint : Z) : StatusOr CompiledRowLayout :=
  let* schema := read_from (read_schema expected_schema_version) bytes in
  let* layout := Compile schema in
  if negb (layout_fingerprint layout =? expected_layout_fingerprint) then
    FailedPrecondition "schema layout fingerprint mismatch"
  else Ok layout.

(** One round of the loop over the source progress; [seen] are the
    partitions so far. *)
Definition read_progress_entry (seen : gset PartitionKey) : reader ArtifactSourceProgress :=
  do* topic := ReadString in
  do* partition := ReadNext int32_t in
  do* checkpoint := ReadNext int64_t in
  do* high_watermark := ReadNext int64_t in
  if bool_decide (topic = []) || (partition <? 0) || (checkpoint <? 0)
     || (high_watermark <? checkpoint) then
    serr (Status_make kInvalidArgument "invalid source progress entry")
  else if decide ((topic, partition) ∈ seen) then
    serr (Status_make kInvalidArgument "duplicate source progress entry")
  else sret (MkArtifactSourceProgress topic partition checkpoint high_watermark).

Definition progress_key (p : ArtifactSourceProgress) : PartitionKey :=
  (source_topic p, source_partition p).

Fixpoint read_progress_entries (n : nat) (seen : gset PartitionKey)
    : reader (list ArtifactSourceProgress) :=
  match n with
  | O => sret []
  | S n' =>
      do* entry := read_progress_entry seen in
      do* rest := read_progress_entries n' ({[progress_key entry]} ∪ seen) in
      sret (entry :: rest)
  end.

Definition read_progress : reader (list ArtifactSourceProgress) :=
  do* count := ReadNext uint32_t in
  do* progress := read_progress_entries (Z.to_nat count) ∅ in
  do* unread := get_remaining in
  if negb (unread =? 0) then
    serr (Status_make kInvalidArgument "source progress section has trailing bytes")
  else sret progress.

Definition ParseSourceProgressSection (bytes : list byte)
    : StatusOr (list ArtifactSourceProgress) := read_from read_progress bytes.

(** ** The directory *)

Definition CheckBounds (bytes : list byte) (offset length : Z) : StatusM :=
  if (Zlen bytes <? offset) || (Zlen bytes - offset <? length) then
    InvalidArgument "artifact section is out of bounds"
  else Ok tt.

Definition all_section_types : list ArtifactSectionType :=
  [kSchemaMetadata; kSourceProgress; kFrozenPrimaryKeyIndex; kRowSlots; kRowArena;
   kStringPools; kScalarListPools; kStringListPools; kStringElementPools].

Definition DecodeSectionType (value : Z) : StatusOr ArtifactSectionType :=
  match find_key section_type_value value all_section_types with
  | Some type => Ok type
  | None => InvalidArgument "unsupported artifact section type"
  end.

Definition ParsedArtifact_FindSection (artifact : ParsedArtifact) (type : ArtifactSectionType)
    (shard_id : Z) : option ArtifactSection :=
  snd <$> list_find (λ s, section_type s = type ∧ section_shard_id s = shard_id)
            (artifact_sections artifact).

(** A read whose failure is reported with another text. *)
Definition read_or (message : string) (t : int_type) (bytes : list byte) (offset : Z)
    : StatusOr Z :=
  match ReadLittleEndian t bytes offset with
  | Err _ => InvalidArgument message
  | r => r
  end.

(** [kArtifactHeaderSize + i * kArtifactSectionEntrySize], in 32 bits. *)
Definition entry_position (i : Z) : Z :=
  wrap32 (kArtifactHeaderSize + wrap32 (i * kArtifactSectionEntrySize)).

Definition read_section_entry (bytes : list byte) (shard_count i : Z) (seen : gset (Z * Z))
    : StatusOr (gset (Z * Z) * ArtifactSection) :=
  let entry_offset := entry_position i in
  let truncated := "artifact section entry is truncated"%string in
  let* type_value := read_or truncated uint32_t bytes (entry_offset + kEntryTypeOffset) in
  let* shard_id := read_or truncated uint32_t bytes (entry_offset + kEntryShardIdOffset) in
  let* file_offset := read_or truncated uint64_t bytes (entry_offset + kEntryFileOffsetOffset) in
  let* length := read_or truncated uint64_t bytes (entry_offset + kEntryLengthOffset) in
  let* checksum := read_or truncated uint64_t bytes (entry_offset + kEntryChecksumOffset) in
  let* type := DecodeSectionType type_value in
  if negb (shard_id =? kArtifactGlobalShardId) && (shard_count <=? shard_id) then
    InvalidArgument "artifact section shard id is invalid"
  else if decide ((type_value, shard_id) ∈ seen) then
    InvalidArgument "duplicate artifact section"
  else
  let* _ := CheckBounds bytes file_offset length in
  Ok ({[(type_value, shard_id)]} ∪ seen,
      MkArtifactSection type shard_id file_offset length checksum).

Fixpoint read_section_entries (bytes : list byte) (shard_count i : Z) (n : nat)
    (seen : gset (Z * Z)) : StatusOr (list ArtifactSection) :=
  match n with
  | O => Ok []
  | S n' =>
      let* e := read_section_entry bytes shard_count i seen in
      let* rest := read_section_entries bytes shard_count (i + 1) n' e.1 in
      Ok (e.2 :: rest)
  end.

(** [std::sort] by offset: the order of sections with the same offset is not
    specified. *)
Definition by_offset (lhs rhs : ArtifactSection) : Prop := section_offset lhs ≤ section_offset rhs.

#[export] Instance by_offset_dec : RelDecision by_offset.
Proof. intros x y. unfold by_offset. apply _. Defined.

Class SectionSort : Type := {
  section_sort : list ArtifactSection → list ArtifactSection;
  section_sort_perm : ∀ l, section_sort l ≡ₚ l;
  section_sort_sorted : ∀ l, StronglySorted by_offset (section_sort l);
}.

(** One round of the overlap check. *)
Definition check_overlap (previous_end : Z) (section : ArtifactSection) : StatusOr Z :=
  if section_offset section <? previous_end then
    InvalidArgument "artifact sections overlap"
  else Ok (wrap64 (section_offset section + section_length section)).

Definition check_checksum (bytes : list byte) (section : ArtifactSection) : StatusM :=
  let* section_bytes := subspan bytes (section_offset section) (section_length section) in
  if Fnv1a64 section_bytes =? section_checksum section then Ok tt
  else FailedPrecondition "artifact section checksum mismatch".

(** ** The header *)

Record ArtifactHeader : Type := MkArtifactHeader {
  header_section_count : Z;
  header_shard_count : Z;
  header_hash_seed : Z;
  header_hash_version : Z;
  header_schema_version : Z;
  header_layout_fingerprint : Z;
  header_id_length : Z;
}.

Definition read_header (bytes : list byte) : StatusOr ArtifactHeader :=
  if Zlen bytes <? kArtifactHeaderSize then InvalidArgument "artifact header is truncated"
  else
  let* magic := ReadLittleEndian uint64_t bytes kMagicOffset in
  if negb (magic =? kArtifactMagic) then InvalidArgument "artifact magic mismatch"
  else
  let* version := ReadLittleEndian uint32_t bytes kVersionOffset in
  if negb (version =? kArtifactFormatVersion) then
    InvalidArgument "unsupported artifact format version"
  else
  let metadata := "artifact header metadata is truncated"%string in
  let* header_size := read_or metadata uint32_t bytes kHeaderSizeOffset in
  let* entry_size := read_or metadata uint32_t bytes kEntrySizeOffset in
  if negb (header_size =? kArtifactHeaderSize) || negb (entry_size =? kArtifactSectionEntrySize)
  then InvalidArgument "unsupported artifact header layout"
  else
  let fixed := "artifact fixed header is truncated"%string in
  let* section_count := read_or fixed uint32_t bytes kSectionCountOffset in
  let* checksum_algorithm := read_or fixed uint32_t bytes kChecksumAlgorithmOffset in
  let* shard_count := read_or fixed uint32_t bytes kShardCountOffset in
  let* hash_seed := read_or fixed uint64_t bytes kHashSeedOffset in
  let* hash_version := read_or fixed uint32_t bytes kHashVersionOffset in
  let* schema_version := read_or fixed uint64_t bytes kSchemaVersionOffset in
  let* layout_fingerprint := read_or fixed uint64_t bytes kLayoutFingerprintOffset in
  let* artifact_id_length := read_or fixed uint32_t bytes kArtifactIdLengthOffset in
  if negb (checksum_algorithm =? kFnv1a64) then
    InvalidArgument "unsupported artifact checksum algorithm"
  else if (kArtifactIdCapacity <? artifact_id_length)
          || (kArtifactHeaderSize <? kArtifactIdOffset + artifact_id_length) then
    InvalidArgument "artifact id is out of bounds"
  else
  Ok (MkArtifactHeader section_count shard_count hash_seed hash_version schema_version
        layout_fingerprint artifact_id_length).

Definition check_expected (h : ArtifactHeader) (options : ArtifactValidationOptions) : StatusM :=
  if negb (expected_shard_count options =? 0)
     && negb (expected_shard_count options =? header_shard_count h) then
    FailedPrecondition "artifact shard count mismatch"
  else if negb (expected_hash_version options =? 0)
          && negb (expected_hash_version options =? header_hash_version h) then
    FailedPrecondition "artifact hash version mismatch"
  else if negb (expected_hash_seed options =? header_hash_seed h) then
    FailedPrecondition "artifact hash seed mismatch"
  else Ok tt.

(** ** ParseArtifact *)

Section Parse.
Context `{SectionSort}.

(** The directory, and the checks of the sections against the bytes. *)
Definition read_sections (bytes : list byte) (h : ArtifactHeader)
    : StatusOr (list ArtifactSection) :=
  let directory_bytes := header_section_count h * kArtifactSectionEntrySize in
  if (u64_max - kArtifactHeaderSize <? directory_bytes)
     || (Zlen bytes <? kArtifactHeaderSize + directory_bytes) then
    InvalidArgument "artifact section directory is truncated"
  else
  let* sections := read_section_entries bytes (header_shard_count h) 0
                     (Z.to_nat (header_section_count h)) ∅ in
  let* _ := ofold check_overlap (section_sort sections) (kArtifactHeaderSize + directory_bytes) in
  let* _ := ofold (λ _, check_checksum bytes) sections tt in
  Ok sections.

Definition section_span (bytes : list byte) (s : ArtifactSection) : StatusOr (list byte) :=
  subspan bytes (section_offset s) (section_length s).

Definition ParseArtifact (bytes : list byte) (options : ArtifactValidationOptions)
    : StatusOr ParsedArtifact :=
  let* h := read_header bytes in
  let* _ := check_expected h options in
  let* sections := read_sections bytes h in
  let* id := subspan bytes kArtifactIdOffset (header_id_length h) in
  let artifact layout progress :=
    MkParsedArtifact id (header_shard_count h) (header_hash_seed h) (header_hash_version h)
      (header_schema_version h) (header_layout_fingerprint h) layout progress sections bytes in
  match ParsedArtifact_FindSection (artifact None []) kSchemaMetadata kArtifactGlobalShardId with
  | None => InvalidArgument "artifact schema section is missing"
  | Some schema_section =>
      let* schema_bytes := section_span bytes schema_section in
      let* layout := ParseSchemaSection schema_bytes (header_schema_version h)
                       (header_layout_fingerprint h) in
      match ParsedArtifact_FindSection (artifact None []) kSourceProgress kArtifactGlobalShardId
      with
      | None =>
          if decide (source_progress_policy options = kOptional)
          then Ok (artifact (Some layout) [])
          else InvalidArgument "artifact source progress section missing"
      | Some progress_section =>
          let* progress_bytes := section_span bytes progress_section in
          let* progress := ParseSourceProgressSection progress_bytes in
          Ok (artifact (Some layout) progress)
      end
  end.
End Parse.
