(* ===== verification/ArtifactWriter.v ===== *)
(** * Writing artifacts: [src/artifact/artifact_writer.{h,cc}]

    The file is built in memory: room for the header and the directory, the
    sections appended one by one, then the header and the directory entries
    written in place.  [artifact_image] is that buffer; [WriteArtifact] stores
    it through an output stream, a parameter. *)

From S2P Require Import Prelude Status ByteIo Types Schema RowStorage Snapshot ArtifactFormat.

Record ArtifactRow : Type := MkArtifactRow {
  artifact_primary_key : Z;
  artifact_encoded : EncodedRow;
}.

Record ArtifactShardBuildSpec : Type := MkArtifactShardBuildSpec {
  shard_spec_id : Z;
  shard_rows : list ArtifactRow;
}.

(** [ArtifactSourceProgressBuildSpec] has the fields of
    [ArtifactSourceProgress]. *)
Record ArtifactBuildSpec : Type := MkArtifactBuildSpec {
  spec_artifact_id : cpp_string;
  spec_shard_count : Z;
  spec_hash_seed : Z;
  spec_hash_version : Z;
  spec_layout : option CompiledRowLayout;
  include_source_progress_section : bool;
  spec_source_progress : list ArtifactSourceProgress;
  spec_shards : list ArtifactShardBuildSpec;
}.

(** ** Appending to a byte vector *)

Abbreviation appender := (stateful (list byte) Status unit).

Definition AppendBytes (bytes : list byte) : appender := λ out, (Ok tt, out ++ bytes).

(** [resize], which adds zeros, then [WriteLittleEndian]. *)
Definition AppendInt (t : int_type) (value : Z) : appender := λ out,
  WriteLittleEndian t value (Zlen out) (out ++ replicate (it_size t) Byte.x00).

Definition AppendString (value : cpp_string) : appender :=
  if u32_max <? Zlen value then
    serr (Status_make kInvalidArgument "artifact string is too large")
  else
  do* _ := AppendInt uint32_t (wrap32 (Zlen value)) in
  AppendBytes value.

Definition AppendBlob (blob : list byte) : appender :=
  if u64_max <? Zlen blob then serr (Status_make kInvalidArgument "blob is too large")
  else
  do* _ := AppendInt uint64_t (wrap64 (Zlen blob)) in
  AppendBytes blob.

(** A count that must fit 32 bits, then the elements. *)
Definition append_list {A} (message : string) (append : A → appender) (values : list A)
    : appender :=
  if u32_max <? Zlen values then serr (Status_make kInvalidArgument message)
  else
  do* _ := AppendInt uint32_t (wrap32 (Zlen values)) in
  sfor append values.

Definition AppendStringList (values : list cpp_string) : appender :=
  append_list "string list is too large" AppendString values.

(** ** Serializing sections *)

(** A vector filled from empty. *)
Definition serialize (a : appender) : StatusOr (list byte) :=
  match a [] with
  | (Ok _, bytes) => Ok bytes
  | (Err e, _) => Err e
  | (Fault f, _) => Fault f
  end.

Definition bool_byte (b : bool) : Z := if b then 1 else 0.

Definition append_field (field : FieldLayout) : appender :=
  do* _ := AppendInt uint32_t (field_id field) in
  do* _ := AppendBytes [byte_of_Z (FieldType_value (type field))] in
  do* _ := AppendBytes [byte_of_Z (bool_byte (is_list field))] in
  do* _ := AppendBytes [byte_of_Z (bool_byte (nullable field))] in
  do* _ := AppendBytes [byte_of_Z (FieldEncoding_value (encoding field))] in
  AppendString (name field).

Definition SerializeSchema (layout : CompiledRowLayout) : StatusOr (list byte) := serialize (
  do* _ := AppendInt uint64_t (schema_version layout) in
  append_list "artifact has too many fields" append_field (fields layout)).

Definition append_progress (entry : ArtifactSourceProgress) : appender :=
  do* _ := AppendString (source_topic entry) in
  do* _ := AppendInt int32_t (source_partition entry) in
  do* _ := AppendInt int64_t (checkpoint_next_offset entry) in
  AppendInt int64_t (source_high_watermark entry).

Definition SerializeSourceProgress (progress : list ArtifactSourceProgress)
    : StatusOr (list byte) :=
  serialize (append_list "too many source progress entries" append_progress progress).

Definition append_payload (payload : OwnedSnapshotRowPayload) : appender :=
  do* _ := AppendBlob (payload_arena payload) in
  do* _ := AppendStringList (payload_string_dictionary payload) in
  do* _ := append_list "scalar list dictionary is too large" AppendBlob
             (payload_scalar_list_dictionary payload) in
  do* _ := append_list "string list dictionary is too large" AppendStringList
             (payload_string_list_dictionary payload) in
  AppendStringList (payload_string_element_dictionary payload).

Definition SerializeRowPayloads (payloads : list OwnedSnapshotRowPayload)
    : StatusOr (list byte) := serialize (
  if u64_max <? Zlen payloads then serr (Status_make kInvalidArgument "too many payloads")
  else
  do* _ := AppendInt uint64_t (wrap64 (Zlen payloads)) in
  sfor append_payload payloads).

(** ** The image *)

(** The buffer and the directory. *)
Abbreviation image_writer := (stateful (list byte * list ArtifactSection) Status unit).

Definition AddSection (type : ArtifactSectionType) (shard_id : Z) (payload : list byte)
    : image_writer := λ s,
  let section := MkArtifactSection type shard_id (Zlen s.1) (Zlen payload) (Fnv1a64 payload) in
  (Ok tt, (s.1 ++ payload, s.2 ++ [section])).

Definition BuildShardSnapshot (spec : ArtifactBuildSpec) (shard : ArtifactShardBuildSpec)
    : StatusOr OwnedSnapshotBacking :=
  let builder := make_builder (spec_layout spec)
                   (MkSnapshotBuildOptions (spec_hash_seed spec) (spec_hash_version spec)) in
  match (do* _ := sfor (λ row, AddRow (artifact_primary_key row) (artifact_encoded row))
                    (shard_rows shard) in
         Seal) builder with
  | (r, _) => r
  end.

Definition pool_types : list ArtifactSectionType :=
  [kStringPools; kScalarListPools; kStringListPools; kStringElementPools].

(** One round of the loop over the selected shards. *)
Definition add_shard (spec : ArtifactBuildSpec) (shard : ArtifactShardBuildSpec) : image_writer :=
  let id := shard_spec_id shard in
  do* backing := slift (BuildShardSnapshot spec shard) in
  do* _ := AddSection kFrozenPrimaryKeyIndex id (owned_frozen_index_bytes backing) in
  do* _ := AddSection kRowSlots id (row_slot_bytes backing) in
  do* row_arena := slift (SerializeRowPayloads (row_payloads backing)) in
  do* _ := AddSection kRowArena id row_arena in
  sfor (λ pool_type, AddSection pool_type id [Byte.x00]) pool_types.

Definition add_sections (spec : ArtifactBuildSpec) (layout : CompiledRowLayout)
    (shards : list ArtifactShardBuildSpec) : image_writer :=
  do* schema := slift (SerializeSchema layout) in
  do* _ := AddSection kSchemaMetadata kArtifactGlobalShardId schema in
  do* _ :=
    if include_source_progress_section spec then
      do* progress := slift (SerializeSourceProgress (spec_source_progress spec)) in
      AddSection kSourceProgress kArtifactGlobalShardId progress
    else sret tt in
  sfor (add_shard spec) shards.

Definition WriteSectionDirectoryEntry (entry_offset : Z) (section : ArtifactSection) : appender :=
  do* _ := WriteLittleEndian uint32_t (section_type_value (section_type section))
             (entry_offset + kEntryTypeOffset) in
  do* _ := WriteLittleEndian uint32_t (section_shard_id section)
             (entry_offset + kEntryShardIdOffset) in
  do* _ := WriteLittleEndian uint64_t (section_offset section)
             (entry_offset + kEntryFileOffsetOffset) in
  do* _ := WriteLittleEndian uint64_t (section_length section)
             (entry_offset + kEntryLengthOffset) in
  WriteLittleEndian uint64_t (section_checksum section) (entry_offset + kEntryChecksumOffset).

(** The loop over the directory; [i] is a [std::size_t]. *)
Fixpoint write_directory (i : Z) (sections : list ArtifactSection) : appender :=
  match sections with
  | [] => sret tt
  | s :: rest =>
      do* _ := WriteSectionDirectoryEntry (kArtifactHeaderSize + i * kArtifactSectionEntrySize) s in
      write_directory (i + 1) rest
  end.

(** [std::copy] into the buffer, element by element. *)
Definition copy_into (src : list byte) (offset : Z) : appender := λ out,
  if (offset <? 0) || (Zlen out <? offset + Zlen src) then (Fault OutOfRange, out)
  else (Ok tt, splice (Z.to_nat offset) src out).

Definition write_header (spec : ArtifactBuildSpec) (layout : CompiledRowLayout)
    (section_count : Z) : appender :=
  do* _ := WriteLittleEndian uint64_t kArtifactMagic kMagicOffset in
  do* _ := WriteLittleEndian uint32_t kArtifactFormatVersion kVersionOffset in
  do* _ := WriteLittleEndian uint32_t kArtifactHeaderSize kHeaderSizeOffset in
  do* _ := WriteLittleEndian uint32_t kArtifactSectionEntrySize kEntrySizeOffset in
  do* _ := WriteLittleEndian uint32_t section_count kSectionCountOffset in
  do* _ := WriteLittleEndian uint32_t kFnv1a64 kChecksumAlgorithmOffset in
  do* _ := WriteLittleEndian uint32_t (spec_shard_count spec) kShardCountOffset in
  do* _ := WriteLittleEndian uint64_t (spec_hash_seed spec) kHashSeedOffset in
  do* _ := WriteLittleEndian uint32_t (spec_hash_version spec) kHashVersionOffset in
  do* _ := WriteLittleEndian uint64_t (schema_version layout) kSchemaVersionOffset in
  do* _ := WriteLittleEndian uint64_t (layout_fingerprint layout) kLayoutFingerprintOffset in
  do* _ := WriteLittleEndian uint32_t (wrap32 (Zlen (spec_artifact_id spec)))
             kArtifactIdLengthOffset in
  copy_into (spec_artifact_id spec) kArtifactIdOffset.

(** One round of the check of the selected shards. *)
Definition check_selected (shard_count : Z) (seen : gset Z) (shard : ArtifactShardBuildSpec)
    : StatusOr (gset Z) :=
  if shard_count <=? shard_spec_id shard then
    InvalidArgument "artifact shard id is out of range"
  else if decide (shard_spec_id shard ∈ seen) then
    InvalidArgument "duplicate artifact shard spec"
  else Ok ({[shard_spec_id shard]} ∪ seen).

(** [WriteArtifactWithShards] up to the output stream. *)
Definition artifact_image (spec : ArtifactBuildSpec) (shards : list ArtifactShardBuildSpec)
    : StatusOr (list byte) :=
  match spec_layout spec with
  | None => InvalidArgument "artifact layout is required"
  | Some layout =>
      if kArtifactIdCapacity <? Zlen (spec_artifact_id spec) then
        InvalidArgument "artifact id is too long"
      else if spec_shard_count spec =? 0 then
        InvalidArgument "artifact shard count must be non-zero"
      else if bool_decide (shards = []) then
        InvalidArgument "artifact shard selection is empty"
      else
      let* _ := ofold (check_selected (spec_shard_count spec)) shards ∅ in
      let section_count :=
        wrap32 (1 + bool_byte (include_source_progress_section spec) + Zlen shards * 7) in
      let room := wrap32 (kArtifactHeaderSize + wrap32 (section_count * kArtifactSectionEntrySize))
      in
      match add_sections spec layout shards (replicate (Z.to_nat room) Byte.x00, []) with
      | (Err e, _) => Err e
      | (Fault f, _) => Fault f
      | (Ok _, (file, sections)) =>
          if negb (Zlen sections =? section_count) then
            Internal "artifact section count mismatch"
          else
          run_write (do* _ := write_header spec layout section_count in
                     write_directory 0 sections) file
      end
  end.

(** ** The output stream *)

Section Output.
(** Opening a path for writing, and writing to it, can fail. *)
Context {F : Type} (open_output : cpp_string → F → bool * F)
  (write_output : cpp_string → list byte → F → bool * F).

Definition WriteArtifactWithShards (path : cpp_string) (spec : ArtifactBuildSpec)
    (shards : list ArtifactShardBuildSpec) : stateful F Status unit :=
  do* file := slift (artifact_image spec shards) in
  λ fs,
    let '(opened, fs) := open_output path fs in
    if negb opened then (Unavailable "failed to open artifact for writing", fs)
    else
    let '(written, fs) := write_output path file fs in
    if negb written then (Unavailable "failed to write artifact", fs) else (Ok tt, fs).

Definition WriteArtifact (path : cpp_string) (spec : ArtifactBuildSpec)
    : stateful F Status unit :=
  if negb (Zlen (spec_shards spec) =? spec_shard_count spec) then
    serr (Status_make kInvalidArgument "artifact shard specs are incomplete")
  else WriteArtifactWithShards path spec (spec_shards spec).

Definition WriteArtifactShard (path : cpp_string) (spec : ArtifactBuildSpec) (shard_id : Z)
    : stateful F Status unit :=
  match find_key shard_spec_id shard_id (spec_shards spec) with
  | Some shard => WriteArtifactWithShards path spec [shard]
  | None => serr (Status_make kInvalidArgument "requested artifact shard spec is missing")
  end.
End Output.
