(* ===== verification/MmapBacking.v ===== *)
(** * Loading artifacts: [src/artifact/mmap_snapshot_backing.{h,cc}]

    [LoadShard] resolves the path of a shard, maps its file and checks what it
    needs of it; the backing then reads rows out of the mapped bytes.  The
    operating system is a parameter: [stat], and [open], [fstat] and [mmap]
    together, as functions of the path. *)

From S2P Require Import Prelude Status ByteIo Types Schema RowStorage Payload Snapshot.
From S2P Require Import Kafka ArtifactFormat.

(** ** Paths *)

(** [path.rfind(prefix, 0) == 0] *)
Definition starts_with (prefix path : cpp_string) : bool :=
  bool_decide (take (length prefix) path = prefix).

(** [path.find(pattern) != npos] *)
Fixpoint contains (pattern path : cpp_string) : bool :=
  starts_with pattern path || match path with [] => false | _ :: path' => contains pattern path' end.

Definition ResolveLocalPath (artifact_uri : cpp_string) : StatusOr cpp_string :=
  let file_prefix := str "file://" in
  if contains (str "://") artifact_uri && negb (starts_with file_prefix artifact_uri) then
    InvalidArgument "unsupported artifact uri scheme"
  else
  let path := if starts_with file_prefix artifact_uri
              then drop (length file_prefix) artifact_uri else artifact_uri in
  if bool_decide (path = []) then InvalidArgument "artifact path is empty"
  else Ok path.

Definition JoinPath (lhs rhs : cpp_string) : cpp_string :=
  if bool_decide (lhs = []) || bool_decide (lhs = str "/") then lhs ++ rhs
  else lhs ++ str "/" ++ rhs.

(** The decimal digits of a number. *)
Fixpoint decimal_digits (fuel : nat) (n : Z) : cpp_string :=
  match fuel with
  | O => []
  | S fuel' =>
      (if n <? 10 then [] else decimal_digits fuel' (n / 10)) ++ [byte_of_Z (48 + n mod 10)]
  end.

(** [std::setw(5)] with fill ['0']: a 32-bit number has at most ten digits. *)
Definition ShardFileName (shard_id : Z) : cpp_string :=
  let digits := decimal_digits 10 shard_id in
  str "shard_" ++ replicate (5 - length digits) (byte_of_Z 48) ++ digits ++ str ".kvi".

Inductive file_kind : Type := RegularFile | Directory | OtherFile.

#[export] Instance file_kind_eq_dec : EqDecision file_kind.
Proof. solve_decision. Defined.

(** A failing system call leaves [errno]: [ENOENT] or another, with its text. *)
Inductive sys_error : Type := ENOENT | OtherErrno (text : string).

(** [open], [fstat] and [mmap] of a whole file. *)
Inductive map_result : Type :=
| OpenFailed (e : sys_error)
| FstatFailed (text : string)
| EmptyFile
| MmapFailed (text : string)
| Mapped (bytes : list byte).

Record MmapSnapshotLoadOptions : Type := MkMmapSnapshotLoadOptions {
  load_shard_count : Z;
  load_hash_seed : Z;
  load_hash_version : Z;
  load_source_progress_policy : ArtifactSourceProgressPolicy;
}.

(** ** Rows *)

Definition SectionBytes (artifact : ParsedArtifact) (type : ArtifactSectionType) (shard_id : Z)
    : StatusOr (list byte) :=
  match ParsedArtifact_FindSection artifact type shard_id with
  | None => InvalidArgument "required shard artifact section missing"
  | Some section => section_span (artifact_bytes artifact) section
  end.

Definition ReadRowString : reader cpp_string := read_string "mmap row string is truncated".

Definition ReadBlob : reader (list byte) :=
  do* size := ReadNext uint64_t in
  λ r,
    if (Zlen (reader_bytes r) <? reader_offset r) || (remaining r <? size)
    then (InvalidArgument "mmap row blob is truncated", r)
    else (do* value := slift (subspan (reader_bytes r) (reader_offset r) size) in
          do* _ := advance size in
          sret value) r.

(** A 32-bit count and that many elements. *)
Definition read_counted {A} (read : reader A) : reader (list A) :=
  do* count := ReadNext uint32_t in
  read_times read (Z.to_nat count).

Definition ReadRowStringList : reader (list cpp_string) := read_counted ReadRowString.

(** One round of the loop over the payloads. *)
Definition read_payload : reader OwnedSnapshotRowPayload :=
  do* arena := ReadBlob in
  do* strings := ReadRowStringList in
  do* scalar_lists := read_counted ReadBlob in
  do* string_lists := read_counted ReadRowStringList in
  do* string_elements := ReadRowStringList in
  sret (MkPayload arena strings scalar_lists string_lists string_elements).

(** The loop, [n] rounds left, [wanted] rounds before the row. *)
Fixpoint scan_payloads (n wanted : nat) : reader OwnedSnapshotRowPayload :=
  match n with
  | O => serr (Status_make kInternal "mmap row payload scan missed requested row")
  | S n' =>
      do* payload := read_payload in
      match wanted with
      | O => sret payload
      | S wanted' => scan_payloads n' wanted'
      end
  end.

Definition ReadPayloadAt (bytes : list byte) (wanted_index : Z)
    : StatusOr OwnedSnapshotRowPayload := read_from (
  do* row_count := ReadNext uint64_t in
  if row_count <=? wanted_index then
    serr (Status_make kInvalidArgument "mmap row payload index is out of bounds")
  else scan_payloads (Z.to_nat row_count) (Z.to_nat wanted_index)) bytes.

Definition ValidatePayloadRowCount (bytes : list byte) (expected_row_count : Z) : StatusM :=
  let* row_count := ReadLittleEndian uint64_t bytes 0 in
  if negb (row_count =? expected_row_count) then
    FailedPrecondition "mmap row payload count mismatch"
  else if (expected_row_count =? 0) && negb (Zlen bytes =? 8) then
    InvalidArgument "empty mmap payload section has trailing data"
  else if 0 <? expected_row_count then
    let* _ := ReadPayloadAt bytes (expected_row_count - 1) in Ok tt
  else Ok tt.

(** ** The backing *)

Record MmapSnapshotBacking : Type := MkMmapSnapshotBacking {
  mmap_artifact : ParsedArtifact;
  mmap_shard_id : Z;
  mmap_frozen_index_bytes : list byte;
  mmap_row_slot_bytes : list byte;
  mmap_row_payload_bytes : list byte;
  prewarm_sections : list (list byte);
  mmap_row_count : Z;
  prewarmed : bool;
  prewarm_touched_pages : Z;
}.

Definition MmapEncodedRowAt (b : MmapSnapshotBacking) (row_offset : Z) : StatusOr EncodedRow :=
  match artifact_layout (mmap_artifact b) with
  | None => FailedPrecondition "mmap snapshot has no row layout"
  | Some l =>
      let size := row_slot_size l in
      let bytes := mmap_row_slot_bytes b in
      if size =? 0 then InvalidArgument "mmap row slot size is zero"
      else if Zlen bytes <? row_offset then InvalidArgument "mmap row offset is out of bounds"
      else if Zlen bytes - row_offset <? size then InvalidArgument "mmap row slot is truncated"
      else if negb (row_offset mod size =? 0) then
        InvalidArgument "mmap row offset is not slot aligned"
      else
      let* payload := ReadPayloadAt (mmap_row_payload_bytes b) (row_offset / size) in
      let* slot := subspan bytes row_offset size in
      Ok (MkEncodedRow (schema_version l) (layout_fingerprint l) slot
            (payload_arena payload) (payload_string_dictionary payload)
            (payload_scalar_list_dictionary payload)
            (payload_string_list_dictionary payload)
            (payload_string_element_dictionary payload))
  end.

(** A [MmapSnapshotBacking] as a [SnapshotBacking]. *)
Definition mmap_backing (b : MmapSnapshotBacking) : SnapshotBacking :=
  MkSnapshotBacking (artifact_layout (mmap_artifact b)) (mmap_frozen_index_bytes b)
    (mmap_row_count b) (MmapEncodedRowAt b) (Some (artifact_id (mmap_artifact b))).

(** The pages of a section, [step] bytes each, that [TouchSectionPages]
    reads. *)
Fixpoint touch_pages (fuel : nat) (bytes : list byte) (offset step touched : Z) : StatusOr Z :=
  match fuel with
  | O => Ok touched
  | S fuel' =>
      if offset <? Zlen bytes then
        let* _ := at_ bytes offset in
        touch_pages fuel' bytes (offset + step) step (touched + 1)
      else Ok touched
  end.

(** A section of [n] bytes takes at most [n] steps. *)
Definition TouchSectionPages (page_size : Z) (bytes : list byte) (touched : Z) : StatusOr Z :=
  match bytes with
  | [] => Ok touched
  | _ => touch_pages (length bytes) bytes 0 (if 0 <? page_size then page_size else 4096) touched
  end.

Section System.
Context `{SectionSort}.
Variable stat : cpp_string → sys_error + file_kind.
Variable map_file : cpp_string → map_result.
(** [sysconf(_SC_PAGESIZE)] *)
Variable page_size : Z.

Definition ResolveArtifactFilePath (artifact_uri : cpp_string) (shard_id : Z)
    : StatusOr cpp_string :=
  let* path := ResolveLocalPath artifact_uri in
  match stat (c_str path) with
  | inl ENOENT => NotFound "artifact file not found"
  | inl (OtherErrno text) => Unavailable ("failed to stat artifact path: " +:+ text)
  | inr RegularFile => Ok path
  | inr OtherFile =>
      InvalidArgument "artifact path is neither a regular file nor a directory"
  | inr Directory =>
      let shard_path := JoinPath path (ShardFileName shard_id) in
      match stat (c_str shard_path) with
      | inl ENOENT => NotFound "artifact shard file not found"
      | inl (OtherErrno text) => Unavailable ("failed to stat artifact shard file: " +:+ text)
      | inr RegularFile => Ok shard_path
      | inr _ => InvalidArgument "artifact shard path is not a regular file"
      end
  end.

Definition MapFile (path : cpp_string) : StatusOr (list byte) :=
  match map_file (c_str path) with
  | OpenFailed ENOENT => NotFound "artifact file not found"
  | OpenFailed (OtherErrno text) => Unavailable ("failed to open artifact file: " +:+ text)
  | FstatFailed text => Unavailable ("failed to stat artifact file: " +:+ text)
  | EmptyFile => InvalidArgument "artifact file is empty"
  | MmapFailed text => Unavailable ("failed to mmap artifact file: " +:+ text)
  | Mapped bytes => Ok bytes
  end.

Definition prewarm_types : list ArtifactSectionType :=
  [kFrozenPrimaryKeyIndex; kRowSlots; kRowArena; kStringPools; kScalarListPools;
   kStringListPools; kStringElementPools].

(** [LoadShard] of the mapped bytes. *)
Definition load_bytes (bytes : list byte) (shard_id : Z) (options : MmapSnapshotLoadOptions)
    : StatusOr MmapSnapshotBacking :=
  let* parsed := ParseArtifact bytes
                   (MkArtifactValidationOptions (load_shard_count options)
                      (load_hash_seed options) (load_hash_version options)
                      (load_source_progress_policy options)) in
  if artifact_shard_count parsed <=? shard_id then
    InvalidArgument "requested shard id is out of range"
  else
  let* index := SectionBytes parsed kFrozenPrimaryKeyIndex shard_id in
  let* row_slots := SectionBytes parsed kRowSlots shard_id in
  let* row_payloads := SectionBytes parsed kRowArena shard_id in
  match artifact_layout parsed with
  | None => Fault NullDereference
  | Some l =>
      let size := row_slot_size l in
      if (size =? 0) || negb (Zlen row_slots mod size =? 0) then
        InvalidArgument "mmap row slot section is misaligned"
      else
      let row_count := Zlen row_slots / size in
      let* _ := ValidatePayloadRowCount row_payloads row_count in
      let* sections := omapM (λ type, SectionBytes parsed type shard_id) prewarm_types in
      Ok (MkMmapSnapshotBacking parsed shard_id index row_slots row_payloads sections
            (if size =? 0 then 0 else Zlen row_slots / size) false 0)
  end.

Definition LoadShard (artifact_uri : cpp_string) (shard_id : Z)
    (options : MmapSnapshotLoadOptions) : StatusOr MmapSnapshotBacking :=
  let* path := ResolveArtifactFilePath artifact_uri shard_id in
  let* bytes := MapFile path in
  load_bytes bytes shard_id options.

Definition Prewarm : stateful MmapSnapshotBacking Status unit := λ b,
  match ofold (λ touched section, TouchSectionPages page_size section touched)
          (prewarm_sections b) 0 with
  | Ok touched =>
      (Ok tt, MkMmapSnapshotBacking (mmap_artifact b) (mmap_shard_id b)
                (mmap_frozen_index_bytes b) (mmap_row_slot_bytes b) (mmap_row_payload_bytes b)
                (prewarm_sections b) (mmap_row_count b) true touched)
  | Err e => (Err e, b)
  | Fault f => (Fault f, b)
  end.
End System.
