(* ===== verification/ArtifactCodec.v ===== *)
(** * The parts of an artifact as codecs

    The readers of the parser and of the mapped backing invert the appenders
    of the writer: strings, blobs, counted lists, row payloads, source
    progress and schema fields. *)

From S2P Require Import Prelude Status ByteIo Types Schema RowStorage RowSafety RowProofs.
From S2P Require Import Snapshot Payload Codec PayloadProofs Kafka ArtifactFormat ArtifactWriter MmapBacking.

(** ** Reading *)

(** Two readers that differ in their errors only. *)
Lemma codec_same {A} (c c' : reader A) P enc :
  codec c P enc →
  (∀ pre rest, match c (cursor pre rest) with
    | (Err _, _) => ∃ e r, c' (cursor pre rest) = (Err e, r)
    | x => c' (cursor pre rest) = x end) →
  codec c' P enc.
Proof.
  intros Hc Hs. split.
  - intros pre a rest Ha. specialize (Hs pre (enc a ++ rest)).
    by rewrite (codec_complete _ _ _ Hc) in Hs.
  - intros pre rest. specialize (Hs pre rest). pose proof (codec_sound _ _ _ Hc pre rest) as Hk.
    destruct (c (cursor pre rest)) as [[a|e|f] r]; [by rewrite Hs| |done].
    by destruct Hs as (e' & r' & ->).
Qed.

Lemma codec_next t : (0 < it_size t)%nat → codec (ReadNext t) (in_int_range t) (int_bytes t).
Proof.
  intros Ht. eapply codec_same; [by apply codec_int|]. intros pre rest.
  unfold ReadInteger, ReadNext. rewrite remaining_cursor. pose proof (Zlen_nonneg pre).
  destruct (Z.ltb_spec (Zlen rest) (Z.of_nat (it_size t))).
  - unfold cursor, sbind, slift. cbn [reader_bytes reader_offset].
    unfold ReadLittleEndian, CheckSpanBounds. rewrite Zlen_app.
    rewrite (proj2 (Z.ltb_ge (Zlen pre + Zlen rest) (Zlen pre))) by (pose proof (Zlen_nonneg rest); lia).
    rewrite (proj2 (Z.ltb_lt (Zlen pre + Zlen rest - Zlen pre) _)) by lia.
    by eexists _, _.
  - by destruct ((do* value := _ in _) _) as [[a|e|f] r] eqn:E; [|eexists _, _|].
Qed.

(** A length, then that many bytes. *)
Definition sized_bytes (t : int_type) (s : list byte) : list byte := int_bytes t (Zlen s) ++ s.

Lemma codec_sized t truncated :
  (0 < it_size t)%nat → it_signed t = false →
  codec (do* size := ReadNext t in
         λ r, if (Zlen (reader_bytes r) <? reader_offset r) || (remaining r <? size)
              then (InvalidArgument truncated, r)
              else (do* value := slift (subspan (reader_bytes r) (reader_offset r) size) in
                    do* _ := advance size in
                    sret value) r)
    (λ s, in_int_range t (Zlen s)) (sized_bytes t).
Proof.
  intros Ht Hs. eapply codec_ext.
  - apply (codec_bind _ _ _ _ Zlen (λ _, True) id (codec_next t Ht)). intros n Hn.
    assert (0 ≤ n) as Hn0 by (unfold in_int_range in Hn; rewrite Hs in Hn; lia).
    eapply codec_same; [eapply codec_ext; [by apply codec_bytes| |done]|].
    { intros s. simpl. naive_solver. }
    intros pre rest. unfold ReadBytes, cursor. cbn [reader_bytes reader_offset].
    rewrite (proj2 (Z.ltb_ge (Zlen (pre ++ rest)) (Zlen pre)))
      by (rewrite Zlen_app; pose proof (Zlen_nonneg rest); lia). cbn [orb].
    change (MkByteReader (pre ++ rest) (Zlen pre)) with (cursor pre rest).
    destruct (_ <? n); [by eexists _, _|].
    by destruct ((do* value := _ in _) _) as [[a|e|f] r]; [|eexists _, _|].
  - intros s. split; [by intros [? _]|done].
  - done.
Qed.

Lemma codec_read_string truncated :
  codec (read_string truncated) (λ s, is_u32 (Zlen s)) (sized_bytes uint32_t).
Proof. by apply (codec_sized uint32_t); [simpl; lia|]. Qed.

Lemma codec_ReadString : codec ReadString (λ s, is_u32 (Zlen s)) (sized_bytes uint32_t).
Proof. apply codec_read_string. Qed.

Lemma codec_blob : codec ReadBlob (λ s, is_u64 (Zlen s)) (sized_bytes uint64_t).
Proof. by apply (codec_sized uint64_t); [simpl; lia|]. Qed.

Definition counted_bytes {A} (enc : A → list byte) (l : list A) : list byte :=
  int_bytes uint32_t (Zlen l) ++ concat (enc <$> l).

Definition counted_ok {A} (P : A → Prop) (l : list A) : Prop := is_u32 (Zlen l) ∧ Forall P l.

Lemma codec_counted {A} (c : reader A) P enc :
  codec c P enc → codec (read_counted c) (counted_ok P) (counted_bytes enc).
Proof.
  intros Hc. eapply codec_ext.
  - apply (codec_bind _ _ _ _ Zlen (Forall P) (λ l, concat (enc <$> l))
             (codec_next uint32_t ltac:(simpl; lia))).
    intros n Hn%is_u32_range. eapply codec_ext; [apply (codec_times _ _ _ (Z.to_nat n) Hc)| |done].
    intros l. unfold is_u32, Zlen in *. split; intros [? ?]; split; try done; lia.
  - done.
  - done.
Qed.

(** ** Row payloads *)

Definition strings_ok : list cpp_string → Prop := counted_ok (λ s, is_u32 (Zlen s)).
Definition strings_bytes : list cpp_string → list byte := counted_bytes (sized_bytes uint32_t).

Record payload_fits (p : OwnedSnapshotRowPayload) : Prop := {
  pf_arena : is_u64 (Zlen (payload_arena p));
  pf_strings : strings_ok (payload_string_dictionary p);
  pf_scalar_lists : counted_ok (λ s, is_u64 (Zlen s)) (payload_scalar_list_dictionary p);
  pf_string_lists : counted_ok strings_ok (payload_string_list_dictionary p);
  pf_elements : strings_ok (payload_string_element_dictionary p);
}.

Definition row_payload_bytes (p : OwnedSnapshotRowPayload) : list byte :=
  sized_bytes uint64_t (payload_arena p)
  ++ strings_bytes (payload_string_dictionary p)
  ++ counted_bytes (sized_bytes uint64_t) (payload_scalar_list_dictionary p)
  ++ counted_bytes strings_bytes (payload_string_list_dictionary p)
  ++ strings_bytes (payload_string_element_dictionary p).

Lemma codec_strings : codec ReadRowStringList strings_ok strings_bytes.
Proof. apply codec_counted, codec_read_string. Qed.

(** One read of a sequence, on what is known to be there and on anything. *)
Ltac read_known Hc :=
  rewrite (codec_complete _ _ _ Hc) by done; cbv iota beta.

Ltac read_any Hc x :=
  match goal with
  | |- context [ match ?c (cursor ?pre ?rest) with _ => _ end ] =>
      let Hs := fresh "Hs" in let r := fresh "r" in let Hx := fresh "Hx" in
      pose proof (codec_sound _ _ _ Hc pre rest) as Hs;
      destruct (c (cursor pre rest)) as [[x|?|?] r]; cbv iota beta; [|done..];
      destruct Hs as (Hx & ? & -> & ->)
  end.

Lemma codec_payload : codec read_payload payload_fits row_payload_bytes.
Proof.
  split.
  - intros pre p rest [Ha Hb Hc Hd He]. unfold read_payload, row_payload_bytes, sbind, sret.
    rewrite <-!app_assoc. read_known codec_blob. read_known codec_strings.
    read_known (codec_counted _ _ _ codec_blob). read_known (codec_counted _ _ _ codec_strings).
    read_known codec_strings. rewrite <-!app_assoc. by destruct p.
  - intros pre rest. unfold read_payload, sbind, sret. read_any codec_blob a.
    read_any codec_strings b. read_any (codec_counted _ _ _ codec_blob) c.
    read_any (codec_counted _ _ _ codec_strings) d. read_any codec_strings e.
    split; [by split|]. eexists. unfold row_payload_bytes. cbn. by rewrite <-!app_assoc.
Qed.

(** The payload section: a 64-bit count and the payloads. *)
Definition payload_section (ps : list OwnedSnapshotRowPayload) : list byte :=
  int_bytes uint64_t (Zlen ps) ++ concat (row_payload_bytes <$> ps).

Lemma scan_payloads_at ps i n pre rest p :
  Forall payload_fits ps → ps !! i = Some p → (i < n)%nat →
  (scan_payloads n i (cursor pre (concat (row_payload_bytes <$> ps) ++ rest))).1 = Ok p.
Proof.
  intros Hps. revert i n pre. induction Hps as [|q ps Hq _ IH]; intros i n pre Hi Hn; [done|].
  destruct n as [|n]; [lia|]. rewrite fmap_cons. cbn [concat scan_payloads]. unfold sbind.
  rewrite <-app_assoc. read_known codec_payload. destruct i as [|i].
  - injection Hi as ->. done.
  - apply IH; [done|lia].
Qed.

Lemma ReadPayloadAt_section ps i p :
  Forall payload_fits ps → is_u64 (Zlen ps) → ps !! i = Some p →
  ReadPayloadAt (payload_section ps) (Z.of_nat i) = Ok p.
Proof.
  intros Hps Hn Hi. unfold ReadPayloadAt, read_from, payload_section.
  change (MkByteReader (int_bytes uint64_t (Zlen ps) ++ concat (row_payload_bytes <$> ps)) 0)
    with (cursor [] (int_bytes uint64_t (Zlen ps) ++ concat (row_payload_bytes <$> ps))).
  unfold sbind. rewrite (codec_complete _ _ _ (codec_next uint64_t ltac:(simpl; lia))) by done.
  cbv iota beta. pose proof (lookup_lt_Some _ _ _ Hi) as Hlt.
  rewrite (proj2 (Z.leb_gt _ _)) by (unfold Zlen; lia). rewrite Nat2Z.id.
  rewrite <-(app_nil_r (concat _)). apply scan_payloads_at; [done..|unfold Zlen; lia].
Qed.

Lemma scan_payloads_no_fault n i pre rest :
  no_fault (scan_payloads n i (cursor pre rest)).1.
Proof.
  revert i pre rest. induction n as [|n IH]; intros i pre rest; [done|].
  cbn [scan_payloads]. unfold sbind. read_any codec_payload p. destruct i; [done|]. apply IH.
Qed.

Lemma ReadPayloadAt_no_fault bytes i : no_fault (ReadPayloadAt bytes i).
Proof.
  unfold ReadPayloadAt, read_from. change (MkByteReader bytes 0) with (cursor [] bytes).
  unfold sbind. read_any (codec_next uint64_t ltac:(simpl; lia)) n.
  destruct (n <=? i); [done|]. apply scan_payloads_no_fault.
Qed.

(** ** Source progress *)

Record progress_ok (p : ArtifactSourceProgress) : Prop := {
  pg_topic : source_topic p ≠ [];
  pg_size : is_u32 (Zlen (source_topic p));
  pg_partition : 0 ≤ source_partition p < 2 ^ 31;
  pg_offsets : 0 ≤ checkpoint_next_offset p ≤ source_high_watermark p;
  pg_high : source_high_watermark p < 2 ^ 63;
}.

Definition progress_bytes (p : ArtifactSourceProgress) : list byte :=
  sized_bytes uint32_t (source_topic p) ++ int_bytes int32_t (source_partition p)
  ++ int_bytes int64_t (checkpoint_next_offset p) ++ int_bytes int64_t (source_high_watermark p).

Lemma int32_range v : in_int_range int32_t v ↔ - 2 ^ 31 ≤ v < 2 ^ 31.
Proof. done. Qed.
Lemma int64_range v : in_int_range int64_t v ↔ - 2 ^ 63 ≤ v < 2 ^ 63.
Proof. done. Qed.

Lemma codec_progress seen :
  codec (read_progress_entry seen) (λ p, progress_ok p ∧ progress_key p ∉ seen) progress_bytes.
Proof.
  assert (codec (ReadNext int32_t) _ _) as H32 by (apply codec_next; simpl; lia).
  assert (codec (ReadNext int64_t) _ _) as H64 by (apply codec_next; simpl; lia). split.
  - intros pre p rest [[Ht Hs Hp Ho Hh] Hseen]. unfold read_progress_entry, progress_bytes, sbind.
    rewrite <-!app_assoc. read_known codec_ReadString.
    rewrite (codec_complete _ _ _ H32) by (apply int32_range; lia).
    rewrite !(codec_complete _ _ _ H64) by (apply int64_range; lia).
    rewrite bool_decide_false by done. rewrite !(proj2 (Z.ltb_ge _ _)) by lia. cbn [orb].
    rewrite decide_False by done. unfold sret. rewrite <-!app_assoc. by destruct p.
  - intros pre rest. unfold read_progress_entry, sbind.
    read_any codec_ReadString topic.
    read_any H32 part. read_any H64 next. read_any H64 high.
    destruct (bool_decide_reflect (topic = [])); [done|].
    destruct (Z.ltb_spec part 0); [done|]. destruct (Z.ltb_spec next 0); [done|].
    destruct (Z.ltb_spec high next); [done|]. cbn [orb].
    case_decide; [done|]. unfold sret. rewrite int32_range in *. rewrite int64_range in *. split.
    + split; [split; cbn; (done || lia)|done].
    + eexists. unfold progress_bytes. cbn. by rewrite <-!app_assoc.
Qed.

(** A valid source progress: distinct partitions. *)
Record progress_list_ok (l : list ArtifactSourceProgress) : Prop := {
  pl_count : is_u32 (Zlen l);
  pl_entries : Forall progress_ok l;
  pl_keys : NoDup (progress_key <$> l);
}.

Lemma ParseSourceProgressSection_inverts :
  inverts ParseSourceProgressSection progress_list_ok (counted_bytes progress_bytes).
Proof.
  apply read_from_fills. unfold read_progress. eapply fills_ext.
  - apply (fills_bind _ _ _ _ Zlen progress_list_ok (λ l, concat (progress_bytes <$> l))
      (codec_next uint32_t ltac:(simpl; lia))).
    intros n Hn%is_u32_range. eapply fills_ext.
    + refine (fills_end _ _ _ _ id id (codec_distinct progress_key read_progress_entry
        read_progress_entries progress_ok progress_bytes _ _ codec_progress (Z.to_nat n) ∅)
        (λ _, eq_refl) (λ _, eq_refl)); done.
    + intros l. unfold compose, id, Zlen, is_u32 in *. split.
      * intros (Hl & Hok & Hnd & _). split; [lia|]. split; [|done..]. unfold is_u32, Zlen. lia.
      * intros (<- & [_ Hok Hnd]). split_and!; [lia|done..|]. intros f _. set_solver.
    + done.
  - intros l. split; [naive_solver|]. intros Hl. split; [|done]. apply is_u32_range, Hl.
  - done.
Qed.
