(* ===== verification/ArtifactSchema.v ===== *)
(** * The schema section of an artifact

    Whatever the bytes, an accepted schema section gives the compiled layout
    of a schema that calls of [AddField] build, with the fingerprint of the
    header.  The section the writer serializes for a compiled layout is read
    back to that layout, when no field has a default value. *)

From S2P Require Import Prelude Status ByteIo Types Schema SchemaProofs RowStorage RowSafety.
From S2P Require Import Payload Codec Kafka ArtifactFormat ArtifactWriter MmapBacking ArtifactCodec.

(** ** One field *)

(** What is read of a field: the id, four bytes, the name. *)
Record field_entry : Type := MkFieldEntry {
  fe_id : Z;
  fe_type : Z;
  fe_list : Z;
  fe_nullable : Z;
  fe_encoding : Z;
  fe_name : cpp_string;
}.

Definition is_byte (v : Z) : Prop := 0 ≤ v < 256.

Record entry_ok (e : field_entry) : Prop := {
  eo_id : is_u32 (fe_id e);
  eo_type : is_byte (fe_type e);
  eo_list : is_byte (fe_list e);
  eo_nullable : is_byte (fe_nullable e);
  eo_encoding : is_byte (fe_encoding e);
  eo_name : is_u32 (Zlen (fe_name e));
}.

Definition entry_bytes (e : field_entry) : list byte :=
  int_bytes uint32_t (fe_id e)
  ++ [byte_of_Z (fe_type e); byte_of_Z (fe_list e); byte_of_Z (fe_nullable e);
      byte_of_Z (fe_encoding e)]
  ++ sized_bytes uint32_t (fe_name e).

Definition add_entry (e : field_entry) (schema : RuntimeSchema) : StatusOr RuntimeSchema :=
  add_parsed_field (fe_id e) (fe_type e) (negb (fe_list e =? 0)) (negb (fe_nullable e =? 0))
    (fe_encoding e) (fe_name e) schema.

Lemma next_byte_cursor pre b rest :
  next_byte (cursor pre (b :: rest)) = (Ok (byte_to_Z b), cursor (pre ++ [b]) rest).
Proof.
  unfold next_byte, sbind, slift, sret, advance, cursor. cbn [reader_bytes reader_offset].
  assert (at_ (E := Status) (pre ++ b :: rest) (Zlen pre) = Ok b) as ->.
  { apply at_Ok. unfold Zlen. split; [lia|]. rewrite Nat2Z.id. by apply list_lookup_middle. }
  by rewrite Zlen_app, <-app_assoc.
Qed.

Lemma byte_word v : is_byte v → byte_to_Z (byte_of_Z v) = v.
Proof. intros Hv. rewrite byte_to_of_Z. by apply Z.mod_small. Qed.

Lemma codec_u32 : codec (ReadNext uint32_t) is_u32 (int_bytes uint32_t).
Proof. apply codec_next. simpl. lia. Qed.
Lemma codec_u64 : codec (ReadNext uint64_t) is_u64 (int_bytes uint64_t).
Proof. apply codec_next. simpl. lia. Qed.

Lemma read_schema_field_known schema pre e rest :
  entry_ok e →
  read_schema_field schema (cursor pre (entry_bytes e ++ rest))
  = (add_entry e schema, cursor (pre ++ entry_bytes e) rest).
Proof.
  intros [Hid Ht Hl Hn He Hname]. unfold read_schema_field, entry_bytes, sbind, get_remaining.
  rewrite <-!app_assoc. read_known codec_u32. rewrite remaining_cursor. cbn [app].
  rewrite !Zlen_cons, (proj2 (Z.ltb_ge _ _)) by (pose proof (Zlen_nonneg (sized_bytes uint32_t (fe_name e) ++ rest)); lia).
  do 4 (rewrite next_byte_cursor; cbv iota beta).
  read_known codec_ReadString. rewrite !byte_word by done. unfold slift. fold (add_entry e schema).
  f_equal. by rewrite <-!app_assoc.
Qed.

Lemma read_schema_field_any schema pre rest :
  match read_schema_field schema (cursor pre rest) with
  | (Err _, _) => True
  | (r, r') => ∃ e rest', entry_ok e ∧ rest = entry_bytes e ++ rest'
      ∧ r' = cursor (pre ++ entry_bytes e) rest' ∧ r = add_entry e schema
  end.
Proof.
  unfold read_schema_field, sbind, get_remaining. read_any codec_u32 fid. rewrite remaining_cursor.
  destruct (Z.ltb_spec (Zlen x) 4); [done|].
  destruct x as [|b1 [|b2 [|b3 [|b4 x]]]]; try (unfold Zlen in *; simpl in *; lia).
  do 4 (rewrite next_byte_cursor; cbv iota beta).
  read_any codec_ReadString nm. unfold slift.
  set (e := MkFieldEntry fid (byte_to_Z b1) (byte_to_Z b2) (byte_to_Z b3) (byte_to_Z b4) nm).
  assert (∃ rest', entry_ok e ∧ int_bytes uint32_t fid ++ b1 :: b2 :: b3 :: b4
      :: sized_bytes uint32_t nm ++ x0 = entry_bytes e ++ rest'
    ∧ cursor ((((((pre ++ int_bytes uint32_t fid) ++ [b1]) ++ [b2]) ++ [b3]) ++ [b4])
        ++ sized_bytes uint32_t nm) x0 = cursor (pre ++ entry_bytes e) rest') as He.
  { exists x0. split; [split; (done || apply byte_to_Z_range)|]. unfold entry_bytes. cbn.
    rewrite !byte_of_to_Z, <-!app_assoc. done. }
  change (add_parsed_field _ _ _ _ _ _ _) with (add_entry e schema).
  destruct He as (rest' & Hok & Hr & Hc).
  destruct (add_entry e schema) eqn:E; [|done|]; exists e, rest'; by rewrite E.
Qed.

(** ** Accepted schemas *)

Definition no_defaults (s : RuntimeSchema) : Prop :=
  Forall (λ f, spec_default_value f = DMonostate) (active_fields s).

Lemma AddField_no_fault f s : no_fault (AddField f s).1.
Proof.
  destruct (AddField f s) as [o s'] eqn:E.
  by apply AddField_inv in E as [(-> & _)|(_ & e & -> & _)].
Qed.

Lemma add_entry_any e s :
  entry_ok e →
  match add_entry e s with
  | Ok s' => schema_step s s' ∧ version s' = version s ∧ (no_defaults s → no_defaults s')
  | Err _ => True
  | Fault f => f = UnknownEnumerator
  end.
Proof.
  intros Hid%eo_id. unfold add_entry, add_parsed_field.
  destruct (FieldType_of_value _) as [t|]; [|done].
  destruct (FieldEncoding_of_value _) as [enc|]; [|by repeat case_match].
  set (f := MkFieldSpec _ _ _ _ _ _ _ _). pose proof (AddField_no_fault f s) as Hnf.
  destruct (AddField f s) as [[u|err|ft] s'] eqn:E; [|done..].
  split; [by eapply (step_add f)|].
  apply AddField_inv in E as [(_ & _ & _ & ->)|[-> _]]; [|done]. split; [done|].
  intros Hs. apply Forall_app. by split; [|constructor].
Qed.

Lemma read_schema_fields_any n s pre rest :
  match read_schema_fields n s (cursor pre rest) with
  | (Ok s', r') => rtc schema_step s s' ∧ version s' = version s ∧ (no_defaults s → no_defaults s')
      ∧ ∃ pre' rest', r' = cursor pre' rest'
  | (Err _, _) => True
  | (Fault f, _) => f = UnknownEnumerator
  end.
Proof.
  revert s pre rest. induction n as [|n IH]; intros s pre rest; cbn [read_schema_fields].
  { split_and!; [done..|]. by exists pre, rest. }
  unfold sbind. pose proof (read_schema_field_any s pre rest) as Hf.
  destruct (read_schema_field s (cursor pre rest)) as [[s1|e|f] r1]; [|done|].
  - destruct Hf as (e & rest1 & Hok & _ & -> & Ha). pose proof (add_entry_any e s Hok) as Hs.
    rewrite <-Ha in Hs. destruct Hs as (Hs & Hv & Hd). specialize (IH s1 (pre ++ entry_bytes e) rest1).
    destruct (read_schema_fields n s1 _) as [[s2|e2|f2] r2]; [|done..].
    destruct IH as (Hs2 & Hv2 & Hd2 & Hc). split_and!; [by eapply rtc_l|congruence|auto|done].
  - destruct Hf as (e & rest1 & Hok & _ & _ & Ha). pose proof (add_entry_any e s Hok) as Hs.
    by rewrite <-Ha in Hs.
Qed.

Lemma ParseSchemaSection_any bytes ver fp :
  match ParseSchemaSection bytes ver fp with
  | Ok L => ∃ s, reachable_schema ver s ∧ no_defaults s ∧ L = compile_layout s
      ∧ layout_fingerprint L = fp
  | Err _ => True
  | Fault f => f = UnknownEnumerator
  end.
Proof.
  unfold ParseSchemaSection, read_from, read_schema.
  change (MkByteReader bytes 0) with (cursor [] bytes). unfold sbind.
  read_any codec_u64 v. destruct (Z.eqb_spec v ver) as [->|]; [|done]. cbn [negb].
  read_any codec_u32 n.
  pose proof (read_schema_fields_any (Z.to_nat n) (MkRuntimeSchema ver [] [])
    (([] ++ int_bytes uint64_t ver) ++ int_bytes uint32_t n) x0) as Hs.
  destruct (read_schema_fields _ _ _) as [[s|e|f] r]; [|done..].
  destruct Hs as (Hs & Hv & Hd & pre' & rest' & ->). unfold get_remaining. rewrite remaining_cursor.
  destruct (negb (Zlen rest' =? 0)); [done|]. unfold sret. cbn [fst obind].
  unfold Compile. cbn [obind].
  destruct (Z.eqb_spec (layout_fingerprint (compile_layout s)) fp) as [Hfp|]; [|done]. cbn [negb].
  exists s. split_and!; [done|by apply Hd, Forall_nil|done..].
Qed.
