(* ===== verification/ArtifactAppend.v ===== *)
(** * The appenders of the artifact writer, and the schema section

    An appender adds the encoding of its value to the buffer exactly when the
    value fits its length fields, and stops with an error otherwise.  The
    encodings are those the readers of [ArtifactCodec] invert.  The section the writer serializes for a compiled layout lists the
    active fields by id.  Read back, they are added to an empty schema in that
    order, which compiles to the same layout when no field has a default value:
    the section does not hold defaults. *)

From S2P Require Import Prelude Status ByteIo Types Schema SchemaProofs RowStorage RowSafety.
From S2P Require Import Snapshot Payload Codec Kafka ArtifactFormat ArtifactWriter MmapBacking.
From S2P Require Import ArtifactCodec ArtifactSchema.

(** ** Appenders *)

Definition appends {A} (append : A → appender) (P : A → Prop) (enc : A → list byte) : Prop :=
  ∀ a out,
    (P a ∧ append a out = (Ok tt, out ++ enc a))
    ∨ (¬ P a ∧ ∃ e out', append a out = (Err e, out')).

(** ** Rules *)

Lemma AppendInt_bytes t v out : AppendInt t v out = (Ok tt, out ++ int_bytes t v).
Proof.
  unfold AppendInt. rewrite WriteLittleEndian_in
    by (rewrite ?Zlen_app; unfold Zlen; rewrite ?length_replicate; lia).
  unfold splice, Zlen. rewrite Nat2Z.id, take_app_length, length_le_bytes.
  rewrite drop_ge by (rewrite length_app, length_replicate; lia).
  by rewrite app_nil_r.
Qed.

Lemma appends_int {A} t (g : A → Z) :
  appends (λ a, AppendInt t (g a)) (λ _, True) (λ a, int_bytes t (g a)).
Proof. intros a out. left. by rewrite AppendInt_bytes. Qed.

Lemma appends_bytes {A} (g : A → list byte) : appends (λ a, AppendBytes (g a)) (λ _, True) g.
Proof. intros a out. by left. Qed.

Lemma appends_bind {A B} (f : B → appender) (g : A → B) (k : A → appender) P enc Q encq :
  appends f P enc → appends k Q encq →
  appends (λ a, do* _ := f (g a) in k a) (λ a, P (g a) ∧ Q a) (λ a, enc (g a) ++ encq a).
Proof.
  intros Hf Hk a out. unfold sbind.
  destruct (Hf (g a) out) as [[Hp ->]|(Hp & e & out' & ->)]; [|right; naive_solver].
  destruct (Hk a (out ++ enc (g a))) as [[Hq ->]|(Hq & e & out' & ->)]; [|right; naive_solver].
  left. by rewrite app_assoc.
Qed.

Lemma appends_ext {A} (f : A → appender) P P' enc enc' :
  appends f P enc → (∀ a, P a ↔ P' a) → (∀ a, enc a = enc' a) → appends f P' enc'.
Proof.
  intros Hf HP He a out. rewrite <-HP, <-He. apply Hf.
Qed.

Lemma appends_for {A} (f : A → appender) P enc :
  appends f P enc → appends (sfor f) (Forall P) (λ l, concat (enc <$> l)).
Proof.
  intros Hf l. induction l as [|a l IH]; intros out; cbn [sfor].
  { left. split; [done|]. by rewrite app_nil_r. }
  rewrite Forall_cons, fmap_cons. cbn [concat].
  exact (appends_bind f (λ _ : unit, a) (λ _, sfor f l) P enc (λ _, Forall P l)
    (λ _, concat (enc <$> l)) Hf (λ _, IH) () out).
Qed.

Lemma serialize_appends {A} (f : A → appender) P enc a bs :
  appends f P enc → serialize (f a) = Ok bs ↔ P a ∧ bs = enc a.
Proof.
  intros Hf. unfold serialize.
  destruct (Hf a []) as [[Hp ->]|(Hp & e & out' & ->)]; naive_solver.
Qed.

Lemma serialize_no_fault {A} (f : A → appender) P enc a :
  appends f P enc → no_fault (serialize (f a)).
Proof.
  intros Hf. unfold serialize. by destruct (Hf a []) as [[_ ->]|(_ & e & out' & ->)].
Qed.

(** A length or count that must fit [t], written before what it counts. *)
Lemma appends_sized {A} t (limit : Z) message (len : A → Z) (k : A → appender) Q encq :
  it_signed t = false → limit = it_modulus t - 1 → (∀ a, 0 ≤ len a) →
  appends k Q encq →
  appends (λ a, if limit <? len a then serr (Status_make kInvalidArgument message)
                else do* _ := AppendInt t (len a mod it_modulus t) in k a)
    (λ a, in_int_range t (len a) ∧ Q a) (λ a, int_bytes t (len a) ++ encq a).
Proof.
  intros Ht -> Hl Hk a out. unfold in_int_range. rewrite Ht. specialize (Hl a).
  destruct (Z.ltb_spec (it_modulus t - 1) (len a)).
  - right. split; [lia|]. by eexists _, _.
  - rewrite Z.mod_small by lia.
    destruct (appends_bind (AppendInt t) len k _ _ Q encq (appends_int t id) Hk a out)
      as [[[_ Hq] ->]|(Hn & He)].
    + left. split; [split; [lia|done]|done].
    + right. split; [|done]. intros [_ Hq]. by apply Hn.
Qed.

Lemma appends_string : appends AppendString (λ s, is_u32 (Zlen s)) (sized_bytes uint32_t).
Proof.
  eapply appends_ext.
  - apply (appends_sized uint32_t u32_max _ Zlen AppendBytes (λ _, True) id); [done..| |].
    + apply Zlen_nonneg.
    + apply (appends_bytes id).
  - intros s. rewrite (is_u32_range (Zlen s)). tauto.
  - done.
Qed.

Lemma appends_blob : appends AppendBlob (λ s, is_u64 (Zlen s)) (sized_bytes uint64_t).
Proof.
  eapply appends_ext.
  - apply (appends_sized uint64_t u64_max _ Zlen AppendBytes (λ _, True) id); [done..| |].
    + apply Zlen_nonneg.
    + apply (appends_bytes id).
  - intros s. unfold in_int_range, is_u64. simpl. tauto.
  - done.
Qed.

Lemma appends_list {A} message (f : A → appender) P enc :
  appends f P enc → appends (append_list message f) (counted_ok P) (counted_bytes enc).
Proof.
  intros Hf. eapply appends_ext.
  - apply (appends_sized uint32_t u32_max message Zlen (sfor f)); [done..| |by apply appends_for].
    apply Zlen_nonneg.
  - intros l. unfold counted_ok. by rewrite (is_u32_range (Zlen l)).
  - done.
Qed.

(** ** Sections *)

Lemma appends_strings : appends AppendStringList strings_ok strings_bytes.
Proof. apply appends_list, appends_string. Qed.

Lemma appends_payload : appends append_payload payload_fits row_payload_bytes.
Proof.
  eapply appends_ext.
  - apply (appends_bind AppendBlob payload_arena); [apply appends_blob|].
    apply (appends_bind AppendStringList payload_string_dictionary); [apply appends_strings|].
    apply (appends_bind _ payload_scalar_list_dictionary); [apply appends_list, appends_blob|].
    apply (appends_bind _ payload_string_list_dictionary); [apply appends_list, appends_strings|].
    intros p. exact (appends_strings (payload_string_element_dictionary p)).
  - intros p. split; [intros (? & ? & ? & ? & ?); by split|by intros [? ? ? ? ?]].
  - done.
Qed.

Lemma SerializeRowPayloads_spec ps bs :
  SerializeRowPayloads ps = Ok bs
  ↔ is_u64 (Zlen ps) ∧ Forall payload_fits ps ∧ bs = payload_section ps.
Proof.
  unfold SerializeRowPayloads. etrans.
  - refine (serialize_appends _ _ _ ps bs (appends_sized uint64_t u64_max _ Zlen
      (sfor append_payload) _ _ eq_refl eq_refl Zlen_nonneg (appends_for _ _ _ appends_payload))).
  - unfold in_int_range, is_u64. simpl. tauto.
Qed.

Lemma append_progress_appends :
  appends append_progress (λ p, is_u32 (Zlen (source_topic p))) progress_bytes.
Proof.
  eapply appends_ext.
  - apply (appends_bind AppendString source_topic); [apply appends_string|].
    apply (appends_bind (AppendInt int32_t) source_partition); [apply (appends_int _ id)|].
    apply (appends_bind (AppendInt int64_t) checkpoint_next_offset); [apply (appends_int _ id)|].
    apply appends_int.
  - naive_solver.
  - done.
Qed.

Lemma SerializeSourceProgress_spec l bs :
  SerializeSourceProgress l = Ok bs
  ↔ counted_ok (λ p, is_u32 (Zlen (source_topic p))) l ∧ bs = counted_bytes progress_bytes l.
Proof. apply serialize_appends, appends_list, append_progress_appends. Qed.

(** ** The schema section *)

Definition entry_of (f : FieldLayout) : field_entry :=
  MkFieldEntry (field_id f) (FieldType_value (type f)) (bool_byte (is_list f))
    (bool_byte (nullable f)) (FieldEncoding_value (encoding f)) (name f).

Lemma append_field_appends :
  appends append_field (λ f, is_u32 (Zlen (name f))) (λ f, entry_bytes (entry_of f)).
Proof.
  eapply appends_ext.
  - apply (appends_bind (AppendInt uint32_t) field_id); [apply (appends_int _ id)|].
    do 4 (apply (appends_bind AppendBytes); [apply (appends_bytes id)|]).
    intros f. exact (appends_string (name f)).
  - naive_solver.
  - done.
Qed.

Lemma SerializeSchema_spec L bs :
  SerializeSchema L = Ok bs
  ↔ counted_ok (λ f, is_u32 (Zlen (name f))) (fields L)
    ∧ bs = int_bytes uint64_t (schema_version L)
           ++ counted_bytes (λ f, entry_bytes (entry_of f)) (fields L).
Proof.
  etrans.
  - apply (serialize_appends (λ L, do* _ := AppendInt uint64_t (schema_version L) in
      append_list "artifact has too many fields" append_field (fields L))).
    apply (appends_bind (AppendInt uint64_t) schema_version); [apply (appends_int _ id)|].
    intros l. exact (appends_list _ _ _ _ append_field_appends (fields l)).
  - naive_solver.
Qed.

(** ** The schema section *)

Definition spec_of_field (f : FieldLayout) : FieldSpec :=
  MkFieldSpec (field_id f) (name f) (type f) (is_list f) (nullable f) (encoding f)
    (default_value f) false.

(** The fields of a compiled layout are the active fields, by id. *)
Lemma compiled_specs s :
  schema_ok s → spec_of_field <$> fields (compile_layout s) = sort_fields (active_fields s).
Proof.
  intros Hok. apply list_eq. intros i. rewrite list_lookup_fmap.
  destruct (fields _ !! i) as [f|] eqn:E.
  - destruct (compiled_field s i f Hok E) as (g & Hg & ->). rewrite Hg. cbn. f_equal.
    assert (g ∈ active_fields s) as Hin.
    { rewrite <-(sort_fields_perm (active_fields s)). by eapply list_elem_of_lookup_2. }
    pose proof (so_policy _ Hok) as Hp. rewrite Forall_forall in Hp.
    specialize (Hp g Hin). apply ValidateEncodingPolicy_Ok in Hp as (_ & Hd & _).
    unfold spec_of_field. cbn. destruct g. cbn in *. by subst.
  - apply lookup_ge_None in E. rewrite compiled_length in E by done.
    by rewrite lookup_ge_None_2.
Qed.

(** A field that is read back is added to the schema. *)
Lemma add_entry_of f v acc :
  ValidateEncodingPolicy (spec_of_field f) = Ok tt → default_value f = DMonostate →
  field_id f ∉ spec_field_id <$> acc →
  add_entry (entry_of f) (MkRuntimeSchema v acc [])
  = Ok (MkRuntimeSchema v (acc ++ [spec_of_field f]) []).
Proof.
  intros Hp Hd Hid. unfold add_entry, add_parsed_field, entry_of.
  cbn [fe_id fe_type fe_list fe_nullable fe_encoding fe_name].
  assert (FieldType_of_value (FieldType_value (type f)) = Some (type f)) as ->
    by (by destruct (type f)).
  assert (FieldEncoding_of_value (FieldEncoding_value (encoding f)) = Some (encoding f)) as ->
    by (by destruct (encoding f)).
  assert (∀ b, negb (bool_byte b =? 0) = b) as Hb by (by intros []). rewrite !Hb.
  rewrite <-Hd. fold (spec_of_field f).
  destruct (AddField _ _) as [o s'] eqn:E.
  apply AddField_inv in E as [(-> & _ & _ & ->)|(-> & e & _ & [[_ Hin]|(_ & _ & He)])]; [done|..].
  - unfold history_ids in Hin. cbn in Hin. by rewrite app_nil_r in Hin.
  - congruence.
Qed.

Lemma entry_of_ok f : is_u32 (field_id f) → is_u32 (Zlen (name f)) → entry_ok (entry_of f).
Proof.
  intros Hi Hn. unfold entry_of. split; cbn; [done| | | | |done]; unfold is_byte.
  - destruct (type f); simpl; lia.
  - destruct (is_list f); simpl; lia.
  - destruct (nullable f); simpl; lia.
  - destruct (encoding f); simpl; lia.
Qed.

(** Reading the entries of a list of fields adds them in order. *)
Lemma read_schema_fields_back fs v acc pre rest :
  Forall (λ f, is_u32 (field_id f) ∧ is_u32 (Zlen (name f)) ∧ default_value f = DMonostate
    ∧ ValidateEncodingPolicy (spec_of_field f) = Ok tt) fs →
  NoDup (spec_field_id <$> (acc ++ (spec_of_field <$> fs))) →
  let bs := concat ((λ f, entry_bytes (entry_of f)) <$> fs) in
  read_schema_fields (length fs) (MkRuntimeSchema v acc []) (cursor pre (bs ++ rest))
  = (Ok (MkRuntimeSchema v (acc ++ (spec_of_field <$> fs)) []), cursor (pre ++ bs) rest).
Proof.
  intros Hfs. revert acc pre. induction Hfs as [|f fs (Hi & Hn & Hd & Hp) _ IH]; intros acc pre Hnd.
  { cbn. by rewrite !app_nil_r. }
  cbn -[app cursor spec_of_field]. unfold sbind. rewrite <-app_assoc.
  rewrite read_schema_field_known by (by apply entry_of_ok).
  rewrite fmap_cons, cons_middle, app_assoc in Hnd.
  rewrite add_entry_of; [|done..|].
  - rewrite (IH (acc ++ [spec_of_field f])) by done. by rewrite <-!app_assoc.
  - rewrite fmap_app in Hnd. apply NoDup_app in Hnd as (Hnd & _). rewrite fmap_app in Hnd.
    apply NoDup_app in Hnd as (_ & Hdis & _). intros Hin. apply (Hdis _ Hin). cbn. set_solver.
Qed.

(** The schema section of a compiled layout, read back. *)
Lemma ParseSchemaSection_back v s bs :
  reachable_schema v s → is_u64 v → no_defaults s →
  SerializeSchema (compile_layout s) = Ok bs →
  ParseSchemaSection bs v (layout_fingerprint (compile_layout s)) = Ok (compile_layout s).
Proof.
  intros Hs Hv Hnd Hser. pose proof (reachable_schema_ok _ _ Hs) as Hok.
  pose proof (reachable_version _ _ Hs) as Hver.
  apply SerializeSchema_spec in Hser as [[Hcount Hnames] ->].
  set (L := compile_layout s) in *. assert (schema_version L = v) as ->.
  { unfold L, compile_layout. repeat case_match. exact Hver. }
  pose proof (compiled_specs s Hok) as Hspecs. fold L in Hspecs.
  pose proof (sort_fields_perm (active_fields s)) as Hperm.
  destruct (active_ids_ok s Hok) as [Hids _].
  assert (compile_layout (MkRuntimeSchema v (spec_of_field <$> fields L) []) = L) as Hagain.
  { unfold L at 2. apply compile_layout_perm; cbn; [by rewrite Hspecs, Hperm|done|].
    by rewrite Hspecs. }
  unfold ParseSchemaSection, read_from, read_schema.
  rewrite <-(app_nil_r (int_bytes _ _ ++ _)).
  change (MkByteReader ?b 0) with (cursor [] b). unfold sbind, counted_bytes. rewrite <-!app_assoc.
  read_known codec_u64. rewrite Z.eqb_refl. cbn [negb]. read_known codec_u32.
  unfold Zlen at 1. rewrite Nat2Z.id.
  rewrite read_schema_fields_back.
  - unfold get_remaining. rewrite remaining_cursor. cbn [Zlen length]. cbv iota beta.
    change (negb (Zlen ([] : list byte) =? 0)) with false. cbv iota.
    cbn [app fst]. unfold sret, Compile. cbn [obind fst]. rewrite Hagain, Z.eqb_refl. done.
  - rewrite Forall_forall in Hnames |- *. intros f Hf.
    assert (spec_of_field f ∈ active_fields s) as Hin.
    { rewrite <-Hperm, <-Hspecs. by apply list_elem_of_fmap_2. }
    pose proof (so_policy _ Hok) as Hp. pose proof (so_range _ Hok) as Hr.
    unfold no_defaults in Hnd. rewrite Forall_forall in Hp, Hnd. rewrite Forall_forall in Hr.
    split_and!; [|by apply Hnames|exact (Hnd _ Hin)|by apply Hp].
    apply Hr. unfold history_ids. rewrite fmap_app. apply elem_of_app. left.
    apply list_elem_of_fmap. by exists (spec_of_field f).
  - cbn [app]. by rewrite Hspecs, Hperm.
Qed.

(** No layout that is read back has a default value. *)
Lemma compiled_no_defaults s f :
  schema_ok s → no_defaults s → f ∈ fields (compile_layout s) → default_value f = DMonostate.
Proof.
  intros Hok Hd [i Hi]%list_elem_of_lookup.
  destruct (compiled_field s i f Hok Hi) as (g & Hg & ->). cbn.
  unfold no_defaults in Hd. rewrite Forall_forall in Hd. apply Hd.
  rewrite <-(sort_fields_perm (active_fields s)). by eapply list_elem_of_lookup_2.
Qed.

(** *** C31: Default values do not survive an artifact.

    The fingerprint of a layout covers the default values of its fields, but
    the schema section does not store them.  Whatever bytes it is given, the
    parser never returns the layout of a field with a default: an artifact
    written for such a layout is rejected (for its fingerprint, unless two
    layouts collide), so its rows cannot be served. *)
Theorem schema_defaults_lost (bytes : list byte) (v fp : Z) (L : CompiledRowLayout) (f : FieldLayout)
    (Hf : f ∈ fields L) (Hd : default_value f ≠ DMonostate) :
  ParseSchemaSection bytes v fp ≠ Ok L.
Proof.
  intros H. pose proof (ParseSchemaSection_any bytes v fp) as Hp. rewrite H in Hp.
  destruct Hp as (s & Hs%reachable_schema_ok & Hnd & -> & _).
  by apply Hd, (compiled_no_defaults s f).
Qed.
