(* ===== verification/ArtifactImage.v ===== *)
(** * The file image the artifact writer builds

    The writer appends the sections behind the room for the header and the
    directory, then fills the room in.  An image is described by its parts,
    the sections with their bytes: every header and directory word reads back
    as it was written, and every section holds its part. *)

From S2P Require Import Prelude Status ByteIo Types Schema RowStorage Snapshot.
From S2P Require Import ArtifactFormat ArtifactWriter.

(** ** Writing words in place *)

Record word : Type := MkWord { w_at : Z; w_type : int_type; w_value : Z }.

Definition w_end (w : word) : Z := w_at w + Z.of_nat (it_size (w_type w)).

Definition write_word (w : word) : appender := WriteLittleEndian (w_type w) (w_value w) (w_at w).

Definition reads_word (bytes : list byte) (w : word) : Prop :=
  ReadLittleEndian (w_type w) bytes (w_at w) = Ok (w_value w).

(** Words one behind the other, between two positions. *)
Fixpoint ascending (lo : Z) (ws : list word) (hi : Z) : Prop :=
  match ws with
  | [] => lo ≤ hi
  | w :: ws' =>
      lo ≤ w_at w ∧ (0 < it_size (w_type w))%nat ∧ in_int_range (w_type w) (w_value w)
      ∧ ascending (w_end w) ws' hi
  end.

Lemma ascending_le lo ws hi : ascending lo ws hi → lo ≤ hi.
Proof.
  revert lo. induction ws as [|w ws IH]; intros lo; cbn [ascending]; [done|].
  intros (? & ? & _ & H%IH). unfold w_end in H. lia.
Qed.

Lemma ascending_app lo ws1 mid ws2 hi :
  ascending lo ws1 mid → ascending mid ws2 hi → ascending lo (ws1 ++ ws2) hi.
Proof.
  revert lo. induction ws1 as [|w ws1 IH]; intros lo; cbn [ascending app].
  - intros Hle H. destruct ws2 as [|w ws2]; cbn [ascending] in *; [lia|]. split_and!; [lia|apply H..].
  - intros (H1 & H2 & H3 & H4) Hws. split_and!; [done..|by apply IH].
Qed.

(** Nothing outside the region changes, and not the length. *)
Definition same_outside (lo hi : Z) (bytes bytes' : list byte) : Prop :=
  length bytes' = length bytes
  ∧ ∀ i : nat, Z.of_nat i < lo ∨ hi ≤ Z.of_nat i → bytes' !! i = bytes !! i.

Lemma same_outside_refl lo hi bytes : same_outside lo hi bytes bytes.
Proof. done. Qed.

Lemma same_outside_splice off (new bytes : list byte) lo hi :
  lo ≤ Z.of_nat off → Z.of_nat off + Zlen new ≤ hi → (off + length new ≤ length bytes)%nat →
  same_outside lo hi bytes (splice off new bytes).
Proof.
  intros Hlo Hhi Hl. unfold Zlen in Hhi. split; [by apply length_splice|].
  intros i Hi. apply lookup_splice_out; lia.
Qed.

Lemma same_outside_trans lo hi b1 b2 b3 :
  same_outside lo hi b1 b2 → same_outside lo hi b2 b3 → same_outside lo hi b1 b3.
Proof.
  intros [Hl1 H1] [Hl2 H2]. split; [congruence|]. intros i Hi. by rewrite H2, H1.
Qed.

Lemma same_outside_mono lo hi lo' hi' b1 b2 :
  lo' ≤ lo → hi ≤ hi' → same_outside lo hi b1 b2 → same_outside lo' hi' b1 b2.
Proof. intros Hlo Hhi [Hl H]. split; [done|]. intros i Hi. apply H. lia. Qed.

Lemma same_outside_slice lo hi b1 b2 off n :
  same_outside lo hi b1 b2 → (off + n ≤ length b1)%nat →
  Z.of_nat (off + n) ≤ lo ∨ hi ≤ Z.of_nat off → slice off n b2 = slice off n b1.
Proof.
  intros [Hl H] Hin Hd. apply list_eq. intros i. destruct (decide (i < n)%nat).
  - rewrite !lookup_slice by lia. apply H. lia.
  - rewrite !lookup_ge_None_2; [done|rewrite length_slice; lia..].
Qed.

Lemma same_outside_reads lo hi b1 b2 w :
  same_outside lo hi b1 b2 → 0 ≤ w_at w → w_end w ≤ lo ∨ hi ≤ w_at w →
  reads_word b1 w → reads_word b2 w.
Proof.
  intros Hs Hat Hd Hr. unfold reads_word in *.
  pose proof (ReadLittleEndian_Ok_bounds _ _ _ _ Hat Hr) as Hb.
  rewrite ReadLittleEndian_in in * by (unfold Zlen in *; try rewrite (proj1 Hs); lia).
  rewrite (same_outside_slice _ _ _ _ _ _ Hs); [done|unfold Zlen, w_end in *; lia..].
Qed.

(** Words written one after the other all read back. *)
Lemma write_words_spec ws lo hi bytes :
  0 ≤ lo → ascending lo ws hi → hi ≤ Zlen bytes →
  ∃ bytes', sfor write_word ws bytes = (Ok tt, bytes') ∧ same_outside lo hi bytes bytes'
    ∧ Forall (reads_word bytes') ws.
Proof.
  revert lo bytes. induction ws as [|w ws IH]; intros lo bytes Hlo Hasc Hhi; cbn [sfor].
  { exists bytes. by split_and!. }
  destruct Hasc as (Hat & Hsz & Hv & Hasc). pose proof (ascending_le _ _ _ Hasc) as Hle.
  unfold w_end in Hle, Hasc. unfold sbind, write_word at 1.
  rewrite WriteLittleEndian_in by lia.
  set (bs := le_bytes _ _). assert (length bs = it_size (w_type w)) as Hbs by apply length_le_bytes.
  set (b1 := splice _ _ _).
  assert (same_outside lo hi bytes b1) as H1.
  { apply same_outside_splice; unfold Zlen in *; lia. }
  assert (Zlen b1 = Zlen bytes) as Hl1 by (unfold Zlen; by rewrite (proj1 H1)).
  destruct (IH (w_at w + Z.of_nat (it_size (w_type w))) b1 ltac:(lia) Hasc ltac:(lia)) as (b2 & -> & H2 & Hrs).
  exists b2. split_and!; [done| |].
  - eapply same_outside_trans; [done|]. eapply same_outside_mono; [..|done]; lia.
  - constructor; [|done]. eapply same_outside_reads; [done|lia|left; done|].
    unfold reads_word. rewrite <-(Z2Nat.id (w_at w)) at 1 by lia.
    apply ReadLittleEndian_splice_same; [done..|unfold Zlen in *; lia].
Qed.

Lemma sfor_app {S E A} (f : A → stateful S E unit) l1 l2 s :
  sfor f (l1 ++ l2) s = sbind (sfor f l1) (λ _, sfor f l2) s.
Proof.
  revert s. induction l1 as [|x l1 IH]; intros s; cbn [sfor app]; [done|].
  unfold sbind in *. destruct (f x s) as [[[]|e|ft] s']; [|done..]. apply IH.
Qed.

(** ** The words of the header and of a directory entry *)

Definition header_words (spec : ArtifactBuildSpec) (L : CompiledRowLayout) (count : Z)
    : list word :=
  [MkWord kMagicOffset uint64_t kArtifactMagic;
   MkWord kVersionOffset uint32_t kArtifactFormatVersion;
   MkWord kHeaderSizeOffset uint32_t kArtifactHeaderSize;
   MkWord kEntrySizeOffset uint32_t kArtifactSectionEntrySize;
   MkWord kSectionCountOffset uint32_t count;
   MkWord kChecksumAlgorithmOffset uint32_t kFnv1a64;
   MkWord kShardCountOffset uint32_t (spec_shard_count spec);
   MkWord kHashSeedOffset uint64_t (spec_hash_seed spec);
   MkWord kHashVersionOffset uint32_t (spec_hash_version spec);
   MkWord kSchemaVersionOffset uint64_t (schema_version L);
   MkWord kLayoutFingerprintOffset uint64_t (layout_fingerprint L);
   MkWord kArtifactIdLengthOffset uint32_t (wrap32 (Zlen (spec_artifact_id spec)))].

Lemma write_header_words spec L count bytes :
  write_header spec L count bytes
  = (do* _ := sfor write_word (header_words spec L count) in
     copy_into (spec_artifact_id spec) kArtifactIdOffset) bytes.
Proof.
  unfold write_header, header_words, sfor, sbind, write_word, sret. cbn [w_at w_type w_value].
  repeat (destruct (WriteLittleEndian _ _ _ _) as [[[]|?|?] ?]; [|done..]). done.
Qed.

Definition entry_words (i : Z) (s : ArtifactSection) : list word :=
  let entry_offset := kArtifactHeaderSize + i * kArtifactSectionEntrySize in
  [MkWord (entry_offset + kEntryTypeOffset) uint32_t (section_type_value (section_type s));
   MkWord (entry_offset + kEntryShardIdOffset) uint32_t (section_shard_id s);
   MkWord (entry_offset + kEntryFileOffsetOffset) uint64_t (section_offset s);
   MkWord (entry_offset + kEntryLengthOffset) uint64_t (section_length s);
   MkWord (entry_offset + kEntryChecksumOffset) uint64_t (section_checksum s)].

Lemma write_directory_words i ss bytes :
  write_directory i ss bytes
  = sfor write_word (concat (imap (λ k s, entry_words (i + Z.of_nat k) s) ss)) bytes.
Proof.
  revert i bytes. induction ss as [|s ss IH]; intros i bytes; [done|].
  cbn [write_directory imap concat]. rewrite sfor_app, Z.add_0_r.
  unfold WriteSectionDirectoryEntry, entry_words at 1, sfor at 1, sbind, write_word, sret.
  cbn [w_at w_type w_value].
  repeat (destruct (WriteLittleEndian _ _ _ _) as [[[]|?|?] ?]; [|done..]).
  rewrite IH. do 2 f_equal. apply imap_ext. intros k x _. simpl. f_equal. lia.
Qed.

(** ** Parts *)

Record part : Type := MkPart {
  part_type : ArtifactSectionType;
  part_shard : Z;
  part_bytes : list byte;
}.

Abbreviation payload_of parts := (concat (part_bytes <$> parts)).

(** The sections of parts laid out from a position. *)
Fixpoint place (start : Z) (parts : list part) : list ArtifactSection :=
  match parts with
  | [] => []
  | p :: parts' =>
      MkArtifactSection (part_type p) (part_shard p) start (Zlen (part_bytes p))
        (Fnv1a64 (part_bytes p))
      :: place (start + Zlen (part_bytes p)) parts'
  end.

Definition append_parts (parts : list part) (s : list byte * list ArtifactSection)
    : list byte * list ArtifactSection :=
  (s.1 ++ payload_of parts, s.2 ++ place (Zlen s.1) parts).

Lemma place_app start p q :
  place start (p ++ q) = place start p ++ place (start + Zlen (payload_of p)) q.
Proof.
  revert start. induction p as [|x p IH]; intros start; cbn [place app fmap list_fmap concat].
  - by rewrite Z.add_0_r.
  - rewrite IH, Zlen_app. by rewrite Z.add_assoc.
Qed.

Lemma append_parts_app p q s : append_parts q (append_parts p s) = append_parts (p ++ q) s.
Proof.
  unfold append_parts. cbn [fst snd].
  by rewrite place_app, fmap_app, concat_app, Zlen_app, !app_assoc.
Qed.

Lemma length_place start parts : length (place start parts) = length parts.
Proof. revert start. induction parts as [|p ps IH]; intros; simpl; [done|by rewrite IH]. Qed.

Lemma AddSection_part t id bytes s :
  AddSection t id bytes s = (Ok tt, append_parts [MkPart t id bytes] s).
Proof. unfold AddSection, append_parts. cbn. by rewrite app_nil_r. Qed.

(** ** The parts of an image *)

Definition shard_parts (spec : ArtifactBuildSpec) (shard : ArtifactShardBuildSpec)
    (ps : list part) : Prop :=
  ∃ backing arena_bytes,
    BuildShardSnapshot spec shard = Ok backing
    ∧ SerializeRowPayloads (row_payloads backing) = Ok arena_bytes
    ∧ ps = [MkPart kFrozenPrimaryKeyIndex (shard_spec_id shard) (owned_frozen_index_bytes backing);
            MkPart kRowSlots (shard_spec_id shard) (row_slot_bytes backing);
            MkPart kRowArena (shard_spec_id shard) arena_bytes]
           ++ ((λ t, MkPart t (shard_spec_id shard) [Byte.x00]) <$> pool_types).

Definition progress_parts (spec : ArtifactBuildSpec) (ps : list part) : Prop :=
  if include_source_progress_section spec
  then ∃ bytes, SerializeSourceProgress (spec_source_progress spec) = Ok bytes
         ∧ ps = [MkPart kSourceProgress kArtifactGlobalShardId bytes]
  else ps = [].

Record image_parts (spec : ArtifactBuildSpec) (L : CompiledRowLayout)
    (shards : list ArtifactShardBuildSpec) (parts : list part) : Prop := {
  ip_split : ∃ schema progress pss,
    SerializeSchema L = Ok schema ∧ progress_parts spec progress
    ∧ Forall2 (shard_parts spec) shards pss
    ∧ parts = MkPart kSchemaMetadata kArtifactGlobalShardId schema :: progress ++ concat pss;
}.

Lemma add_shard_parts spec shard s s' :
  add_shard spec shard s = (Ok tt, s') →
  ∃ ps, shard_parts spec shard ps ∧ s' = append_parts ps s.
Proof.
  unfold add_shard, sbind, slift.
  destruct (BuildShardSnapshot spec shard) as [backing|e|f] eqn:Eb; [|done..].
  rewrite !AddSection_part, append_parts_app.
  destruct (SerializeRowPayloads _) as [bytes|e|f] eqn:Ea; [|done..].
  rewrite AddSection_part, append_parts_app. unfold pool_types, sfor, sbind, sret.
  rewrite !AddSection_part, !append_parts_app. intros [= <-].
  eexists. split; [by exists backing, bytes|]. done.
Qed.

Lemma add_shards_parts spec shards s s' :
  sfor (add_shard spec) shards s = (Ok tt, s') →
  ∃ pss, Forall2 (shard_parts spec) shards pss ∧ s' = append_parts (concat pss) s.
Proof.
  revert s. induction shards as [|sh shards IH]; intros s; cbn [sfor].
  - intros [= <-]. exists []. split; [done|]. unfold append_parts. destruct s. cbn.
    by rewrite !app_nil_r.
  - unfold sbind. destruct (add_shard spec sh s) as [[[]|e|f] s1] eqn:E; [|done..].
    apply add_shard_parts in E as (ps & Hps & ->). intros (pss & Hpss & ->)%IH.
    exists (ps :: pss). split; [by constructor|]. by rewrite append_parts_app.
Qed.

Lemma add_sections_parts spec L shards s s' :
  add_sections spec L shards s = (Ok tt, s') →
  ∃ parts, image_parts spec L shards parts ∧ s' = append_parts parts s.
Proof.
  unfold add_sections, sbind, slift.
  destruct (SerializeSchema L) as [schema|e|f] eqn:Es; [|done..].
  rewrite AddSection_part. set (p := MkPart _ _ _).
  assert (∀ progress s2, progress_parts spec progress →
    sfor (add_shard spec) shards (append_parts progress (append_parts [p] s)) = (Ok tt, s2) →
    ∃ parts, image_parts spec L shards parts ∧ s2 = append_parts parts s) as Hend.
  { intros progress s2 Hp (pss & Hpss & ->)%add_shards_parts.
    exists (p :: progress ++ concat pss). split.
    - split. by exists schema, progress, pss.
    - by rewrite !append_parts_app. }
  unfold progress_parts in Hend. destruct (include_source_progress_section spec).
  - destruct (SerializeSourceProgress _) as [bytes|e|f] eqn:Ep; [|done..].
    rewrite AddSection_part. apply Hend. by exists bytes.
  - unfold sret. intros H. apply (Hend []); [done|].
    rewrite <-H. f_equal. unfold append_parts. cbn. by rewrite !app_nil_r.
Qed.

Lemma image_parts_count spec L shards parts :
  image_parts spec L shards parts →
  Zlen parts = 1 + bool_byte (include_source_progress_section spec) + Zlen shards * 7.
Proof.
  intros [(schema & progress & pss & _ & Hp & Hpss & ->)].
  rewrite Zlen_cons, Zlen_app. assert (Zlen (concat pss) = Zlen shards * 7) as ->.
  { induction Hpss as [|sh ps shards pss (b & a & _ & _ & ->) _ IH]; [done|].
    cbn [concat]. rewrite Zlen_app, Zlen_cons, IH.
    unfold Zlen at 1. rewrite length_app, length_fmap. cbn. lia. }
  unfold progress_parts in Hp. destruct (include_source_progress_section spec).
  - destruct Hp as (bytes & _ & ->). unfold Zlen. simpl. lia.
  - subst. unfold Zlen. simpl. lia.
Qed.
