(* ===== verification/ArtifactLayout.v ===== *)
(** * A written image reads back word for word

    [image_of] collects what the parser needs of an image: its size, the
    payloads behind the room for the header and the directory, and every word
    of both.  [artifact_image] builds such an image of its parts. *)

From S2P Require Import Prelude Status ByteIo Types Schema RowStorage RowSafety Snapshot.
From S2P Require Import ArtifactFormat ArtifactWriter ArtifactImage.

Definition room (parts : list part) : Z :=
  kArtifactHeaderSize + Zlen parts * kArtifactSectionEntrySize.

Record image_of (spec : ArtifactBuildSpec) (L : CompiledRowLayout) (parts : list part)
    (F : list byte) : Prop := {
  im_size : Zlen F = room parts + Zlen (payload_of parts);
  im_payload : drop (Z.to_nat (room parts)) F = payload_of parts;
  im_header : Forall (reads_word F) (header_words spec L (Zlen parts));
  im_id : slice (Z.to_nat kArtifactIdOffset) (length (spec_artifact_id spec)) F
          = spec_artifact_id spec;
  im_directory : ∀ k s, place (room parts) parts !! k = Some s →
    Forall (reads_word F) (entry_words (Z.of_nat k) s);
}.

(** The values of the spec are those of their C++ types. *)
Record spec_range (spec : ArtifactBuildSpec) (L : CompiledRowLayout) : Prop := {
  sr_shards : is_u32 (spec_shard_count spec);
  sr_seed : is_u64 (spec_hash_seed spec);
  sr_hash : is_u32 (spec_hash_version spec);
  sr_version : is_u64 (schema_version L);
  sr_fingerprint : is_u64 (layout_fingerprint L);
}.

(** ** Ranges *)

Lemma Fnv1a64_range bytes : is_u64 (Fnv1a64 bytes).
Proof.
  unfold Fnv1a64. induction bytes as [|b bytes _] using rev_ind.
  - unfold is_u64. simpl. lia.
  - rewrite foldl_app. cbn [foldl]. apply wrap64_range.
Qed.

Record section_range (s : ArtifactSection) : Prop := {
  sg_shard : is_u32 (section_shard_id s);
  sg_offset : is_u64 (section_offset s);
  sg_length : is_u64 (section_length s);
  sg_checksum : is_u64 (section_checksum s);
}.

(** The [k]-th section holds the [k]-th part. *)
Lemma place_lookup start parts k s :
  place start parts !! k = Some s →
  ∃ before p after, parts = before ++ p :: after ∧ length before = k
    ∧ s = MkArtifactSection (part_type p) (part_shard p)
            (start + Zlen (payload_of before)) (Zlen (part_bytes p)) (Fnv1a64 (part_bytes p)).
Proof.
  revert start k. induction parts as [|p parts IH]; intros start k; [done|].
  destruct k as [|k]; cbn [place lookup list_lookup].
  - intros [= <-]. exists [], p, parts. cbn. by rewrite Z.add_0_r.
  - intros (before & q & after & -> & Hk & ->)%IH. exists (p :: before), q, after.
    split_and!; [done|by simpl; f_equal|]. cbn [fmap list_fmap concat].
    by rewrite Zlen_app, Z.add_assoc.
Qed.

Lemma place_range start parts :
  0 ≤ start → is_u64 (start + Zlen (payload_of parts)) →
  Forall (λ p, is_u32 (part_shard p)) parts → Forall section_range (place start parts).
Proof.
  intros Hs Hmax Hids. apply Forall_lookup. intros k s (before & p & after & -> & _ & ->)%place_lookup.
  rewrite Forall_app, Forall_cons in Hids. destruct Hids as (_ & Hid & _).
  rewrite fmap_app, concat_app, Zlen_app, fmap_cons in Hmax. cbn [concat] in Hmax.
  rewrite Zlen_app in Hmax.
  pose proof (Zlen_nonneg (payload_of before)). pose proof (Zlen_nonneg (part_bytes p)).
  pose proof (Zlen_nonneg (payload_of after)). unfold is_u64 in *.
  split; cbn; [done|unfold is_u64; lia..|apply Fnv1a64_range].
Qed.

Lemma section_type_range t : is_u32 (section_type_value t).
Proof. destruct t; unfold is_u32; simpl; lia. Qed.

(** ** The words ascend *)

Lemma u32_word v : is_u32 v → in_int_range uint32_t v.
Proof. done. Qed.
Lemma u64_word v : is_u64 v → in_int_range uint64_t v.
Proof. done. Qed.

Lemma header_ascending spec L count :
  spec_range spec L → is_u32 count →
  ascending 0 (header_words spec L count) kArtifactIdOffset.
Proof.
  intros [Hs Hseed Hh Hv Hf] Hc.
  assert (in_int_range uint32_t (wrap32 (Zlen (spec_artifact_id spec)))) as Hid
    by (apply u32_word, Z.mod_pos_bound; lia).
  unfold header_words. cbn [ascending]. unfold w_end. cbn [w_at w_type w_value].
  repeat match goal with |- _ ∧ _ => split end;
    first [exact Hid|exact (u32_word _ Hs)|exact (u32_word _ Hc)|exact (u32_word _ Hh)
          |exact (u64_word _ Hseed)|exact (u64_word _ Hv)|exact (u64_word _ Hf)
          |done|by split|simpl; lia].
Qed.

Lemma directory_ascending i ss :
  0 ≤ i → Forall section_range ss →
  ascending (kArtifactHeaderSize + i * kArtifactSectionEntrySize)
    (concat (imap (λ k s, entry_words (i + Z.of_nat k) s) ss))
    (kArtifactHeaderSize + (i + Zlen ss) * kArtifactSectionEntrySize).
Proof.
  intros Hi Hss. revert i Hi. induction Hss as [|s ss [Hid Ho Hl Hc] _ IH]; intros i Hi.
  { cbn. unfold Zlen. cbn. lia. }
  cbn [imap concat]. rewrite Z.add_0_r.
  apply ascending_app with (kArtifactHeaderSize + (i + 1) * kArtifactSectionEntrySize).
  - unfold entry_words, kArtifactHeaderSize, kArtifactSectionEntrySize, kEntryTypeOffset,
      kEntryShardIdOffset, kEntryFileOffsetOffset, kEntryLengthOffset, kEntryChecksumOffset.
    pose proof (section_type_range (section_type s)).
    cbn [ascending]. unfold w_end. cbn [w_at w_type w_value].
    repeat match goal with |- _ ∧ _ => split end; try (unfold in_int_range; simpl; lia);
      first [exact (u32_word _ H)|exact (u32_word _ Hid)|exact (u64_word _ Ho)
            |exact (u64_word _ Hl)|exact (u64_word _ Hc)].
  - rewrite Zlen_cons, Z.add_assoc.
    assert (imap ((λ k x, entry_words (i + Z.of_nat k) x) ∘ S) ss
      = imap (λ k x, entry_words (i + 1 + Z.of_nat k) x) ss) as ->.
    { apply imap_ext. intros k x _. simpl. f_equal. lia. }
    apply IH. lia.
Qed.

(** ** The image *)

Lemma check_selected_spec n shards seen seen' :
  ofold (check_selected n) shards seen = Ok seen' →
  NoDup (shard_spec_id <$> shards)
  ∧ Forall (λ sh, shard_spec_id sh < n ∧ shard_spec_id sh ∉ seen) shards.
Proof.
  revert seen. induction shards as [|sh shards IH]; intros seen; cbn [ofold].
  { by repeat constructor. }
  unfold check_selected at 1. destruct (Z.leb_spec n (shard_spec_id sh)); [done|].
  case_decide as Hin; [done|]. cbn [obind]. intros [Hnd Hall]%IH. split.
  - constructor; [|done]. intros (sh' & Heq & Hsh')%list_elem_of_fmap.
    rewrite Forall_forall in Hall. destruct (Hall sh' Hsh') as [_ Hn]. set_solver.
  - constructor; [done|]. eapply Forall_impl; [exact Hall|]. set_solver.
Qed.

Lemma image_parts_shards spec L shards parts :
  image_parts spec L shards parts → Forall (λ sh, is_u32 (shard_spec_id sh)) shards →
  Forall (λ p, is_u32 (part_shard p)) parts.
Proof.
  intros [(schema & progress & pss & _ & Hp & Hpss & ->)] Hids.
  assert (is_u32 kArtifactGlobalShardId) as Hglobal by done.
  constructor; [done|]. apply Forall_app. split.
  - unfold progress_parts in Hp. destruct (include_source_progress_section spec); [|by subst].
    destruct Hp as (bytes & _ & ->). by repeat constructor.
  - induction Hpss as [|sh ps shards pss (b & a & _ & _ & ->) _ IH]; [done|].
    apply Forall_cons in Hids as [Hid Hids]. cbn [concat]. apply Forall_app. split; [|by apply IH].
    repeat (apply Forall_cons_2; [exact Hid|]). by apply Forall_nil.
Qed.

(** The header of an image: its words and the id behind them. *)
Lemma header_word_bounds spec L count w :
  w ∈ header_words spec L count → 0 ≤ w_at w ∧ w_end w ≤ kArtifactIdOffset.
Proof.
  revert w. apply Forall_forall. unfold header_words.
  repeat (apply Forall_cons_2; [by split|]). by apply Forall_nil.
Qed.

Lemma write_header_spec spec L count file :
  spec_range spec L → is_u32 count → Zlen (spec_artifact_id spec) ≤ kArtifactIdCapacity →
  kArtifactHeaderSize ≤ Zlen file →
  ∃ bytes, write_header spec L count file = (Ok tt, bytes)
    ∧ same_outside 0 kArtifactHeaderSize file bytes
    ∧ Forall (reads_word bytes) (header_words spec L count)
    ∧ slice (Z.to_nat kArtifactIdOffset) (length (spec_artifact_id spec)) bytes
      = spec_artifact_id spec.
Proof.
  unfold kArtifactIdCapacity, kArtifactHeaderSize. intros Hrange Hc Hid Hfile.
  rewrite write_header_words. unfold sbind.
  destruct (write_words_spec _ 0 68 file ltac:(lia) (header_ascending spec L count Hrange Hc)
    ltac:(lia)) as (b1 & -> & S1 & R1).
  assert (Zlen b1 = Zlen file) as L1 by (unfold Zlen; by rewrite (proj1 S1)).
  unfold copy_into, kArtifactIdOffset. rewrite !(proj2 (Z.ltb_ge _ _)) by lia. cbn [orb].
  assert (same_outside 68 128 b1 (splice (Z.to_nat 68) (spec_artifact_id spec) b1)) as S2
    by (apply same_outside_splice; unfold Zlen in *; lia).
  eexists. split_and!; [done| | |].
  - eapply same_outside_trans; eapply same_outside_mono; [..|exact S2]; try exact S1; lia.
  - rewrite Forall_forall in R1 |- *. intros w Hw.
    destruct (header_word_bounds _ _ _ _ Hw). unfold kArtifactIdOffset in *.
    eapply same_outside_reads; [exact S2|lia|left; lia|]. by apply R1.
  - apply slice_splice_same. unfold Zlen in *. lia.
Qed.

(** Filling in the header and the directory. *)
Lemma fill_room spec L parts F :
  spec_range spec L → is_u32 (Zlen parts) →
  Zlen (spec_artifact_id spec) ≤ kArtifactIdCapacity →
  Forall section_range (place (room parts) parts) →
  run_write (do* _ := write_header spec L (Zlen parts) in
             write_directory 0 (place (room parts) parts))
    (replicate (Z.to_nat (room parts)) Byte.x00 ++ payload_of parts) = Ok F →
  image_of spec L parts F.
Proof.
  intros Hrange Hn Hid Hss Hrun. set (ss := place (room parts) parts) in *.
  set (file := replicate _ _ ++ _) in Hrun. pose proof (Zlen_nonneg parts) as Hn0.
  assert (Zlen ss = Zlen parts) as Hlss by (unfold Zlen, ss; by rewrite length_place).
  assert (128 ≤ room parts) as Hroom
    by (unfold room, kArtifactHeaderSize, kArtifactSectionEntrySize; lia).
  assert (Zlen file = room parts + Zlen (payload_of parts)) as Hfile.
  { unfold file. rewrite Zlen_app. unfold Zlen at 1. rewrite length_replicate. lia. }
  pose proof (Zlen_nonneg (payload_of parts)) as Hp0.
  destruct (write_header_spec spec L (Zlen parts) file Hrange Hn Hid
    ltac:(unfold kArtifactHeaderSize; lia)) as (b2 & E2 & S2 & R2 & I2).
  unfold kArtifactHeaderSize in S2.
  assert (Zlen b2 = Zlen file) as L2 by (unfold Zlen; by rewrite (proj1 S2)).
  unfold run_write, sbind in Hrun. rewrite E2, write_directory_words in Hrun.
  destruct (write_words_spec _ 128 _ b2 ltac:(lia) (directory_ascending 0 ss ltac:(lia) Hss))
    as (b3 & E3 & S3 & R3).
  { rewrite Hlss, L2, Hfile. unfold room in *. lia. }
  rewrite E3 in Hrun. injection Hrun as <-. rewrite Hlss in S3.
  change (kArtifactHeaderSize + (0 + Zlen parts) * kArtifactSectionEntrySize) with (room parts) in S3.
  split.
  - unfold Zlen in *. rewrite (proj1 S3). lia.
  - apply list_eq. intros i. rewrite lookup_drop, (proj2 S3), (proj2 S2) by lia.
    rewrite <-lookup_drop. unfold file. rewrite drop_app_length'; [done|]. by rewrite length_replicate.
  - rewrite Forall_forall in R2 |- *. intros w Hw.
    destruct (header_word_bounds _ _ _ _ Hw). unfold kArtifactIdOffset in *.
    eapply same_outside_reads; [exact S3|lia|left; lia|]. by apply R2.
  - rewrite (same_outside_slice _ _ _ _ _ _ S3); [done|..];
      unfold Zlen, kArtifactIdOffset, kArtifactIdCapacity in *; lia.
  - intros k s Hk. rewrite Forall_concat in R3. rewrite Forall_lookup in R3.
    apply (R3 k). rewrite list_lookup_imap. fold ss in Hk. by rewrite Hk.
Qed.

(** Filling in never changes the length. *)
Lemma length_write_bytes u offset i n bytes :
  length (write_bytes u offset i n bytes) = length bytes.
Proof.
  revert i bytes. induction n as [|n IH]; intros i bytes; cbn [write_bytes]; [done|].
  by rewrite IH, length_insert.
Qed.

Lemma write_words_length ws bytes : length (sfor write_word ws bytes).2 = length bytes.
Proof.
  revert bytes. induction ws as [|w ws IH]; intros bytes; cbn [sfor]; [done|].
  unfold sbind, write_word at 1, WriteLittleEndian.
  destruct (CheckSpanBounds _ _ _); [|done..]. by rewrite IH, length_write_bytes.
Qed.

Lemma fill_length spec L count ss file F :
  run_write (do* _ := write_header spec L count in write_directory 0 ss) file = Ok F →
  Zlen F = Zlen file.
Proof.
  unfold run_write, sbind. rewrite write_header_words. unfold sbind.
  pose proof (write_words_length (header_words spec L count) file) as H1.
  destruct (sfor write_word _ file) as [[[]|e|f] b1]; [|done..]. cbn [snd] in H1.
  unfold copy_into. destruct (_ || _) eqn:Eb; [done|]. btoprop. rewrite write_directory_words.
  pose proof (write_words_length (concat (imap (λ k s, entry_words (0 + Z.of_nat k) s) ss))
    (splice (Z.to_nat kArtifactIdOffset) (spec_artifact_id spec) b1)) as H3.
  destruct (sfor write_word _ _) as [[[]|e|f] b3]; [|done..]. intros [= <-]. cbn [snd] in H3.
  unfold Zlen in *. rewrite H3, length_splice, H1 by lia. done.
Qed.

(** What [artifact_image] returns is the image of the parts. *)
Lemma artifact_image_spec spec L shards F :
  spec_layout spec = Some L → spec_range spec L →
  Forall (λ sh, is_u32 (shard_spec_id sh)) shards → Zlen shards < 2 ^ 22 →
  artifact_image spec shards = Ok F → is_u64 (Zlen F) →
  ∃ parts, image_parts spec L shards parts ∧ image_of spec L parts F
    ∧ Zlen (spec_artifact_id spec) ≤ kArtifactIdCapacity
    ∧ NoDup (shard_spec_id <$> shards)
    ∧ Forall (λ sh, shard_spec_id sh < spec_shard_count spec) shards
    ∧ spec_shard_count spec ≠ 0 ∧ is_u64 (room parts + Zlen (payload_of parts)).
Proof.
  intros HL Hrange Hids Hfew Himg Hmax. unfold artifact_image in Himg. rewrite HL in Himg.
  destruct (Z.ltb_spec kArtifactIdCapacity (Zlen (spec_artifact_id spec))) as [|Hid]; [done|].
  destruct (Z.eqb_spec (spec_shard_count spec) 0) as [|Hcount]; [done|].
  destruct (bool_decide (shards = [])); [done|].
  apply obind_Ok in Himg as (seen & Hsel & Himg). apply check_selected_spec in Hsel as [Hnd Hsel].
  destruct (add_sections _ _ _ _) as [[[]|e|f] [file ss]] eqn:Eadd; [|done..].
  apply add_sections_parts in Eadd as (parts & Hparts & [= -> ->]).
  pose proof (image_parts_count _ _ _ _ Hparts) as Hn. pose proof (Zlen_nonneg shards).
  assert (0 ≤ Zlen parts < 2 ^ 25) as Hp.
  { rewrite Hn. destruct (include_source_progress_section spec); simpl; lia. }
  rewrite <-Hn in Himg. rewrite (wrap32_small (Zlen parts)) in Himg by (unfold is_u32; lia).
  unfold kArtifactSectionEntrySize in Himg.
  rewrite (wrap32_small (Zlen parts * 64)), wrap32_small in Himg
    by (unfold is_u32, kArtifactHeaderSize; lia).
  change (kArtifactHeaderSize + Zlen parts * 64) with (room parts) in Himg.
  assert (Zlen (replicate (Z.to_nat (room parts)) Byte.x00) = room parts) as Hroom.
  { unfold Zlen. rewrite length_replicate.
    unfold room, kArtifactHeaderSize, kArtifactSectionEntrySize. lia. }
  cbn [fst snd app] in Himg. rewrite Hroom in Himg.
  destruct (negb _); [done|].
  pose proof (fill_length _ _ _ _ _ _ Himg) as HF. rewrite Zlen_app, Hroom in HF.
  assert (Forall section_range (place (room parts) parts)) as Hss.
  { apply place_range; [unfold room, kArtifactHeaderSize, kArtifactSectionEntrySize; lia| |].
    - by rewrite <-HF.
    - by eapply image_parts_shards. }
  exists parts. split_and!; [done| |done|done| |done|by rewrite <-HF].
  - apply fill_room; [done|unfold is_u32; lia|done..].
  - eapply Forall_impl; [exact Hsel|]. by intros ? [? _].
Qed.
