(* ===== verification/ArtifactLoad.v ===== *)
(** * Loading a shard of a written artifact

    The parser accepts an image, whatever sorting algorithm [std::sort] is,
    as long as sections that start at the same offset stay in order; the
    mapped backing of a shard then reads the rows the writer's snapshot
    holds. *)

From S2P Require Import Prelude Status ByteIo Types FrozenIndex FrozenIndexProofs.
From S2P Require Import FrozenBuildProofs Schema SchemaProofs RowStorage RowSafety RowProofs.
From S2P Require Import Snapshot SnapshotProofs Payload Codec Kafka ArtifactFormat.
From S2P Require Import ArtifactWriter MmapBacking ArtifactCodec ArtifactAppend ArtifactSchema.
From S2P Require Import ArtifactImage ArtifactLayout.

(** ** Parsing an image *)

Definition part_key (p : part) : ArtifactSectionType * Z := (part_type p, part_shard p).
Definition section_key (s : ArtifactSection) : ArtifactSectionType * Z :=
  (section_type s, section_shard_id s).

Lemma section_key_place start parts : section_key <$> place start parts = part_key <$> parts.
Proof. revert start. induction parts as [|p ps IH]; intros; [done|]. cbn. by f_equal. Qed.

(** The parts of one image, as the parser needs them. *)
Record parts_ok (shard_count : Z) (parts : list part) : Prop := {
  po_count : Zlen parts < 2 ^ 25;
  po_keys : NoDup (part_key <$> parts);
  po_shards : Forall (λ p, part_shard p = kArtifactGlobalShardId ∨ 0 ≤ part_shard p < shard_count)
                parts;
}.

Section Image.
Context (spec : ArtifactBuildSpec) (L : CompiledRowLayout) (parts : list part) (F : list byte).
Hypothesis Himage : image_of spec L parts F.
Hypothesis Hrange : spec_range spec L.
Hypothesis Hparts : parts_ok (spec_shard_count spec) parts.
Hypothesis Hid : Zlen (spec_artifact_id spec) ≤ kArtifactIdCapacity.
Hypothesis Hsize : is_u64 (room parts + Zlen (payload_of parts)).

Local Abbreviation sections := (place (room parts) parts).

Lemma image_size_le : room parts ≤ Zlen F ∧ 128 ≤ room parts ∧ 0 ≤ Zlen parts.
Proof.
  rewrite (im_size _ _ _ _ Himage). pose proof (Zlen_nonneg (payload_of parts)).
  pose proof (Zlen_nonneg parts).
  unfold room, kArtifactHeaderSize, kArtifactSectionEntrySize. lia.
Qed.

Lemma read_or_word message w : reads_word F w → read_or message (w_type w) F (w_at w) = Ok (w_value w).
Proof. intros Hw. unfold read_or. by rewrite Hw. Qed.

(** ** The header *)

Definition image_header : ArtifactHeader :=
  MkArtifactHeader (Zlen parts) (spec_shard_count spec) (spec_hash_seed spec)
    (spec_hash_version spec) (schema_version L) (layout_fingerprint L)
    (Zlen (spec_artifact_id spec)).

Lemma read_header_image : read_header F = Ok image_header.
Proof.
  destruct image_size_le as (Hle & H128 & _). pose proof (Zlen_nonneg (spec_artifact_id spec)).
  pose proof (im_header _ _ _ _ Himage) as Hw. unfold header_words in Hw.
  rewrite !Forall_cons in Hw. destruct Hw as (H1 & H2 & H3 & H4 & H5 & H6 & H7 & H8 & H9 & H10 & H11 & H12 & _).
  unfold read_header, kArtifactHeaderSize. rewrite (proj2 (Z.ltb_ge _ _)) by lia.
  unfold reads_word in H1, H2. cbn [w_at w_type w_value] in H1, H2. rewrite H1. cbn [obind].
  rewrite Z.eqb_refl. cbn [negb]. rewrite H2. cbn [obind]. rewrite Z.eqb_refl. cbn [negb].
  apply (read_or_word "artifact header metadata is truncated"%string) in H3, H4.
  apply (read_or_word "artifact fixed header is truncated"%string) in H5, H6, H7, H8, H9, H10, H11, H12.
  cbn [w_at w_type w_value] in *. rewrite H3, H4. cbn [obind]. unfold kArtifactHeaderSize in *.
  rewrite !Z.eqb_refl. cbn [negb orb]. rewrite H5, H6, H7, H8, H9, H10, H11, H12. cbn [obind].
  rewrite Z.eqb_refl. cbn [negb]. unfold kArtifactIdCapacity, kArtifactIdOffset in *.
  rewrite wrap32_small by (unfold is_u32; lia).
  rewrite !(proj2 (Z.ltb_ge _ _)) by lia. done.
Qed.

(** ** Sections *)

(** A section of the directory lies in the file and holds its part. *)
Lemma section_part k s :
  sections !! k = Some s →
  ∃ p, parts !! k = Some p ∧ section_key s = part_key p
    ∧ section_length s = Zlen (part_bytes p) ∧ section_checksum s = Fnv1a64 (part_bytes p)
    ∧ room parts ≤ section_offset s ∧ section_offset s + section_length s ≤ Zlen F
    ∧ section_span F s = Ok (part_bytes p).
Proof.
  intros (before & p & after & Hp & Hk & ->)%place_lookup. exists p.
  pose proof (im_payload _ _ _ _ Himage) as Hpay. rewrite (im_size _ _ _ _ Himage).
  destruct image_size_le as (_ & H128 & _).
  set (r := room parts) in *. rewrite Hp in Hpay |- *.
  rewrite fmap_app, concat_app, fmap_cons in Hpay |- *. cbn [concat] in Hpay |- *.
  rewrite !Zlen_app. cbn [section_key section_type section_shard_id section_length section_checksum
    section_offset].
  pose proof (Zlen_nonneg (payload_of before)). pose proof (Zlen_nonneg (part_bytes p)).
  pose proof (Zlen_nonneg (payload_of after)).
  split_and!; [by rewrite <-Hk, list_lookup_middle|done..|lia|lia|].
  unfold section_span. cbn [section_offset section_length].
  rewrite subspan_in.
  - f_equal. rewrite Z2Nat.inj_add by lia. unfold slice. rewrite <-drop_drop, Hpay.
    unfold Zlen. rewrite !Nat2Z.id, drop_app_length. by rewrite take_app_length.
  - lia.
  - lia.
  - rewrite (im_size _ _ _ _ Himage). fold r. rewrite Hp, fmap_app, concat_app, fmap_cons.
    cbn [concat]. rewrite !Zlen_app. lia.
Qed.

(** ** The directory *)

Definition value_key (s : ArtifactSection) : Z * Z :=
  (section_type_value (section_type s), section_shard_id s).

Lemma section_type_value_inj t t' : section_type_value t = section_type_value t' → t = t'.
Proof. by destruct t, t'. Qed.

Lemma value_keys_distinct : NoDup (value_key <$> sections).
Proof.
  assert (value_key <$> sections = prod_map section_type_value id <$> (part_key <$> parts)) as ->
    by (by rewrite <-(section_key_place (room parts)), <-list_fmap_compose).
  apply NoDup_fmap_2_strong; [|apply Hparts].
  intros [t i] [t' i'] _ _ [= Ht%section_type_value_inj ->]. by subst.
Qed.

Lemma read_section_entry_image k s seen :
  sections !! k = Some s → value_key s ∉ seen →
  read_section_entry F (spec_shard_count spec) (Z.of_nat k) seen = Ok ({[value_key s]} ∪ seen, s).
Proof.
  intros Hk Hseen. pose proof (lookup_lt_Some _ _ _ Hk) as Hlt. rewrite length_place in Hlt.
  destruct (section_part k s Hk) as (p & Hp & Hkey & _ & _ & Hlo & Hhi & _).
  pose proof (im_directory _ _ _ _ Himage k s Hk) as Hw. unfold entry_words in Hw.
  rewrite !Forall_cons in Hw. destruct Hw as (H1 & H2 & H3 & H4 & H5 & _).
  pose proof (po_count _ _ Hparts) as Hn. destruct image_size_le as (_ & H128 & _).
  assert (entry_position (Z.of_nat k) = kArtifactHeaderSize + Z.of_nat k * kArtifactSectionEntrySize)
    as Hpos.
  { unfold entry_position, kArtifactHeaderSize, kArtifactSectionEntrySize, Zlen in *.
    rewrite (wrap32_small (_ * _)), wrap32_small; unfold is_u32; lia. }
  unfold read_section_entry. rewrite Hpos.
  apply (read_or_word "artifact section entry is truncated"%string) in H1, H2, H3, H4, H5.
  cbn [w_at w_type w_value] in *. rewrite H1, H2, H3, H4, H5. cbn [obind].
  assert (DecodeSectionType (section_type_value (section_type s)) = Ok (section_type s)) as ->
    by (by destruct (section_type s)). cbn [obind].
  assert (negb (section_shard_id s =? kArtifactGlobalShardId)
    && (spec_shard_count spec <=? section_shard_id s) = false) as ->.
  { injection Hkey as _ ->. pose proof (po_shards _ _ Hparts) as Hsh.
    rewrite Forall_lookup in Hsh. destruct (Hsh k p Hp) as [->|Hr]; [done|].
    rewrite (proj2 (Z.leb_gt _ _)) by lia. by rewrite andb_false_r. }
  fold (value_key s). rewrite decide_False by done.
  unfold CheckBounds. assert (0 ≤ section_length s) as Hl0.
  { destruct (section_part k s Hk) as (q & _ & _ & -> & _). apply Zlen_nonneg. }
  rewrite !(proj2 (Z.ltb_ge _ _)) by lia. by destruct s.
Qed.

Lemma read_section_entries_image before rest seen :
  sections = before ++ rest → NoDup (value_key <$> rest) →
  (∀ s, s ∈ rest → value_key s ∉ seen) →
  read_section_entries F (spec_shard_count spec) (Zlen before) (length rest) seen = Ok rest.
Proof.
  revert before seen. induction rest as [|s rest IH]; intros before seen Hs Hnd Hseen; [done|].
  cbn [length read_section_entries]. apply NoDup_cons in Hnd as [Hnew Hnd].
  unfold Zlen at 1. rewrite (read_section_entry_image (length before) s seen);
    [|by rewrite Hs, list_lookup_middle|apply Hseen; left]. cbn [obind fst snd].
  replace (Zlen before + 1) with (Zlen (before ++ [s]))
    by (rewrite Zlen_app; unfold Zlen; simpl; lia).
  rewrite IH; [done|by rewrite <-app_assoc|done|].
  intros s' Hs' [Heq%elem_of_singleton|Hin]%elem_of_union.
  - apply Hnew. apply list_elem_of_fmap. by exists s'.
  - apply (Hseen s'); [by right|done].
Qed.

Lemma check_overlap_image ps start previous :
  0 ≤ start → previous ≤ start → is_u64 (start + Zlen (payload_of ps)) →
  ∃ last, ofold check_overlap (place start ps) previous = Ok last.
Proof.
  revert start previous. induction ps as [|p ps IH]; intros start previous H0 Hle Hmax; [by eexists|].
  cbn [place ofold]. unfold check_overlap at 1. cbn [section_offset section_length].
  rewrite (proj2 (Z.ltb_ge _ _)) by lia. cbn [obind].
  cbn [fmap list_fmap concat] in Hmax. rewrite Zlen_app in Hmax.
  pose proof (Zlen_nonneg (part_bytes p)). pose proof (Zlen_nonneg (payload_of ps)).
  unfold is_u64 in *. rewrite wrap64_small by (unfold is_u64; lia). apply IH; lia.
Qed.

Lemma check_checksums_image l :
  (∀ s, s ∈ l → s ∈ sections) → ofold (λ _, check_checksum F) l tt = Ok tt.
Proof.
  induction l as [|s l IH]; intros Hin; cbn [ofold]; [done|].
  assert (s ∈ sections) as Hs by (apply Hin; left).
  apply list_elem_of_lookup in Hs as [k Hk].
  destruct (section_part k s Hk) as (p & _ & _ & _ & Hsum & _ & _ & Hspan).
  unfold check_checksum at 1. unfold section_span in Hspan. rewrite Hspan. cbn [obind].
  rewrite Hsum, Z.eqb_refl. apply IH. intros s' Hs'. apply Hin. by right.
Qed.

Lemma read_sections_image `{SectionSort} :
  section_sort sections = sections → read_sections F image_header = Ok sections.
Proof.
  intros Hsort. destruct image_size_le as (Hle & _ & Hn0). pose proof (po_count _ _ Hparts) as Hn.
  unfold read_sections. cbn [header_section_count image_header header_shard_count].
  fold (room parts).
  rewrite !(proj2 (Z.ltb_ge _ _))
    by (unfold kArtifactSectionEntrySize, kArtifactHeaderSize, u64_max; lia).
  cbn [orb]. unfold Zlen at 1. rewrite Nat2Z.id, <-(length_place (room parts)).
  pose proof (read_section_entries_image [] sections ∅ eq_refl value_keys_distinct
    ltac:(intros; set_solver)) as He.
  change (Zlen []) with 0 in He. rewrite He. cbn [obind]. rewrite Hsort.
  destruct (check_overlap_image parts (room parts) (room parts)) as (last & Hov);
    [unfold room, kArtifactHeaderSize, kArtifactSectionEntrySize; lia|lia|done|].
  rewrite Hov. cbn [obind].
  by rewrite check_checksums_image.
Qed.
End Image.

(** ** Loading *)

(** ** Sorting the directory *)

(** A sorting algorithm that leaves sorted input alone. *)
Definition stable_sort `{SectionSort} : Prop :=
  ∀ l, StronglySorted by_offset l → section_sort l = l.

Lemma place_ge start parts s : s ∈ place start parts → start ≤ section_offset s.
Proof.
  revert start. induction parts as [|p parts IH]; intros start Hin; cbn [place] in Hin.
  { by apply elem_of_nil in Hin. }
  apply elem_of_cons in Hin as [->|Hin]; [done|].
  apply IH in Hin. pose proof (Zlen_nonneg (part_bytes p)). lia.
Qed.

Lemma place_sorted start parts : StronglySorted by_offset (place start parts).
Proof.
  revert start. induction parts as [|p parts IH]; intros start; cbn [place]; constructor; [done|].
  apply Forall_forall. intros s Hs%place_ge. unfold by_offset. cbn.
  pose proof (Zlen_nonneg (part_bytes p)). lia.
Qed.

Lemma place_offsets start parts :
  Forall (λ p, part_bytes p ≠ []) parts → NoDup (section_offset <$> place start parts).
Proof.
  intros Hne. revert start. induction Hne as [|p parts Hp _ IH]; intros start; cbn; constructor; [|done].
  intros (s & Heq & Hs%place_ge)%list_elem_of_fmap.
  destruct (part_bytes p); [done|]. rewrite Zlen_cons in Hs. pose proof (Zlen_nonneg l). lia.
Qed.

(** Sorting the sections of non-empty parts is unambiguous. *)
Lemma place_sort `{SectionSort} start parts :
  stable_sort ∨ Forall (λ p, part_bytes p ≠ []) parts →
  section_sort (place start parts) = place start parts.
Proof.
  intros [Hs|Hne]; [by apply Hs, place_sorted|].
  apply (StronglySorted_unique_strong by_offset);
    [|apply section_sort_sorted|apply place_sorted|apply section_sort_perm].
  intros x y Hx Hy Hxy Hyx. rewrite section_sort_perm in Hx. unfold by_offset in *.
  pose proof (place_offsets start parts Hne) as Hnd.
  assert (section_offset y = section_offset x) as Heq by lia.
  pose proof (proj2 (find_key_Some section_offset (section_offset x) _ x Hnd) (conj Hx eq_refl)) as E1.
  pose proof (proj2 (find_key_Some section_offset (section_offset x) _ y Hnd) (conj Hy Heq)) as E2.
  congruence.
Qed.

(** ** The keys of the parts *)

Definition shard_keys (sh : ArtifactShardBuildSpec) : list (ArtifactSectionType * Z) :=
  (λ t, (t, shard_spec_id sh)) <$> prewarm_types.

Lemma shard_parts_keys spec shards pss :
  Forall2 (shard_parts spec) shards pss →
  part_key <$> concat pss = concat (shard_keys <$> shards).
Proof.
  induction 1 as [|sh ps shards pss (b & a & _ & _ & ->) _ IH]; [done|].
  cbn [concat]. rewrite fmap_app, IH. done.
Qed.

Lemma shard_keys_elem t i shards :
  (t, i) ∈ concat (shard_keys <$> shards) ↔ t ∈ prewarm_types ∧ i ∈ shard_spec_id <$> shards.
Proof.
  induction shards as [|sh shards IH]; cbn [concat fmap list_fmap].
  - rewrite !elem_of_nil. tauto.
  - rewrite elem_of_app, elem_of_cons. unfold list_fmap in IH |- *. rewrite IH. unfold shard_keys.
    rewrite list_elem_of_fmap. naive_solver.
Qed.

Lemma shard_keys_distinct shards :
  NoDup (shard_spec_id <$> shards) → NoDup (concat (shard_keys <$> shards)).
Proof.
  induction shards as [|sh shards IH]; [constructor|]. rewrite !fmap_cons.
  intros [Hnew Hnd]%NoDup_cons. cbn [concat]. apply NoDup_app. split_and!; [| |by apply IH].
  - apply NoDup_fmap_2; [by intros x y [=]|]. by apply (bool_decide_unpack _).
  - intros [t i] Hin Hin2. apply shard_keys_elem in Hin2 as [_ Hi].
    apply list_elem_of_fmap in Hin as (t' & [= -> ->] & _). done.
Qed.

Lemma progress_keys spec ps :
  progress_parts spec ps →
  part_key <$> ps = if include_source_progress_section spec
                    then [(kSourceProgress, kArtifactGlobalShardId)] else [].
Proof.
  unfold progress_parts. destruct (include_source_progress_section spec); [|by intros ->].
  by intros (bytes & _ & ->).
Qed.

Lemma image_keys spec L shards parts :
  image_parts spec L shards parts →
  part_key <$> parts
  = (kSchemaMetadata, kArtifactGlobalShardId)
    :: ((if include_source_progress_section spec
        then [(kSourceProgress, kArtifactGlobalShardId)] else [])
    ++ concat (shard_keys <$> shards)).
Proof.
  intros [(schema & progress & pss & _ & Hp & Hpss & ->)].
  rewrite fmap_cons, fmap_app, (shard_parts_keys _ _ _ Hpss), (progress_keys _ _ Hp). done.
Qed.

Lemma image_parts_ok spec L shards parts :
  image_parts spec L shards parts → NoDup (shard_spec_id <$> shards) →
  Forall (λ sh, 0 ≤ shard_spec_id sh < spec_shard_count spec) shards → Zlen shards < 2 ^ 22 →
  parts_ok (spec_shard_count spec) parts.
Proof.
  intros Hip Hnd Hids Hfew. pose proof (image_keys _ _ _ _ Hip) as Hk. split.
  - rewrite (image_parts_count _ _ _ _ Hip). pose proof (Zlen_nonneg shards).
    destruct (include_source_progress_section spec); simpl; lia.
  - rewrite Hk. assert (∀ t i, t ∉ prewarm_types → (t, i) ∉ concat (shard_keys <$> shards)) as Hn.
    { intros t i Ht [Ht' _]%shard_keys_elem. done. }
    pose proof (shard_keys_distinct shards Hnd).
    assert ((kSchemaMetadata ∉ prewarm_types) ∧ (kSourceProgress ∉ prewarm_types)) as [H1 H2]
      by (by split; apply (bool_decide_unpack _)).
    destruct (include_source_progress_section spec); cbn [app];
      repeat (apply NoDup_cons; split); rewrite ?elem_of_cons; try done.
    + intros [|[Hin _]%shard_keys_elem]; [discriminate|by apply H1].
    + by apply Hn.
    + by apply Hn.
  - apply Forall_forall. intros p Hp.
    assert (part_key p ∈ part_key <$> parts) as Hin by (by apply list_elem_of_fmap_2).
    rewrite Hk, elem_of_cons, elem_of_app in Hin. destruct Hin as [[= _ Hg]|[Hin|Hin]].
    + by left.
    + left. destruct (include_source_progress_section spec); [|by apply elem_of_nil in Hin].
      by apply list_elem_of_singleton in Hin as [= _ Hg].
    + right. apply shard_keys_elem in Hin as [_ (sh & -> & Hsh)%list_elem_of_fmap].
      rewrite Forall_forall in Hids. by apply Hids.
Qed.

(** ** The parsed artifact *)

Record options_match (spec : ArtifactBuildSpec) (o : ArtifactValidationOptions) : Prop := {
  om_shards : expected_shard_count o = 0 ∨ expected_shard_count o = spec_shard_count spec;
  om_hash : expected_hash_version o = 0 ∨ expected_hash_version o = spec_hash_version spec;
  om_seed : expected_hash_seed o = spec_hash_seed spec;
  om_progress : include_source_progress_section spec = true ∨ source_progress_policy o = kOptional;
}.

Section Written.
Context `{SectionSort}.
Context (spec : ArtifactBuildSpec) (L : CompiledRowLayout).
Context (shards : list ArtifactShardBuildSpec) (parts : list part) (F : list byte).
Hypothesis Hip : image_parts spec L shards parts.
Hypothesis Himage : image_of spec L parts F.
Hypothesis Hrange : spec_range spec L.
Hypothesis Hparts : parts_ok (spec_shard_count spec) parts.
Hypothesis Hid : Zlen (spec_artifact_id spec) ≤ kArtifactIdCapacity.
Hypothesis Hsize : is_u64 (room parts + Zlen (payload_of parts)).
Hypothesis Hsort : section_sort (place (room parts) parts) = place (room parts) parts.

Definition spec_progress : list ArtifactSourceProgress :=
  if include_source_progress_section spec then spec_source_progress spec else [].

(** What the parser returns. *)
Definition parsed_image (layout : option CompiledRowLayout)
    (progress : list ArtifactSourceProgress) : ParsedArtifact :=
  MkParsedArtifact (spec_artifact_id spec) (spec_shard_count spec) (spec_hash_seed spec)
    (spec_hash_version spec) (schema_version L) (layout_fingerprint L) layout progress
    (place (room parts) parts) F.

Lemma FindSection_part l g p :
  p ∈ parts →
  ∃ s, ParsedArtifact_FindSection (parsed_image l g) (part_type p) (part_shard p) = Some s
    ∧ section_span F s = Ok (part_bytes p).
Proof.
  intros [k Hk]%list_elem_of_lookup.
  destruct (lookup_lt_is_Some_2 (place (room parts) parts) k) as [s Hs].
  { rewrite length_place. by eapply lookup_lt_Some. }
  exists s. destruct (section_part spec L parts F Himage k s Hs) as (q & Hq & Hkey & _ & _ & _ & _ & Hspan).
  rewrite Hk in Hq. injection Hq as <-. split; [|done].
  unfold ParsedArtifact_FindSection. cbn [artifact_sections parsed_image].
  assert (list_find (λ s0, section_type s0 = part_type p ∧ section_shard_id s0 = part_shard p)
    (place (room parts) parts) = Some (k, s)) as ->; [|done].
  apply list_find_Some. injection Hkey as Ht Hsh. split_and!; [done..|].
  intros j s' Hj Hlt [Ht' Hsh'].
  pose proof (po_keys _ _ Hparts) as Hnd. rewrite <-(section_key_place (room parts)) in Hnd.
  assert (j = k) as ->; [|lia]. eapply NoDup_lookup; [exact Hnd| |].
  - by rewrite list_lookup_fmap, Hj.
  - rewrite list_lookup_fmap, Hs. cbn. unfold section_key. by rewrite Ht, Hsh, Ht', Hsh'.
Qed.

Lemma FindSection_missing l g t i :
  (t, i) ∉ part_key <$> parts → ParsedArtifact_FindSection (parsed_image l g) t i = None.
Proof.
  intros Hn. unfold ParsedArtifact_FindSection. cbn [artifact_sections parsed_image].
  rewrite fmap_None. apply list_find_None, Forall_forall. intros s Hs [Ht Hi]. apply Hn.
  rewrite <-(section_key_place (room parts)). apply list_elem_of_fmap. exists s.
  unfold section_key. by rewrite Ht, Hi.
Qed.

Lemma section_bytes_part l g p :
  p ∈ parts → SectionBytes (parsed_image l g) (part_type p) (part_shard p) = Ok (part_bytes p).
Proof.
  intros Hp. unfold SectionBytes. destruct (FindSection_part l g p Hp) as (s & -> & Hs). exact Hs.
Qed.

Lemma check_expected_image o :
  options_match spec o → check_expected (image_header spec L parts) o = Ok tt.
Proof.
  intros [Hs Hh Hseed _]. unfold check_expected, image_header.
  cbn [header_shard_count header_hash_version header_hash_seed]. rewrite Hseed, Z.eqb_refl.
  destruct Hs as [->| ->], Hh as [->| ->]; cbn; rewrite ?Z.eqb_refl, ?andb_false_r; done.
Qed.

Lemma progress_missing :
  include_source_progress_section spec = false →
  (kSourceProgress, kArtifactGlobalShardId) ∉ part_key <$> parts.
Proof.
  intros Hincl. rewrite (image_keys _ _ _ _ Hip), Hincl. cbn [app].
  rewrite not_elem_of_cons. split; [done|]. intros [Hin _]%shard_keys_elem.
  by apply (bool_decide_unpack (kSourceProgress ∉ prewarm_types)) in Hin.
Qed.

Lemma ParseArtifact_image o :
  options_match spec o → progress_list_ok spec_progress →
  (∀ bs, SerializeSchema L = Ok bs →
    ParseSchemaSection bs (schema_version L) (layout_fingerprint L) = Ok L) →
  ParseArtifact F o = Ok (parsed_image (Some L) spec_progress).
Proof.
  intros Ho Hprog Hschema. unfold ParseArtifact.
  rewrite (read_header_image spec L parts F) by done. cbn [obind].
  rewrite check_expected_image by done. cbn [obind].
  rewrite (read_sections_image spec L parts F) by done. cbn [obind].
  pose proof (Zlen_nonneg (spec_artifact_id spec)). destruct (image_size_le spec L parts F Himage).
  cbn [header_id_length image_header].
  rewrite subspan_in by (unfold kArtifactIdOffset, kArtifactIdCapacity in *; lia).
  unfold Zlen at 1. rewrite Nat2Z.id, (im_id _ _ _ _ Himage). cbn [obind].
  fold (parsed_image None []).
  destruct Hip as [(schema & progress & pss & Hser & Hp & _ & Hall)].
  destruct (FindSection_part None [] (MkPart kSchemaMetadata kArtifactGlobalShardId schema))
    as (s & Hf & Hspan); [rewrite Hall; left|]. cbn [part_type part_shard part_bytes] in *.
  fold image_header. change (MkParsedArtifact _ _ _ _ _ _ None [] _ _) with (parsed_image None []).
  rewrite Hf, Hspan. cbn [obind header_schema_version header_layout_fingerprint image_header].
  rewrite Hschema by done. cbn [obind]. unfold progress_parts in Hp.
  unfold spec_progress in *. destruct (include_source_progress_section spec) eqn:Hincl.
  - destruct Hp as (bytes & Hb & ->).
    destruct (FindSection_part None [] (MkPart kSourceProgress kArtifactGlobalShardId bytes))
      as (s2 & Hf2 & Hspan2); [rewrite Hall; right; left|]. cbn [part_type part_shard part_bytes] in *.
    rewrite Hf2, Hspan2. cbn [obind]. apply SerializeSourceProgress_spec in Hb as [_ ->].
    by rewrite (proj1 ParseSourceProgressSection_inverts).
  - rewrite FindSection_missing by (by apply progress_missing).
    destruct (om_progress _ _ Ho) as [|Hpol]; [congruence|]. rewrite decide_True by done. done.
Qed.
End Written.
