(* ===== verification/ArtifactTheorems.v ===== *)
(** * Artifacts round-trip

    A shard of a written artifact, loaded from its file, answers with the rows
    of the build specification. *)

From S2P Require Import Prelude Status ByteIo Types Schema SchemaProofs RowStorage RowSafety RowProofs.
From S2P Require Import FrozenIndex FrozenIndexProofs Payload Codec Snapshot SnapshotProofs Kafka.
From S2P Require Import ArtifactFormat ArtifactWriter MmapBacking ArtifactCodec ArtifactSchema.
From S2P Require Import ArtifactAppend ArtifactImage ArtifactLayout ArtifactLoad.

(** ** The snapshot of a shard *)

Definition shard_map (L : CompiledRowLayout) (shard : ArtifactShardBuildSpec) : gmap Z EncodedRow :=
  cut_row L <$> list_to_map
    ((λ r, (artifact_primary_key r, artifact_encoded r)) <$> shard_rows shard).

Lemma sfor_add_rows rows b :
  sfor (λ row, AddRow (artifact_primary_key row) (artifact_encoded row)) rows b
  = add_rows ((λ r, (artifact_primary_key r, artifact_encoded r)) <$> rows) b.
Proof.
  revert b. induction rows as [|r rows IH]; intros b; [done|]. cbn. unfold sbind.
  destruct (AddRow _ _ b) as [[[]|e|f] b']; [apply IH|done..].
Qed.

(** What the writer's snapshot of a shard is. *)
Record shard_backing (L : CompiledRowLayout) (shard : ArtifactShardBuildSpec)
    (b : OwnedSnapshotBacking) : Prop := {
  sb_ok : backing_ok (owned_backing b) L (shard_map L shard);
  sb_layout : owned_layout b = Some L;
  sb_slots : Zlen (row_slot_bytes b) = Zlen (row_payloads b) * row_slot_size L;
  sb_count : Zlen (row_payloads b) = Zlen (shard_rows shard);
}.

Lemma BuildShardSnapshot_spec spec L shard b :
  spec_layout spec = Some L → spec_range spec L → 0 < row_slot_size L →
  Forall (λ r, is_u64 (artifact_primary_key r)) (shard_rows shard) →
  BuildShardSnapshot spec shard = Ok b → is_u64 (Zlen (row_slot_bytes b)) →
  shard_backing L shard b.
Proof.
  intros HL Hr Hs Hkeys Hb Hmem. unfold BuildShardSnapshot, sbind in Hb. rewrite HL in Hb.
  rewrite sfor_add_rows in Hb. set (rows := _ <$> shard_rows shard) in Hb.
  assert (rows.*1 = artifact_primary_key <$> shard_rows shard) as Hk
    by (unfold rows; by rewrite <-list_fmap_compose).
  set (o := MkSnapshotBuildOptions _ _) in Hb.
  destruct (add_rows rows (make_builder (Some L) o)) as [[[]|e|f] b1] eqn:Eadd; [|done..].
  destruct (add_rows_inv L rows _ [] b1 ltac:(lia) (make_builder_inv L o)) as [Hinv Hopt];
    [by rewrite Hk, Forall_fmap|done|]. cbn [app] in Hinv.
  destruct (Seal b1) as [c b2] eqn:Eseal. subst c.
  pose proof (Seal_moves _ _ _ Eseal) as (_ & L' & index & HL' & _ & ->).
  rewrite (bi_layout _ _ _ Hinv) in HL'. injection HL' as <-. cbn [row_slot_bytes] in Hmem.
  assert (options_ok (builder_options b1)) as Ho by (rewrite Hopt; split; apply Hr).
  pose proof (Seal_spec L b1 _ Hinv Hs Ho Hmem) as Hseal. rewrite Eseal in Hseal.
  destruct Hseal as [Hok Hcount]. cbn [owned_backing backing_row_count row_payloads] in Hcount.
  assert (Zlen (prod_map id (cut_row L) <$> rows) = Zlen (shard_rows shard)) as Hlen
    by (unfold rows, Zlen; by rewrite !length_fmap).
  destruct (index_entries_keys L b1 _ Hinv) as (_ & _ & Hbytes). split; cbn.
  - unfold shard_map. fold rows. by rewrite <-list_to_map_fmap.
  - done.
  - rewrite Hbytes, <-Hcount. done.
  - by rewrite Hcount.
Qed.

(** ** Reading the payload section *)

Lemma ValidatePayloadRowCount_section ps :
  Forall payload_fits ps → is_u64 (Zlen ps) →
  ValidatePayloadRowCount (payload_section ps) (Zlen ps) = Ok tt.
Proof.
  intros Hps Hn. unfold ValidatePayloadRowCount.
  assert (ReadLittleEndian uint64_t (payload_section ps) 0 = Ok (Zlen ps)) as ->.
  { pose proof (codec_complete _ _ _ codec_u64 [] (Zlen ps) (concat (row_payload_bytes <$> ps)) Hn)
      as Hc. unfold ReadNext, sbind, slift, cursor in Hc. cbn [reader_bytes reader_offset app] in Hc.
    change (Zlen []) with 0 in Hc. fold (payload_section ps) in Hc.
    destruct (ReadLittleEndian _ _ _); [|done..]. by injection Hc as ->. }
  cbn [obind]. rewrite Z.eqb_refl. cbn [negb]. destruct ps as [|p ps]; [done|].
  rewrite Zlen_cons in *. pose proof (Zlen_nonneg ps).
  rewrite (proj2 (Z.eqb_neq _ _)) by lia. cbn [andb]. rewrite (proj2 (Z.ltb_lt _ _)) by lia.
  destruct (lookup_lt_is_Some_2 (p :: ps) (length ps)) as [q Hq]; [simpl; lia|].
  replace (1 + Zlen ps - 1) with (Z.of_nat (length ps)) by (unfold Zlen; lia).
  by rewrite (ReadPayloadAt_section _ _ q) by (rewrite ?Zlen_cons; done).
Qed.

(** A mapped backing over the same bytes reads the same rows. *)
Lemma MmapEncodedRowAt_owned m b off r :
  artifact_layout (mmap_artifact m) = owned_layout b →
  mmap_row_slot_bytes m = row_slot_bytes b →
  mmap_row_payload_bytes m = payload_section (row_payloads b) →
  Forall payload_fits (row_payloads b) → is_u64 (Zlen (row_payloads b)) →
  OwnedEncodedRowAt b off = Ok r → MmapEncodedRowAt m off = Ok r.
Proof.
  intros Hl Hs Hp Hfit Hn. unfold OwnedEncodedRowAt, MmapEncodedRowAt. rewrite Hl, Hs, Hp.
  destruct (owned_layout b) as [L|]; [|done].
  destruct (_ =? 0); [done|]. destruct (_ <? off); [done|]. destruct (_ <? _); [done|].
  destruct (negb _); [done|]. destruct (_ <=? _); [done|].
  intros (payload & (H0 & Hat)%at_Ok & H)%obind_Ok.
  rewrite <-(Z2Nat.id (off / row_slot_size L)) by done.
  by rewrite (ReadPayloadAt_section _ _ payload).
Qed.

Lemma mmap_backing_ok m b L rows :
  backing_ok (owned_backing b) L rows → owned_layout b = Some L →
  artifact_layout (mmap_artifact m) = Some L → mmap_row_slot_bytes m = row_slot_bytes b →
  mmap_row_payload_bytes m = payload_section (row_payloads b) →
  mmap_frozen_index_bytes m = owned_frozen_index_bytes b →
  Forall payload_fits (row_payloads b) → is_u64 (Zlen (row_payloads b)) →
  backing_ok (mmap_backing m) L rows.
Proof.
  intros [_ (v & es & Hv & He & Hmap & Hin & Hback) Hrows] Hlb Hl Hs Hp Hi Hfit Hn.
  split; [done| |done]. exists v, es. cbn [mmap_backing frozen_index_bytes EncodedRowAt].
  rewrite Hi. split_and!; [done..| |done]. intros key off Hko.
  destruct (Hin key off Hko) as (r & Hr & Hk). exists r. split; [|done].
  eapply MmapEncodedRowAt_owned; [..|exact Hr]; by rewrite ?Hlb.
Qed.

(** ** Ranges of a compiled layout *)

Lemma FingerprintByte_range h b : is_u64 (FingerprintByte h b).
Proof. apply wrap64_range. Qed.

Lemma FingerprintUInt64_range h v : is_u64 (FingerprintUInt64 h v).
Proof. apply FingerprintByte_range. Qed.

Lemma fingerprint_fields_range l h : is_u64 h → is_u64 (foldl fingerprint_field h l).
Proof.
  revert h. induction l as [|f l IH]; intros h Hh; [done|]. cbn [foldl].
  apply IH, FingerprintByte_range.
Qed.

Lemma compiled_ranges v s :
  reachable_schema v s → is_u64 v →
  schema_version (compile_layout s) = v ∧ is_u64 (layout_fingerprint (compile_layout s)).
Proof.
  intros Hs Hv. unfold compile_layout. repeat case_match. cbn [set_fingerprint schema_version
    layout_fingerprint fields]. split; [by eapply reachable_version|].
  apply fingerprint_fields_range, FingerprintUInt64_range.
Qed.

(** ** Loading a shard *)

(** The values of the spec and the shards are those of their C++ types. *)
Record shards_typed (spec : ArtifactBuildSpec) (shards : list ArtifactShardBuildSpec) : Prop := {
  st_count : is_u32 (spec_shard_count spec);
  st_seed : is_u64 (spec_hash_seed spec);
  st_hash : is_u32 (spec_hash_version spec);
  st_ids : Forall (λ sh, is_u32 (shard_spec_id sh)) shards;
  st_keys : Forall (λ sh, Forall (λ r, is_u64 (artifact_primary_key r)) (shard_rows sh)) shards;
}.

Definition load_options_of (o : MmapSnapshotLoadOptions) : ArtifactValidationOptions :=
  MkArtifactValidationOptions (load_shard_count o) (load_hash_seed o) (load_hash_version o)
    (load_source_progress_policy o).

Lemma shard_parts_in spec L shards parts shard :
  image_parts spec L shards parts → shard ∈ shards →
  ∃ ps, shard_parts spec shard ps ∧ ∀ p, p ∈ ps → p ∈ parts.
Proof.
  intros [(schema & progress & pss & _ & _ & Hpss & ->)] [k Hk]%list_elem_of_lookup.
  destruct (Forall2_lookup_l _ _ _ _ _ Hpss Hk) as (ps & Hps & Hp). exists ps. split; [done|].
  intros p Hin. apply elem_of_cons. right. apply elem_of_app. right.
  apply list_elem_of_In, in_concat. exists ps.
  split; apply list_elem_of_In; [by eapply list_elem_of_lookup_2|done].
Qed.

Lemma part_size spec L parts F p :
  image_of spec L parts F → p ∈ parts → Zlen (part_bytes p) ≤ Zlen F.
Proof.
  intros Him [k Hk]%list_elem_of_lookup.
  destruct (lookup_lt_is_Some_2 (place (room parts) parts) k) as [s Hs].
  { rewrite length_place. by eapply lookup_lt_Some. }
  destruct (section_part spec L parts F Him k s Hs) as (q & Hq & _ & Hl & _ & Hlo & Hhi & _).
  assert (q = p) as -> by congruence. destruct (image_size_le spec L parts F Him). lia.
Qed.

(** Every section the loader touches is there. *)
Lemma prewarm_sections_image spec L shards parts F l g shard :
  image_parts spec L shards parts → image_of spec L parts F →
  parts_ok (spec_shard_count spec) parts → shard ∈ shards →
  ∃ sections, omapM (λ t, SectionBytes (parsed_image spec L parts F l g) t (shard_spec_id shard))
                prewarm_types = Ok sections.
Proof.
  intros Hip Him Hpok Hsh.
  assert (∀ types, (∀ t, t ∈ types → t ∈ prewarm_types) →
    ∃ ss, omapM (λ t, SectionBytes (parsed_image spec L parts F l g) t (shard_spec_id shard)) types
      = Ok ss) as H; [|by apply H].
  induction types as [|t types IH]; intros Hin; [by eexists|]. cbn [omapM].
  assert ((t, shard_spec_id shard) ∈ part_key <$> parts) as (p & [= Ht Hi] & Hp)%list_elem_of_fmap.
  { rewrite (image_keys _ _ _ _ Hip), elem_of_cons, elem_of_app. right; right.
    apply shard_keys_elem. split; [apply Hin; left|]. by apply list_elem_of_fmap_2. }
  rewrite Ht, Hi. rewrite (section_bytes_part spec L parts F Him Hpok l g p Hp). cbn [obind].
  rewrite <-Hi. destruct IH as [ss ->]; [intros t' Ht'; apply Hin; by right|]. by eexists.
Qed.

(** A shard of an image that the parser accepts. *)
Lemma load_image `{SectionSort} spec L shards parts F shard o :
  image_parts spec L shards parts → image_of spec L parts F →
  parts_ok (spec_shard_count spec) parts → is_u64 (Zlen F) →
  ParseArtifact F (load_options_of o) = Ok (parsed_image spec L parts F (Some L) (spec_progress spec)) →
  spec_layout spec = Some L → spec_range spec L → 0 < row_slot_size L →
  Forall (λ r, is_u64 (artifact_primary_key r)) (shard_rows shard) →
  shard ∈ shards → shard_spec_id shard < spec_shard_count spec →
  ∃ b, load_bytes F (shard_spec_id shard) o = Ok b
    ∧ mmap_artifact b = parsed_image spec L parts F (Some L) (spec_progress spec)
    ∧ mmap_row_count b = Zlen (shard_rows shard)
    ∧ backing_ok (mmap_backing b) L (shard_map L shard).
Proof.
  intros Hip Him Hpok HF Hparse HL Hr Hs Hkeys Hsh Hid.
  destruct (shard_parts_in _ _ _ _ _ Hip Hsh) as (ps & (backing & arena & Hb & Ha & ->) & Hin).
  set (parsed := parsed_image spec L parts F (Some L) (spec_progress spec)) in *.
  pose proof (λ p Hp, section_bytes_part spec L parts F Him Hpok (Some L) (spec_progress spec) p
    (Hin p Hp)) as Hsec. fold parsed in Hsec.
  pose proof (Hsec (MkPart kFrozenPrimaryKeyIndex _ _) ltac:(left)) as S1.
  pose proof (Hsec (MkPart kRowSlots _ _) ltac:(right; left)) as S2.
  pose proof (Hsec (MkPart kRowArena _ _) ltac:(right; right; left)) as S3.
  cbn [part_type part_shard part_bytes] in S1, S2, S3.
  apply SerializeRowPayloads_spec in Ha as (Hn & Hfit & ->).
  assert (is_u64 (Zlen (row_slot_bytes backing))) as Hmem.
  { pose proof (part_size spec L parts F (MkPart kRowSlots _ _) Him
      (Hin _ ltac:(right; left))) as Hle. cbn [part_bytes] in Hle.
    pose proof (Zlen_nonneg (row_slot_bytes backing)). unfold is_u64 in *. lia. }
  destruct (BuildShardSnapshot_spec spec L shard backing HL Hr Hs Hkeys Hb Hmem)
    as [Hok Hlay Hsl Hct].
  destruct (prewarm_sections_image spec L shards parts F (Some L) (spec_progress spec) shard
    Hip Him Hpok Hsh) as (sections & Hpre). fold parsed in Hpre.
  unfold load_bytes. fold (load_options_of o). rewrite Hparse. cbn [obind].
  change (artifact_shard_count parsed) with (spec_shard_count spec).
  rewrite (proj2 (Z.leb_gt _ _)), S1, S2, S3 by done. cbn [obind].
  change (artifact_layout parsed) with (Some L). cbv iota.
  rewrite (proj2 (Z.eqb_neq (row_slot_size L) 0)) by lia.
  rewrite Hsl, Z.mod_mul, Z.div_mul by lia. cbn [Z.eqb negb orb].
  rewrite ValidatePayloadRowCount_section by done. cbn [obind]. rewrite Hpre. cbn [obind].
  eexists. split_and!; [done..| |]; cbn [mmap_row_count]; [done|].
  by eapply mmap_backing_ok.
Qed.

(** ** The whole way *)

Lemma int_bytes_not_nil t v rest : (0 < it_size t)%nat → int_bytes t v ++ rest ≠ [].
Proof.
  intros Ht E. apply (f_equal length) in E. rewrite length_app, length_int_bytes in E.
  simpl in E. lia.
Qed.

(** With rows in every shard no section is empty. *)
Lemma parts_not_nil spec L shards parts F :
  image_parts spec L shards parts → image_of spec L parts F → is_u64 (Zlen F) →
  spec_layout spec = Some L → spec_range spec L → 0 < row_slot_size L →
  Forall (λ sh, Forall (λ r, is_u64 (artifact_primary_key r)) (shard_rows sh)) shards →
  Forall (λ sh, shard_rows sh ≠ []) shards →
  Forall (λ p, part_bytes p ≠ []) parts.
Proof.
  intros Hip Him HF HL Hr Hs Hkeys Hrows.
  pose proof Hip as [(schema & progress & pss & Hser & Hp & Hpss & Hall)]. rewrite Hall.
  constructor; [|apply Forall_app; split].
  - apply SerializeSchema_spec in Hser as [_ ->]. by apply int_bytes_not_nil; simpl; lia.
  - unfold progress_parts in Hp. destruct (include_source_progress_section spec); [|by subst].
    destruct Hp as (bytes & [_ ->]%SerializeSourceProgress_spec & ->).
    constructor; [|done]. apply int_bytes_not_nil. simpl. lia.
  - apply Forall_concat, Forall_lookup. intros k ps Hk.
    destruct (Forall2_lookup_r _ _ _ _ _ Hpss Hk) as (sh & Hsh & (b & a & Hb & Ha & ->)).
    rewrite Forall_lookup in Hkeys, Hrows. specialize (Hkeys k sh Hsh). specialize (Hrows k sh Hsh).
    assert (MkPart kRowSlots (shard_spec_id sh) (row_slot_bytes b) ∈ parts) as Hin.
    { rewrite Hall. apply elem_of_cons. right. apply elem_of_app. right.
      apply list_elem_of_In, in_concat. eexists. split; apply list_elem_of_In;
        [by eapply list_elem_of_lookup_2|right; left]. }
    apply (part_size spec L parts F _ Him) in Hin. cbn [part_bytes] in Hin.
    destruct (BuildShardSnapshot_spec spec L sh b HL Hr Hs Hkeys Hb) as [Hok _ Hsl Hct].
    { pose proof (Zlen_nonneg (row_slot_bytes b)). unfold is_u64 in *. lia. }
    apply SerializeRowPayloads_spec in Ha as (_ & _ & ->).
    destruct (bo_index _ _ _ Hok) as (v & es & Hv & _).
    cbn [app]. repeat apply Forall_cons_2; cbn [part_bytes fmap list_fmap pool_types];
      [| | |(done || constructor)..].
    + intros E. cbn [owned_backing frozen_index_bytes] in Hv. by rewrite E in Hv.
    + intros E. rewrite E in Hsl. destruct (shard_rows sh); [done|].
      rewrite Hct, Zlen_cons in Hsl. pose proof (Zlen_nonneg l). change (Zlen []) with 0 in Hsl. nia.
    + apply int_bytes_not_nil. simpl. lia.
Qed.

Section RoundTrip.
Context `{SectionSort} (stat : cpp_string → sys_error + file_kind)
  (map_file : cpp_string → map_result).

Lemma artifact_roundtrip_spec (v : Z) (s : RuntimeSchema) (spec : ArtifactBuildSpec)
    (shards : list ArtifactShardBuildSpec) (F : list byte) (shard : ArtifactShardBuildSpec)
    (uri path : cpp_string) (o : MmapSnapshotLoadOptions)
    (Hs : reachable_schema v s) (Hv : is_u64 v) (Hdef : no_defaults s)
    (HL : spec_layout spec = Some (compile_layout s)) (Hsize : 0 < row_slot_size (compile_layout s))
    (Hty : shards_typed spec shards) (Hfew : Zlen shards < 2 ^ 22)
    (Hprog : progress_list_ok (spec_progress spec))
    (Hsort : stable_sort ∨ Forall (λ sh, shard_rows sh ≠ []) shards)
    (Himg : artifact_image spec shards = Ok F) (HF : is_u64 (Zlen F))
    (Hsh : shard ∈ shards) (Ho : options_match spec (load_options_of o))
    (Hpath : ResolveArtifactFilePath stat uri (shard_spec_id shard) = Ok path)
    (Hfile : map_file (c_str path) = Mapped F) :
  ∃ b, LoadShard stat map_file uri (shard_spec_id shard) o = Ok b
    ∧ artifact_id (mmap_artifact b) = spec_artifact_id spec
    ∧ source_progress (mmap_artifact b) = spec_progress spec
    ∧ artifact_layout (mmap_artifact b) = Some (compile_layout s)
    ∧ mmap_row_count b = Zlen (shard_rows shard)
    ∧ backing_ok (mmap_backing b) (compile_layout s) (shard_map (compile_layout s) shard).
Proof.
  destruct Hty as [Hcount Hseed Hhash Hids Hkeys].
  destruct (compiled_ranges v s Hs Hv) as [Hver Hfp]. set (L := compile_layout s) in *.
  assert (spec_range spec L) as Hr by (split; rewrite ?Hver; done).
  destruct (artifact_image_spec spec L shards F HL Hr Hids Hfew Himg HF)
    as (parts & Hip & Him & Hidl & Hnd & Hlt & Hcnt & Htotal).
  assert (Forall (λ sh, 0 ≤ shard_spec_id sh < spec_shard_count spec) shards) as Hin.
  { rewrite Forall_forall in *. intros sh Hsh'. specialize (Hids sh Hsh'). specialize (Hlt sh Hsh').
    unfold is_u32 in Hids. lia. }
  pose proof (image_parts_ok spec L shards parts Hip Hnd Hin Hfew) as Hpok.
  assert (section_sort (place (room parts) parts) = place (room parts) parts) as Hso.
  { apply place_sort. destruct Hsort as [|Hrows]; [by left|right]. by eapply parts_not_nil. }
  assert (ParseArtifact F (load_options_of o)
    = Ok (parsed_image spec L parts F (Some L) (spec_progress spec))) as Hparse.
  { eapply ParseArtifact_image; try done. rewrite Hver. intros bs Hser.
    by eapply ParseSchemaSection_back. }
  rewrite Forall_forall in Hkeys, Hin.
  destruct (load_image spec L shards parts F shard o Hip Him Hpok HF Hparse HL Hr Hsize
    (Hkeys _ Hsh) Hsh ltac:(apply (Hin _ Hsh))) as (b & Hload & Hart & Hrc & Hok).
  exists b. split.
  - unfold LoadShard. rewrite Hpath. cbn [obind]. unfold MapFile. by rewrite Hfile.
  - rewrite Hart. do 4 (split; [done|]). exact Hok.
Qed.

(** *** C3: A written artifact serves the rows it was built from.

    For a layout without default values and a build specification whose
    values are those of their C++ types, loading a shard of the file image
    succeeds, whatever the algorithm of [std::sort] (when it may reorder equal
    elements, no shard is empty).  The loaded shard has the artifact id, the
    source progress, the layout and the number of rows of the specification,
    and [Get] of any key over its memory-mapped backing materialises exactly
    the row added under it. *)
Theorem artifact_roundtrip (v : Z) (s : RuntimeSchema) (spec : ArtifactBuildSpec)
    (shards : list ArtifactShardBuildSpec) (F : list byte) (shard : ArtifactShardBuildSpec)
    (uri path : cpp_string) (o : MmapSnapshotLoadOptions)
    (Hs : reachable_schema v s) (Hv : is_u64 v) (Hdef : no_defaults s)
    (HL : spec_layout spec = Some (compile_layout s)) (Hsize : 0 < row_slot_size (compile_layout s))
    (Hty : shards_typed spec shards) (Hfew : Zlen shards < 2 ^ 22)
    (Hprog : progress_list_ok (spec_progress spec))
    (Hsort : stable_sort ∨ Forall (λ sh, shard_rows sh ≠ []) shards)
    (Himg : artifact_image spec shards = Ok F) (HF : is_u64 (Zlen F))
    (Hsh : shard ∈ shards) (Ho : options_match spec (load_options_of o))
    (Hpath : ResolveArtifactFilePath stat uri (shard_spec_id shard) = Ok path)
    (Hfile : map_file (c_str path) = Mapped F) :
  ∃ b, LoadShard stat map_file uri (shard_spec_id shard) o = Ok b
    ∧ artifact_id (mmap_artifact b) = spec_artifact_id spec
    ∧ source_progress (mmap_artifact b) = spec_progress spec
    ∧ artifact_layout (mmap_artifact b) = Some (compile_layout s)
    ∧ mmap_row_count b = Zlen (shard_rows shard)
    ∧ ∀ key, FullSnapshotView_Get (make_full (Some (mmap_backing b))) key
             = map_get (compile_layout s) (shard_map (compile_layout s) shard) key.
Proof.
  destruct (artifact_roundtrip_spec v s spec shards F shard uri path o Hs Hv Hdef HL Hsize Hty
    Hfew Hprog Hsort Himg HF Hsh Ho Hpath Hfile) as (b & Hload & H1 & H2 & H3 & H4 & Hok).
  exists b. do 5 (split; [done|]). intros key.
  exact (view_Get_spec (mmap_backing b) _ _ key Hok).
Qed.
End RoundTrip.
