(* ===== verification/ArtifactSafety.v ===== *)
(** * Parsing is safe on arbitrary bytes

    Whatever a file holds, parsing and loading stay within its bytes; the one
    way out of defined behaviour is a schema section with a field type that
    has no enumerator.  What is accepted has its sections in bounds, pairwise
    apart and with the right checksums, and reading rows of it is safe. *)

From S2P Require Import Prelude Status ByteIo Types Schema SchemaProofs RowStorage RowSafety RowProofs.
From S2P Require Import FrozenIndex FrozenIndexProofs Payload Codec PayloadProofs Snapshot Kafka.
From S2P Require Import ArtifactFormat ArtifactWriter MmapBacking ArtifactCodec ArtifactSchema ArtifactLoad.

(** The one fault of the parser. *)
Definition safe {A} (c : StatusOr A) : Prop :=
  match c with Fault f => f = UnknownEnumerator | _ => True end.

Lemma no_fault_safe {A} (c : StatusOr A) : no_fault c → safe c.
Proof. by destruct c. Qed.

(** ** The header *)

Lemma read_or_no_fault message t bytes off : no_fault (read_or message t bytes off).
Proof.
  unfold read_or. pose proof (ReadLittleEndian_no_fault t bytes off).
  by destruct (ReadLittleEndian t bytes off).
Qed.

Lemma read_or_range message t bytes off v :
  (0 < it_size t)%nat → 0 ≤ off → read_or message t bytes off = Ok v → in_int_range t v.
Proof.
  unfold read_or. intros Ht Ho H. destruct (ReadLittleEndian t bytes off) eqn:E; [|done..].
  injection H as ->. by eapply ReadLittleEndian_range.
Qed.

Lemma read_header_no_fault bytes : no_fault (read_header bytes).
Proof.
  unfold read_header. destruct (_ <? _); [done|].
  apply no_fault_bind; [apply ReadLittleEndian_no_fault|]. intros magic _.
  destruct (negb _); [done|].
  apply no_fault_bind; [apply ReadLittleEndian_no_fault|]. intros ver _.
  destruct (negb _); [done|].
  do 2 (apply no_fault_bind; [apply read_or_no_fault|]; intros ? _).
  destruct (_ || _); [done|].
  do 8 (apply no_fault_bind; [apply read_or_no_fault|]; intros ? _).
  destruct (negb _); [done|]. by destruct (_ || _).
Qed.

Lemma read_header_Ok bytes h :
  read_header bytes = Ok h →
  kArtifactHeaderSize ≤ Zlen bytes ∧ is_u32 (header_section_count h)
  ∧ is_u32 (header_shard_count h) ∧ is_u64 (header_schema_version h)
  ∧ 0 ≤ header_id_length h ≤ kArtifactIdCapacity
  ∧ kArtifactIdOffset + header_id_length h ≤ kArtifactHeaderSize.
Proof.
  unfold read_header. intros H. guard_ok H Hlen. btoprop.
  bind_ok H magic Hm. guard_ok H Hb1. bind_ok H ver Hver. guard_ok H Hb2.
  bind_ok H hs Hhs. bind_ok H es Hes. guard_ok H Hb3.
  bind_ok H n Hn. bind_ok H alg Halg. bind_ok H cnt Hcnt. bind_ok H seed Hseed.
  bind_ok H hv Hhv. bind_ok H sv Hsv. bind_ok H fp Hfp. bind_ok H il Hil.
  guard_ok H Hb4. guard_ok H Hb5. btoprop. injection H as <-. cbn.
  apply read_or_range in Hn, Hcnt, Hsv, Hil; try done; try (simpl; lia).
  unfold in_int_range, it_modulus in *. simpl in *. unfold is_u32, is_u64. split_and!; lia.
Qed.

(** ** The directory *)

Record section_ok (bytes : list byte) (s : ArtifactSection) : Prop := {
  sk_offset : 0 ≤ section_offset s;
  sk_length : 0 ≤ section_length s;
  sk_end : section_offset s + section_length s ≤ Zlen bytes;
}.

Lemma section_span_Ok bytes s :
  section_ok bytes s →
  section_span bytes s = Ok (slice (Z.to_nat (section_offset s)) (Z.to_nat (section_length s)) bytes).
Proof. intros [Ho Hl He]. by apply subspan_in. Qed.

Lemma DecodeSectionType_Ok v t : DecodeSectionType v = Ok t → section_type_value t = v.
Proof.
  unfold DecodeSectionType. destruct (find_key _ _ _) as [t'|] eqn:E; [|done].
  intros [= <-]. by apply find_key_Some_1 in E as [_ E].
Qed.

Lemma entry_position_nonneg i : 0 ≤ entry_position i.
Proof. unfold entry_position, wrap32. apply Z.mod_pos_bound. lia. Qed.

(** The next field of an entry that was there to be read. *)
Ltac next_field x E :=
  match goal with
  | |- context [obind (read_or ?m ?t ?b ?o) _] =>
      let Hnf := fresh "Hnf" in
      pose proof (read_or_no_fault m t b o) as Hnf;
      destruct (read_or m t b o) as [x|?|?] eqn:E; [|done|destruct Hnf]; clear Hnf; cbn [obind]
  end.

Lemma read_section_entry_any bytes n i seen :
  match read_section_entry bytes n i seen with
  | Ok (seen', s) =>
      section_ok bytes s ∧ (value_key s ∉ seen) ∧ seen' = {[value_key s]} ∪ seen
      ∧ (section_shard_id s = kArtifactGlobalShardId ∨ section_shard_id s < n)
  | Err _ => True
  | Fault _ => False
  end.
Proof.
  pose proof (entry_position_nonneg i) as Hpos. unfold read_section_entry.
  next_field tv E1. next_field sid E2. next_field fo E3. next_field count E4. next_field sum_ E5.
  destruct (DecodeSectionType tv) as [t|e|f] eqn:Et; [|done|].
  2:{ unfold DecodeSectionType in Et. by destruct (find_key _ _ _). }
  cbn [obind]. destruct (negb _ && _) eqn:Eg; [done|]. case_decide as Hs; [done|].
  unfold CheckBounds. destruct (_ || _) eqn:Eb; [done|]. cbn [obind].
  apply DecodeSectionType_Ok in Et as <-. btoprop.
  assert (∀ off, 0 ≤ off → 0 ≤ entry_position i + off) as Hp by lia.
  apply read_or_range in E3; [|simpl; lia|by apply Hp].
  apply read_or_range in E4; [|simpl; lia|by apply Hp].
  unfold in_int_range, it_modulus in E3, E4. simpl in E3, E4.
  split_and!; [split; cbn; lia|done|done|]. cbn.
  apply andb_false_iff in Eg as [Eg|Eg]; btoprop; [by left|right; lia].
Qed.

Lemma read_section_entries_any bytes n i count seen :
  match read_section_entries bytes n i count seen with
  | Ok ss => Forall (section_ok bytes) ss ∧ length ss = count ∧ NoDup (value_key <$> ss)
      ∧ ∀ s, s ∈ ss → value_key s ∉ seen
  | Err _ => True
  | Fault _ => False
  end.
Proof.
  revert i seen. induction count as [|count IH]; intros i seen; cbn [read_section_entries].
  { split_and!; [constructor|done|constructor|]. intros s Hs. by apply elem_of_nil in Hs. }
  pose proof (read_section_entry_any bytes n i seen) as He.
  destruct (read_section_entry bytes n i seen) as [[seen' s]|e|f]; [|done..]. cbn [obind fst snd].
  destruct He as (Hok & Hnew & -> & _). specialize (IH (i + 1) ({[value_key s]} ∪ seen)).
  destruct (read_section_entries _ _ _ _ _) as [ss|e|f]; [|done..]. cbn [obind].
  destruct IH as (Hss & Hl & Hnd & Hdis). split_and!; [by constructor|by simpl; f_equal| |].
  - rewrite fmap_cons. constructor; [|done].
    intros (s' & Heq & Hs')%list_elem_of_fmap. apply (Hdis s' Hs').
    apply elem_of_union. left. by apply elem_of_singleton.
  - intros s' [->|Hs']%elem_of_cons; [done|]. intros Hin. apply (Hdis s' Hs').
    apply elem_of_union. by right.
Qed.

(** Sections in an order where each starts behind the one before. *)
Fixpoint apart (previous_end : Z) (l : list ArtifactSection) : Prop :=
  match l with
  | [] => True
  | s :: l' => previous_end ≤ section_offset s ∧ apart (section_offset s + section_length s) l'
  end.

Lemma check_overlap_apart bytes l previous last :
  is_u64 (Zlen bytes) → Forall (section_ok bytes) l →
  ofold check_overlap l previous = Ok last → apart previous l.
Proof.
  intros Hb Hl. revert previous. induction Hl as [|s l [Ho Hn He] _ IH]; intros previous; [done|].
  cbn [ofold]. unfold check_overlap at 1. destruct (Z.ltb_spec (section_offset s) previous); [done|].
  cbn [obind]. rewrite wrap64_small by (unfold is_u64 in *; lia). intros H1%IH. done.
Qed.

Lemma apart_ge bytes l previous s :
  Forall (section_ok bytes) l → apart previous l → s ∈ l → previous ≤ section_offset s.
Proof.
  intros Hl. revert previous. induction Hl as [|s' l [Ho Hn He] _ IH]; intros previous Ha Hin.
  { by apply elem_of_nil in Hin. }
  destruct Ha as [Hle Ha]. apply elem_of_cons in Hin as [->|Hin]; [done|].
  specialize (IH _ Ha Hin). lia.
Qed.

Lemma apart_disjoint bytes l previous s s' :
  Forall (section_ok bytes) l → apart previous l → s ∈ l → s' ∈ l → s ≠ s' →
  section_offset s + section_length s ≤ section_offset s'
  ∨ section_offset s' + section_length s' ≤ section_offset s.
Proof.
  intros Hl. revert previous. induction Hl as [|x l Hx Hl IH]; intros previous Ha Hs Hs' Hne.
  { by apply elem_of_nil in Hs. }
  destruct Ha as [_ Ha]. apply elem_of_cons in Hs as [->|Hs], Hs' as [->|Hs']; [done|..].
  - left. by eapply apart_ge.
  - right. by eapply apart_ge.
  - by eapply IH.
Qed.

(** ** Accepted artifacts *)

(** The bytes a section names. *)
Definition section_slice (bytes : list byte) (s : ArtifactSection) : list byte :=
  slice (Z.to_nat (section_offset s)) (Z.to_nat (section_length s)) bytes.

Record directory_ok (bytes : list byte) (ss : list ArtifactSection) : Prop := {
  dk_ok : Forall (section_ok bytes) ss;
  dk_keys : NoDup (section_key <$> ss);
  dk_start : ∀ s, s ∈ ss →
    kArtifactHeaderSize + Zlen ss * kArtifactSectionEntrySize ≤ section_offset s;
  dk_apart : ∀ s s', s ∈ ss → s' ∈ ss → s ≠ s' →
    section_offset s + section_length s ≤ section_offset s'
    ∨ section_offset s' + section_length s' ≤ section_offset s;
  dk_sums : ∀ s, s ∈ ss → Fnv1a64 (section_slice bytes s) = section_checksum s;
}.

Record parsed_ok (bytes : list byte) (a : ParsedArtifact) : Prop := {
  pa_bytes : artifact_bytes a = bytes;
  pa_shards : is_u32 (artifact_shard_count a);
  pa_layout : ∃ s, reachable_schema (artifact_schema_version a) s
    ∧ artifact_layout a = Some (compile_layout s)
    ∧ layout_fingerprint (compile_layout s) = artifact_layout_fingerprint a;
  pa_progress : progress_list_ok (source_progress a);
  pa_sections : directory_ok bytes (artifact_sections a);
}.

Lemma section_keys_distinct ss : NoDup (value_key <$> ss) → NoDup (section_key <$> ss).
Proof.
  intros H. apply (NoDup_fmap_1 (prod_map section_type_value id)). by rewrite <-list_fmap_compose.
Qed.

Section Parse.
Context `{SectionSort} (bytes : list byte).
Hypothesis Hbytes : is_u64 (Zlen bytes).

Lemma checksums_any l :
  Forall (section_ok bytes) l →
  match ofold (λ _, check_checksum bytes) l tt with
  | Ok _ => ∀ s, s ∈ l → Fnv1a64 (section_slice bytes s) = section_checksum s
  | Err _ => True
  | Fault _ => False
  end.
Proof.
  induction 1 as [|s l Hs _ IH]; cbn [ofold]; [by intros s ?%elem_of_nil|].
  unfold check_checksum at 1. pose proof (section_span_Ok bytes s Hs) as Hspan.
  unfold section_span in Hspan. rewrite Hspan. cbn [obind].
  destruct (Z.eqb_spec (Fnv1a64 (section_slice bytes s)) (section_checksum s)) as [Heq|];
    unfold section_slice in *; [rewrite Heq, Z.eqb_refl|by rewrite (proj2 (Z.eqb_neq _ _))].
  cbn [obind]. destruct (ofold _ l tt) as [[]|e|f]; [|done..].
  by intros s' [->|Hs']%elem_of_cons; [|apply IH].
Qed.

Lemma read_sections_any h :
  0 ≤ header_section_count h →
  match read_sections bytes h with
  | Ok ss => directory_ok bytes ss
  | Err _ => True
  | Fault _ => False
  end.
Proof.
  intros Hn. unfold read_sections. destruct (_ || _); [done|].
  pose proof (read_section_entries_any bytes (header_shard_count h) 0
    (Z.to_nat (header_section_count h)) ∅) as He.
  destruct (read_section_entries _ _ _ _ _) as [ss|e|f]; [|done..]. cbn [obind].
  destruct He as (Hss & Hl & Hnd & _). set (start := kArtifactHeaderSize + _).
  assert (start = kArtifactHeaderSize + Zlen ss * kArtifactSectionEntrySize) as Hst
    by (unfold start, Zlen; by rewrite Hl, Z2Nat.id).
  assert (Forall (section_ok bytes) (section_sort ss)) as Hsorted by (by rewrite section_sort_perm).
  destruct (ofold check_overlap (section_sort ss) start) as [last|e|f] eqn:Eo; [|done|].
  - apply (check_overlap_apart bytes) in Eo; [|done..]. cbn [obind].
    pose proof (checksums_any ss Hss) as Hsum.
    destruct (ofold _ ss tt) as [[]|e|f]; [|done..]. cbn [obind].
    assert (∀ s, s ∈ ss → s ∈ section_sort ss) as Hin by (intros s Hs; by rewrite section_sort_perm).
    split; [done|by apply section_keys_distinct| | |done].
    + intros s Hs. rewrite <-Hst. eapply apart_ge; [done..|by apply Hin].
    + intros s s' Hs Hs' Hne. eapply apart_disjoint; [done..|by apply Hin|by apply Hin|done].
  - assert (no_fault (ofold check_overlap (section_sort ss) start)) as Hnf.
    { apply ofold_no_fault. intros t x _. unfold check_overlap. by destruct (_ <? _). }
    by rewrite Eo in Hnf.
Qed.

Lemma FindSection_elem a t i s : ParsedArtifact_FindSection a t i = Some s → s ∈ artifact_sections a.
Proof.
  unfold ParsedArtifact_FindSection. destruct (list_find _ _) as [[k x]|] eqn:E; [|done].
  intros [= ->]. apply list_find_Some in E as (Hk & _). by eapply list_elem_of_lookup_2.
Qed.

Lemma ParseArtifact_any o :
  match ParseArtifact bytes o with
  | Ok a => parsed_ok bytes a
  | Err _ => True
  | Fault f => f = UnknownEnumerator
  end.
Proof.
  unfold ParseArtifact. pose proof (read_header_no_fault bytes) as Hnf.
  destruct (read_header bytes) as [h|e|f] eqn:Eh; [|done..]. clear Hnf. cbn [obind].
  apply read_header_Ok in Eh as (Hlen & Hn & Hsc & Hsv & Hid & Hide).
  destruct (check_expected h o) as [[]|e|f] eqn:Ec; [|done|].
  2:{ unfold check_expected in Ec. by repeat case_match. }
  cbn [obind]. pose proof (read_sections_any h ltac:(apply Hn)) as Hss.
  destruct (read_sections bytes h) as [ss|e|f]; [|done..]. cbn [obind].
  unfold kArtifactIdOffset, kArtifactHeaderSize in *.
  rewrite subspan_in by lia. cbn [obind]. set (id := slice _ _ _).
  destruct (ParsedArtifact_FindSection _ kSchemaMetadata _) as [s|] eqn:Ef; [|done].
  apply FindSection_elem in Ef. cbn [artifact_sections] in Ef.
  pose proof (dk_ok _ _ Hss) as Hok. rewrite Forall_forall in Hok.
  rewrite section_span_Ok by (by apply Hok). cbn [obind].
  pose proof (ParseSchemaSection_any (section_slice bytes s) (header_schema_version h)
    (header_layout_fingerprint h)) as Hl. unfold section_slice in Hl.
  destruct (ParseSchemaSection _ _ _) as [L|e|f]; [|done..]. cbn [obind].
  destruct Hl as (sch & Hsch & _ & -> & Hfp).
  destruct (ParsedArtifact_FindSection _ kSourceProgress _) as [s2|] eqn:Ef2.
  - apply FindSection_elem in Ef2. cbn [artifact_sections] in Ef2.
    rewrite section_span_Ok by (by apply Hok). cbn [obind].
    pose proof (proj2 ParseSourceProgressSection_inverts (section_slice bytes s2)) as Hp.
    unfold section_slice in Hp. destruct (ParseSourceProgressSection _) as [p|e|f]; [|done..].
    cbn [obind]. split; cbn; [done..|by exists sch|apply Hp|done].
  - case_decide; [|done]. split; cbn; [done..|by exists sch| |done].
    split; [by split|constructor|constructor].
Qed.
End Parse.

(** ** Loading *)

(** The bytes of a section of the shard. *)
Definition section_of (a : ParsedArtifact) (t : ArtifactSectionType) (shard_id : Z)
    (bs : list byte) : Prop :=
  ∃ s, s ∈ artifact_sections a ∧ section_key s = (t, shard_id)
    ∧ bs = section_slice (artifact_bytes a) s.

Record loaded_ok (bytes : list byte) (shard_id : Z) (b : MmapSnapshotBacking) : Prop := {
  lk_parsed : parsed_ok bytes (mmap_artifact b);
  lk_shard : shard_id < artifact_shard_count (mmap_artifact b);
  lk_index : section_of (mmap_artifact b) kFrozenPrimaryKeyIndex shard_id (mmap_frozen_index_bytes b);
  lk_slots : section_of (mmap_artifact b) kRowSlots shard_id (mmap_row_slot_bytes b);
  lk_payloads : section_of (mmap_artifact b) kRowArena shard_id (mmap_row_payload_bytes b);
  lk_count : ∀ L, artifact_layout (mmap_artifact b) = Some L →
    Zlen (mmap_row_slot_bytes b) = mmap_row_count b * row_slot_size L ∧ 0 < row_slot_size L;
}.

Lemma SectionBytes_any bytes a t i :
  parsed_ok bytes a →
  match SectionBytes a t i with Ok bs => section_of a t i bs | Err _ => True | Fault _ => False end.
Proof.
  intros [Hb _ _ _ [Hok _ _ _ _]]. unfold SectionBytes, ParsedArtifact_FindSection.
  destruct (list_find _ _) as [[k s]|] eqn:E; [|done]. cbn.
  apply list_find_Some in E as (Hk & [Ht Hi] & _).
  assert (s ∈ artifact_sections a) as Hs by (by eapply list_elem_of_lookup_2).
  rewrite Forall_forall in Hok. rewrite section_span_Ok by (rewrite Hb; by apply Hok).
  exists s. split_and!; [done|by unfold section_key; rewrite Ht, Hi|done].
Qed.

Lemma compiled_slot_nonneg v s : reachable_schema v s → 0 ≤ row_slot_size (compile_layout s).
Proof.
  intros Hs%reachable_schema_ok%compile_layout_wf.
  pose proof (lw_bitmap _ Hs). pose proof (lw_size _ Hs).
  pose proof (Zlen_nonneg (fields (compile_layout s))). lia.
Qed.

Lemma ValidatePayloadRowCount_no_fault bytes n : no_fault (ValidatePayloadRowCount bytes n).
Proof.
  unfold ValidatePayloadRowCount. apply no_fault_bind; [apply ReadLittleEndian_no_fault|].
  intros count _. destruct (negb _); [done|]. destruct (_ && _); [done|]. destruct (0 <? n); [|done].
  apply no_fault_bind; [apply ReadPayloadAt_no_fault|done].
Qed.

Lemma load_bytes_any `{SectionSort} bytes shard_id o :
  is_u64 (Zlen bytes) →
  match load_bytes bytes shard_id o with
  | Ok b => loaded_ok bytes shard_id b
  | Err _ => True
  | Fault f => f = UnknownEnumerator
  end.
Proof.
  intros Hb. unfold load_bytes. set (vo := MkArtifactValidationOptions _ _ _ _).
  pose proof (ParseArtifact_any bytes Hb vo) as Hp.
  destruct (ParseArtifact bytes vo) as [a|e|f]; [|done..]. cbn [obind].
  destruct (Z.leb_spec (artifact_shard_count a) shard_id); [done|].
  pose proof (SectionBytes_any bytes a kFrozenPrimaryKeyIndex shard_id Hp) as H1.
  destruct (SectionBytes a kFrozenPrimaryKeyIndex shard_id) as [index|e|f]; [|done..]. cbn [obind].
  pose proof (SectionBytes_any bytes a kRowSlots shard_id Hp) as H2.
  destruct (SectionBytes a kRowSlots shard_id) as [slots|e|f]; [|done..]. cbn [obind].
  pose proof (SectionBytes_any bytes a kRowArena shard_id Hp) as H3.
  destruct (SectionBytes a kRowArena shard_id) as [payloads|e|f]; [|done..]. cbn [obind].
  destruct (pa_layout _ _ Hp) as (s & Hs & HL & _). rewrite HL. cbv iota.
  pose proof (compiled_slot_nonneg _ _ Hs) as Hnn.
  destruct (_ || _) eqn:Eg; [done|]. btoprop.
  pose proof (ValidatePayloadRowCount_no_fault payloads (Zlen slots / row_slot_size (compile_layout s)))
    as Hv. destruct (ValidatePayloadRowCount _ _) as [[]|e|f]; [|done..]. cbn [obind].
  assert (no_fault (omapM (λ t, SectionBytes a t shard_id) prewarm_types)) as Hpre.
  { apply omapM_no_fault. intros t _. pose proof (SectionBytes_any bytes a t shard_id Hp).
    by destruct (SectionBytes a t shard_id). }
  destruct (omapM _ prewarm_types) as [sections|e|f]; [|done..]. cbn [obind].
  split; cbn; try done. intros L HL'. rewrite HL in HL'. injection HL' as <-.
  rewrite (proj2 (Z.eqb_neq _ _)) by done.
  pose proof (Z.div_mod (Zlen slots) (row_slot_size (compile_layout s)) ltac:(done)). split; lia.
Qed.

(** ** Reading rows of what was loaded *)

Lemma MmapEncodedRowAt_no_fault bytes shard_id b off :
  loaded_ok bytes shard_id b → 0 ≤ off → no_fault (MmapEncodedRowAt b off).
Proof.
  intros [_ _ _ _ _ Hc] Hoff. unfold MmapEncodedRowAt.
  destruct (artifact_layout (mmap_artifact b)) as [L|]; [|done].
  destruct (Hc L eq_refl) as [_ Hs]. destruct (_ =? 0); [done|].
  destruct (Z.ltb_spec (Zlen (mmap_row_slot_bytes b)) off); [done|].
  destruct (Z.ltb_spec (Zlen (mmap_row_slot_bytes b) - off) (row_slot_size L)); [done|].
  destruct (negb _); [done|]. apply no_fault_bind; [apply ReadPayloadAt_no_fault|].
  intros p _. rewrite subspan_in by lia. done.
Qed.

Lemma read_bytes_nonneg bytes o i n acc : 0 ≤ acc → 0 ≤ read_bytes bytes o i n acc.
Proof.
  revert i acc. induction n as [|n IH]; intros i acc Ha; cbn [read_bytes]; [done|].
  apply IH, Z.lor_nonneg. split; [done|]. apply Z.shiftl_nonneg, byte_to_Z_range.
Qed.

Lemma ReadLittleEndian_nonneg t bytes off v :
  it_signed t = false → ReadLittleEndian t bytes off = Ok v → 0 ≤ v.
Proof.
  intros Ht. unfold ReadLittleEndian, of_unsigned. rewrite Ht. cbn [andb].
  pose proof (read_bytes_nonneg bytes (Z.to_nat off) 0 (it_size t) 0 ltac:(done)) as H.
  revert H. generalize (read_bytes bytes (Z.to_nat off) 0 (it_size t) 0). intros z Hz.
  by intros (u & _ & [= <-])%obind_Ok.
Qed.

Lemma Lookup_nonneg v key off : Lookup v key = Ok (Some off) → 0 ≤ off.
Proof.
  assert (∀ h m n s, lookup_loop v key h m n s = Ok (Some off) → 0 ≤ off) as H.
  { intros h m. induction n as [|n IH]; intros s; cbn [lookup_loop]; [done|].
    intros (c & _ & Hc)%obind_Ok. destruct (c =? kEmptyControl); [done|].
    destruct (c =? h); [|by eapply IH]. apply obind_Ok in Hc as (k & _ & Hc).
    destruct (k =? key); [|by eapply IH]. apply obind_Ok in Hc as (o & Ho & [= <-]).
    unfold ReadRowOffset, ReadSlot in Ho. destruct (_ <=? _); [done|].
    destruct (ReadLittleEndian _ _ _) as [x|e|f] eqn:E; [|done..]. injection Ho as ->.
    by apply (ReadLittleEndian_nonneg uint64_t _ _ _ eq_refl) in E. }
  unfold Lookup. destruct (_ =? 0); [done|]. apply H.
Qed.

Lemma MaterializeRow_no_fault L r : layout_wf L → no_fault (MaterializeRow (Some L) r).
Proof.
  intros Hwf. unfold MaterializeRow. destruct (_ || _); [done|]. destruct (_ <? _); [done|].
  apply no_fault_bind; [|done]. apply ofold_no_fault. intros [] f Hf. unfold check_required.
  destruct (_ || _); [done|]. apply no_fault_bind; [|by intros []].
  apply FieldPresent_no_fault, (field_bit L f Hwf Hf).
Qed.

(** [Get] over a loaded shard: no fault, and rows over the schema's layout. *)
Lemma loaded_Get_safe bytes shard_id b key :
  loaded_ok bytes shard_id b →
  match FullSnapshotView_Get (make_full (Some (mmap_backing b))) key with
  | Ok (Some row) => row_layout_wf row
  | Fault _ => False
  | _ => True
  end.
Proof.
  intros Hl. unfold FullSnapshotView_Get, make_full, make_view, ImmutableRowSnapshotView_Get.
  cbn [full_view view_index view_backing ValidateBackingIndex mmap_backing frozen_index_bytes].
  pose proof (Validate_safe (mmap_frozen_index_bytes b)) as Hv.
  destruct (Validate _) as [v|e|f] eqn:Ev; [|done..]. cbn [obind]. clear Hv.
  apply Validate_spec in Ev as [Hvb Hv]. destruct v as [bs m]. cbn in Hvb, Hv. subst bs.
  destruct (valid_image_index_map m _ Hv) as (es & _ & _ & _ & _ & Hmap).
  destruct (Hmap key) as (r & Hr & _). rewrite Hr. cbn [obind]. destruct r as [off|]; [|done].
  apply Lookup_nonneg in Hr. pose proof (MmapEncodedRowAt_no_fault _ _ _ off Hl Hr) as Hrow.
  cbn [EncodedRowAt layout mmap_backing]. destruct (MmapEncodedRowAt b off) as [r|e|f]; [|done..]. cbn [obind].
  destruct (pa_layout _ _ (lk_parsed _ _ _ Hl)) as (s & Hs & HL & _). rewrite HL.
  pose proof (compile_layout_wf s (reachable_schema_ok _ _ Hs)) as Hwf.
  pose proof (MaterializeRow_no_fault (compile_layout s) r Hwf) as Hm.
  destruct (MaterializeRow _ r) as [row|e|f] eqn:Em; [|done..]. cbn [obind].
  unfold MaterializeRow in Em. destruct (_ || _); [done|]. destruct (_ <? _); [done|].
  apply obind_Ok in Em as (u & _ & [= <-]). done.
Qed.

Lemma LoadShard_any `{SectionSort} stat map_file uri shard_id o :
  (∀ path bytes, map_file path = Mapped bytes → is_u64 (Zlen bytes)) →
  match LoadShard stat map_file uri shard_id o with
  | Ok b => ∃ bytes, loaded_ok bytes shard_id b
  | Err _ => True
  | Fault f => f = UnknownEnumerator
  end.
Proof.
  intros Hfile. unfold LoadShard. destruct (ResolveArtifactFilePath _ _ _) as [path|e|f] eqn:Er; [|done|].
  2:{ unfold ResolveArtifactFilePath, ResolveLocalPath in Er. cbn [obind] in Er.
      repeat (case_match; cbn [obind] in Er); discriminate. }
  cbn [obind]. unfold MapFile. destruct (map_file (c_str path)) as [[|t]|t| |t|bytes] eqn:Em; try done.
  cbn [obind]. pose proof (load_bytes_any bytes shard_id o (Hfile _ _ Em)) as Hl.
  destruct (load_bytes bytes shard_id o) as [b|e|f]; [|done..]. by exists bytes.
Qed.

(** *** C8: Loading a shard is safe on any file.

    Whatever the file holds, [LoadShard] stays within its bytes, and the only
    way it leaves the defined behaviour of the source is a schema section with
    a field type that has no enumerator.  An artifact it accepts has its
    sections in bounds behind the directory, pairwise apart, under distinct
    keys and with the checksums of their bytes; its layout is that of a schema
    [AddField] can build; and reading any key of the loaded shard stays within
    the bytes too. *)
Theorem LoadShard_safe `{SectionSort} (stat : cpp_string → sys_error + file_kind)
    (map_file : cpp_string → map_result) (uri : cpp_string) (shard_id : Z)
    (o : MmapSnapshotLoadOptions)
    (Hfile : ∀ path bytes, map_file path = Mapped bytes → is_u64 (Zlen bytes)) :
  match LoadShard stat map_file uri shard_id o with
  | Ok b =>
      (∃ bytes, loaded_ok bytes shard_id b)
      ∧ ∀ key, match FullSnapshotView_Get (make_full (Some (mmap_backing b))) key with
               | Ok (Some row) => row_layout_wf row
               | Fault _ => False
               | _ => True
               end
  | Err _ => True
  | Fault f => f = UnknownEnumerator
  end.
Proof.
  pose proof (LoadShard_any stat map_file uri shard_id o Hfile) as Hl.
  destruct (LoadShard stat map_file uri shard_id o) as [b|e|f]; [|done..].
  destruct Hl as [bytes Hb]. split; [by exists bytes|]. intros key. by eapply loaded_Get_safe.
Qed.

(** ** Prewarming *)

Definition page_step (page_size : Z) : Z := if 0 <? page_size then page_size else 4096.

(** The pages of a section: the bytes in steps, the last one begun. *)
Definition section_pages (page_size : Z) (bytes : list byte) : Z :=
  (Zlen bytes + page_step page_size - 1) / page_step page_size.

Lemma touch_pages_spec fuel bytes offset step touched :
  0 < step → 0 ≤ offset < Zlen bytes + step → Zlen bytes - offset ≤ Z.of_nat fuel →
  touch_pages fuel bytes offset step touched
  = Ok (touched + (Zlen bytes - offset + step - 1) / step).
Proof.
  intros Hs. revert offset touched. induction fuel as [|fuel IH]; intros offset touched Ho Hf;
    cbn [touch_pages].
  - rewrite Z.div_small by lia. by rewrite Z.add_0_r.
  - destruct (Z.ltb_spec offset (Zlen bytes)).
    + destruct (at_in (E := Status) bytes offset) as (b & _ & ->); [lia|]. cbn [obind].
      rewrite IH by lia. f_equal.
      replace (Zlen bytes - offset + step - 1) with (Zlen bytes - (offset + step) + step - 1 + 1 * step)
        by lia. rewrite Z.div_add by lia. lia.
    + rewrite Z.div_small by lia. by rewrite Z.add_0_r.
Qed.

Lemma TouchSectionPages_spec page_size bytes touched :
  TouchSectionPages page_size bytes touched = Ok (touched + section_pages page_size bytes).
Proof.
  assert (0 < page_step page_size) as Hs
    by (unfold page_step; destruct (Z.ltb_spec 0 page_size); lia).
  unfold TouchSectionPages, section_pages. fold (page_step page_size). destruct bytes as [|b bytes].
  - change (Zlen []) with 0. rewrite Z.div_small by lia. by rewrite Z.add_0_r.
  - rewrite touch_pages_spec; [by rewrite Z.sub_0_r|done|rewrite Zlen_cons|unfold Zlen; lia].
    pose proof (Zlen_nonneg bytes). lia.
Qed.

Lemma Prewarm_spec page_size b :
  Prewarm page_size b
  = (Ok tt, MkMmapSnapshotBacking (mmap_artifact b) (mmap_shard_id b) (mmap_frozen_index_bytes b)
       (mmap_row_slot_bytes b) (mmap_row_payload_bytes b) (prewarm_sections b) (mmap_row_count b)
       true (foldr Z.add 0 (section_pages page_size <$> prewarm_sections b))).
Proof.
  unfold Prewarm.
  assert (∀ l t, ofold (λ touched section, TouchSectionPages page_size section touched) l t
    = Ok (t + foldr Z.add 0 (section_pages page_size <$> l))) as H.
  { induction l as [|s l IH]; intros t; cbn [ofold fmap list_fmap foldr]; [by rewrite Z.add_0_r|].
    rewrite TouchSectionPages_spec. cbn [obind]. rewrite IH. by rewrite Z.add_assoc. }
  by rewrite H.
Qed.

(** *** C32: Prewarming ends after one read per page.

    Whatever the page size the system reports (a size that is not positive
    counts as 4096), [Prewarm] terminates, reads inside its sections only, and
    leaves the backing prewarmed with the number of pages its sections
    span. *)
Theorem Prewarm_touches_every_page (page_size : Z) (b : MmapSnapshotBacking) :
  Prewarm page_size b
  = (Ok tt, MkMmapSnapshotBacking (mmap_artifact b) (mmap_shard_id b) (mmap_frozen_index_bytes b)
       (mmap_row_slot_bytes b) (mmap_row_payload_bytes b) (prewarm_sections b) (mmap_row_count b)
       true (foldr Z.add 0 (section_pages page_size <$> prewarm_sections b))).
Proof. apply Prewarm_spec. Qed.
