(* ===== verification/ArtifactSamples.v ===== *)
(** * Sample artifacts

    An artifact of two shards with a row each, written and loaded back, and
    the two artifacts the loader refuses: one whose layout has a default
    value, and one with an empty shard when [std::sort] swaps sections that
    start at the same offset. *)

From S2P Require Import Prelude Status ByteIo Types Schema SchemaProofs RowStorage RowSafety RowProofs.
From S2P Require Import StoreSamples Snapshot SnapshotProofs Payload Codec Kafka ArtifactFormat.
From S2P Require Import ArtifactWriter MmapBacking ArtifactCodec ArtifactSchema ArtifactAppend.
From S2P Require Import ArtifactLoad ArtifactTheorems ArtifactSafety.

(** ** Sorting *)

#[export] Instance by_offset_total : Total by_offset.
Proof. intros x y. unfold by_offset. lia. Qed.
#[export] Instance by_offset_trans : Transitive by_offset.
Proof. intros x y z. unfold by_offset. lia. Qed.

(** Two sorting algorithms: sections with equal offsets keep their order, or
    change places. *)
Definition keeping_sort : SectionSort := {|
  section_sort := merge_sort by_offset;
  section_sort_perm := merge_sort_Permutation by_offset;
  section_sort_sorted := StronglySorted_merge_sort by_offset;
|}.

Definition swapping_sort : SectionSort.
Proof.
  refine {| section_sort := λ l, merge_sort by_offset (rev l) |}.
  - intros l. by rewrite merge_sort_Permutation, <-Permutation_rev.
  - intros l. by apply StronglySorted_merge_sort; apply _.
Defined.

(** ** The sample *)

Definition plain_spec (id : Z) (l : bool) (t : FieldType) (e : FieldEncoding) : FieldSpec :=
  MkFieldSpec id (str "field") t l true e DMonostate false.

Definition plain_schema : RuntimeSchema :=
  MkRuntimeSchema 1 [plain_spec 20 false kBool kFixed; plain_spec 10 true kInt64 kArena] [].

Lemma plain_reachable : reachable_schema 1 plain_schema.
Proof.
  unfold reachable_schema.
  eapply rtc_l; [eapply (step_add (plain_spec 20 false kBool kFixed));
    [unfold is_u32; simpl; lia|reflexivity]|].
  eapply rtc_l; [eapply (step_add (plain_spec 10 true kInt64 kArena));
    [unfold is_u32; simpl; lia|reflexivity]|].
  apply rtc_refl.
Qed.

Definition plain_layout : CompiledRowLayout := compile_layout plain_schema.

(** A row with the boolean field. *)
Definition plain_row (b : byte) : EncodedRow :=
  MkEncodedRow 1 (layout_fingerprint plain_layout)
    (Byte.x02 :: replicate 7 Byte.x00 ++ b :: replicate 23 Byte.x00) [] [] [] [] [].

Definition plain_shards (rows : list ArtifactRow) : list ArtifactShardBuildSpec :=
  [MkArtifactShardBuildSpec 0 [MkArtifactRow 11 (plain_row Byte.x01)];
   MkArtifactShardBuildSpec 1 rows].

Definition plain_build (layout : CompiledRowLayout) (rows : list ArtifactRow) : ArtifactBuildSpec :=
  MkArtifactBuildSpec (str "sample") 2 7 1 (Some layout) true
    [MkArtifactSourceProgress (str "rows") 0 5 9] (plain_shards rows).

Definition image_bytes (spec : ArtifactBuildSpec) : list byte :=
  match artifact_image spec (spec_shards spec) with Ok F => F | _ => [] end.

Definition sample_build : ArtifactBuildSpec :=
  plain_build plain_layout [MkArtifactRow 12 (plain_row Byte.x00)].

Definition sample_options : MmapSnapshotLoadOptions := MkMmapSnapshotLoadOptions 2 7 1 kRequired.

(** Its file. *)
Definition sample_file : list byte := Eval vm_compute in image_bytes sample_build.

(** A file system with one file. *)
Definition one_stat (path : cpp_string) : sys_error + file_kind :=
  if decide (path = str "/a.kvi") then inr RegularFile else inl ENOENT.
Definition one_map (F : list byte) (path : cpp_string) : map_result :=
  if decide (path = str "/a.kvi") then Mapped F else OpenFailed ENOENT.

Lemma sample_image : artifact_image sample_build (spec_shards sample_build)
  = Ok sample_file.
Proof. vm_compute. reflexivity. Qed.

Lemma sample_typed : shards_typed sample_build (spec_shards sample_build).
Proof.
  split; try (repeat (apply Forall_cons_2 || apply Forall_nil_2));
    vm_compute; (done || (split; congruence)).
Qed.

Definition second_shard : ArtifactShardBuildSpec :=
  MkArtifactShardBuildSpec 1 [MkArtifactRow 12 (plain_row Byte.x00)].

Lemma second_shard_row :
  map_get (compile_layout plain_schema) (shard_map (compile_layout plain_schema) second_shard) 12
  = let* row := MaterializeRow (Some plain_layout) (plain_row Byte.x00) in Ok (Some row).
Proof.
  assert (shard_map (compile_layout plain_schema) second_shard !! 12 = Some (plain_row Byte.x00)) as Hrow
    by (vm_compute; reflexivity).
  unfold map_get. by rewrite Hrow.
Qed.

Lemma artifact_roundtrip_witness :
  ∃ b, LoadShard (H := swapping_sort) one_stat (one_map sample_file) (str "/a.kvi") 1
         sample_options = Ok b
    ∧ source_progress (mmap_artifact b) = [MkArtifactSourceProgress (str "rows") 0 5 9]
    ∧ FullSnapshotView_Get (make_full (Some (mmap_backing b))) 12
      = let* row := MaterializeRow (Some plain_layout) (plain_row Byte.x00) in Ok (Some row).
Proof.
  destruct (@artifact_roundtrip swapping_sort one_stat (one_map sample_file)
    1 plain_schema sample_build (spec_shards sample_build) sample_file
    second_shard
    (str "/a.kvi") (str "/a.kvi") sample_options plain_reachable)
    as (b & Hload & _ & Hp & _ & _ & Hget).
  - vm_compute. split; congruence.
  - repeat constructor.
  - reflexivity.
  - vm_compute. reflexivity.
  - exact sample_typed.
  - vm_compute. reflexivity.
  - split; [vm_compute; split; congruence| |repeat constructor; by intros []%elem_of_nil].
    constructor; [|constructor]. split; vm_compute; try (split; congruence); congruence.
  - right. repeat constructor; discriminate.
  - exact sample_image.
  - vm_compute. split; congruence.
  - right. left.
  - split; vm_compute; [right; reflexivity|right; reflexivity|reflexivity|left; reflexivity].
  - vm_compute. reflexivity.
  - vm_compute. reflexivity.
  - exists b. split; [exact Hload|]. split; [exact Hp|]. rewrite Hget. exact second_shard_row.
Defined.

Lemma one_map_size F path bytes :
  is_u64 (Zlen F) → one_map F path = Mapped bytes → is_u64 (Zlen bytes).
Proof. unfold one_map. intros HF. case_decide; [|done]. by intros [= <-]. Qed.

Lemma sample_loads :
  ∃ b, LoadShard (H := keeping_sort) one_stat (one_map sample_file) (str "/a.kvi") 0
         sample_options = Ok b ∧ mmap_row_count b = 1.
Proof. eexists. split; [vm_compute; reflexivity|]. reflexivity. Qed.

Lemma LoadShard_safe_witness :
  ∃ b, LoadShard (H := keeping_sort) one_stat (one_map sample_file) (str "/a.kvi") 0
         sample_options = Ok b ∧ ∃ bytes, loaded_ok bytes 0 b.
Proof.
  destruct sample_loads as (b & Hb & _). exists b. split; [exact Hb|].
  pose proof (@LoadShard_safe keeping_sort one_stat (one_map sample_file)
    (str "/a.kvi") 0 sample_options) as H.
  rewrite Hb in H. apply H. intros path bytes. apply one_map_size. vm_compute. split; congruence.
Defined.

(** ** A layout with a default value *)

Definition default_spec : FieldSpec :=
  MkFieldSpec 20 (str "field") kBool false true kFixed (DScalar (SBool true)) false.

Definition default_layout : CompiledRowLayout :=
  compile_layout (MkRuntimeSchema 1 [default_spec] []).

Definition default_section : list byte :=
  match SerializeSchema default_layout with Ok bytes => bytes | _ => [] end.

(** The section the writer serializes is refused by the parser. *)
Lemma schema_defaults_lost_witness :
  SerializeSchema default_layout = Ok default_section
  ∧ ParseSchemaSection default_section 1 (layout_fingerprint default_layout)
    = FailedPrecondition "schema layout fingerprint mismatch"
  ∧ ParseSchemaSection default_section 1 (layout_fingerprint default_layout) ≠ Ok default_layout.
Proof.
  split; [vm_compute; reflexivity|]. split; [vm_compute; reflexivity|].
  eapply schema_defaults_lost; [left|]. discriminate.
Defined.

(** ** An empty shard *)

(** The row slots of an empty shard are a section without bytes, at the
    offset of the section behind it. *)
Definition empty_shard_build : ArtifactBuildSpec := plain_build plain_layout [].

Definition empty_shard_file : list byte := Eval vm_compute in image_bytes empty_shard_build.

(** An artifact with an empty shard may be refused.

    The sections of an empty shard's row slots and row payloads start at the
    same offset, and the parser orders sections by offset alone before it
    checks that they do not overlap.  The order of equal elements is up to
    [std::sort]: with one sorting algorithm the artifact the writer wrote is
    loaded, with another it is refused as overlapping. *)
Theorem empty_shard_depends_on_sort :
  ∃ F, artifact_image empty_shard_build (spec_shards empty_shard_build) = Ok F
    ∧ (∃ b, load_bytes (H := keeping_sort) F 1 sample_options = Ok b ∧ mmap_row_count b = 0)
    ∧ load_bytes (H := swapping_sort) F 1 sample_options
      = InvalidArgument "artifact sections overlap".
Proof.
  exists empty_shard_file. split; [vm_compute; reflexivity|]. split.
  - eexists. split; [vm_compute; reflexivity|]. reflexivity.
  - vm_compute. reflexivity.
Qed.
