(* ===== verification/AsyncLoad.v ===== *)
(** * Loading an artifact: [src/rebuild/async_load.{h,cc}]

    [RunExternalArtifactLoad] maps the shards of an artifact, prewarms them,
    in the modes with Kafka replays the updates behind the artifact into new
    realtime tables, and publishes shard after shard.  It reports through
    callbacks; [W] is the world they change, the cancellation flag included.
    The runner of the catch-up is the class [AsyncCatchUpRunner]: it changes
    its own state and the realtime tables, and reads the flag. *)

From S2P Require Import Prelude Status Types Schema RealtimeDelta Snapshot Shard.
From S2P Require Import Kafka UpdateApplier UpdateCoordinator ArtifactFormat MmapBacking.

(** ** Data: [include/kv_index/types.h], [include/kv_index/forward_index.h] *)

Inductive LoadStateCode : Type :=
| kLoadUnknown | kLoadPending | kLoadRunning | kLoadSucceeded | kLoadFailed | kLoadCancelled.

#[export] Instance LoadStateCode_eq_dec : EqDecision LoadStateCode.
Proof. solve_decision. Defined.

Record LoadRequest : Type := MkLoadRequest {
  request_artifact_uri : cpp_string;
  request_artifact_id : cpp_string;
}.

Record ShardProgress : Type := MkShardProgress {
  progress_shard_id : Z;
  shard_loaded : bool;
  shard_prewarmed : bool;
  shard_cutover : bool;
  shard_message : cpp_string;
}.

Record LoadState : Type := MkLoadState {
  load_id : Z;
  load_code : LoadStateCode;
  load_terminal : bool;
  load_artifact_uri : cpp_string;
  load_artifact_id : cpp_string;
  total_shard_count : Z;
  loaded_shard_count : Z;
  prewarmed_shard_count : Z;
  cutover_shard_count : Z;
  load_source_progress : KafkaProgress;
  load_shards : list ShardProgress;
  load_last_error : cpp_string;
  load_message : cpp_string;
}.

Record ForwardIndexOptions : Type := MkForwardIndexOptions {
  options_mode : ForwardIndexMode;
  options_shard_count : Z;
  options_hash_seed : Z;
  options_hash_version : Z;
  options_thresholds : ThresholdConfig;
  options_kafka_consumer : KafkaConsumerConfig;
}.

(** ** Assignments to the members of a [LoadState] *)

Definition set_end (code : LoadStateCode) (ended : bool) (error message : cpp_string)
    (s : LoadState) : LoadState :=
  MkLoadState (load_id s) code ended (load_artifact_uri s) (load_artifact_id s)
    (total_shard_count s) (loaded_shard_count s) (prewarmed_shard_count s)
    (cutover_shard_count s) (load_source_progress s) (load_shards s) error message.

Definition set_load_message (message : cpp_string) (s : LoadState) : LoadState :=
  set_end (load_code s) (load_terminal s) (load_last_error s) message s.

Definition set_load_artifact_id (id : cpp_string) (s : LoadState) : LoadState :=
  MkLoadState (load_id s) (load_code s) (load_terminal s) (load_artifact_uri s) id
    (total_shard_count s) (loaded_shard_count s) (prewarmed_shard_count s)
    (cutover_shard_count s) (load_source_progress s) (load_shards s) (load_last_error s)
    (load_message s).

Definition set_source_progress (progress : KafkaProgress) (s : LoadState) : LoadState :=
  MkLoadState (load_id s) (load_code s) (load_terminal s) (load_artifact_uri s)
    (load_artifact_id s) (total_shard_count s) (loaded_shard_count s)
    (prewarmed_shard_count s) (cutover_shard_count s) progress (load_shards s)
    (load_last_error s) (load_message s).

Definition set_shards (total loaded prewarmed cutover : Z) (shards : list ShardProgress)
    (s : LoadState) : LoadState :=
  MkLoadState (load_id s) (load_code s) (load_terminal s) (load_artifact_uri s)
    (load_artifact_id s) total loaded prewarmed cutover (load_source_progress s) shards
    (load_last_error s) (load_message s).

(** The state assigned on entry. *)
Definition initial_state (request : LoadRequest) (id : Z) : LoadState :=
  MkLoadState id kLoadRunning false (request_artifact_uri request) (request_artifact_id request)
    0 0 0 0 (MkKafkaProgress []) [] [] [].

(** The total and the list of shards, before the first is loaded. *)
Definition list_shards (n : Z) (s : LoadState) : LoadState :=
  set_shards n (loaded_shard_count s) (prewarmed_shard_count s) (cutover_shard_count s)
    (load_shards s ++ ((λ i, MkShardProgress i false false false []) <$> seqZ 0 n)) s.

(** [state->shards[shard_id].flag = true] *)
Definition update_shard (f : ShardProgress → ShardProgress) (shard_id : Z)
    (shards : list ShardProgress) : StatusOr (list ShardProgress) :=
  let* p := at_ shards shard_id in
  set_at shards shard_id (f p).

Definition set_loaded (p : ShardProgress) : ShardProgress :=
  MkShardProgress (progress_shard_id p) true (shard_prewarmed p) (shard_cutover p) (shard_message p).
Definition set_prewarmed (p : ShardProgress) : ShardProgress :=
  MkShardProgress (progress_shard_id p) (shard_loaded p) true (shard_cutover p) (shard_message p).
Definition set_cutover (p : ShardProgress) : ShardProgress :=
  MkShardProgress (progress_shard_id p) (shard_loaded p) (shard_prewarmed p) true (shard_message p).

Definition note_loaded (shard_id : Z) (s : LoadState) : StatusOr LoadState :=
  let* shards := update_shard set_loaded shard_id (load_shards s) in
  Ok (set_shards (total_shard_count s) (wrap32 (loaded_shard_count s + 1))
        (prewarmed_shard_count s) (cutover_shard_count s) shards s).

Definition note_prewarmed (shard_id : Z) (s : LoadState) : StatusOr LoadState :=
  let* shards := update_shard set_prewarmed shard_id (load_shards s) in
  Ok (set_shards (total_shard_count s) (loaded_shard_count s)
        (wrap32 (prewarmed_shard_count s + 1)) (cutover_shard_count s) shards s).

Definition note_cutover (shard_id : Z) (s : LoadState) : StatusOr LoadState :=
  let* shards := update_shard set_cutover shard_id (load_shards s) in
  Ok (set_shards (total_shard_count s) (loaded_shard_count s) (prewarmed_shard_count s)
        (wrap32 (cutover_shard_count s + 1)) shards s).

(** ** Progress *)

Definition SamePartition (lhs rhs : KafkaPartition) : bool :=
  bool_decide (partition_topic lhs = partition_topic rhs)
  && (partition_number lhs =? partition_number rhs).

Definition source_kafka_partition (entry : ArtifactSourceProgress) : KafkaPartition :=
  MkKafkaPartition (source_topic entry) (source_partition entry).

Definition BuildCheckpoint (progress : list ArtifactSourceProgress) : KafkaCheckpoint :=
  MkKafkaCheckpoint
    ((λ entry, MkKafkaPosition (source_kafka_partition entry) (checkpoint_next_offset entry))
     <$> progress).

(** Both positions come from validated progress and are not negative, so the
    64-bit difference does not overflow. *)
Definition BuildSafeProgress (progress : list ArtifactSourceProgress) : KafkaProgress :=
  MkKafkaProgress
    ((λ entry,
        MkKafkaPartitionProgress (source_kafka_partition entry) (checkpoint_next_offset entry)
          (source_high_watermark entry)
          (0 `max` (source_high_watermark entry - checkpoint_next_offset entry)))
     <$> progress).

Definition CatchUpRequired (progress : KafkaProgress) : bool :=
  existsb (λ entry, committed_next_offset entry <? high_watermark entry)
    (progress_partitions progress).

Definition FindProgress (progress : KafkaProgress) (partition : KafkaPartition)
    : StatusOr KafkaPartitionProgress :=
  match find (λ entry, SamePartition (progress_partition entry) partition)
          (progress_partitions progress) with
  | None => FailedPrecondition "catch-up progress is missing a source partition"
  | Some entry => Ok entry
  end.

(** One round of the loop over the target. *)
Definition observe_entry (observed : KafkaProgress) (target_entry : KafkaPartitionProgress)
    : StatusOr KafkaPartitionProgress :=
  let* observed_entry := FindProgress observed (progress_partition target_entry) in
  let high := high_watermark target_entry `max` high_watermark observed_entry in
  Ok (MkKafkaPartitionProgress (progress_partition target_entry)
        (committed_next_offset observed_entry) high
        (0 `max` (high - committed_next_offset observed_entry))).

Definition UpdateObservedSafeProgress (target observed : KafkaProgress)
    : StatusOr KafkaProgress :=
  match progress_partitions target with
  | [] => FailedPrecondition "artifact source progress is empty"
  | entries =>
      let* updated := omapM (observe_entry observed) entries in
      Ok (MkKafkaProgress updated)
  end.

(** [PopulateSourceProgress] appends the same entries to the cleared list. *)
Definition PopulateSourceProgress (progress : list ArtifactSourceProgress) (s : LoadState)
    : LoadState :=
  set_source_progress (BuildSafeProgress progress) s.

(** ** Ends *)

Definition MarkFailed (status : Status) (s : LoadState) : LoadState :=
  set_end kLoadFailed true (str (status_message status))
    (if bool_decide (status_message status = ""%string) then str "artifact load failed"
     else str (status_message status)) s.

Definition MarkCancelled (s : LoadState) : LoadState :=
  set_end kLoadCancelled true (str "load cancelled") (str "load cancelled") s.

Definition MarkSucceeded (s : LoadState) : LoadState :=
  set_end kLoadSucceeded true (load_last_error s) (str "artifact load succeeded") s.

(** ** Callbacks and runners *)

Record AsyncLoadCallbacks (W : Type) : Type := MkAsyncLoadCallbacks {
  publish_shard : option (Z → ShardState → stateful W Status unit);
  store_state : option (LoadState → W → W);
  is_cancelled : option (W → bool * W);
  callbacks_cancellation : option (W → bool);   (** the atomic flag *)
}.
Arguments MkAsyncLoadCallbacks {W}.
Arguments publish_shard {W} _.
Arguments store_state {W} _.
Arguments is_cancelled {W} _.
Arguments callbacks_cancellation {W} _.

(** [catch_up_shards] are pointers into the realtime tables of the run. *)
Record AsyncCatchUpRequest (W : Type) : Type := MkAsyncCatchUpRequest {
  catch_up_load_id : Z;
  catch_up_checkpoint : KafkaCheckpoint;
  catch_up_safe_progress : KafkaProgress;
  catch_up_hash_seed : Z;
  catch_up_hash_version : Z;
  catch_up_layout : option CompiledRowLayout;
  catch_up_shards : list (option nat);
  catch_up_cancellation : option (W → bool);
}.
Arguments MkAsyncCatchUpRequest {W}.
Arguments catch_up_load_id {W} _.
Arguments catch_up_checkpoint {W} _.
Arguments catch_up_safe_progress {W} _.
Arguments catch_up_hash_seed {W} _.
Arguments catch_up_hash_version {W} _.
Arguments catch_up_layout {W} _.
Arguments catch_up_shards {W} _.
Arguments catch_up_cancellation {W} _.

Definition AsyncCatchUpRequest_default {W} : AsyncCatchUpRequest W :=
  MkAsyncCatchUpRequest 0 (MkKafkaCheckpoint []) (MkKafkaProgress []) 0 1 None [] None.

(** A runner [R] and how one is created; its calls see the world as it is and
    change the runner and the realtime tables. *)
Class AsyncCatchUpRunner (W R : Type) : Type := {
  create_runner : ForwardIndexOptions → StatusOr R;
  runner_Start : AsyncCatchUpRequest W → stateful (R * tables_of) Status unit;
  runner_CaptureSafeProgress : stateful (R * tables_of) Status KafkaProgress;
  runner_PollApplyCommitOnce : W → stateful (R * tables_of) Status unit;
}.

(** ** The run *)

(** The variables of one run: the world, [*state], the backings, the realtime
    tables and the runner. *)
Record load_run (W R : Type) : Type := MkLoadRun {
  run_world : W;
  run_state : LoadState;
  run_backings : list MmapSnapshotBacking;
  run_tables : tables_of;
  run_runner : option R;
}.
Arguments MkLoadRun {W R}.
Arguments run_world {W R} _.
Arguments run_state {W R} _.
Arguments run_backings {W R} _.
Arguments run_tables {W R} _.
Arguments run_runner {W R} _.

Definition CreateRealtimeShards (layout : option CompiledRowLayout)
    (options : ForwardIndexOptions) : tables_of :=
  (λ _, make_table layout 1024 (options_hash_seed options) (options_hash_version options))
  <$> seqZ 0 (options_shard_count options).

Section Run.
Context {W R : Type} `{AsyncCatchUpRunner W R} `{SectionSort}.
Variable stat : cpp_string → sys_error + file_kind.
Variable map_file : cpp_string → map_result.
Variable page_size : Z.
Implicit Types r : load_run W R.

Abbreviation running A := (stateful (load_run W R) Status A).

Definition get_run {A} (f : load_run W R → A) : running A := λ r, (Ok (f r), r).

Definition with_state (s : LoadState) r : load_run W R :=
  MkLoadRun (run_world r) s (run_backings r) (run_tables r) (run_runner r).

Definition modify_state (f : LoadState → LoadState) : running unit := λ r,
  (Ok tt, with_state (f (run_state r)) r).

Definition update_state (f : LoadState → StatusOr LoadState) : running unit :=
  do* s := get_run run_state in
  do* s' := slift (f s) in
  modify_state (λ _, s').

Definition on_world {A} (c : stateful W Status A) : running A := λ r,
  let '(x, w) := c (run_world r) in
  (x, MkLoadRun w (run_state r) (run_backings r) (run_tables r) (run_runner r)).

Definition set_backings (bs : list MmapSnapshotBacking) : running unit := λ r,
  (Ok tt, MkLoadRun (run_world r) (run_state r) bs (run_tables r) (run_runner r)).

Definition set_tables (ts : tables_of) : running unit := λ r,
  (Ok tt, MkLoadRun (run_world r) (run_state r) (run_backings r) ts (run_runner r)).

Definition set_runner (runner : R) : running unit := λ r,
  (Ok tt, MkLoadRun (run_world r) (run_state r) (run_backings r) (run_tables r) (Some runner)).

(** A call of the runner. *)
Definition on_runner {A} (c : W → stateful (R * tables_of) Status A) : running A := λ r,
  match run_runner r with
  | None => (Fault NullDereference, r)
  | Some runner =>
      let '(x, (runner', ts)) := c (run_world r) (runner, run_tables r) in
      (x, MkLoadRun (run_world r) (run_state r) (run_backings r) ts (Some runner'))
  end.

Section Callbacks.
Variable callbacks : AsyncLoadCallbacks W.

Definition StoreState : running unit :=
  match store_state callbacks with
  | None => sret tt
  | Some store =>
      do* s := get_run run_state in
      on_world (λ w, (Ok tt, store s w))
  end.

Definition IsCancelled : running bool :=
  match is_cancelled callbacks with
  | None => sret false
  | Some ask => on_world (λ w, let '(b, w') := ask w in (Ok b, w'))
  end.

(** [MarkFailed(state, status); StoreState(callbacks, *state); return status;] *)
Definition fail_load {A} (status : Status) : running A :=
  do* _ := modify_state (MarkFailed status) in
  do* _ := StoreState in
  serr status.

(** A call whose failure ends the load. *)
Definition or_fail {A} (c : running A) : running A := λ r,
  match c r with
  | (Err status, r') => fail_load status r'
  | res => res
  end.

Definition CheckCancelled : running unit :=
  do* cancelled := IsCancelled in
  if cancelled : bool then
    do* _ := modify_state MarkCancelled in
    do* _ := StoreState in
    serr (Status_make kCancelled "load cancelled")
  else sret tt.

Section Request.
Variable request : LoadRequest.
Variable id : Z.
Variable options : ForwardIndexOptions.

Definition load_options : MmapSnapshotLoadOptions :=
  MkMmapSnapshotLoadOptions (options_shard_count options) (options_hash_seed options)
    (options_hash_version options)
    (if negb (ForwardIndexModeUsesKafkaRealtime (options_mode options)) then kOptional
     else kRequired).

(** The body of the first loop. *)
Definition load_shard (shard_id : Z) : running unit :=
  do* _ := CheckCancelled in
  do* backing := or_fail (slift (LoadShard stat map_file (request_artifact_uri request)
                                   shard_id load_options)) in
  do* _ := modify_state (λ s,
             if bool_decide (load_artifact_id s = [])
             then set_load_artifact_id (artifact_id (mmap_artifact backing)) s else s) in
  do* _ := modify_state (λ s,
             if shard_id =? 0
             then PopulateSourceProgress (source_progress (mmap_artifact backing)) s else s) in
  do* _ := update_state (note_loaded shard_id) in
  do* bs := get_run run_backings in
  do* _ := set_backings (bs ++ [backing]) in
  StoreState.

(** The body of the second loop. *)
Definition prewarm_shard (shard_id : Z) : running unit :=
  do* _ := CheckCancelled in
  do* bs := get_run run_backings in
  do* backing := slift (at_ bs shard_id) in
  let '(status, backing') := Prewarm page_size backing in
  do* bs' := slift (set_at bs shard_id backing') in
  do* _ := set_backings bs' in
  do* _ := or_fail (slift status) in
  do* _ := update_state (note_prewarmed shard_id) in
  StoreState.

(** The body of the loops that publish. *)
Definition publish_one (publish : Z → ShardState → stateful W Status unit) (shard_id : Z)
    : running unit :=
  do* _ := CheckCancelled in
  do* bs := get_run run_backings in
  do* backing := slift (at_ bs shard_id) in
  do* ts := get_run run_tables in
  do* delta := match ts with
               | [] => sret None
               | _ => do* t := slift (at_ ts shard_id) in sret (Some t)
               end in
  let shard_state :=
    MkShardState shard_id id
      (MkLayers delta None (Some (make_full (Some (mmap_backing backing))))) in
  do* _ := or_fail (on_world (publish shard_id shard_state)) in
  do* _ := update_state (note_cutover shard_id) in
  StoreState.

Definition succeed : running unit :=
  do* _ := modify_state MarkSucceeded in
  StoreState.

(** ** Catching up *)

(** A failed poll: a cancelled one, or one while the load is cancelled, ends
    it as cancelled. *)
Definition fail_poll {A} (status : Status) : running A :=
  do* cancelled := if bool_decide (status_code status = kCancelled) then sret true
                   else IsCancelled in
  do* _ := modify_state (if cancelled : bool then MarkCancelled else MarkFailed status) in
  do* _ := StoreState in
  serr status.

Definition poll_once : running unit := λ r,
  match on_runner runner_PollApplyCommitOnce r with
  | (Err status, r') => fail_poll status r'
  | res => res
  end.

(** The observed progress, merged into a target. *)
Definition observe_progress (target : KafkaProgress) : running unit :=
  do* observed := or_fail (on_runner (λ _, runner_CaptureSafeProgress)) in
  do* safe_progress := or_fail (slift (UpdateObservedSafeProgress target observed)) in
  do* _ := modify_state (set_source_progress safe_progress) in
  StoreState.

Definition catch_up_round : running unit :=
  do* _ := CheckCancelled in
  do* _ := poll_once in
  do* s := get_run run_state in
  observe_progress (load_source_progress s).

(** [while (CatchUpRequired(state->source_progress))], at most [fuel] rounds. *)
Fixpoint catch_up_loop (fuel : nat) : running unit :=
  do* s := get_run run_state in
  if CatchUpRequired (load_source_progress s) then
    match fuel with
    | O => slift (Fault Diverges)
    | S fuel' => do* _ := catch_up_round in catch_up_loop fuel'
    end
  else sret tt.

Definition catch_up_request (front : MmapSnapshotBacking) : AsyncCatchUpRequest W :=
  let progress := source_progress (mmap_artifact front) in
  MkAsyncCatchUpRequest id (BuildCheckpoint progress) (BuildSafeProgress progress)
    (options_hash_seed options) (options_hash_version options)
    (artifact_layout (mmap_artifact front))
    ((λ i, Some (Z.to_nat i)) <$> seqZ 0 (options_shard_count options))
    (callbacks_cancellation callbacks).

(** From the realtime tables to the end of the loop. *)
Definition catch_up (front : MmapSnapshotBacking) (fuel : nat) : running unit :=
  let artifact_progress := BuildSafeProgress (source_progress (mmap_artifact front)) in
  do* _ := set_tables (CreateRealtimeShards (artifact_layout (mmap_artifact front)) options) in
  do* runner := or_fail (slift (create_runner options)) in
  do* _ := set_runner runner in
  do* _ := modify_state (set_load_message (str "artifact catch-up running")) in
  do* _ := StoreState in
  do* _ := or_fail (on_runner (λ _, runner_Start (catch_up_request front))) in
  do* _ := CheckCancelled in
  do* _ := observe_progress artifact_progress in
  do* _ := catch_up_loop fuel in
  CheckCancelled.

(** ** The whole run *)

Definition load_and_prewarm : running unit :=
  let n := options_shard_count options in
  do* _ := modify_state (list_shards n) in
  do* _ := sfor load_shard (seqZ 0 n) in
  sfor prewarm_shard (seqZ 0 n).

Definition publish_all (publish : Z → ShardState → stateful W Status unit) : running unit :=
  do* _ := sfor (publish_one publish) (seqZ 0 (options_shard_count options)) in
  succeed.

(** What remains once the shards are warm. *)
Definition cut_over (publish : Z → ShardState → stateful W Status unit) (fuel : nat)
    : running unit :=
  if negb (ForwardIndexModeUsesKafkaRealtime (options_mode options)) then
    do* _ := modify_state (set_source_progress (MkKafkaProgress [])) in
    publish_all publish
  else
    do* bs := get_run run_backings in
    do* front := slift (at_ bs 0) in
    match source_progress (mmap_artifact front) with
    | [] => fail_load (Status_make kFailedPrecondition "artifact source progress is empty")
    | _ =>
        do* _ := catch_up front fuel in
        publish_all publish
    end.

Definition run_load (fuel : nat) : running unit :=
  do* _ := modify_state (λ _, initial_state request id) in
  do* _ := StoreState in
  if bool_decide (request_artifact_uri request = []) then
    fail_load (Status_make kInvalidArgument "artifact uri is empty")
  else
  match publish_shard callbacks with
  | None => fail_load (Status_make kFailedPrecondition "artifact load has no publish callback")
  | Some publish =>
      do* _ := CheckCancelled in
      do* _ := load_and_prewarm in
      cut_over publish fuel
  end.

(** [state] is null or the variable it points to; [fuel] bounds the rounds of
    the catch-up. *)
Definition RunExternalArtifactLoad (fuel : nat) : stateful (option LoadState * W) Status unit :=
  λ v,
  match v.1 with
  | None => (InvalidArgument "load state output is null", v)
  | Some s =>
      let '(status, r) := run_load fuel (MkLoadRun v.2 s [] [] None) in
      (status, (Some (run_state r), run_world r))
  end.
End Request.
End Callbacks.
End Run.
