(* ===== verification/CatchUpRunner.v ===== *)
(** * The catch-up runner: [src/rebuild/async_load.cc]

    [ProductionCatchUpRunner] replays the updates behind an artifact: it seeks
    its consumer to the artifact's checkpoint and polls, applies and commits
    into the realtime tables of the load.  A factory for tests may stand in
    for it. *)

From S2P Require Import Prelude Status Types Schema RealtimeDelta Kafka.
From S2P Require Import UpdateApplier UpdateCoordinator ArtifactFormat AsyncLoad.

Record ProductionCatchUpRunner (W C : Type) : Type := MkProductionCatchUpRunner {
  consumer_ : KafkaUpdateConsumer C;
  request_ : AsyncCatchUpRequest W;
  applier_ : option UpdateApplierOptions;
  coordinator_ : option UpdateCoordinatorOptions;
}.
Arguments MkProductionCatchUpRunner {W C}.
Arguments consumer_ {W C} _.
Arguments request_ {W C} _.
Arguments applier_ {W C} _.
Arguments coordinator_ {W C} _.

Section Production.
Context {W C : Type} `{KafkaClient C}.

Definition new_runner (consumer : KafkaUpdateConsumer C) : ProductionCatchUpRunner W C :=
  MkProductionCatchUpRunner consumer AsyncCatchUpRequest_default None None.

(** The applier of a request: one target, the realtime tables of the load. *)
Definition catch_up_applier (request : AsyncCatchUpRequest W) (topic : cpp_string)
    : UpdateApplierOptions :=
  MkUpdateApplierOptions topic
    [MkUpdateTargetRoute kRebuild (catch_up_load_id request) (Zlen (catch_up_shards request))
       (catch_up_hash_seed request) (catch_up_hash_version request) (catch_up_layout request)
       (catch_up_shards request)].

Definition catch_up_coordinator (topic : cpp_string) : UpdateCoordinatorOptions :=
  MkUpdateCoordinatorOptions topic (MkPollOptions 100 128).

(** A call of the runner's consumer. *)
Definition on_runner_consumer {A} (c : stateful (KafkaUpdateConsumer C) Status A)
    : stateful (ProductionCatchUpRunner W C * tables_of) Status A := λ p,
  let '(x, k) := c (consumer_ p.1) in
  (x, (MkProductionCatchUpRunner k (request_ p.1) (applier_ p.1) (coordinator_ p.1), p.2)).

Definition set_request (request : AsyncCatchUpRequest W)
    : stateful (ProductionCatchUpRunner W C * tables_of) Status unit := λ p,
  (Ok tt, (MkProductionCatchUpRunner (consumer_ p.1) request (applier_ p.1) (coordinator_ p.1), p.2)).

Definition set_applier (applier : UpdateApplierOptions) (coordinator : UpdateCoordinatorOptions)
    : stateful (ProductionCatchUpRunner W C * tables_of) Status unit := λ p,
  (Ok tt, (MkProductionCatchUpRunner (consumer_ p.1) (request_ p.1) (Some applier)
             (Some coordinator), p.2)).

Definition Production_Start (request : AsyncCatchUpRequest W)
    : stateful (ProductionCatchUpRunner W C * tables_of) Status unit :=
  do* _ := set_request request in
  match progress_partitions (catch_up_safe_progress request) with
  | [] => serr (Status_make kFailedPrecondition "catch-up safe progress is empty")
  | first :: _ =>
      do* _ := on_runner_consumer (Consumer_Seek (catch_up_checkpoint request)) in
      let topic := partition_topic (progress_partition first) in
      set_applier (catch_up_applier request topic) (catch_up_coordinator topic)
  end.

Definition not_started {A} : stateful (ProductionCatchUpRunner W C * tables_of) Status A :=
  serr (Status_make kFailedPrecondition "catch-up runner has not started").

Definition Production_CaptureSafeProgress
    : stateful (ProductionCatchUpRunner W C * tables_of) Status KafkaProgress := λ p,
  match coordinator_ p.1 with
  | None => not_started p
  | Some _ => on_runner_consumer Consumer_Progress p
  end.

(** The coordinator points to the consumer and the applier of the runner. *)
Definition run_coordinator (coordinator : UpdateCoordinatorOptions)
    : stateful (ProductionCatchUpRunner W C * tables_of) Status unit := λ p,
  let '(x, (k, ts)) :=
    PollApplyCommitOnce coordinator (applier_ p.1) (Some (consumer_ p.1), p.2) in
  (x, (MkProductionCatchUpRunner (default (consumer_ p.1) k) (request_ p.1) (applier_ p.1)
         (coordinator_ p.1), ts)).

Definition Production_PollApplyCommitOnce (w : W)
    : stateful (ProductionCatchUpRunner W C * tables_of) Status unit := λ p,
  match coordinator_ p.1 with
  | None => not_started p
  | Some coordinator =>
      if from_option (λ flag, flag w) false (catch_up_cancellation (request_ p.1))
      then (Cancelled "catch-up cancelled", p)
      else run_coordinator coordinator p
  end.
End Production.

(** ** Creating a runner *)

(** The runner of a load: one of the tests' factory or one over Kafka. *)
Abbreviation any_runner W T C := (T + ProductionCatchUpRunner W C)%type.

Section Create.
Context {W T C : Type} `{KafkaClient C}.
(** [KafkaUpdateConsumer::Create] *)
Variable create_consumer : KafkaConsumerConfig → StatusOr (KafkaUpdateConsumer C).
Variable factory_for_testing : option (ForwardIndexOptions → StatusOr T).

Definition CreateCatchUpRunner (options : ForwardIndexOptions) : StatusOr (any_runner W T C) :=
  match factory_for_testing with
  | Some factory => let* runner := factory options in Ok (inl runner)
  | None =>
      let config := options_kafka_consumer options in
      if bool_decide (bootstrap_servers config = []) || bool_decide (group_id config = [])
         || bool_decide (topics config = []) then
        FailedPrecondition
          "catch-up required but no production Kafka consumer can be started"
      else
      let* consumer := create_consumer config in
      Ok (inr (new_runner consumer))
  end.
End Create.

(** [SetAsyncCatchUpRunnerFactoryForTesting]: the factory is a variable of the
    program; the old one is returned. *)
Definition SetAsyncCatchUpRunnerFactoryForTesting {F : Type} (factory : option F)
    : stateful (option F) Status (option F) := λ previous, (Ok previous, factory).

(** The virtual calls of a runner, by what it is. *)
Section Dispatch.
Context {W T C : Type} `{KafkaClient C} `{AsyncCatchUpRunner W T}.
Variable create_consumer : KafkaConsumerConfig → StatusOr (KafkaUpdateConsumer C).
Variable factory_for_testing : option (ForwardIndexOptions → StatusOr T).

Definition dispatch {A} (test : stateful (T * tables_of) Status A)
    (production : stateful (ProductionCatchUpRunner W C * tables_of) Status A)
    : stateful (any_runner W T C * tables_of) Status A := λ p,
  match p.1 with
  | inl t => let '(x, (t', ts)) := test (t, p.2) in (x, (inl t', ts))
  | inr k => let '(x, (k', ts)) := production (k, p.2) in (x, (inr k', ts))
  end.

Definition catch_up_runner : AsyncCatchUpRunner W (any_runner W T C) := {|
  create_runner := CreateCatchUpRunner create_consumer factory_for_testing;
  runner_Start request := dispatch (runner_Start request) (Production_Start request);
  runner_CaptureSafeProgress :=
    dispatch (runner_CaptureSafeProgress (W := W)) Production_CaptureSafeProgress;
  runner_PollApplyCommitOnce w :=
    dispatch (runner_PollApplyCommitOnce w) (Production_PollApplyCommitOnce w);
|}.
End Dispatch.

(** Without a factory for tests: the runner over Kafka alone. *)
Definition production_runner {W C : Type} `{KafkaClient C}
    (create_consumer : KafkaConsumerConfig → StatusOr (KafkaUpdateConsumer C))
    : AsyncCatchUpRunner W (ProductionCatchUpRunner W C) := {|
  create_runner options :=
    let* runner := CreateCatchUpRunner (T := False) create_consumer None options in
    match runner with inl t => match t with end | inr k => Ok k end;
  runner_Start := Production_Start;
  runner_CaptureSafeProgress := Production_CaptureSafeProgress;
  runner_PollApplyCommitOnce := Production_PollApplyCommitOnce;
|}.
