(* ===== verification/LoadProtocol.v ===== *)
(** * What a load promises: the protocol of its callbacks

    The specification of [AsyncLoad]: what an observer of the callbacks sees.
    A load stores its state after every step; it loads all shards in order,
    then warms them in order, catches up when it uses Kafka, then publishes
    them in order; it ends with one terminal state.  The protocol is a step
    relation on stages, labelled by what is observed. *)

From S2P Require Import Prelude Status Types Schema RealtimeDelta Snapshot Shard.
From S2P Require Import Kafka ArtifactFormat MmapBacking AsyncLoad.

Inductive load_event : Type :=
| Stored (s : LoadState)
| Published (shard : Z) (state : ShardState) (accepted : bool).

(** The shards of a load with [l] of [n] loaded, [p] warm and [c] cut over. *)
Definition shard_at (l p c i : Z) : ShardProgress :=
  MkShardProgress i (i <? l) (i <? p) (i <? c) [].
Definition shards_at (n l p c : Z) : list ShardProgress := shard_at l p c <$> seqZ 0 n.

Record reports (n l p c : Z) (s : LoadState) : Prop := {
  rp_total : total_shard_count s = n;
  rp_loaded : loaded_shard_count s = l;
  rp_prewarmed : prewarmed_shard_count s = p;
  rp_cutover : cutover_shard_count s = c;
  rp_shards : load_shards s = shards_at n l p c;
}.

(** A load that has not listed its shards yet reports none. *)
Definition reports_any (n l p c : Z) (s : LoadState) : Prop :=
  reports n l p c s ∨ (l = 0 ∧ p = 0 ∧ c = 0 ∧ reports 0 0 0 0 s).

Definition is_running (id : Z) (s : LoadState) : Prop :=
  load_id s = id ∧ load_code s = kLoadRunning ∧ load_terminal s = false.

Definition is_ended (id : Z) (s : LoadState) : Prop :=
  load_id s = id ∧ load_terminal s = true.

(** [g] follows the partitions of [target], whose messages up to the high
    watermarks it has seen committed. *)
Definition caught_up (target g : KafkaProgress) : Prop :=
  Forall2 (λ e e', progress_partition e' = progress_partition e
    ∧ high_watermark e ≤ high_watermark e' ≤ committed_next_offset e')
    (progress_partitions target) (progress_partitions g).

(** A stage: nothing stored; [l] shards loaded, [p] warm and [c] cut over, with
    the progress of the artifact and the last progress stored; shard [c]
    published or refused; the end, with the last state stored. *)
Inductive stage : Type :=
| Fresh
| Running (l p c : Z) (target g : KafkaProgress)
| Cutting (c : Z) (target g : KafkaProgress)
| Refused (c : Z)
| Ended (s : LoadState).

Section Protocol.
Context `{SectionSort}.
Variable stat : cpp_string → sys_error + file_kind.
Variable map_file : cpp_string → map_result.
Variable request : LoadRequest.
Variable id : Z.
Variable options : ForwardIndexOptions.

Abbreviation n := (options_shard_count options).
Abbreviation realtime := (ForwardIndexModeUsesKafkaRealtime (options_mode options)).

(** What is published for a shard: the rows of the artifact's shard, with a
    realtime table in front in the modes with Kafka. *)
Record ready (shard : Z) (state : ShardState) : Prop := {
  rd_id : shard_id state = shard;
  rd_generation : generation state = id;
  rd_realtime : realtime = true ↔ is_Some (realtime_delta (layers state));
  rd_compact : compact_delta (layers state) = None;
  rd_full : ∃ b,
    LoadShard stat map_file (request_artifact_uri request) shard (load_options options) = Ok b
    ∧ full_snapshot (layers state) = Some (make_full (Some (mmap_backing b)));
}.

Inductive protocol : stage → load_event → stage → Prop :=
| protocol_start s :
    is_running id s → reports 0 0 0 0 s → load_source_progress s = MkKafkaProgress [] →
    protocol Fresh (Stored s) (Running 0 0 0 (MkKafkaProgress []) (MkKafkaProgress []))
| protocol_load l target g s :
    l < n → is_running id s → reports n (l + 1) 0 0 s →
    protocol (Running l 0 0 target g) (Stored s)
      (Running (l + 1) 0 0 (if l =? 0 then load_source_progress s else target)
         (load_source_progress s))
| protocol_prewarm p target g s :
    p < n → is_running id s → reports n n (p + 1) 0 s →
    protocol (Running n p 0 target g) (Stored s)
      (Running n (p + 1) 0 target (load_source_progress s))
| protocol_catch_up target g s :
    realtime = true → is_running id s → reports n n n 0 s →
    protocol (Running n n 0 target g) (Stored s)
      (Running n n 0 target (load_source_progress s))
| protocol_publish c target g state :
    c < n → ready c state → (realtime = true → caught_up target g) →
    protocol (Running n n c target g) (Published c state true) (Cutting c target g)
| protocol_refuse c target g state :
    c < n → ready c state → (realtime = true → caught_up target g) →
    protocol (Running n n c target g) (Published c state false) (Refused c)
| protocol_cut_over c target g s :
    is_running id s → reports n n n (c + 1) s →
    (realtime = true → load_source_progress s = g) →
    protocol (Cutting c target g) (Stored s)
      (Running n n (c + 1) target (load_source_progress s))
| protocol_succeed target g s :
    is_ended id s → load_code s = kLoadSucceeded → reports n n n n s →
    (realtime = true → caught_up target g ∧ load_source_progress s = g) →
    protocol (Running n n n target g) (Stored s) (Ended s)
| protocol_stop l p c target g s :
    is_ended id s → load_code s = kLoadFailed ∨ load_code s = kLoadCancelled →
    reports_any n l p c s →
    protocol (Running l p c target g) (Stored s) (Ended s)
| protocol_refused c s :
    is_ended id s → load_code s = kLoadFailed → reports n n n c s →
    protocol (Refused c) (Stored s) (Ended s).

(** The traces of the protocol. *)
Inductive trace : list load_event → stage → Prop :=
| trace_nil : trace [] Fresh
| trace_snoc t st e st' : trace t st → protocol st e st' → trace (t ++ [e]) st'.

(** ** What traces look like *)

Definition published_shard (e : load_event) : option Z :=
  match e with Published i _ _ => Some i | Stored _ => None end.

Lemma trace_split t1 e t2 st :
  trace (t1 ++ e :: t2) st → ∃ st1 st2, trace t1 st1 ∧ protocol st1 e st2.
Proof.
  revert st. induction t2 as [|e' t2 IH] using rev_ind; intros st Ht.
  - inversion Ht as [|t st1 e1 st2 H1 H2 Heq]; [by destruct t1|].
    apply app_inj_tail in Heq as [-> ->]. by exists st1, st.
  - rewrite app_comm_cons, app_assoc in Ht. inversion Ht as [|t st1 e1 st2 H1 H2 Heq].
    + by destruct t1.
    + apply app_inj_tail in Heq as [-> ->]. by eapply IH.
Qed.

(** Nothing is observed after the end. *)
Lemma trace_ended t s st e : trace t (Ended s) → ¬ protocol (Ended s) e st.
Proof. intros _ Hp. inversion Hp. Qed.

Record counts_ok (l p c : Z) : Prop := {
  co_order : 0 ≤ c ≤ p ∧ p ≤ l ≤ n;
  co_loaded : 0 < p → l = n;
  co_prewarmed : 0 < c → p = n;
}.

Definition seen (t : list load_event) (P : LoadState → Prop) : Prop :=
  ∃ s, Stored s ∈ t ∧ P s.

Lemma seen_snoc t e P : seen t P → seen (t ++ [e]) P.
Proof. intros (s & Hs & HP). exists s. split; [|done]. apply elem_of_app. by left. Qed.

Lemma seen_last t s (P : LoadState → Prop) : P s → seen (t ++ [Stored s]) P.
Proof. intros HP. exists s. split; [|done]. apply elem_of_app. right. left. Qed.

Definition artifact_seen (t : list load_event) (target : KafkaProgress) : Prop :=
  seen t (λ s, reports n 1 0 0 s ∧ load_source_progress s = target).

(** What the trace that leads to a stage has published and stored. *)
Definition stage_ok (t : list load_event) (st : stage) : Prop :=
  match st with
  | Fresh => t = []
  | Running l p c target g =>
      counts_ok l p c ∧ omap published_shard t = seqZ 0 c
      ∧ seen t (λ s, reports_any n l p c s ∧ load_source_progress s = g)
      ∧ (0 < l → artifact_seen t target)
  | Cutting c target g =>
      0 ≤ c < n ∧ omap published_shard t = seqZ 0 (c + 1) ∧ artifact_seen t target
  | Refused c => 0 ≤ c < n ∧ omap published_shard t = seqZ 0 (c + 1)
  | Ended s =>
      is_ended id s
      ∧ (if decide (load_code s = kLoadSucceeded) then reports n n n n s
         else ∃ l p c, counts_ok l p c ∧ reports_any n l p c s)
  end.

Lemma seqZ_snoc c : 0 ≤ c → seqZ 0 (c + 1) = seqZ 0 c ++ [c].
Proof. intros Hc. by rewrite seqZ_app by lia. Qed.

Lemma omap_stored t s : omap published_shard (t ++ [Stored s]) = omap published_shard t.
Proof. rewrite omap_app. cbn. apply app_nil_r. Qed.

Lemma omap_published t i st b :
  omap published_shard (t ++ [Published i st b]) = omap published_shard t ++ [i].
Proof. by rewrite omap_app. Qed.

Lemma stage_ok_step (Hn : 0 ≤ n) t st e st' :
  stage_ok t st → protocol st e st' → stage_ok (t ++ [e]) st'.
Proof.
  intros Hok Hp. destruct Hp; cbn [stage_ok] in *; rewrite ?omap_stored, ?omap_published.
  - subst t. split_and!; [by split; lia|done| |lia]. apply seen_last. split; [by right|done].
  - destruct Hok as ([] & Ho & _ & Ha). split_and!; [by split; lia|done| |].
    + apply seen_last. split; [by left|done].
    + intros _. destruct (Z.eqb_spec l 0) as [->|].
      * by apply seen_last.
      * apply seen_snoc, Ha. lia.
  - destruct Hok as ([] & Ho & _ & Ha). split_and!; [by split; lia|done| |].
    + apply seen_last. split; [by left|done].
    + intros ?. by apply seen_snoc, Ha.
  - destruct Hok as ([] & Ho & _ & Ha). split_and!; [by split; lia|done| |].
    + apply seen_last. split; [by left|done].
    + intros ?. by apply seen_snoc, Ha.
  - destruct Hok as ([] & Ho & _ & Ha). split_and!; [lia..| |].
    + rewrite seqZ_snoc by lia. by rewrite Ho.
    + apply seen_snoc, Ha. lia.
  - destruct Hok as ([] & Ho & _ & Ha). split_and!; [lia..|].
    rewrite seqZ_snoc by lia. by rewrite Ho.
  - destruct Hok as (Hc & Ho & Ha). split_and!; [by split; lia|done| |].
    + apply seen_last. split; [by left|done].
    + intros _. by apply seen_snoc.
  - split; [done|]. by rewrite decide_True.
  - destruct Hok as (Hc & _). split; [done|].
    rewrite decide_False by (intros E; rewrite E in *; naive_solver). by exists l, p, c.
  - destruct Hok as (Hc & _). split; [done|].
    rewrite decide_False by congruence. exists n, n, c. split; [by split; lia|by left].
Qed.

Lemma trace_ok (Hn : 0 ≤ n) t st : trace t st → stage_ok t st.
Proof. induction 1 as [|t st e st' _ IH Hp]; [done|]. by eapply stage_ok_step. Qed.

(** A shard is published ready, after its predecessors, once all shards are
    warm and, with Kafka, caught up. *)
Lemma trace_publishes (Hn : 0 ≤ n) t1 i state accepted t2 st :
  trace (t1 ++ Published i state accepted :: t2) st →
  ready i state ∧ omap published_shard t1 = seqZ 0 i
  ∧ seen t1 (λ s, reports_any n n n i s
      ∧ (realtime = true → ∃ target, artifact_seen t1 target
           ∧ caught_up target (load_source_progress s))).
Proof.
  intros (st1 & st2 & Ht%trace_ok & Hp)%trace_split; [|done].
  inversion Hp as [| | | |c T g x Hc Hr Hup|c T g x Hc Hr Hup| | | |]; subst;
    destruct Ht as (Hco & Ho & (s & Hs & Hrep & Hg) & Ha);
    (split_and!; [done..|]; exists s; split_and!; [done..|]);
    intros E; exists T; rewrite Hg; (split; [apply Ha|by apply Hup]); destruct Hco; lia.
Qed.

(** Only the last state stored is terminal. *)
Lemma trace_stored t1 s e t2 st :
  trace (t1 ++ Stored s :: e :: t2) st → is_running id s.
Proof.
  intros Ht. rewrite cons_middle, app_assoc in Ht.
  apply trace_split in Ht as (st1 & st2 & Ht & Hp).
  inversion Ht as [|t0 st0 e0 st' H0 H1 Heq]; [by destruct t1|].
  apply app_inj_tail in Heq as [-> ->]. subst. inversion H1; subst; try done; inversion Hp.
Qed.
(** The last state accepted for a shard. *)
Fixpoint published_in (t : list load_event) (shard : Z) : option ShardState :=
  match t with
  | [] => None
  | e :: t' =>
      match published_in t' shard with
      | Some st => Some st
      | None =>
          match e with
          | Published i st true => if decide (i = shard) then Some st else None
          | _ => None
          end
      end
  end.

Lemma published_in_snoc t e i :
  published_in (t ++ [e]) i =
    match e with
    | Published j st true => if decide (j = i) then Some st else published_in t i
    | _ => published_in t i
    end.
Proof.
  induction t as [|e' t IH]; cbn [published_in app].
  - by destruct e as [s|j st []].
  - rewrite IH. destruct e as [s|j st []]; [done| |done]. by case_decide.
Qed.

Definition serving (t : list load_event) (c : Z) : Prop :=
  ∀ i, 0 ≤ i < c → ∃ st, published_in t i = Some st ∧ ready i st.

Lemma serving_published t c st : 0 ≤ c → serving t c → ready c st → serving (t ++ [Published c st true]) (c + 1).
Proof.
  intros Hc Hs Hr i Hi. rewrite published_in_snoc. case_decide as E; [subst; by exists st|].
  apply Hs. lia.
Qed.

(** After a load that succeeded every shard serves what was published. *)
Lemma trace_serving (Hn : 0 ≤ n) t st :
  trace t st →
  match st with
  | Running _ _ c _ _ => serving t c
  | Cutting c _ _ => serving t (c + 1)
  | Ended s => load_code s = kLoadSucceeded → serving t n
  | _ => True
  end.
Proof.
  induction 1 as [|t st e st' Ht IH Hp]; [done|]. pose proof (trace_ok Hn t st Ht) as Hok.
  assert (∀ s c, serving t c → serving (t ++ [Stored s]) c) as Hst.
  { intros s c Hs i Hi. rewrite published_in_snoc. by apply Hs. }
  destruct Hp; try done; try (by apply Hst).
  - intros i Hi. lia.
  - apply serving_published; [apply Hok|done..].
  - intros _. by apply Hst.
  - intros E. by rewrite E in *; naive_solver.
  - congruence.
Qed.

Definition stored_state (e : load_event) : option LoadState :=
  match e with Stored s => Some s | Published _ _ _ => None end.

(** The last state stored. *)
Definition last_stored (t : list load_event) : option LoadState := last (omap stored_state t).

Lemma last_stored_snoc t e :
  last_stored (t ++ [e]) = match e with Stored s => Some s | _ => last_stored t end.
Proof.
  unfold last_stored. rewrite omap_app. destruct e; cbn; [by rewrite last_snoc|by rewrite app_nil_r].
Qed.

Lemma trace_last t s : trace t (Ended s) → last_stored t = Some s.
Proof.
  inversion 1 as [|t' st e st' Ht Hp]; subst. rewrite last_stored_snoc. by inversion Hp.
Qed.
End Protocol.
