(* ===== verification/AsyncLoadProofs.v ===== *)
(** * Every run of a load follows the protocol

    The callbacks are any that are observed by a relation [tr] between their
    world and the trace so far: instrumented callbacks record it, and the
    trivial relation holds of all.  [post] is the rule for the calls of a run:
    what holds when they return, what holds when they fail, and the faults
    they may have. *)

From S2P Require Import Prelude Status Types Schema RealtimeDelta Snapshot Shard.
From S2P Require Import Kafka UpdateApplier ArtifactFormat MmapBacking ArtifactSafety.
From S2P Require Import AsyncLoad LoadProtocol.

(** ** The flags of the shards *)

Lemma update_flags f i n (old new : Z → ShardProgress) :
  0 ≤ i < n → (∀ j, new j = if decide (j = i) then f (old j) else old j) →
  update_shard f i (old <$> seqZ 0 n) = Ok (new <$> seqZ 0 n).
Proof.
  intros Hi Hnew. unfold update_shard.
  assert ((old <$> seqZ 0 n) !! Z.to_nat i = Some (old i)) as Hl.
  { rewrite list_lookup_fmap, lookup_seqZ_lt by lia. cbn. do 2 f_equal. lia. }
  rewrite (proj2 (at_Ok _ i (old i))) by (split; [lia|done]). cbn [obind].
  rewrite set_at_in by (unfold Zlen; rewrite length_fmap, length_seqZ; lia).
  f_equal. apply list_eq. intros k. rewrite list_lookup_fmap.
  destruct (decide (k < Z.to_nat n)%nat) as [Hk|Hk].
  - rewrite lookup_seqZ_lt by lia. cbn. rewrite Hnew, Z.add_0_l.
    destruct (decide (k = Z.to_nat i)) as [->|Hne].
    + rewrite list_lookup_insert_eq by (rewrite length_fmap, length_seqZ; lia).
      rewrite decide_True by lia. do 2 f_equal. by rewrite Z2Nat.id by lia.
    + rewrite list_lookup_insert_ne, list_lookup_fmap, lookup_seqZ_lt by lia. cbn.
      rewrite decide_False by lia. done.
  - rewrite lookup_seqZ_ge by lia. rewrite list_lookup_insert_ne by lia.
    by rewrite list_lookup_fmap, lookup_seqZ_ge by lia.
Qed.

Lemma flag_step j i : (j <? i + 1) = if decide (j = i) then true else j <? i.
Proof. case_decide; [by apply Z.ltb_lt; lia|]. destruct (Z.ltb_spec j i); lia. Qed.

Ltac flags_step :=
  intros ?; unfold shard_at; rewrite flag_step; by case_decide.

Section Counts.
Context (n : Z) (Hn : 0 ≤ n < 2 ^ 32).

Lemma note_loaded_reports l p c s :
  0 ≤ l < n → reports n l p c s →
  note_loaded l s = Ok (set_shards n (l + 1) p c (shards_at n (l + 1) p c) s).
Proof.
  intros Hl [Ht Hlo Hp Hc Hs]. unfold note_loaded. rewrite Hs, Ht, Hlo, Hp, Hc.
  unfold shards_at. rewrite (update_flags _ _ _ _ (shard_at (l + 1) p c) Hl) by flags_step.
  cbn [obind]. by rewrite wrap32_small by (unfold is_u32; lia).
Qed.

Lemma note_prewarmed_reports l p c s :
  0 ≤ p < n → reports n l p c s →
  note_prewarmed p s = Ok (set_shards n l (p + 1) c (shards_at n l (p + 1) c) s).
Proof.
  intros Hl [Ht Hlo Hp Hc Hs]. unfold note_prewarmed. rewrite Hs, Ht, Hlo, Hp, Hc.
  unfold shards_at. rewrite (update_flags _ _ _ _ (shard_at l (p + 1) c) Hl) by flags_step.
  cbn [obind]. by rewrite wrap32_small by (unfold is_u32; lia).
Qed.

Lemma note_cutover_reports l p c s :
  0 ≤ c < n → reports n l p c s →
  note_cutover c s = Ok (set_shards n l p (c + 1) (shards_at n l p (c + 1)) s).
Proof.
  intros Hl [Ht Hlo Hp Hc Hs]. unfold note_cutover. rewrite Hs, Ht, Hlo, Hp, Hc.
  unfold shards_at. rewrite (update_flags _ _ _ _ (shard_at l p (c + 1)) Hl) by flags_step.
  cbn [obind]. by rewrite wrap32_small by (unfold is_u32; lia).
Qed.

Lemma reports_set l p c s : reports n l p c (set_shards n l p c (shards_at n l p c) s).
Proof. done. Qed.

Lemma list_shards_reports s : reports 0 0 0 0 s → reports n 0 0 0 (list_shards n s).
Proof.
  intros [Ht Hl Hp Hc Hs]. split; try done. cbn. rewrite Hs. cbn.
  unfold shards_at. apply list_fmap_ext. intros k j Hk%lookup_seqZ. unfold shard_at.
  by rewrite (proj2 (Z.ltb_ge _ _)) by lia.
Qed.
End Counts.

(** ** Runs *)

Section Runs.
Context {W R : Type}.
Variable allowed : fault → Prop.
Implicit Types r : load_run W R.

Definition post {A} (Q : A → load_run W R → Prop) (X : Status → load_run W R → Prop)
    (res : StatusOr A * load_run W R) : Prop :=
  match res with
  | (Ok a, r) => Q a r
  | (Err e, r) => X e r
  | (Fault f, _) => allowed f
  end.

Lemma post_bind {A B} Q Q' X (c : stateful (load_run W R) Status A)
    (k : A → stateful (load_run W R) Status B) r :
  post Q X (c r) → (∀ a r', Q a r' → post Q' X (k a r')) → post Q' X (sbind c k r).
Proof. intros Hc Hk. unfold sbind. destruct (c r) as [[a|e|f] r']; [by apply Hk|done..]. Qed.

Lemma post_mono {A} (Q Q' : A → load_run W R → Prop) X res :
  post Q X res → (∀ a r, Q a r → Q' a r) → post Q' X res.
Proof. intros Hc Hk. destruct res as [[a|e|f] r]; [by apply Hk|done..]. Qed.

(** The loop over the shards. *)
Lemma post_for (f : Z → stateful (load_run W R) Status unit) (I : Z → load_run W R → Prop) X n r :
  0 ≤ n → I 0 r → (∀ i r', 0 ≤ i < n → I i r' → post (λ _, I (i + 1)) X (f i r')) →
  post (λ _, I n) X (sfor f (seqZ 0 n) r).
Proof.
  intros Hn H0 Hstep.
  assert (∀ k i r', 0 ≤ i → i + Z.of_nat k = n → I i r' →
    post (λ _, I n) X (sfor f (seqZ i (Z.of_nat k)) r')) as Hgen.
  { induction k as [|k IH]; intros i r' Hi Hk HI.
    - replace n with i by lia. exact HI.
    - rewrite seqZ_cons by lia. cbn [sfor]. apply (post_bind (λ _, I (i + 1))).
      + apply Hstep; [lia|done].
      + intros [] r2 H2. replace (Z.pred (Z.of_nat (S k))) with (Z.of_nat k) by lia.
        apply IH; [lia..|exact H2]. }
  specialize (Hgen (Z.to_nat n) 0 r). rewrite Z2Nat.id in Hgen by lia. by apply Hgen.
Qed.

Definition put_world (w : W) r : load_run W R :=
  MkLoadRun w (run_state r) (run_backings r) (run_tables r) (run_runner r).
End Runs.

(** ** Observed callbacks *)

(** What a stored state does to the world. *)
Definition stored {W} (cb : AsyncLoadCallbacks W) (s : LoadState) (w : W) : W :=
  match store_state cb with None => w | Some store => store s w end.

(** [tr] relates the world to what was observed so far. *)
Record observes {W} (cb : AsyncLoadCallbacks W) (tr : W → list load_event → Prop)
    (allowed : fault → Prop) : Prop := {
  ob_store : ∀ s w t, tr w t → tr (stored cb s w) (t ++ [Stored s]);
  ob_cancel : ∀ ask w t, is_cancelled cb = Some ask → tr w t → tr (ask w).2 t;
  ob_publish : ∀ publish i st w t, publish_shard cb = Some publish → tr w t →
    match publish i st w with
    | (Ok _, w') => tr w' (t ++ [Published i st true])
    | (Err _, w') => tr w' (t ++ [Published i st false])
    | (Fault f, _) => allowed f
    end;
}.

Definition call_behaves {R A} (allowed : fault → Prop)
    (c : stateful (R * tables_of) Status A) (p : R * tables_of) : Prop :=
  (∀ f, (c p).1 = Fault f → allowed f) ∧ length (c p).2.2 = length p.2.

(** What a load asks of a runner: its faults, and that it keeps the tables it
    was given. *)
Record runner_behaves {W R} `{AsyncCatchUpRunner W R} (allowed : fault → Prop) : Prop := {
  rb_create : ∀ o f, create_runner (W := W) (R := R) o = Fault f → allowed f;
  rb_start : ∀ request p, call_behaves allowed (runner_Start (W := W) request) p;
  rb_capture : ∀ p, call_behaves allowed (runner_CaptureSafeProgress (W := W)) p;
  rb_poll : ∀ (w : W) p, call_behaves allowed (runner_PollApplyCommitOnce w) p;
}.
Arguments runner_behaves W R {_} allowed.

Section Load.
Context {W R : Type} `{AsyncCatchUpRunner W R} `{SectionSort}.
Variable stat : cpp_string → sys_error + file_kind.
Variable map_file : cpp_string → map_result.
Variable page_size : Z.
Variable callbacks : AsyncLoadCallbacks W.
Variable request : LoadRequest.
Variable id : Z.
Variable options : ForwardIndexOptions.
Variable tr : W → list load_event → Prop.
Variable allowed : fault → Prop.
Hypothesis Htr : observes callbacks tr allowed.
Hypothesis Hrunner : runner_behaves W R allowed.
Hypothesis Henum : allowed UnknownEnumerator.
Hypothesis Hfile : ∀ path bytes, map_file path = Mapped bytes → is_u64 (Zlen bytes).
Hypothesis Hn : 0 ≤ options_shard_count options < 2 ^ 32.
Implicit Types r : load_run W R.

Abbreviation n := (options_shard_count options).
Abbreviation realtime := (ForwardIndexModeUsesKafkaRealtime (options_mode options)).
Abbreviation trace := (trace stat map_file request id options).
Abbreviation post := (post allowed).

(** ** How a run ends *)

(** The state names the status. *)
Definition failed_with (e : Status) (s : LoadState) : Prop :=
  (load_code s = kLoadFailed ∧ load_last_error s = str (status_message e))
  ∨ (load_code s = kLoadCancelled ∧ load_last_error s = str "load cancelled").

Definition ended (e : Status) r : Prop :=
  failed_with e (run_state r) ∧ ∃ t, tr (run_world r) t ∧ trace t (Ended (run_state r)).

(** A run in the middle, [m] shards listed. *)
Record live (m l p c : Z) (target g : KafkaProgress) r : Prop := {
  lv_trace : ∃ t, tr (run_world r) t ∧ trace t (Running l p c target g);
  lv_running : is_running id (run_state r);
  lv_reports : reports m l p c (run_state r);
  lv_listed : m = n ∨ (m = 0 ∧ l = 0 ∧ p = 0 ∧ c = 0);
}.

Lemma live_any m l p c T g r : live m l p c T g r → reports_any n l p c (run_state r).
Proof. intros [_ _ Hr [->|(-> & -> & -> & ->)]]; [by left|by right]. Qed.

Lemma StoreState_eq r :
  StoreState callbacks r = (Ok tt, put_world (stored callbacks (run_state r) (run_world r)) r).
Proof. unfold StoreState, stored. destruct (store_state callbacks); by destruct r. Qed.

Lemma update_eq {A} f s' (k : unit → stateful (load_run W R) Status A) r :
  f (run_state r) = Ok s' → sbind (update_state f) k r = k tt (with_state s' r).
Proof. intros Hf. unfold update_state, sbind, get_run, slift. by rewrite Hf. Qed.

(** Storing an observed state. *)
Lemma store_observed s w t st st' :
  tr w t → trace t st → protocol stat map_file request id options st (Stored s) st' →
  ∃ t', tr (stored callbacks s w) t' ∧ trace t' st'.
Proof.
  intros Hw Ht Hp. exists (t ++ [Stored s]).
  split; [by apply (ob_store _ _ _ Htr)|by econstructor].
Qed.

(** A step that ends with storing its state. *)
Lemma store_step (K : load_run W R → Prop) l p c T g r t st :
  tr (run_world r) t → trace t st → is_running id (run_state r) → reports n l p c (run_state r) →
  protocol stat map_file request id options st (Stored (run_state r)) (Running l p c T g) →
  (∀ w, K (put_world w r)) →
  post (λ _ r', live n l p c T g r' ∧ K r') ended (StoreState callbacks r).
Proof.
  intros Hw Ht Hr Hp Hs HK. rewrite StoreState_eq. split; [|apply HK].
  split; [by eapply store_observed|done..|by left].
Qed.

(** The state that ends a load. *)
Lemma stop_at {A} (Q : A → load_run W R → Prop) (f : LoadState → LoadState) e r t st :
  tr (run_world r) t → trace t st → failed_with e (f (run_state r)) →
  protocol stat map_file request id options st (Stored (f (run_state r))) (Ended (f (run_state r))) →
  post Q ended ((do* _ := modify_state f in do* _ := StoreState callbacks in serr e) r).
Proof.
  intros Hw Ht Hf Hp. unfold sbind at 1, modify_state. unfold sbind. rewrite StoreState_eq.
  split; [done|]. by eapply store_observed.
Qed.

Lemma stop_load {A} (Q : A → load_run W R → Prop) (f : LoadState → LoadState) e m l p c T g r :
  live m l p c T g r →
  (is_ended id (f (run_state r)) ∧ failed_with e (f (run_state r))
   ∧ ∀ m', reports m' l p c (run_state r) → reports m' l p c (f (run_state r))) →
  post Q ended ((do* _ := modify_state f in do* _ := StoreState callbacks in serr e) r).
Proof.
  intros Hl (He & Hf & Hrep). destruct (lv_trace _ _ _ _ _ _ _ Hl) as (t & Hw & Ht).
  apply (stop_at _ _ _ _ _ _ Hw Ht Hf), protocol_stop; [done| |].
  - destruct Hf as [[Hc _]|[Hc _]]; [left|right]; exact Hc.
  - destruct (live_any _ _ _ _ _ _ _ Hl) as [?|(-> & -> & -> & ?)]; [left|right]; eauto.
Qed.

Lemma fail_load_ended {A} (Q : A → load_run W R → Prop) e m l p c T g r :
  live m l p c T g r → post Q ended (fail_load callbacks e r).
Proof.
  intros Hl. apply (stop_load _ _ _ _ _ _ _ _ _ _ Hl).
  destruct (lv_running _ _ _ _ _ _ _ Hl) as (Hid & _). split_and!; [done|by left|].
  intros m' [? ? ? ? ?]. done.
Qed.

Lemma MarkCancelled_ended {A} (Q : A → load_run W R → Prop) e m l p c T g r :
  live m l p c T g r →
  post Q ended
    ((do* _ := modify_state MarkCancelled in do* _ := StoreState callbacks in serr e) r).
Proof.
  intros Hl. apply (stop_load _ _ _ _ _ _ _ _ _ _ Hl).
  destruct (lv_running _ _ _ _ _ _ _ Hl) as (Hid & _). split_and!; [done|by right|].
  intros m' [? ? ? ? ?]. done.
Qed.

(** Asking changes the world only. *)
Lemma IsCancelled_post m l p c T g r :
  live m l p c T g r →
  post (λ _ r', ∃ w, r' = put_world w r ∧ live m l p c T g r') ended (IsCancelled callbacks r).
Proof.
  intros [(t & Hw & Ht) Hr Hp Hm]. unfold IsCancelled.
  destruct (is_cancelled callbacks) as [ask|] eqn:E.
  - unfold on_world. pose proof (ob_cancel _ _ _ Htr ask _ _ E Hw) as Ha.
    destruct (ask (run_world r)) as [b w]. exists w. split; [done|]. split; [|done..]. by exists t.
  - exists (run_world r). split; [by destruct r|]. split; [|done..]. by exists t.
Qed.

Lemma CheckCancelled_post m l p c T g r :
  live m l p c T g r →
  post (λ _ r', ∃ w, r' = put_world w r ∧ live m l p c T g r') ended (CheckCancelled callbacks r).
Proof.
  intros Hl. unfold CheckCancelled. eapply post_bind; [by apply IsCancelled_post|].
  intros [] r' (w & -> & Hl'); [|by exists w].
  by eapply MarkCancelled_ended.
Qed.

(** A failing call that leaves the state alone ends the load. *)
Lemma or_fail_post {A} (Q : A → load_run W R → Prop) (c : stateful (load_run W R) Status A) r :
  post Q (λ _ r', ∃ m l p c T g, live m l p c T g r') (c r) →
  post Q ended (or_fail callbacks c r).
Proof.
  unfold or_fail. intros Hc. destruct (c r) as [[a|e|f] r']; [done| |done].
  destruct Hc as (m & l & p & c' & T & g & Hl). by eapply fail_load_ended.
Qed.

(** ** Loading and prewarming *)

Definition from_shard (i : Z) (b : MmapSnapshotBacking) : Prop :=
  ∃ b0, LoadShard stat map_file (request_artifact_uri request) i (load_options options) = Ok b0
    ∧ mmap_backing b = mmap_backing b0.

(** The first [l] backings are those of the artifact's shards; the first one
    has the progress [T]. *)
Record backed (l : Z) (T : KafkaProgress) r : Prop := {
  bk_length : Zlen (run_backings r) = l;
  bk_from : ∀ i b, run_backings r !! i = Some b → from_shard (Z.of_nat i) b;
  bk_target : ∀ b, run_backings r !! 0%nat = Some b →
    T = BuildSafeProgress (source_progress (mmap_artifact b));
}.

Definition loading (l p : Z) r : Prop :=
  run_tables r = [] ∧ ∃ T g, live n l p 0 T g r ∧ backed l T r.

Lemma LoadShard_post l p r i :
  loading l p r →
  post (λ b r', r' = r
    ∧ LoadShard stat map_file (request_artifact_uri request) i (load_options options) = Ok b) ended
    (or_fail callbacks (slift (LoadShard stat map_file (request_artifact_uri request) i
                                 (load_options options))) r).
Proof.
  intros (_ & T & g & Hl & _). apply or_fail_post. unfold slift.
  pose proof (LoadShard_any stat map_file (request_artifact_uri request) i (load_options options)
    Hfile) as Hs.
  destruct (LoadShard _ _ _ _ _) as [b|e|f]; [done|by exists n, l, p, 0, T, g|].
  by subst f.
Qed.

(** The state after the assignments that name the artifact. *)
Lemma is_running_named b i s :
  is_running id s →
  is_running id (if bool_decide (load_artifact_id s = [])
                 then set_load_artifact_id (artifact_id (mmap_artifact b)) s else s)
  ∧ is_running id (if i =? 0 then PopulateSourceProgress (source_progress (mmap_artifact b)) s else s).
Proof. intros (Hi & Hc & Ht). by destruct (bool_decide _), (i =? 0). Qed.

Lemma reports_named b i m l p c s :
  reports m l p c s →
  reports m l p c (if bool_decide (load_artifact_id s = [])
                   then set_load_artifact_id (artifact_id (mmap_artifact b)) s else s)
  ∧ reports m l p c (if i =? 0 then PopulateSourceProgress (source_progress (mmap_artifact b)) s else s).
Proof. intros [? ? ? ? ?]. by destruct (bool_decide _), (i =? 0). Qed.

Lemma backed_snoc i T T' b r r' :
  0 ≤ i → backed i T r → run_backings r' = run_backings r ++ [b] → from_shard i b →
  (T' = if i =? 0 then BuildSafeProgress (source_progress (mmap_artifact b)) else T) →
  backed (i + 1) T' r'.
Proof.
  intros Hi [Hlen Hfrom Htar] Hr Hb ->. unfold Zlen in *. split; rewrite Hr.
  - unfold Zlen. rewrite length_app. simpl. lia.
  - intros k b' [Hk|[Hge Hk]]%lookup_app_Some; [by apply Hfrom|].
    apply list_lookup_singleton_Some in Hk as [Hk <-]. by replace (Z.of_nat k) with i by lia.
  - intros b' Hb'. destruct (Z.eqb_spec i 0) as [->|].
    + destruct (run_backings r); [|simpl in Hlen; lia]. by injection Hb' as ->.
    + apply Htar. destruct (run_backings r); [simpl in Hlen; lia|done].
Qed.

Lemma load_shard_post i r :
  0 ≤ i < n → loading i 0 r →
  post (λ _, loading (i + 1) 0) ended (load_shard stat map_file callbacks request options i r).
Proof.
  intros Hi (Hts & T & g & Hl & Hb). unfold load_shard.
  eapply post_bind; [by eapply CheckCancelled_post|]. intros [] r1 (w & -> & Hl1).
  eapply post_bind; [apply LoadShard_post with (l := i) (p := 0); split; [exact Hts|exists T, g; split; [exact Hl1|by destruct Hb]]|].
  intros b r2 [-> Hload]. unfold sbind at 1, modify_state at 1. unfold sbind at 1, modify_state at 1.
  destruct (lv_trace _ _ _ _ _ _ _ Hl1) as (t & Hw & Ht).
  pose proof (lv_running _ _ _ _ _ _ _ Hl1) as Hrun. pose proof (lv_reports _ _ _ _ _ _ _ Hl1) as Hrep.
  cbn [run_state with_state] in *.
  apply (is_running_named b i) in Hrun as [Hrun _].
  apply (is_running_named b i) in Hrun as [_ Hrun].
  apply (reports_named b i) in Hrep as [Hrep _].
  apply (reports_named b i) in Hrep as [_ Hrep].
  match type of Hrun with is_running _ ?s => set (s2 := s) in * end.
  erewrite update_eq by (by apply (note_loaded_reports n Hn i 0 0 s2)).
  unfold sbind, get_run, set_backings. cbn [with_state run_backings].
  set (s3 := set_shards _ _ _ _ _ s2).
  set (T' := if i =? 0 then load_source_progress s3 else T).
  eapply post_mono; [eapply (store_step (λ r', run_tables r' = [] ∧ backed (i + 1) T' r') (i + 1) 0 0 T');
    [exact Hw|exact Ht|exact Hrun|done| |]|].
  - apply protocol_load; [lia|exact Hrun|done].
  - intros w'. split; [exact Hts|]. apply (backed_snoc i T _ b r); [lia|done|done|by exists b|].
    destruct (Z.eqb_spec i 0) as [->|]; done.
  - intros [] r' (Hlive & Ht' & Hb'). split; [done|]. eauto.
Qed.

(** Prewarming a backing changes none of its rows. *)
Lemma backed_prewarm l T (p : Z) b b' r r' :
  0 ≤ p → backed l T r → run_backings r !! Z.to_nat p = Some b →
  mmap_backing b' = mmap_backing b → mmap_artifact b' = mmap_artifact b →
  run_backings r' = <[Z.to_nat p := b']> (run_backings r) → backed l T r'.
Proof.
  intros Hp [Hlen Hfrom Htar] Hb Hback Hart Hr. unfold Zlen in *. split; rewrite Hr.
  - unfold Zlen. by rewrite length_insert.
  - intros i x [(<- & <- & _)|[_ Hx]]%list_lookup_insert_Some; [|by apply Hfrom].
    destruct (Hfrom _ _ Hb) as (b0 & Hload & Heq). exists b0. by rewrite Hback.
  - intros x [(Hi & <- & _)|[_ Hx]]%list_lookup_insert_Some; [|by apply Htar].
    rewrite Hart. apply Htar. by rewrite <-Hi.
Qed.

Lemma prewarm_shard_post p r :
  0 ≤ p < n → loading n p r →
  post (λ _, loading n (p + 1)) ended (prewarm_shard page_size callbacks p r).
Proof.
  intros Hp (Hts & T & g & Hl & Hb). unfold prewarm_shard.
  eapply post_bind; [by eapply CheckCancelled_post|]. intros [] r1 (w & -> & Hl1).
  pose proof (bk_length _ _ _ Hb) as Hlen.
  destruct (at_in (E := Status) (run_backings r) p) as (b & Hlook & Hat); [lia|].
  unfold sbind at 1 2, get_run at 1, slift at 1. cbn [put_world run_backings]. rewrite Hat.
  rewrite Prewarm_spec. rewrite set_at_in by lia.
  cbn [sbind slift set_backings or_fail].
  destruct (lv_trace _ _ _ _ _ _ _ Hl1) as (t & Hw & Ht).
  pose proof (lv_running _ _ _ _ _ _ _ Hl1) as Hrun.
  pose proof (lv_reports _ _ _ _ _ _ _ Hl1) as Hrep.
  erewrite update_eq by (by apply (note_prewarmed_reports n Hn n)).
  eapply post_mono; [eapply (store_step (λ r', run_tables r' = [] ∧ backed n T r') n (p + 1) 0 T);
    [exact Hw|exact Ht|exact Hrun|done| |]|].
  - apply protocol_prewarm; [lia|exact Hrun|done].
  - intros w'. split; [exact Hts|].
    eapply (backed_prewarm n T p b _ r); [lia|done..| | |reflexivity]; reflexivity.
  - intros [] r' (Hlive & Ht' & Hb'). split; [done|]. eauto.
Qed.

Lemma load_and_prewarm_post r :
  run_tables r = [] → run_backings r = [] →
  (∃ T g, live 0 0 0 0 T g r) →
  post (λ _, loading n n) ended
    (load_and_prewarm stat map_file page_size callbacks request options r).
Proof.
  intros Hts Hbs (T & g & [Htr' Hrun Hrep _]). unfold load_and_prewarm.
  cbn [sbind modify_state]. unfold sbind at 1, modify_state.
  eapply (post_bind allowed (λ _, loading n 0)).
  - apply (post_for allowed _ (λ i, loading i 0)); [lia| |].
    + split; [exact Hts|]. exists T, g. split.
      * split; [done|done|by apply list_shards_reports|by left].
      * split; cbn [with_state run_backings]; rewrite Hbs; [done|by intros i b Hb; rewrite lookup_nil in Hb|by intros b Hb].
    + intros i r' Hi Hr'. by apply load_shard_post.
  - intros [] r' Hr'. apply (post_for allowed _ (λ i, loading n i)); [lia|done|].
    intros i r2 Hi Hr2. by apply prewarm_shard_post.
Qed.

(** ** Publishing *)

Definition publishing (c : Z) r : Prop :=
  ∃ T g, live n n n c T g r ∧ backed n T r
    ∧ (if realtime then Zlen (run_tables r) = n ∧ caught_up T g
         ∧ load_source_progress (run_state r) = g
       else run_tables r = []).

(** The realtime table of the shard, in the modes with Kafka. *)
Lemma shard_delta_eq {A} c r (k : option RealtimeDeltaAtomicTable → stateful (load_run W R) Status A) :
  0 ≤ c < n →
  (if realtime then Zlen (run_tables r) = n else run_tables r = []) →
  ∃ delta, (realtime = true ↔ is_Some delta) ∧
    sbind (match run_tables r with
           | [] => sret None
           | _ => do* t := slift (at_ (run_tables r) c) in sret (Some t)
           end) k r = k delta r.
Proof.
  intros Hc Hts. destruct realtime.
  - destruct (at_in (E := Status) (run_tables r) c) as (t & _ & Hat); [lia|].
    exists (Some t). split; [by split|].
    destruct (run_tables r) as [|t0 ts]; [unfold Zlen in Hts; simpl in Hts; lia|].
    unfold sbind, slift. by rewrite Hat.
  - exists None. split; [split; [done|by intros []]|]. by rewrite Hts.
Qed.

Abbreviation ready := (ready stat map_file request id options).

(** Publishing a shard that is ready. *)
Lemma publish_ready publish c T g st r :
  publish_shard callbacks = Some publish → 0 ≤ c < n → live n n n c T g r →
  (realtime = true → caught_up T g) → ready c st →
  post (λ _ r', ∃ w t, r' = put_world w r ∧ tr w t ∧ trace t (Cutting c T g)) ended
    (or_fail callbacks (on_world (publish c st)) r).
Proof.
  intros Hpub Hc Hl Hup Hst. destruct (lv_trace _ _ _ _ _ _ _ Hl) as (t & Hw & Ht).
  pose proof (ob_publish _ _ _ Htr publish c st _ _ Hpub Hw) as Hp.
  unfold or_fail, on_world. destruct (publish c st (run_world r)) as [[[]|e|f] w]; [| |done].
  - exists w, (t ++ [Published c st true]). split_and!; [done..|].
    econstructor; [exact Ht|]. apply protocol_publish; [lia|done..].
  - apply (stop_at _ _ _ _ (t ++ [Published c st false]) (Refused c)); [exact Hp| |by left|].
    + econstructor; [exact Ht|]. eapply protocol_refuse; [lia|done..].
    + destruct (lv_running _ _ _ _ _ _ _ Hl) as (? & _), (lv_reports _ _ _ _ _ _ _ Hl).
      by apply protocol_refused.
Qed.

(** Publishing it and noting it. *)
Lemma cut_over_ready publish c T g st r :
  publish_shard callbacks = Some publish → 0 ≤ c < n → live n n n c T g r → backed n T r →
  (if realtime then Zlen (run_tables r) = n ∧ caught_up T g
     ∧ load_source_progress (run_state r) = g
   else run_tables r = []) →
  ready c st →
  post (λ _, publishing (c + 1)) ended
    ((do* _ := or_fail callbacks (on_world (publish c st)) in
      do* _ := update_state (note_cutover c) in
      StoreState callbacks) r).
Proof.
  intros Hpub Hc Hl Hb Hts Hst.
  pose proof (lv_running _ _ _ _ _ _ _ Hl) as Hrun. pose proof (lv_reports _ _ _ _ _ _ _ Hl) as Hrep.
  assert (realtime = true → caught_up T g ∧ load_source_progress (run_state r) = g) as Hup
    by (intros E; rewrite E in Hts; tauto).
  eapply post_bind; [apply (publish_ready _ _ T g); [done..|intros ?; by apply Hup|done]|].
  intros [] r' (w & t & -> & Hw & Ht).
  rewrite (update_eq _ (set_shards n n n (c + 1) (shards_at n n n (c + 1)) (run_state r)));
    [|by apply (note_cutover_reports n Hn)].
  eapply post_mono; [eapply (store_step (λ r', backed n T r' ∧
      (if realtime then Zlen (run_tables r') = n ∧ caught_up T g
         ∧ load_source_progress (run_state r') = g
       else run_tables r' = []))
    n n (c + 1) T); [exact Hw|exact Ht|exact Hrun|done| |]|].
  - apply protocol_cut_over; [exact Hrun|done|intros ?; by apply Hup].
  - intros w'. split; [by destruct Hb|exact Hts].
  - intros [] r' (Hlive & Hb' & Hts'). eexists T, _.
    split_and!; [exact Hlive|done|]. destruct realtime; [|done].
    destruct Hts' as (? & ? & ?), (Hup eq_refl) as [_ Hg]. cbn. by rewrite Hg.
Qed.

Lemma publish_one_post publish c r :
  publish_shard callbacks = Some publish → 0 ≤ c < n → publishing c r →
  post (λ _, publishing (c + 1)) ended (publish_one callbacks id publish c r).
Proof.
  intros Hpub Hc (T & g & Hl & Hb & Hts). unfold publish_one.
  eapply post_bind; [by eapply CheckCancelled_post|]. intros [] r1 (w & -> & Hl1).
  destruct (at_in (E := Status) (run_backings r) c) as (b & Hlook & Hat);
    [rewrite (bk_length _ _ _ Hb); lia|].
  unfold sbind at 1 2, get_run at 1, slift at 1. cbn [put_world run_backings]. rewrite Hat.
  unfold sbind at 1, get_run at 1.
  match goal with |- context [sbind _ ?k _] =>
    destruct (shard_delta_eq c (put_world w r) k Hc) as (delta & Hdelta & ->) end.
  { destruct realtime; [apply Hts|exact Hts]. }
  apply (cut_over_ready _ _ T g); [done..|by destruct Hb|exact Hts|].
  split; [done..|].
  destruct (bk_from _ _ _ Hb _ _ Hlook) as (b0 & Hload & Heq). rewrite Z2Nat.id in Hload by lia.
  exists b0. split; [done|]. cbn. by rewrite Heq.
Qed.

Lemma publish_all_post publish r :
  publish_shard callbacks = Some publish → publishing 0 r →
  post (λ _ r', load_code (run_state r') = kLoadSucceeded
    ∧ ∃ t, tr (run_world r') t ∧ trace t (Ended (run_state r'))) ended
    (publish_all callbacks id options publish r).
Proof.
  intros Hpub Hr. unfold publish_all. eapply (post_bind allowed (λ _, publishing n)).
  { apply (post_for allowed _ publishing); [lia|done|]. intros i r' Hi Hr'. by apply publish_one_post. }
  intros [] r' (T & g & Hl & Hb & Hts). unfold succeed, sbind, modify_state. rewrite StoreState_eq.
  destruct (lv_trace _ _ _ _ _ _ _ Hl) as (t & Hw & Ht).
  destruct (lv_running _ _ _ _ _ _ _ Hl) as (Hid & _), (lv_reports _ _ _ _ _ _ _ Hl).
  split; [done|]. eapply store_observed; [exact Hw|exact Ht|].
  apply (protocol_succeed _ _ _ _ _ T g); [done..|]. intros E. rewrite E in Hts. split; apply Hts.
Qed.

(** ** Catching up *)

Definition follows (T g : KafkaProgress) : Prop :=
  Forall2 (λ e e', progress_partition e' = progress_partition e
    ∧ high_watermark e ≤ high_watermark e') (progress_partitions T) (progress_partitions g).

Lemma follows_refl T : follows T T.
Proof. unfold follows. induction (progress_partitions T); constructor; [|done]. split; [done|lia]. Qed.

Lemma follows_trans T g g' : follows T g → follows g g' → follows T g'.
Proof.
  unfold follows. generalize (progress_partitions T) (progress_partitions g) (progress_partitions g').
  intros l1 l2 l3 H1. revert l3. induction H1 as [|x y l1 l2 [Hp Hh] _ IH]; intros l3 H2.
  - inversion H2. constructor.
  - inversion H2 as [|? z ? l3' [Hp' Hh'] H3]; subst. constructor; [|by apply IH].
    split; [congruence|lia].
Qed.

(** The observed progress follows its target. *)
Lemma UpdateObserved_follows target observed u :
  UpdateObservedSafeProgress target observed = Ok u → follows target u.
Proof.
  unfold UpdateObservedSafeProgress, follows.
  destruct (progress_partitions target) as [|e es]; [done|].
  intros (l & Hl & [= <-])%obind_Ok. apply omapM_Ok in Hl. cbn [progress_partitions].
  eapply Forall2_impl; [exact Hl|]. intros x y (o & Ho & [= <-])%obind_Ok. cbn. split; [done|lia].
Qed.

Lemma UpdateObserved_no_fault target observed :
  no_fault (UpdateObservedSafeProgress target observed).
Proof.
  unfold UpdateObservedSafeProgress. destruct (progress_partitions target) as [|e es]; [done|].
  apply no_fault_bind; [|done]. apply omapM_no_fault. intros x _. unfold observe_entry, FindProgress.
  by destruct (find _ _).
Qed.

Lemma not_required_caught_up T g : follows T g → CatchUpRequired g = false → caught_up T g.
Proof.
  unfold CatchUpRequired, caught_up, follows.
  induction 1 as [|x y l k [Hp Hh] _ IH]; [constructor|]. cbn [existsb].
  intros [Hx Hrest]%orb_false_iff. btoprop. constructor; [|by apply IH]. split; [done|lia].
Qed.

(** A run in the middle of the catch-up. *)
Record catching (T g : KafkaProgress) r : Prop := {
  ct_live : live n n n 0 T g r;
  ct_backed : backed n T r;
  ct_tables : Zlen (run_tables r) = n;
  ct_runner : is_Some (run_runner r);
}.

Lemma on_runner_post {A} (c : W → stateful (R * tables_of) Status A) T g r :
  (∀ w p, call_behaves allowed (c w) p) → catching T g r →
  post (λ _ r', catching T g r' ∧ run_state r' = run_state r)
    (λ _ r', catching T g r' ∧ run_state r' = run_state r) (on_runner c r).
Proof.
  intros Hc [[(t & Hw & Ht) Hrun Hrep Hm] [Hlen Hfrom Htar] Hts [k Hk]]. unfold on_runner. rewrite Hk.
  destruct (Hc (run_world r) (k, run_tables r)) as [Hf Hl].
  assert (∀ r', run_world r' = run_world r → run_state r' = run_state r →
    run_backings r' = run_backings r → Zlen (run_tables r') = n → is_Some (run_runner r') →
    catching T g r') as Hsame.
  { intros r' Ew Es Eb Et Er. split; [|by split; rewrite Eb|done..].
    split; rewrite ?Ew, ?Es; [by exists t|done..]. }
  destruct (c (run_world r) (k, run_tables r)) as [[a|e|f] [k' ts]]; cbn [fst snd] in Hl.
  - split; [|done]. apply Hsame; cbn; [done..| |done]. unfold Zlen in *. lia.
  - split; [|done]. apply Hsame; cbn; [done..| |done]. unfold Zlen in *. lia.
  - by apply Hf.
Qed.

Lemma catching_world T g w r :
  live n n n 0 T g (put_world w r) → catching T g r → catching T g (put_world w r).
Proof. intros Hl [_ [? ? ?] ? ?]. by split. Qed.

(** Progress that follows the artifact's, as stored. *)
Definition observing (T g : KafkaProgress) r : Prop :=
  catching T g r ∧ load_source_progress (run_state r) = g ∧ follows T g.

Lemma observe_progress_post target T g r :
  realtime = true → catching T g r → follows T target →
  post (λ _ r', ∃ g', observing T g' r') ended (observe_progress callbacks target r).
Proof.
  intros Hreal Hr Hfol. unfold observe_progress.
  eapply (post_bind allowed (λ _, catching T g)).
  { apply or_fail_post. pose proof (on_runner_post (λ _, runner_CaptureSafeProgress) T g r
      (λ _, rb_capture _ Hrunner) Hr) as Hc.
    destruct (on_runner _ r) as [[o|e|f] r']; [apply Hc| |exact Hc].
    exists n, n, n, 0, T, g. apply Hc. }
  intros observed r' Hr'. unfold sbind at 1, or_fail, slift.
  pose proof (UpdateObserved_no_fault target observed) as Hnf.
  destruct (UpdateObservedSafeProgress target observed) as [u|e|f] eqn:Eu; [| |done].
  2:{ eapply (post_bind allowed (λ _ _, False)); [|done]. by eapply fail_load_ended, ct_live. }
  cbn [sbind modify_state]. unfold sbind, modify_state.
  destruct Hr' as [Hl Hb Hts Hk]. destruct (lv_trace _ _ _ _ _ _ _ Hl) as (t & Hw & Ht).
  pose proof (lv_running _ _ _ _ _ _ _ Hl) as Hrun. pose proof (lv_reports _ _ _ _ _ _ _ Hl) as Hrep.
  eapply post_mono; [eapply (store_step (λ r2, backed n T r2 ∧ Zlen (run_tables r2) = n
      ∧ is_Some (run_runner r2) ∧ load_source_progress (run_state r2) = u) n n 0 T u);
    [exact Hw|exact Ht|exact Hrun|by destruct Hrep| |]|].
  - apply (protocol_catch_up _ _ _ _ _ T g); [done|exact Hrun|by destruct Hrep].
  - intros w. split; [by destruct Hb|done].
  - intros [] r2 (Hlive & Hb2 & Hts2 & Hk2 & Hp2). exists u. split; [by split|]. split; [done|].
    by eapply follows_trans, UpdateObserved_follows.
Qed.

Lemma fail_poll_ended {A} (Q : A → load_run W R → Prop) e m l p c T g r :
  live m l p c T g r → post Q ended (fail_poll callbacks e r).
Proof.
  intros Hl. unfold fail_poll.
  eapply (post_bind allowed (λ _ r', live m l p c T g r')).
  { destruct (bool_decide _); [exact Hl|]. eapply post_mono; [by apply (IsCancelled_post m l p c T g)|].
    by intros b r' (w & -> & Hl'). }
  intros [] r' Hl'.
  - by eapply MarkCancelled_ended.
  - exact (fail_load_ended Q e _ _ _ _ _ _ _ Hl').
Qed.

Lemma poll_once_post T g r :
  catching T g r →
  post (λ _ r', catching T g r' ∧ run_state r' = run_state r) ended (poll_once callbacks r).
Proof.
  intros Hr. unfold poll_once.
  pose proof (on_runner_post runner_PollApplyCommitOnce T g r (rb_poll _ Hrunner) Hr) as Hp.
  destruct (on_runner _ r) as [[a|e|f] r']; [exact Hp| |exact Hp].
  destruct Hp as [Hp _]. by eapply fail_poll_ended, ct_live.
Qed.

Lemma CheckCancelled_catching T g r :
  catching T g r →
  post (λ _ r', ∃ w, r' = put_world w r ∧ catching T g r') ended (CheckCancelled callbacks r).
Proof.
  intros Hr. eapply post_mono; [by eapply CheckCancelled_post, ct_live|].
  intros [] r' (w & -> & Hl). exists w. split; [done|by apply catching_world].
Qed.

Lemma catch_up_round_post T g r :
  realtime = true → observing T g r →
  post (λ _ r', ∃ g', observing T g' r') ended (catch_up_round callbacks r).
Proof.
  intros Hreal (Hr & Hg & Hfol). unfold catch_up_round.
  eapply post_bind; [by apply CheckCancelled_catching|]. intros [] r1 (w & -> & Hr1).
  eapply post_bind; [by apply poll_once_post|]. intros [] r2 [Hr2 Hs2].
  unfold sbind, get_run. eapply observe_progress_post; [done|exact Hr2|]. rewrite Hs2. cbn. by rewrite Hg.
Qed.

(** What the loop promises when [fuel] rounds are enough for it. *)
Definition loop_behaves (fuel : nat) : Prop := ∀ T g r,
  realtime = true → observing T g r →
  post (λ _ r', ∃ g', observing T g' r' ∧ CatchUpRequired g' = false) ended
    (catch_up_loop callbacks fuel r).

Lemma catch_up_loop_post fuel : allowed Diverges → loop_behaves fuel.
Proof.
  intros Hdiv T g r Hreal. revert g r. induction fuel as [|fuel IH]; intros g r Hr; cbn [catch_up_loop];
    unfold sbind at 1, get_run; destruct (CatchUpRequired _) eqn:E.
  - exact Hdiv.
  - exists g. split; [done|]. destruct Hr as (_ & <- & _). done.
  - eapply post_bind; [by apply (catch_up_round_post T g)|]. intros [] r' (g' & Hr'). by apply (IH g').
  - exists g. split; [done|]. destruct Hr as (_ & <- & _). done.
Qed.

(** The runner replays what is behind the artifact. *)
Lemma replay_post (start : W → stateful (R * tables_of) Status unit) T g fuel r :
  loop_behaves fuel → realtime = true → (∀ w p, call_behaves allowed (start w) p) → catching T g r →
  post (λ _, publishing 0) ended
    ((do* _ := or_fail callbacks (on_runner start) in
      do* _ := CheckCancelled callbacks in
      do* _ := observe_progress callbacks T in
      do* _ := catch_up_loop callbacks fuel in
      CheckCancelled callbacks) r).
Proof.
  intros Hloop Hreal Hstart Hr. eapply (post_bind allowed (λ _, catching T g)).
  { apply or_fail_post. pose proof (on_runner_post start T g r Hstart Hr) as Hp.
    destruct (on_runner _ r) as [[o|e|f] r']; [apply Hp| |exact Hp].
    exists n, n, n, 0, T, g. apply Hp. }
  intros [] r1 Hr1. eapply post_bind; [by apply CheckCancelled_catching|].
  intros [] r2 (w & -> & Hr2).
  eapply post_bind; [eapply observe_progress_post; [done|exact Hr2|apply follows_refl]|].
  intros [] r3 (g3 & Hr3). eapply post_bind; [by apply (Hloop T g3)|].
  intros [] r4 (g4 & (Hr4 & Hg4 & Hfol) & Hreq).
  eapply post_mono; [by apply CheckCancelled_catching|]. intros [] r5 (w5 & -> & [Hl Hb Hts _]).
  exists T, g4. rewrite Hreal. split_and!; [done|done|done|by apply not_required_caught_up|done].
Qed.

(** From warm shards to replayed updates. *)
Lemma catch_up_post front fuel r :
  loop_behaves fuel → 0 < n → realtime = true → loading n n r → run_backings r !! 0%nat = Some front →
  post (λ _, publishing 0) ended (catch_up callbacks id options front fuel r).
Proof.
  intros Hloop Hpos Hreal (Hts & T & g & Hl & Hb) Hfront. unfold catch_up.
  pose proof (bk_target _ _ _ Hb _ Hfront) as HT.
  set (ts := CreateRealtimeShards _ _). assert (Zlen ts = n) as Hlen.
  { unfold ts, CreateRealtimeShards, Zlen. rewrite length_fmap, length_seqZ. lia. }
  cbn [sbind set_tables]. unfold sbind at 1, set_tables. set (r1 := MkLoadRun _ _ _ ts _).
  assert (live n n n 0 T g r1 ∧ backed n T r1) as [Hl1 Hb1] by (split; [by destruct Hl|by destruct Hb]).
  eapply (post_bind allowed (λ _ r', r' = r1)).
  { apply or_fail_post. unfold slift. destruct (create_runner options) as [k|e|f] eqn:Ek; [done| |].
    - by exists n, n, n, 0, T, g.
    - by apply (rb_create _ Hrunner options). }
  intros k r' ->. cbn [sbind set_runner modify_state].
  unfold sbind at 1, set_runner. unfold sbind at 1, modify_state.
  destruct (lv_trace _ _ _ _ _ _ _ Hl1) as (t & Hw & Ht).
  pose proof (lv_running _ _ _ _ _ _ _ Hl1) as Hrun. pose proof (lv_reports _ _ _ _ _ _ _ Hl1) as Hrep.
  set (r2 := with_state _ _).
  eapply (post_bind allowed (λ _ r', ∃ g', catching T g' r')).
  { eapply post_mono; [eapply (store_step (λ r', backed n T r' ∧ Zlen (run_tables r') = n
        ∧ is_Some (run_runner r')) n n 0 T _ r2); [exact Hw|exact Ht|exact Hrun|by destruct Hrep| |]|].
    - apply (protocol_catch_up _ _ _ _ _ T g); [done|exact Hrun|by destruct Hrep].
    - intros w. split; [by destruct Hb1|done].
    - intros [] r' (Hlive & ? & ? & ?). eexists. by split. }
  intros [] r3 (g' & Hr3). rewrite <-HT. eapply replay_post; [done..| |exact Hr3].
  intros _. apply Hrunner.
Qed.

(** ** The whole run *)

Lemma cut_over_post publish fuel r :
  loop_behaves fuel → publish_shard callbacks = Some publish → 0 < n → loading n n r →
  post (λ _ r', load_code (run_state r') = kLoadSucceeded
    ∧ ∃ t, tr (run_world r') t ∧ trace t (Ended (run_state r'))) ended
    (cut_over callbacks id options publish fuel r).
Proof.
  intros Hloop Hpub Hpos Hr. unfold cut_over. destruct realtime eqn:Hreal; cbn [negb].
  - pose proof Hr as (Hts & T & g & Hl & Hb).
    destruct (at_in (E := Status) (run_backings r) 0) as (front & Hlook & Hat);
      [rewrite (bk_length _ _ _ Hb); lia|].
    unfold sbind at 1 2, get_run, slift. rewrite Hat.
    destruct (source_progress _); [by eapply fail_load_ended|].
    eapply post_bind; [by apply catch_up_post|]. intros [] r' Hr'. by apply publish_all_post.
  - destruct Hr as (Hts & T & g & Hl & Hb). unfold sbind, modify_state.
    apply publish_all_post; [done|]. exists T, g. rewrite Hreal.
    split_and!; [|by destruct Hb|exact Hts]. destruct Hl as [Htrace Hrun Hrep Hm].
    split; [exact Htrace|exact Hrun|by destruct Hrep|done].
Qed.

Lemma run_load_behaves fuel r :
  loop_behaves fuel → 0 < n → tr (run_world r) [] → run_tables r = [] → run_backings r = [] →
  post (λ _ r', load_code (run_state r') = kLoadSucceeded
    ∧ ∃ t, tr (run_world r') t ∧ trace t (Ended (run_state r'))) ended
    (run_load stat map_file page_size callbacks request id options fuel r).
Proof.
  intros Hloop Hpos Hw Hts Hbs. unfold run_load. cbn [sbind modify_state]. unfold sbind at 1, modify_state.
  set (r1 := with_state _ r). set (no := MkKafkaProgress []).
  eapply (post_bind allowed (λ _ r', live 0 0 0 0 no no r' ∧ run_tables r' = [] ∧ run_backings r' = [])).
  { rewrite StoreState_eq. split; [|by split]. split; [|done|done|by right].
    eapply (store_observed (run_state r1) _ []); [exact Hw|constructor|by apply protocol_start]. }
  intros [] r2 (Hl & Hts2 & Hbs2). destruct (bool_decide _); [by eapply fail_load_ended|].
  destruct (publish_shard callbacks) as [publish|] eqn:Hpub; [|by eapply fail_load_ended].
  eapply post_bind; [by eapply CheckCancelled_post|]. intros [] r3 (w & -> & Hl3).
  eapply post_bind; [apply load_and_prewarm_post; [exact Hts2|exact Hbs2|by exists no, no]|].
  intros [] r4 Hr4. by apply cut_over_post.
Qed.

Lemma run_load_post fuel r :
  allowed Diverges → 0 < n → tr (run_world r) [] → run_tables r = [] → run_backings r = [] →
  post (λ _ r', load_code (run_state r') = kLoadSucceeded
    ∧ ∃ t, tr (run_world r') t ∧ trace t (Ended (run_state r'))) ended
    (run_load stat map_file page_size callbacks request id options fuel r).
Proof. intros Hdiv. apply run_load_behaves. by apply catch_up_loop_post. Qed.
End Load.
