(* ===== verification/AsyncLoadTheorems.v ===== *)
(** * What loading an artifact guarantees

    Every load follows the protocol, reports what it did, publishes a shard
    only when it is ready, and its catch-up ends when the updates it waits for
    do.  A consumer group that is ahead of the artifact skips the catch-up. *)

From S2P Require Import Prelude Status Types Schema RealtimeDelta RealtimeTable Snapshot Shard.
From S2P Require Import Kafka UpdateApplier.
From S2P Require Import UpdateCoordinator ArtifactFormat MmapBacking AsyncLoad CatchUpRunner.
From S2P Require Import LoadProtocol AsyncLoadProofs.

(** ** Recording callbacks *)

(** Callbacks that also keep what was observed. *)
Definition observe {W} (cb : AsyncLoadCallbacks W) : AsyncLoadCallbacks (W * list load_event) :=
  MkAsyncLoadCallbacks
    ((λ publish i st v,
        let '(x, w) := publish i st v.1 in
        (x, (w, v.2 ++ [Published i st (match x with Ok _ => true | _ => false end)])))
     <$> publish_shard cb)
    (Some (λ s v, (stored cb s v.1, v.2 ++ [Stored s])))
    ((λ ask v, let '(b, w) := ask v.1 in (b, (w, v.2))) <$> is_cancelled cb)
    ((λ flag v, flag v.1) <$> callbacks_cancellation cb).

(** The faults of the publish callback. *)
Definition publish_faults {W} (cb : AsyncLoadCallbacks W) (allowed : fault → Prop) : Prop :=
  ∀ publish i st w f, publish_shard cb = Some publish → (publish i st w).1 = Fault f → allowed f.

Lemma observe_observes {W} (cb : AsyncLoadCallbacks W) allowed :
  publish_faults cb allowed → observes (observe cb) (λ v t, v.2 = t) allowed.
Proof.
  intros Hp. split.
  - by intros s [w t0] t <-.
  - intros ask [w t0] t (ask' & Ha & ->)%fmap_Some <-. cbn. by destruct (ask' w).
  - intros publish i st [w t0] t (publish' & Hpub & ->)%fmap_Some <-. cbn.
    pose proof (Hp publish' i st w) as Hf. destruct (publish' i st w) as [[a|e|f] w']; cbn in *; auto.
Qed.

Lemma unobserved {W} (cb : AsyncLoadCallbacks W) allowed :
  publish_faults cb allowed → observes cb (λ _ _, True) allowed.
Proof.
  intros Hp. split; [done..|]. intros publish i st w t Hpub _.
  pose proof (Hp publish i st w) as Hf. destruct (publish i st w) as [[a|e|f] w']; cbn in *; auto.
Qed.

(** ** Every load *)

Section Theorems.
Context {W R : Type} `{SectionSort}.
Variable stat : cpp_string → sys_error + file_kind.
Variable map_file : cpp_string → map_result.
Variable page_size : Z.
Variable callbacks : AsyncLoadCallbacks W.
Variable request : LoadRequest.
Variable id : Z.
Variable options : ForwardIndexOptions.
Variable allowed : fault → Prop.
Hypothesis Hpublish : publish_faults callbacks allowed.
Hypothesis Hfaults : allowed UnknownEnumerator ∧ allowed Diverges.
Hypothesis Hfile : ∀ path bytes, map_file path = Mapped bytes → is_u64 (Zlen bytes).
Hypothesis Hn : 0 < options_shard_count options < 2 ^ 32.

Abbreviation n := (options_shard_count options).

(** What a load returns, and the trace it leaves. *)
Definition load_result `{AsyncCatchUpRunner (W * list load_event) R} (fuel : nat) (s : LoadState) (w : W)
    : StatusM * (option LoadState * (W * list load_event)) :=
  RunExternalArtifactLoad stat map_file page_size (observe callbacks) request id options fuel
    (Some s, (w, [])).

Lemma load_follows_protocol `{AsyncCatchUpRunner (W * list load_event) R} fuel s0 w
    (Hrunner : runner_behaves (W * list load_event) R allowed) :
  match load_result fuel s0 w with
  | (Ok _, (Some s, (_, t))) =>
      load_code s = kLoadSucceeded ∧ trace stat map_file request id options t (Ended s)
  | (Err e, (Some s, (_, t))) =>
      failed_with e s ∧ trace stat map_file request id options t (Ended s)
  | (Fault f, _) => allowed f
  | _ => False
  end.
Proof.
  unfold load_result, RunExternalArtifactLoad. cbn [fst snd].
  pose proof (run_load_post stat map_file page_size (observe callbacks) request id options
    (λ v t, v.2 = t) allowed (observe_observes _ _ Hpublish) Hrunner (proj1 Hfaults) Hfile ltac:(lia) fuel
    (MkLoadRun (w, []) s0 [] [] None) (proj2 Hfaults) ltac:(lia) eq_refl eq_refl eq_refl) as Hp.
  destruct (run_load _ _ _ _ _ _ _ _ _) as [[[]|e|f] [[w' t'] s bs ts k]];
    cbn in *; [| |done].
  - destruct Hp as (Hc & t & <- & Ht). done.
  - destruct Hp as (Hc & t & <- & Ht). done.
Qed.

Lemma load_reports `{AsyncCatchUpRunner W R} fuel s0 w (Hrunner : runner_behaves W R allowed) :
  match RunExternalArtifactLoad stat map_file page_size callbacks request id options fuel
          (Some s0, w) with
  | (Ok _, (Some s, _)) => is_ended id s ∧ load_code s = kLoadSucceeded ∧ reports n n n n s
  | (Err e, (Some s, _)) =>
      is_ended id s ∧ failed_with e s
      ∧ ∃ l p c, counts_ok options l p c ∧ reports_any n l p c s
  | (Fault f, _) => allowed f
  | _ => False
  end.
Proof.
  unfold RunExternalArtifactLoad. cbn [fst snd].
  pose proof (run_load_post stat map_file page_size callbacks request id options
    (λ _ _, True) allowed (unobserved _ _ Hpublish) Hrunner (proj1 Hfaults) Hfile ltac:(lia) fuel
    (MkLoadRun w s0 [] [] None) (proj2 Hfaults) ltac:(lia) I eq_refl eq_refl) as Hp.
  destruct (run_load _ _ _ _ _ _ _ _ _) as [[[]|e|f] [w' s bs ts k]]; cbn in *; [| |done].
  - destruct Hp as (Hc & t & _ & [He Hr]%trace_ok); [|lia]. rewrite decide_True in Hr by done. done.
  - destruct Hp as (Hc & t & _ & [He Hr]%trace_ok); [|lia].
    rewrite decide_False in Hr; [done|]. destruct Hc as [[-> _]|[-> _]]; done.
Qed.
End Theorems.

(** ** The runner over Kafka *)

(** Calls that keep the number of realtime tables, [f] of the state. *)
Definition keeps_tables {S A} (f : S → tables_of) (c : stateful S Status A) : Prop :=
  ∀ s, length (f (c s).2) = length (f s).

Lemma keeps_tables_bind {S A B} f (c : stateful S Status A) (k : A → stateful S Status B) :
  keeps_tables f c → (∀ a, keeps_tables f (k a)) → keeps_tables f (sbind c k).
Proof.
  intros Hc Hk s. unfold sbind. specialize (Hc s). destruct (c s) as [[a|e|x] s']; cbn in *; [|done..].
  by rewrite Hk.
Qed.

Lemma keeps_tables_lift {S A} (f : S → tables_of) (c : StatusOr A) : keeps_tables f (slift c).
Proof. done. Qed.

Lemma keeps_tables_sfor {S A} f (body : A → stateful S Status unit) l :
  (∀ x, keeps_tables f (body x)) → keeps_tables f (sfor body l).
Proof.
  intros Hb. induction l as [|x l IH]; cbn [sfor]; [done|]. by apply keeps_tables_bind.
Qed.

Lemma publish_prepared_keeps p : keeps_tables (λ ts, ts) (publish_prepared p).
Proof.
  intros ts. unfold publish_prepared. destruct (prepared_table p) as [i|]; [|done].
  destruct (ts !! i) as [t|]; [|done]. destruct (Publish _ _ _ t) as [x t']. apply length_insert.
Qed.

Lemma ApplyBatch_keeps applier batch : keeps_tables (λ ts, ts) (ApplyBatch applier batch).
Proof.
  apply keeps_tables_sfor. intros m. unfold Apply.
  do 4 (apply keeps_tables_bind; [apply keeps_tables_lift|intros ?]). apply keeps_tables_sfor, publish_prepared_keeps.
Qed.

Lemma PollApplyCommitOnce_keeps {C} `{KafkaClient C} o applier :
  keeps_tables snd (PollApplyCommitOnce (C := C) o applier).
Proof.
  assert (∀ A (c : stateful (KafkaUpdateConsumer C) Status A), keeps_tables snd (on_consumer c)) as Hk.
  { intros A c [[k|] ts]; unfold on_consumer; cbn; [|done]. by destruct (c k). }
  unfold PollApplyCommitOnce. apply keeps_tables_bind; [by intros [[k|] ts]|]. intros _.
  destruct applier as [applier|]; [|done]. apply keeps_tables_bind; [apply keeps_tables_lift|]. intros _.
  apply keeps_tables_bind; [apply Hk|]. intros [|m batch]; [done|].
  do 2 (apply keeps_tables_bind; [apply keeps_tables_lift|intros ?]). apply keeps_tables_bind; [|intros _; apply Hk].
  intros [k ts]. pose proof (ApplyBatch_keeps applier (m :: batch) ts) as Ha.
  unfold on_tables. cbn [snd] in *. by destruct (ApplyBatch applier (m :: batch) ts).
Qed.

Lemma production_behaves {W C} `{KafkaClient C} create_consumer :
  @runner_behaves W (ProductionCatchUpRunner W C) (production_runner create_consumer) (λ _, True).
Proof.
  assert (∀ A (c : stateful (KafkaUpdateConsumer C) Status A),
    keeps_tables snd (on_runner_consumer (W := W) c)) as Hk.
  { intros A c [k ts]. unfold on_runner_consumer. cbn. by destruct (c (consumer_ k)). }
  split; [done|..].
  - intros request [k ts]. split; [done|].
    assert (keeps_tables snd (Production_Start (C := C) request)) as Hs; [|apply Hs].
    unfold Production_Start. apply keeps_tables_bind; [done|]. intros _.
    destruct (progress_partitions _); [done|]. apply keeps_tables_bind; [apply Hk|done].
  - intros [k ts]. split; [done|]. cbn. unfold Production_CaptureSafeProgress. cbn.
    destruct (coordinator_ k); [|done]. apply Hk.
  - intros w [k ts]. split; [done|]. cbn. unfold Production_PollApplyCommitOnce. cbn.
    destruct (coordinator_ k) as [o|]; [|done]. destruct (from_option _ _ _); [done|].
    pose proof (PollApplyCommitOnce_keeps o (applier_ k) (Some (consumer_ k), ts)) as Hp.
    unfold run_coordinator. cbn [fst snd] in *. by destruct (PollApplyCommitOnce _ _ _) as [x [k' ts']].
Qed.

(** ** The catch-up ends *)

Definition below (goal : KafkaPartition → Z) (g : KafkaProgress) : Prop :=
  Forall (λ e, high_watermark e ≤ goal (progress_partition e)) (progress_partitions g).

(** A runner with [left_over] polls to go until the positions [goal], which
    the high watermarks do not pass, are committed. *)
Record drains {W R} `{AsyncCatchUpRunner W R} (left_over : R * tables_of → nat)
    (goal : KafkaPartition → Z) : Prop := {
  dr_create : ∀ o, create_runner (W := W) (R := R) o ≠ Fault Diverges;
  dr_start : ∀ request p, (runner_Start (W := W) request p).1 ≠ Fault Diverges;
  dr_poll : ∀ (w : W) p,
    match runner_PollApplyCommitOnce w p with
    | (Ok _, p') => (left_over p' ≤ pred (left_over p))%nat
    | (Err _, _) => True
    | (Fault f, _) => f ≠ Diverges
    end;
  dr_capture : ∀ p,
    match runner_CaptureSafeProgress (W := W) p with
    | (Ok g, p') => (left_over p' ≤ left_over p)%nat ∧ below goal g
        ∧ (left_over p = 0%nat →
           Forall (λ e, goal (progress_partition e) ≤ committed_next_offset e) (progress_partitions g))
    | (Err _, _) => True
    | (Fault f, _) => f ≠ Diverges
    end;
}.
Arguments drains W R {_} left_over goal.

Section Draining.
Context {W R : Type} `{AsyncCatchUpRunner W R}.
Variable callbacks : AsyncLoadCallbacks W.
Variable left_over : R * tables_of → nat.
Variable goal : KafkaPartition → Z.
Hypothesis Hdrains : drains W R left_over goal.

Implicit Types r : load_run W R.

Abbreviation ends Q c := (post (λ f, f ≠ Diverges) Q (λ _ _, True) c).

Definition waiting (j : nat) (r : load_run W R) : Prop :=
  ∃ k, run_runner r = Some k ∧ (left_over (k, run_tables r) ≤ j)%nat.

Lemma fail_load_ends {A} (Q : A → load_run W R → Prop) e r : ends Q (fail_load callbacks e r).
Proof. unfold fail_load, sbind, modify_state. by rewrite StoreState_eq. Qed.

Lemma CheckCancelled_ends r :
  ends (λ _ r', ∃ w, r' = put_world w r) (CheckCancelled callbacks r).
Proof.
  unfold CheckCancelled, IsCancelled, sbind, modify_state.
  destruct (is_cancelled callbacks) as [ask|]; [|exists (run_world r); by destruct r].
  unfold on_world. destruct (ask (run_world r)) as [[] w]; [by rewrite StoreState_eq|by exists w].
Qed.

Lemma FindProgress_Ok g p e : FindProgress g p = Ok e → e ∈ progress_partitions g ∧ progress_partition e = p.
Proof.
  unfold FindProgress. destruct (find _ _) as [x|] eqn:E; [|done]. intros [= <-].
  apply find_some in E as [Hin [Ht Hn]%andb_true_iff]. apply bool_decide_eq_true in Ht. btoprop.
  split; [by apply list_elem_of_In|]. destruct (progress_partition x), p. cbn in *. by subst.
Qed.

(** The merged progress stays below the goal, and is caught up when the
    observed one has reached it. *)
Lemma merged_below target observed u :
  below goal target → below goal observed → UpdateObservedSafeProgress target observed = Ok u →
  below goal u ∧
  (Forall (λ e, goal (progress_partition e) ≤ committed_next_offset e) (progress_partitions observed) →
   CatchUpRequired u = false).
Proof.
  unfold below, CatchUpRequired, UpdateObservedSafeProgress. intros Ht Ho.
  destruct (progress_partitions target) as [|e es]; [done|].
  intros (l & Hl%omapM_Ok & [= <-])%obind_Ok. cbn [progress_partitions]. revert Ht.
  induction Hl as [|x y xs ys Hxy _ IH]; [by split|]. intros [Hx Hxs]%Forall_cons.
  destruct (IH Hxs) as [IH1 IH2]. apply obind_Ok in Hxy as (o & [Hin Hp]%FindProgress_Ok & [= <-]).
  rewrite Forall_forall in Ho. specialize (Ho o Hin). rewrite Hp in Ho. split.
  - constructor; [|done]. cbn. lia.
  - intros Hc. cbn [existsb]. rewrite IH2 by done. rewrite Forall_forall in Hc.
    specialize (Hc o Hin). rewrite Hp in Hc. cbn. rewrite orb_false_r. apply Z.ltb_ge. lia.
Qed.

Definition captured (j : nat) (r : load_run W R) : Prop :=
  waiting j r ∧ below goal (load_source_progress (run_state r))
  ∧ (j = 0%nat → CatchUpRequired (load_source_progress (run_state r)) = false).

Lemma observe_progress_ends target j r :
  waiting j r → below goal target →
  ends (λ _, captured j) (observe_progress callbacks target r).
Proof.
  intros (k & Hk & Hj) Ht. unfold observe_progress, sbind at 1, or_fail, on_runner. rewrite Hk.
  pose proof (dr_capture _ _ Hdrains (k, run_tables r)) as Hc.
  destruct (runner_CaptureSafeProgress (k, run_tables r)) as [[g|e|f] [k' ts]]; [| |exact Hc].
  2:{ eapply (post_bind _ (λ _ _, False)); [apply fail_load_ends|done]. }
  destruct Hc as (Hle & Hg & Hdone). unfold sbind at 1, slift.
  pose proof (UpdateObserved_no_fault target g) as Hnf.
  destruct (UpdateObservedSafeProgress target g) as [u|e|f] eqn:Eu; [| |done].
  2:{ eapply (post_bind _ (λ _ _, False)); [apply fail_load_ends|done]. }
  destruct (merged_below target g u Ht Hg Eu) as [Hu Hr].
  cbn [sbind modify_state]. unfold sbind, modify_state. rewrite StoreState_eq.
  split; [exists k'; split; [done|cbn; lia]|]. split; [exact Hu|]. intros ->. apply Hr, Hdone. lia.
Qed.

Lemma catch_up_round_ends j r :
  captured (S j) r → ends (λ _, captured j) (catch_up_round callbacks r).
Proof.
  intros ((k & Hk & Hj) & Hb & _). unfold catch_up_round.
  eapply post_bind; [apply CheckCancelled_ends|]. intros [] r1 (w & ->).
  eapply (post_bind _ (λ _ r', waiting j r' ∧ run_state r' = run_state r)).
  - unfold poll_once, on_runner. cbn [put_world run_runner run_tables run_world]. rewrite Hk.
    pose proof (dr_poll _ _ Hdrains w (k, run_tables r)) as Hp.
    destruct (runner_PollApplyCommitOnce w (k, run_tables r)) as [[a|e|f] [k' ts]]; [| |exact Hp].
    + split; [|done]. exists k'. split; [done|]. cbn. lia.
    + unfold fail_poll, sbind. case_bool_decide; [cbn; by rewrite StoreState_eq|].
      unfold IsCancelled. destruct (is_cancelled callbacks) as [ask|].
      * unfold on_world. destruct (ask _) as [[] w']; cbn; by rewrite StoreState_eq.
      * cbn. by rewrite StoreState_eq.
  - intros [] r2 [Hw Hs]. unfold sbind, get_run. rewrite Hs. by apply observe_progress_ends.
Qed.

Lemma catch_up_loop_ends fuel j r :
  (j ≤ fuel)%nat → captured j r → ends (λ _ _, True) (catch_up_loop callbacks fuel r).
Proof.
  revert j r. induction fuel as [|fuel IH]; intros j r Hj Hr; cbn [catch_up_loop];
    unfold sbind at 1, get_run; destruct (CatchUpRequired _) eqn:E; [|done| |done].
  - destruct Hr as (_ & _ & Hr). rewrite Hr in E by lia. done.
  - destruct j as [|j]; [destruct Hr as (_ & _ & Hr); by rewrite Hr in E|].
    eapply post_bind; [by apply catch_up_round_ends|]. intros [] r' Hr'. apply (IH j); [lia|done].
Qed.
End Draining.

(** ** A consumer group ahead of the artifact *)

(** The partners of an element in related lists. *)
Lemma related_of_l {A B} (P : A → B → Prop) l l' x :
  Forall2 P l l' → x ∈ l → ∃ y, y ∈ l' ∧ P x y.
Proof.
  intros Hl [i Hi]%list_elem_of_lookup. destruct (Forall2_lookup_l _ _ _ _ _ Hl Hi) as (y & Hy & HP).
  exists y. split; [by eapply list_elem_of_lookup_2|done].
Qed.

Lemma related_of_r {A B} (P : A → B → Prop) l l' y :
  Forall2 P l l' → y ∈ l' → ∃ x, x ∈ l ∧ P x y.
Proof. intros Hl%Forall2_flip. by apply (related_of_l (flip P)). Qed.

Section GroupAhead.
Context {R Conf : Type} `{Librdkafka R Conf}.

Definition tp_key (p : rd_topic_partition) : PartitionKey := (tp_topic p, tp_partition p).
Definition source_key (e : ArtifactSourceProgress) : PartitionKey :=
  (source_topic e, source_partition e).

(** From [r0], a seek to the checkpoint of the artifact succeeds; then the
    consumer has an assignment, of which its group has committed [offsets]:
    up to the ends of the partitions, and at least as far as the artifact had
    seen them.  What a poll answers is left open. *)
Record group_ahead (progress : list ArtifactSourceProgress) (r0 : R)
    (offsets : list rd_topic_partition) : Prop := {
  ga_calls : ∃ r1 r2 r3 assigned,
    rd_kafka_seek_partitions (BuildTopicPartitionList (BuildCheckpoint progress)) r0 = (None, r1)
    ∧ rd_kafka_assignment r1 = (inr (Some assigned), r2) ∧ assigned ≠ []
    ∧ rd_kafka_committed assigned r2 = (inr offsets, r3);
  ga_ends : ∀ p r, p ∈ offsets → ∃ low high r',
    rd_kafka_query_watermark_offsets (tp_topic p) (tp_partition p) r = (inr (low, high), r')
    ∧ 0 ≤ high ≤ tp_offset p;
  ga_valid : Forall (λ p, tp_topic p ≠ [] ∧ 0 ≤ tp_partition p ∧ tp_err p = None) offsets;
  ga_unique : NoDup (tp_key <$> offsets);
  ga_ahead : ∀ e, e ∈ progress →
    ∃ p, p ∈ offsets ∧ tp_key p = source_key e ∧ source_high_watermark e ≤ tp_offset p;
}.

(** An entry of the progress says that a partition is committed to its end. *)
Definition entry_at_end (p : rd_topic_partition) (e : KafkaPartitionProgress) : Prop :=
  progress_partition e = MkKafkaPartition (tp_topic p) (tp_partition p)
  ∧ committed_next_offset e = tp_offset p ∧ 0 ≤ high_watermark e ≤ tp_offset p ∧ 0 ≤ lag e.

Variables (progress : list ArtifactSourceProgress) (r0 : R) (offsets : list rd_topic_partition).
Hypothesis Hahead : group_ahead progress r0 offsets.

Lemma partition_progress_at_end p r :
  p ∈ offsets → ∃ e r', partition_progress p r = (Ok e, r') ∧ entry_at_end p e.
Proof.
  intros Hp. destruct (ga_ends _ _ _ Hahead p r Hp) as (low & high & r' & Hq & Hh).
  pose proof (ga_valid _ _ _ Hahead) as Hv. rewrite Forall_forall in Hv.
  destruct (Hv p Hp) as (_ & _ & He). unfold partition_progress. rewrite He.
  unfold sbind, rd_query. rewrite Hq. cbn [snd]. rewrite (proj2 (Z.leb_le 0 _)) by lia.
  eexists _, r'. split; [done|]. split_and!; try done; cbn; [lia..|]. case_match; btoprop; lia.
Qed.

Lemma partitions_progress_at_end ps r :
  (∀ p, p ∈ ps → p ∈ offsets) →
  ∃ es r', partitions_progress ps r = (Ok es, r') ∧ Forall2 entry_at_end ps es.
Proof.
  revert r. induction ps as [|p ps IH]; intros r Hin; cbn [partitions_progress]; [by exists [], r|].
  destruct (partition_progress_at_end p r) as (e & r1 & He & Hend); [apply Hin; by left|].
  destruct (IH r1) as (es & r' & Hes & Hends); [intros q Hq; apply Hin; by right|].
  exists (e :: es), r'. unfold sbind. rewrite He, Hes. split; [done|by constructor].
Qed.

Lemma check_progress_ok ps es seen :
  Forall2 entry_at_end ps es →
  Forall (λ p, tp_topic p ≠ [] ∧ 0 ≤ tp_partition p ∧ tp_err p = None) ps →
  NoDup (tp_key <$> ps) → (∀ p, p ∈ ps → tp_key p ∉ seen) →
  ∃ seen', ofold check_progress es seen = Ok seen'.
Proof.
  intros Hes. revert seen. induction Hes as [|p e ps es (Hk & Hc & Hh & Hl) _ IH];
    intros seen Hv Hnd Hseen; [by exists seen|].
  apply Forall_cons in Hv as [(Ht & Hn & _) Hv]. apply NoDup_cons in Hnd as [Hp Hnd]. cbn [ofold].
  assert (check_progress seen e = Ok ({[tp_key p]} ∪ seen)) as ->.
  { unfold check_progress, ValidatePartition. rewrite Hk. cbn [partition_topic partition_number].
    rewrite bool_decide_eq_false_2 by done. rewrite !(proj2 (Z.ltb_ge _ _)) by lia.
    cbn [obind orb]. rewrite decide_False; [done|]. apply Hseen. left. }
  apply IH; [done|done|]. intros q Hq. apply not_elem_of_union. split; [|by apply Hseen; right].
  rewrite not_elem_of_singleton. intros E. apply Hp. rewrite <-E. by apply list_elem_of_fmap_2.
Qed.

(** The progress the consumer reports after the seek. *)
Lemma Consumer_Progress_at_end config :
  ∃ r1 observed k,
    Librdkafka_Seek (BuildCheckpoint progress) r0 = (Ok tt, r1)
    ∧ Consumer_Progress (MkKafkaUpdateConsumer config (Some r1)) = (Ok observed, k)
    ∧ Forall2 entry_at_end offsets (progress_partitions observed).
Proof.
  destruct (ga_calls _ _ _ Hahead) as (r1 & r2 & r3 & assigned & Hs & Ha & Hne & Hc).
  destruct (partitions_progress_at_end offsets r3) as (es & r4 & Hes & Hends); [done|].
  exists r1, (MkKafkaProgress es), (MkKafkaUpdateConsumer config (Some r4)).
  unfold Librdkafka_Seek, rd_call. rewrite Hs. split_and!; [done| |done].
  unfold Consumer_Progress, with_client. unfold sbind at 1. cbn [client_ config_ client_Progress librdkafka_client].
  assert (Librdkafka_Progress r1 = (Ok (MkKafkaProgress es), r4)) as ->.
  { unfold Librdkafka_Progress, sbind, rd_query. rewrite Ha. destruct assigned; [done|].
    rewrite Hc. by rewrite Hes. }
  unfold sbind, slift, ValidateProgress. cbn [progress_partitions].
  destruct (check_progress_ok offsets es ∅ Hends (ga_valid _ _ _ Hahead) (ga_unique _ _ _ Hahead))
    as [seen ->]; [set_solver|done].
Qed.

Lemma tp_key_inj p q : p ∈ offsets → q ∈ offsets → tp_key p = tp_key q → p = q.
Proof.
  intros [i Hi]%list_elem_of_lookup [j Hj]%list_elem_of_lookup E.
  assert (i = j) as ->; [|congruence].
  eapply NoDup_lookup; [apply (ga_unique _ _ _ Hahead)|by rewrite list_lookup_fmap, Hi|].
  by rewrite list_lookup_fmap, Hj, E.
Qed.

(** A partition of the artifact has an entry, which is at its end and past
    what the artifact had seen. *)
Lemma FindProgress_at_end observed e :
  Forall2 entry_at_end offsets (progress_partitions observed) → e ∈ progress →
  ∃ y, FindProgress observed (source_kafka_partition e) = Ok y
    ∧ source_high_watermark e ≤ committed_next_offset y
    ∧ high_watermark y ≤ committed_next_offset y.
Proof.
  intros Hends He. destruct (ga_ahead _ _ _ Hahead e He) as (p & Hp & Hk & Hh).
  destruct (related_of_l _ _ _ p Hends Hp) as (x & Hxin & Hxk & _).
  assert (∃ y, FindProgress observed (source_kafka_partition e) = Ok y) as [y Hy].
  { unfold FindProgress. destruct (find _ _) as [y|] eqn:Ef; [by exists y|]. exfalso.
    pose proof (find_none _ _ Ef x (proj1 (list_elem_of_In _ _) Hxin)) as Hno.
    unfold SamePartition in Hno. rewrite Hxk in Hno. injection Hk as Ht Hn. cbn in Hno.
    by rewrite Ht, Hn, bool_decide_eq_true_2, Z.eqb_refl in Hno. }
  destruct (FindProgress_Ok _ _ _ Hy) as [Hyin Hyk].
  destruct (related_of_r _ _ _ y Hends Hyin) as (q & Hq & Hqk & Hqc & Hqh & _).
  assert (p = q) as <-.
  { apply tp_key_inj; [done..|]. rewrite Hk. rewrite Hyk in Hqk. injection Hqk as Ht Hn.
    unfold source_key, tp_key. by rewrite Ht, Hn. }
  exists y. split_and!; [done|lia..].
Qed.

(** With it the catch-up has nothing to wait for. *)
Lemma observed_caught_up observed :
  Forall2 entry_at_end offsets (progress_partitions observed) → progress ≠ [] →
  ∃ u, UpdateObservedSafeProgress (BuildSafeProgress progress) observed = Ok u
    ∧ CatchUpRequired u = false.
Proof.
  intros Hends Hne. unfold UpdateObservedSafeProgress.
  assert (∀ l, (∀ e, e ∈ l → e ∈ progress) → ∃ es,
    omapM (observe_entry observed) (progress_partitions (BuildSafeProgress l)) = Ok es
    ∧ CatchUpRequired (MkKafkaProgress es) = false) as Hall.
  { unfold BuildSafeProgress, CatchUpRequired. cbn [progress_partitions].
    induction l as [|e l IH]; intros Hin; [by exists []|].
    destruct IH as (es & Hes & Hx); [intros x Hx; apply Hin; by right|].
    destruct (FindProgress_at_end observed e Hends) as (y & Hy & Hh & Hyh); [apply Hin; by left|].
    eexists (_ :: es). rewrite fmap_cons. cbn [omapM]. unfold observe_entry at 1.
    cbn [progress_partition]. rewrite Hy. cbn [obind]. rewrite Hes.
    split; [done|]. cbn [existsb committed_next_offset high_watermark]. rewrite Hx, orb_false_r.
    apply Z.ltb_ge. lia. }
  destruct (Hall progress) as (es & Hes & Hx); [done|].
  destruct (progress_partitions (BuildSafeProgress progress)) eqn:E.
  - by apply fmap_nil_inv in E.
  - rewrite Hes. by exists (MkKafkaProgress es).
Qed.
End GroupAhead.

Lemma sbind_ok {S A B} (c : stateful S Status A) (k : A → stateful S Status B) s a s' :
  c s = (Ok a, s') → sbind c k s = k a s'.
Proof. unfold sbind. by intros ->. Qed.

(** A load that is caught up does not poll. *)
Lemma catch_up_loop_done {W R} `{AsyncCatchUpRunner W R} callbacks fuel (r : load_run W R) :
  CatchUpRequired (load_source_progress (run_state r)) = false →
  catch_up_loop callbacks fuel r = (Ok tt, r).
Proof. intros E. destruct fuel; cbn [catch_up_loop]; unfold sbind, get_run; by rewrite E. Qed.

Section SkippedReplay.
Context {W R Conf : Type} `{Librdkafka R Conf}.
Variable callbacks : AsyncLoadCallbacks W.
Variable id : Z.
Variable options : ForwardIndexOptions.
Variables (front : MmapSnapshotBacking) (config : KafkaConsumerConfig) (r0 : R).
Variable offsets : list rd_topic_partition.

Abbreviation consumed := (source_progress (mmap_artifact front)).
Abbreviation kafka_run := (load_run W (ProductionCatchUpRunner W R)).
Abbreviation kafka_runner := (production_runner (W := W) (C := R) Create).

Definition never_cancelled : Prop :=
  ∀ ask w, is_cancelled callbacks = Some ask → (ask w).1 = false.

Hypothesis Hrunning : never_cancelled.
Hypothesis Hprogress : consumed ≠ [].
Hypothesis Hcheckpoint : ValidateCheckpoint (BuildCheckpoint consumed) = Ok tt.
Hypothesis Hcreate : Create (options_kafka_consumer options) = Ok (MkKafkaUpdateConsumer config (Some r0)).
Hypothesis Hahead : group_ahead consumed r0 offsets.

Lemma CheckCancelled_never (r : kafka_run) :
  ∃ w, CheckCancelled callbacks r = (Ok tt, put_world w r).
Proof.
  unfold CheckCancelled, IsCancelled, sbind.
  destruct (is_cancelled callbacks) as [ask|] eqn:E; [|exists (run_world r); by destruct r].
  unfold on_world. pose proof (Hrunning ask (run_world r) E) as Hf.
  destruct (ask (run_world r)) as [b w]. cbn in Hf. subst b. by exists w.
Qed.

Lemma create_runner_ok :
  @create_runner W _ kafka_runner options
  = Ok (new_runner (MkKafkaUpdateConsumer config (Some r0))).
Proof.
  change (@create_runner W _ kafka_runner options) with
    (let* runner := CreateCatchUpRunner (W := W) (T := False) Create None options in
     match runner with inl t => match t with end | inr k => Ok k end). unfold CreateCatchUpRunner.
  pose proof Hcreate as Hc. unfold Create in Hc. apply obind_Ok in Hc as ([] & Hv & _).
  unfold ValidateConfig in Hv.
  destruct (bool_decide (bootstrap_servers _ = [])); [done|].
  destruct (bool_decide (group_id _ = [])); [done|].
  destruct (bool_decide (topics _ = [])); [done|]. cbn [orb]. by rewrite Hcreate.
Qed.

(** After the start, the progress is caught up. *)
Lemma Start_then_caught_up request ts :
  catch_up_checkpoint request = BuildCheckpoint consumed →
  catch_up_safe_progress request = BuildSafeProgress consumed →
  ∃ k1 k2 observed u,
    Production_Start request (new_runner (MkKafkaUpdateConsumer config (Some r0)), ts)
      = (Ok tt, (k1, ts))
    ∧ Production_CaptureSafeProgress (W := W) (k1, ts) = (Ok observed, (k2, ts))
    ∧ UpdateObservedSafeProgress (BuildSafeProgress consumed) observed = Ok u
    ∧ CatchUpRequired u = false.
Proof.
  intros Hcp Hsp.
  destruct (Consumer_Progress_at_end consumed r0 offsets Hahead config)
    as (r1 & observed & k & Hseek & Hobs & Hends).
  destruct (observed_caught_up consumed r0 offsets Hahead observed Hends Hprogress) as (u & Hu & Hr).
  assert (Consumer_Seek (BuildCheckpoint consumed) (MkKafkaUpdateConsumer config (Some r0))
    = (Ok tt, MkKafkaUpdateConsumer config (Some r1))) as Hs.
  { unfold Consumer_Seek, sbind, slift. rewrite Hcheckpoint. unfold with_client.
    cbn [client_ config_ client_Seek librdkafka_client]. by rewrite Hseek. }
  unfold Production_Start. unfold sbind at 1, set_request. cbn [fst snd]. rewrite Hsp, Hcp.
  destruct (progress_partitions (BuildSafeProgress consumed)) as [|first es] eqn:E.
  { by apply fmap_nil_inv in E. }
  eexists _, _, observed, u. split_and!; [| |exact Hu|exact Hr].
  - unfold sbind, on_runner_consumer. cbn [fst snd consumer_ new_runner]. rewrite Hs. reflexivity.
  - unfold Production_CaptureSafeProgress. cbn [fst snd coordinator_]. unfold on_runner_consumer.
    cbn [fst snd consumer_]. rewrite Hobs. reflexivity.
Qed.

Lemma catch_up_skips fuel (r : kafka_run) :
  ∃ w s k, catch_up (H := kafka_runner) callbacks id options front fuel r
    = (Ok tt, MkLoadRun w s (run_backings r)
        (CreateRealtimeShards (artifact_layout (mmap_artifact front)) options) (Some k)).
Proof.
  unfold catch_up. set (ts := CreateRealtimeShards _ _).
  destruct (Start_then_caught_up (catch_up_request callbacks id options front) ts eq_refl eq_refl)
    as (k1 & k2 & observed & u & Hstart & Hcapture & Hu & Hr).
  erewrite sbind_ok by reflexivity.
  erewrite (sbind_ok (or_fail _ _)) by (unfold or_fail, slift; rewrite create_runner_ok; reflexivity).
  do 2 (erewrite sbind_ok by reflexivity). erewrite sbind_ok by apply StoreState_eq.
  erewrite (sbind_ok (or_fail _ _)).
  2:{ unfold or_fail, on_runner. cbn [run_runner run_tables run_world put_world with_state].
      cbn [runner_Start production_runner]. rewrite Hstart. reflexivity. }
  edestruct CheckCancelled_never as [w1 Hc1]. erewrite sbind_ok by exact Hc1.
  erewrite (sbind_ok (observe_progress _ _)).
  2:{ unfold observe_progress. erewrite (sbind_ok (or_fail _ _)).
      2:{ unfold or_fail, on_runner. cbn [run_runner run_tables run_world put_world with_state].
          cbn [runner_CaptureSafeProgress production_runner]. rewrite Hcapture. reflexivity. }
      erewrite (sbind_ok (or_fail _ _)) by (unfold or_fail, slift; rewrite Hu; reflexivity).
      erewrite sbind_ok by reflexivity. apply StoreState_eq. }
  erewrite sbind_ok by (apply catch_up_loop_done; exact Hr).
  edestruct CheckCancelled_never as [w2 Hc2]. rewrite Hc2. unfold put_world.
  cbn [run_state run_backings run_tables run_runner with_state]. by eexists _, _, _.
Qed.
End SkippedReplay.

(** A realtime table nothing was published to hides no row. *)
Lemma created_table_transparent L options i t full key shard id :
  CreateRealtimeShards (Some L) options !! i = Some t →
  ShardState_Get (MkShardState shard id (MkLayers (Some t) None full)) key
  = ShardState_Get (MkShardState shard id (MkLayers None None full)) key.
Proof.
  intros (j & -> & _)%list_lookup_fmap_Some.
  unfold ShardState_Get, Layers_Get. cbn [layers realtime_delta].
  change (layer_get (Some (make_table (Some L) 1024 (options_hash_seed options)
    (options_hash_version options))) key)
    with (RealtimeDelta_Get (make_table (Some L) 1024 (options_hash_seed options)
      (options_hash_version options)) key).
  rewrite (Get_spec L) by (apply make_table_ok; unfold u64_max; lia).
  rewrite visible_rows_lookup. reflexivity.
Qed.

(** ** The theorems *)

(** *** C4: A load follows its protocol.

    Whatever the callbacks and the runner do, a load that returns has been
    observed to follow the protocol from its first stored state to the state
    it leaves in [*state], which it stored last: all shards are loaded in
    order, then warmed in order, then caught up with Kafka in the modes that
    use it, then published in order, each under the load's id with the rows of
    its shard of the artifact, and after every step the stored state counts
    and flags exactly the steps done.  A load that returns ok ended as
    succeeded; one that returns an error ended as failed, with the message of
    the error, or as cancelled. *)
Theorem RunExternalArtifactLoad_follows_protocol {W R : Type} `{SectionSort}
    `{AsyncCatchUpRunner (W * list load_event) R}
    (stat : cpp_string → sys_error + file_kind) (map_file : cpp_string → map_result)
    (page_size : Z) (callbacks : AsyncLoadCallbacks W) (request : LoadRequest) (id : Z)
    (options : ForwardIndexOptions) (allowed : fault → Prop) (fuel : nat) (s0 : LoadState) (w : W)
    (Hpublish : publish_faults callbacks allowed)
    (Hrunner : runner_behaves (W * list load_event) R allowed)
    (Hfaults : allowed UnknownEnumerator ∧ allowed Diverges)
    (Hfile : ∀ path bytes, map_file path = Mapped bytes → is_u64 (Zlen bytes))
    (Hn : 0 < options_shard_count options < 2 ^ 32) :
  match RunExternalArtifactLoad stat map_file page_size (observe callbacks) request id options fuel
          (Some s0, (w, [])) with
  | (Ok _, (Some s, (_, t))) =>
      load_code s = kLoadSucceeded ∧ trace stat map_file request id options t (Ended s)
  | (Err e, (Some s, (_, t))) =>
      failed_with e s ∧ trace stat map_file request id options t (Ended s)
  | (Fault f, _) => allowed f
  | _ => False
  end.
Proof.
  exact (load_follows_protocol stat map_file page_size callbacks request id options allowed
    Hpublish Hfaults Hfile Hn fuel s0 w Hrunner).
Qed.

(** A load reports what it did.

    Whatever the callbacks do, the state a load leaves is terminal and has the
    load's id.  After an ok return it says succeeded and every shard is loaded,
    warm and cut over; after an error it says failed with the message of the
    error, or cancelled, and its counts are those of its flags: shards are cut
    over only when all are warm and warmed only when all are loaded. *)
Theorem RunExternalArtifactLoad_reports {W R : Type} `{SectionSort} `{AsyncCatchUpRunner W R}
    (stat : cpp_string → sys_error + file_kind) (map_file : cpp_string → map_result)
    (page_size : Z) (callbacks : AsyncLoadCallbacks W) (request : LoadRequest) (id : Z)
    (options : ForwardIndexOptions) (allowed : fault → Prop) (fuel : nat) (s0 : LoadState) (w : W)
    (Hpublish : publish_faults callbacks allowed) (Hrunner : runner_behaves W R allowed)
    (Hfaults : allowed UnknownEnumerator ∧ allowed Diverges)
    (Hfile : ∀ path bytes, map_file path = Mapped bytes → is_u64 (Zlen bytes))
    (Hn : 0 < options_shard_count options < 2 ^ 32) :
  let n := options_shard_count options in
  match RunExternalArtifactLoad stat map_file page_size callbacks request id options fuel
          (Some s0, w) with
  | (Ok _, (Some s, _)) => is_ended id s ∧ load_code s = kLoadSucceeded ∧ reports n n n n s
  | (Err e, (Some s, _)) =>
      is_ended id s ∧ failed_with e s
      ∧ ∃ l p c, counts_ok options l p c ∧ reports_any n l p c s
  | (Fault f, _) => allowed f
  | _ => False
  end.
Proof.
  exact (load_reports stat map_file page_size callbacks request id options allowed
    Hpublish Hfaults Hfile Hn fuel s0 w Hrunner).
Qed.

(** *** C5: No shard goes live early.

    When a load over Kafka publishes a shard, the shards before it have been
    published, in order, and no other; what it publishes is ready: the rows of
    the artifact's shard, with a realtime table in front in the modes that use
    Kafka; every shard has been stored as loaded and warm; and in those modes,
    every partition of the artifact has been observed with its messages
    committed up to the artifact's high watermark and up to the last high
    watermark seen.  Only the last state stored is terminal. *)
Theorem RunExternalArtifactLoad_publishes_ready {W C : Type} `{SectionSort} `{KafkaClient C}
    (create_consumer : KafkaConsumerConfig → StatusOr (KafkaUpdateConsumer C))
    (stat : cpp_string → sys_error + file_kind) (map_file : cpp_string → map_result)
    (page_size : Z) (callbacks : AsyncLoadCallbacks W) (request : LoadRequest) (id : Z)
    (options : ForwardIndexOptions) (fuel : nat) (s0 : LoadState) (w : W)
    (Hfile : ∀ path bytes, map_file path = Mapped bytes → is_u64 (Zlen bytes))
    (Hn : 0 < options_shard_count options < 2 ^ 32) :
  let n := options_shard_count options in
  match RunExternalArtifactLoad
          (H := production_runner (W := W * list load_event) create_consumer)
          stat map_file page_size (observe callbacks) request id options fuel
          (Some s0, (w, [])) with
  | (Fault _, _) => True
  | (_, (_, (_, t))) =>
      (∀ t1 i state accepted t2, t = t1 ++ Published i state accepted :: t2 →
        ready stat map_file request id options i state
        ∧ omap published_shard t1 = seqZ 0 i
        ∧ seen t1 (λ s, reports_any n n n i s
            ∧ (ForwardIndexModeUsesKafkaRealtime (options_mode options) = true →
               ∃ target, artifact_seen options t1 target
                 ∧ caught_up target (load_source_progress s))))
      ∧ ∀ t1 s e t2, t = t1 ++ Stored s :: e :: t2 → is_running id s
  end.
Proof.
  pose proof (@load_follows_protocol W _ _ stat map_file page_size callbacks request id options
    (λ _, True) ltac:(done) ltac:(done) Hfile Hn (production_runner create_consumer) fuel s0 w
    (production_behaves create_consumer)) as Hp. unfold load_result in Hp.
  assert (∀ t st, trace stat map_file request id options t st →
    (∀ t1 i state accepted t2, t = t1 ++ Published i state accepted :: t2 →
      ready stat map_file request id options i state ∧ omap published_shard t1 = seqZ 0 i
      ∧ seen t1 (λ s, reports_any (options_shard_count options) (options_shard_count options)
          (options_shard_count options) i s
          ∧ (ForwardIndexModeUsesKafkaRealtime (options_mode options) = true →
             ∃ target, artifact_seen options t1 target ∧ caught_up target (load_source_progress s))))
    ∧ ∀ t1 s e t2, t = t1 ++ Stored s :: e :: t2 → is_running id s) as Hall.
  { intros t st Ht. split.
    - intros t1 i state accepted t2 ->. eapply trace_publishes; [lia|exact Ht].
    - intros t1 s e t2 ->. by eapply trace_stored. }
  destruct (RunExternalArtifactLoad _ _ _ _ _ _ _ _ _) as [[u|e|f] [[s|] [w' t]]]; [| | | |done..].
  all: try (by destruct Hp). all: eapply Hall; apply Hp.
Qed.

(** The catch-up ends.

    With a runner that is [fuel] polls or less from committing the positions
    that bound the high watermarks, the loop of the catch-up ends within
    [fuel] rounds, whether the load goes on or is ended by an error or a
    cancellation. *)
Theorem catch_up_terminates {W R : Type} `{AsyncCatchUpRunner W R}
    (callbacks : AsyncLoadCallbacks W) (left_over : R * tables_of → nat)
    (goal : KafkaPartition → Z) (id : Z) (options : ForwardIndexOptions)
    (front : MmapSnapshotBacking) (fuel : nat) (r : load_run W R)
    (Hdrains : drains W R left_over goal)
    (Hstart : ∀ (request : AsyncCatchUpRequest W) p p',
      runner_Start request p = (Ok tt, p') → (left_over p' ≤ fuel)%nat)
    (Hgoal : below goal (BuildSafeProgress (source_progress (mmap_artifact front)))) :
  (catch_up callbacks id options front fuel r).1 ≠ Fault Diverges.
Proof.
  assert (post (λ f, f ≠ Diverges) (λ _ _, True) (λ _ _, True)
    (catch_up callbacks id options front fuel r)) as Hp; [|by destruct (catch_up _ _ _ _ _ r) as [[u|e|f] r']; cbn in *; congruence].
  unfold catch_up, sbind at 1, set_tables. set (r1 := MkLoadRun _ _ _ _ _).
  eapply (post_bind _ (λ _ _, True)).
  { unfold or_fail, slift. pose proof (dr_create _ _ Hdrains options) as Hc.
    destruct (create_runner options); [done|apply fail_load_ends|congruence]. }
  intros k r2 _. unfold sbind at 1, set_runner. unfold sbind at 1, modify_state.
  eapply (post_bind _ (λ _ r', is_Some (run_runner r'))); [rewrite StoreState_eq; by exists k|].
  intros [] r3 [k3 Hk3]. eapply (post_bind _ (λ _, waiting left_over fuel)).
  { unfold or_fail, on_runner. rewrite Hk3.
    pose proof (dr_start _ _ Hdrains (catch_up_request callbacks id options front) (k3, run_tables r3)) as Hs.
    destruct (runner_Start _ _) as [[[]|e|f] [k4 ts]] eqn:E; [|apply fail_load_ends|cbn in *; congruence].
    exists k4. split; [done|]. by eapply Hstart. }
  intros [] r4 Hr4. eapply (post_bind _ (λ _, waiting left_over fuel)).
  { eapply post_mono; [apply CheckCancelled_ends|]. intros [] r' (w & ->). exact Hr4. }
  intros [] r5 Hr5. eapply post_bind; [by apply (observe_progress_ends _ _ goal Hdrains _ fuel)|].
  intros [] r6 Hr6. eapply post_bind; [by apply (catch_up_loop_ends _ _ goal Hdrains fuel fuel)|].
  intros [] r7 _. eapply post_mono; [apply CheckCancelled_ends|done].
Qed.

(** *** C33: A group that was ahead of the artifact skips the replay.

    Take a load over Kafka whose shards are warm, of any artifact, over any
    librdkafka.  When the consumer group has committed the artifact's
    partitions up to their ends, as after an earlier load of the same
    artifact, the catch-up ends without a poll although the consumer was just
    sought back to the artifact's checkpoint, and whatever messages there are
    from there on: the run goes straight to publishing, for every fuel, even
    none, with the realtime tables as they were created, and a shard published
    with such a table answers every key by the artifact's rows alone. *)
Theorem committed_group_skips_replay {W R Conf : Type} `{Librdkafka R Conf}
    (callbacks : AsyncLoadCallbacks W) (id : Z) (options : ForwardIndexOptions)
    (front : MmapSnapshotBacking) (rest : list MmapSnapshotBacking) (L : CompiledRowLayout)
    (config : KafkaConsumerConfig) (r0 : R) (offsets : list rd_topic_partition)
    (publish : Z → ShardState → stateful W Status unit) (fuel : nat)
    (r : load_run W (ProductionCatchUpRunner W R))
    (Hmode : ForwardIndexModeUsesKafkaRealtime (options_mode options) = true)
    (Hfront : run_backings r = front :: rest)
    (Hlayout : artifact_layout (mmap_artifact front) = Some L)
    (Hprogress : source_progress (mmap_artifact front) ≠ [])
    (Hcheckpoint : ValidateCheckpoint (BuildCheckpoint (source_progress (mmap_artifact front))) = Ok tt)
    (Hcreate : Create (options_kafka_consumer options) = Ok (MkKafkaUpdateConsumer config (Some r0)))
    (Hahead : group_ahead (source_progress (mmap_artifact front)) r0 offsets)
    (Hrunning : never_cancelled callbacks) :
  ∃ r', cut_over (H := production_runner (W := W) (C := R) Create) callbacks id options publish fuel r
      = publish_all callbacks id options publish r'
    ∧ run_backings r' = run_backings r
    ∧ run_tables r' = CreateRealtimeShards (Some L) options
    ∧ ∀ i t shard full key, run_tables r' !! i = Some t →
        ShardState_Get (MkShardState shard id (MkLayers (Some t) None full)) key
        = ShardState_Get (MkShardState shard id (MkLayers None None full)) key.
Proof.
  destruct (catch_up_skips callbacks id options front config r0 offsets Hrunning Hprogress
    Hcheckpoint Hcreate Hahead fuel r) as (w & s & k & Hc). rewrite Hlayout in Hc.
  eexists (MkLoadRun w s (run_backings r) _ (Some k)). split_and!; [|done..|].
  - unfold cut_over. rewrite Hmode. cbn [negb]. erewrite sbind_ok by reflexivity.
    rewrite Hfront. erewrite sbind_ok by reflexivity. rewrite <-Hfront.
    destruct (source_progress (mmap_artifact front)); [done|]. by erewrite sbind_ok by exact Hc.
  - intros i t shard full key. apply created_table_transparent.
Qed.
