(* ===== verification/AsyncLoadSamples.v ===== *)
(** * Sample loads

    The sample artifact of two shards loaded over a Kafka partition, and what
    happens when the consumer group has been there before. *)

From S2P Require Import Prelude Status Types Schema RealtimeDelta Snapshot Shard Kafka UpdateApplier.
From S2P Require Import UpdateCoordinator ArtifactFormat ArtifactWriter MmapBacking ArtifactSamples.
From S2P Require Import IngestSamples AsyncLoad CatchUpRunner LoadProtocol AsyncLoadProofs AsyncLoadTheorems.

(** ** A partition of nine messages

    A consumer of the one partition: where it reads, and what its group has
    committed; the artifact's checkpoint is 5, its high watermark 9. *)
Record partition_log : Type := MkPartitionLog { log_position : Z; log_committed : Z }.

Definition log_end : Z := 9.

Definition rows_partition : rd_topic_partition := MkRdTopicPartition (str "rows") 0 0 None.

Definition rows_message (offset : Z) : rd_kafka_message :=
  MkRdMessage RD_NO_ERROR (Some (str "rows")) 0 offset (str "7") sample_bytes.

Definition first_offset (ps : list rd_topic_partition) (otherwise : Z) : Z :=
  match ps with p :: _ => tp_offset p | [] => otherwise end.

(** A new consumer starts where its group has committed. *)
Definition sample_rdkafka (committed : Z) : Librdkafka partition_log () := {|
  rd_kafka_conf_new := tt;
  rd_kafka_conf_set _ _ _ := inr tt;
  rd_kafka_new _ := inr (MkPartitionLog committed committed);
  rd_kafka_poll_set_consumer r := (None, r);
  rd_kafka_subscribe _ r := (None, r);
  rd_kafka_consumer_poll _ r :=
    if log_position r <? log_end
    then (Some (rows_message (log_position r)), MkPartitionLog (log_position r + 1) (log_committed r))
    else (None, r);
  rd_kafka_seek_partitions ps r :=
    (None, MkPartitionLog (first_offset ps (log_position r)) (log_committed r));
  rd_kafka_commit ps r :=
    (None, MkPartitionLog (log_position r) (first_offset ps (log_committed r)));
  rd_kafka_assignment r := (inr (Some [rows_partition]), r);
  rd_kafka_committed _ r :=
    (inr [MkRdTopicPartition (str "rows") 0 (log_committed r) None], r);
  rd_kafka_query_watermark_offsets _ _ r := (inr (0, log_end), r);
|}.

(** ** A load *)

Definition sample_load_options (mode : ForwardIndexMode) : ForwardIndexOptions :=
  MkForwardIndexOptions mode 2 7 1 ThresholdConfig_default
    (MkKafkaConsumerConfig (str "localhost") (str "group") [str "rows"]).

Definition sample_request : LoadRequest := MkLoadRequest (str "/a.kvi") [].

(** Callbacks that accept every shard and cancel nothing. *)
Definition accepting {W} : AsyncLoadCallbacks W :=
  MkAsyncLoadCallbacks (Some (λ _ _, sret tt)) None (Some (λ w, (false, w))) None.

Definition unset_state : LoadState := initial_state (MkLoadRequest [] []) 0.

(** The load of the sample by a group that has committed up to [committed]. *)
Definition sample_run (committed : Z) (mode : ForwardIndexMode)
    : StatusM * (option LoadState * (() * list load_event)) :=
  RunExternalArtifactLoad
    (H := production_runner (H := @librdkafka_client _ _ (sample_rdkafka committed))
            (@Create _ _ (sample_rdkafka committed)))
    (H0 := keeping_sort) one_stat (one_map sample_file) 4096 (observe accepting)
    sample_request 42 (sample_load_options mode) 10 (Some unset_state, (tt, [])).

(** Whether the shards a load published know the key of the messages. *)
Definition knows_key (e : load_event) : option bool :=
  match e with
  | Published _ state _ =>
      Some (match ShardState_Get state 7 with Ok (Some _) => true | _ => false end)
  | Stored _ => None
  end.

Definition loaded_codes (e : load_event) : option (LoadStateCode * Z * Z * Z) :=
  match e with
  | Stored s => Some (load_code s, loaded_shard_count s, prewarmed_shard_count s, cutover_shard_count s)
  | Published _ _ _ => None
  end.

Definition sample_trace (committed : Z) (mode : ForwardIndexMode) : list load_event :=
  (sample_run committed mode).2.2.2.

(** What a load returned, the shards it published and what they know. *)
Definition run_summary (x : StatusM * (option LoadState * (() * list load_event)))
    : StatusM * list Z * list bool :=
  (x.1, omap published_shard x.2.2.2, omap knows_key x.2.2.2).

Lemma replayed : run_summary (sample_run 5 kRealtimeDelta) = (Ok tt, [0; 1], [false; true]).
Proof. vm_compute. reflexivity. Qed.

Lemma skipped : run_summary (sample_run 9 kRealtimeDelta) = (Ok tt, [0; 1], [false; false]).
Proof. vm_compute. reflexivity. Qed.

Lemma summary_parts {x y} : run_summary x = y →
  x.1 = y.1.1 ∧ omap published_shard x.2.2.2 = y.1.2 ∧ omap knows_key x.2.2.2 = y.2.
Proof. by intros <-. Qed.

(** The artifact asks for the messages 5 to 8.  When the consumer group has
    committed offset 5, the load replays them and publishes a shard that knows
    their key.  When the group has already committed offset 9, the load
    succeeds and no published shard knows the key. *)
Lemma committed_group_sample :
  (sample_run 5 kRealtimeDelta).1 = Ok tt
  ∧ omap knows_key (sample_trace 5 kRealtimeDelta) = [false; true]
  ∧ (sample_run 9 kRealtimeDelta).1 = Ok tt
  ∧ omap knows_key (sample_trace 9 kRealtimeDelta) = [false; false].
Proof.
  destruct (summary_parts replayed) as (H5 & _ & K5), (summary_parts skipped) as (H9 & _ & K9).
  exact (conj H5 (conj K5 (conj H9 K9))).
Qed.

(** ** The theorems on the sample *)

Lemma accepting_faults {W} : publish_faults (W := W) accepting (λ _, True).
Proof. done. Qed.

Lemma sample_file_size path bytes :
  one_map sample_file path = Mapped bytes → is_u64 (Zlen bytes).
Proof. apply one_map_size. vm_compute. split; congruence. Qed.

Lemma sample_shards : 0 < options_shard_count (sample_load_options kRealtimeDelta) < 2 ^ 32.
Proof. done. Qed.

Lemma RunExternalArtifactLoad_follows_protocol_witness :
  match sample_run 5 kRealtimeDelta with
  | (Ok _, (Some s, (_, t))) =>
      trace (H := keeping_sort) one_stat (one_map sample_file) sample_request 42
        (sample_load_options kRealtimeDelta) t (Ended s)
  | _ => False
  end.
Proof.
  pose proof (@RunExternalArtifactLoad_follows_protocol () _ keeping_sort
    (production_runner (H := @librdkafka_client _ _ (sample_rdkafka 5))
       (@Create _ _ (sample_rdkafka 5)))
    one_stat (one_map sample_file) 4096 accepting sample_request 42
    (sample_load_options kRealtimeDelta) (λ _, True) 10 unset_state tt accepting_faults
    (production_behaves _) (conj I I) sample_file_size sample_shards) as H.
  fold (sample_run 5 kRealtimeDelta) in H.
  destruct (summary_parts replayed) as (Hok & _ & _).
  destruct (sample_run 5 kRealtimeDelta) as [[u|e|f] [[s|] [v t]]]; [|done..]. apply H.
Defined.

(** A load of the full snapshot without observers. *)
Definition plain_run : StatusM * (option LoadState * ()) :=
  RunExternalArtifactLoad (W := ())
    (H := production_runner (H := @librdkafka_client _ _ (sample_rdkafka 5))
            (@Create _ _ (sample_rdkafka 5)))
    (H0 := keeping_sort) one_stat (one_map sample_file) 4096 accepting
    sample_request 42 (sample_load_options kFullSnapshotOnly) 10 (Some unset_state, tt).

Lemma RunExternalArtifactLoad_reports_witness :
  match plain_run with
  | (Ok _, (Some s, _)) => load_code s = kLoadSucceeded ∧ reports 2 2 2 2 s
  | _ => False
  end.
Proof.
  pose proof (@RunExternalArtifactLoad_reports () _ keeping_sort
    (production_runner (H := @librdkafka_client _ _ (sample_rdkafka 5))
       (@Create _ _ (sample_rdkafka 5)))
    one_stat (one_map sample_file) 4096 accepting sample_request 42
    (sample_load_options kFullSnapshotOnly) (λ _, True) 10 unset_state tt accepting_faults
    (production_behaves _) (conj I I) sample_file_size sample_shards) as H.
  cbv zeta in H. fold plain_run in H.
  assert (success (λ _, True) plain_run) as Hok by (vm_compute; exact I).
  destruct plain_run as [[u|e|f] [[s|] v]]; [|done..]. apply H.
Defined.

Lemma RunExternalArtifactLoad_publishes_ready_witness :
  match sample_run 5 kRealtimeDelta with
  | (Ok _, (_, (_, t))) =>
      omap published_shard t = [0; 1]
      ∧ ∀ t1 i state accepted t2, t = t1 ++ Published i state accepted :: t2 →
        omap published_shard t1 = seqZ 0 i
  | _ => False
  end.
Proof.
  pose proof (@RunExternalArtifactLoad_publishes_ready () _ keeping_sort
    (@librdkafka_client _ _ (sample_rdkafka 5)) (@Create _ _ (sample_rdkafka 5))
    one_stat (one_map sample_file) 4096 accepting sample_request 42
    (sample_load_options kRealtimeDelta) 10 unset_state tt sample_file_size sample_shards) as H.
  cbv zeta in H. fold (sample_run 5 kRealtimeDelta) in H.
  destruct (summary_parts replayed) as (Hres & Hok & _).
  destruct (sample_run 5 kRealtimeDelta) as [[u|e|f] [s [v t]]]; [|done..]. split; [exact Hok|].
  intros t1 i state accepted t2 Ht. by destruct (proj1 H t1 i state accepted t2 Ht) as (_ & Ho & _).
Defined.

(** A runner that starts three polls behind. *)
Definition countdown : AsyncCatchUpRunner () nat := {|
  create_runner _ := Ok 3%nat;
  runner_Start _ p := (Ok tt, (3%nat, p.2));
  runner_CaptureSafeProgress p :=
    (Ok (MkKafkaProgress
       [MkKafkaPartitionProgress (MkKafkaPartition (str "rows") 0) (9 - Z.of_nat p.1) 9 0]), p);
  runner_PollApplyCommitOnce _ p := (Ok tt, (pred p.1, p.2));
|}.

Definition countdown_front : MmapSnapshotBacking :=
  MkMmapSnapshotBacking
    (MkParsedArtifact (str "sample") 1 0 1 1 0 (Some plain_layout)
       [MkArtifactSourceProgress (str "rows") 0 5 9] [] [])
    0 [] [] [] [] 0 true 0.

Definition countdown_run (runner : nat) : load_run () nat :=
  MkLoadRun tt unset_state [] [] (Some runner).

Lemma countdown_drains : @drains () nat countdown (λ p, p.1) (λ _, 9).
Proof.
  split; [done|done|intros [] [k ts]; cbn; lia|].
  intros [k ts]. cbn. split; [done|]. split.
  - constructor; [cbn; lia|constructor].
  - intros ->. constructor; [cbn; lia|constructor].
Qed.

Lemma catch_up_terminates_witness :
  (@catch_up () nat countdown accepting 1 (sample_load_options kRealtimeDelta) countdown_front 3
     (countdown_run 0)).1 = Ok tt.
Proof.
  pose proof (@catch_up_terminates () nat countdown accepting (λ p, p.1) (λ _, 9) 1
    (sample_load_options kRealtimeDelta) countdown_front 3 (countdown_run 0) countdown_drains) as H.
  assert (∀ c : outcome Status (), c ≠ Fault Diverges →
    match c with Ok _ | Fault Diverges => True | _ => False end → c = Ok tt) as Hcase
    by (intros [[]|e|[]]; done).
  apply Hcase; [|vm_compute; exact I]. apply H.
  - intros request [k ts] p' [= <-]. cbn. lia.
  - constructor; [cbn; lia|constructor].
Defined.

(** The group has committed 9 of the nine messages, the checkpoint is 5. *)
Lemma sample_group_ahead :
  @group_ahead _ _ (sample_rdkafka 9) (source_progress (mmap_artifact countdown_front))
    (MkPartitionLog 9 9) [MkRdTopicPartition (str "rows") 0 9 None].
Proof.
  split.
  - by exists (MkPartitionLog 5 9), (MkPartitionLog 5 9), (MkPartitionLog 5 9), [rows_partition].
  - intros p r ->%list_elem_of_singleton. exists 0, 9, r. by split.
  - constructor; [by split_and!|constructor].
  - apply NoDup_singleton.
  - intros e ->%list_elem_of_singleton.
    exists (MkRdTopicPartition (str "rows") 0 9 None). split_and!; [left|done|done].
Qed.

Lemma accepting_never_cancels {W} : never_cancelled (accepting (W := W)).
Proof. by intros ask w [= <-]. Qed.

Definition warm_run : load_run () (ProductionCatchUpRunner () partition_log) :=
  MkLoadRun tt unset_state [countdown_front] [] None.

(** Right after the seek, a poll would answer with the message 5; the run
    publishes without it, and without fuel. *)
Lemma committed_group_skips_replay_witness :
  (@rd_kafka_consumer_poll _ _ (sample_rdkafka 9) 0 (MkPartitionLog 5 9)).1 = Some (rows_message 5)
  ∧ ∃ r', cut_over (H := production_runner (H := @librdkafka_client _ _ (sample_rdkafka 9))
              (@Create _ _ (sample_rdkafka 9)))
            accepting 42 (sample_load_options kRealtimeDelta) (λ _ _, sret tt) 0 warm_run
          = publish_all accepting 42 (sample_load_options kRealtimeDelta) (λ _ _, sret tt) r'
    ∧ run_tables r' = CreateRealtimeShards (Some plain_layout) (sample_load_options kRealtimeDelta).
Proof.
  split; [reflexivity|].
  destruct (@committed_group_skips_replay () _ _ (sample_rdkafka 9) accepting 42
    (sample_load_options kRealtimeDelta) countdown_front [] plain_layout
    (options_kafka_consumer (sample_load_options kRealtimeDelta)) (MkPartitionLog 9 9)
    [MkRdTopicPartition (str "rows") 0 9 None] (λ _ _, sret tt) 0 warm_run
    eq_refl eq_refl eq_refl ltac:(done) eq_refl eq_refl sample_group_ahead accepting_never_cancels)
    as (r' & Hrun & _ & Hts & _).
  exists r'. split; [exact Hrun|exact Hts].
Defined.
