(* ===== verification/ForwardIndex.v ===== *)
(** * The forward index: [include/kv_index/forward_index.h], [src/api/forward_index.cc]

    The public object: reads go to the shard of a key, [LoadAsync] registers a
    load and starts a worker that runs [RunExternalArtifactLoad], clients ask
    for the state of a load or cancel it.  Everything about loads happens
    under one mutex, so every operation here is one atomic step; what other
    threads do between the steps of a worker is a schedule of such operations.

    The cancellation flag of a load is an atomic shared by its worker and
    [load_cancellations_], which are pointers to it: [flags_] holds the flags
    by load, and [load_cancellations_] the loads whose pointer is kept. *)

From S2P Require Import Prelude Status Hash Types RowStorage Snapshot RealtimeDelta Shard Kafka.
From S2P Require Import ArtifactFormat MmapBacking AsyncLoad.

Record ForwardIndex : Type := MkForwardIndex {
  options_ : ForwardIndexOptions;
  shard_directory_ : ShardDirectory;
  next_load_id_ : Z;
  loads_ : gmap Z LoadState;
  load_cancellations_ : gset Z;
  flags_ : gmap Z bool;
  load_workers_ : list (Z * LoadRequest);
}.

(** ** Construction *)

Definition IsPowerOfTwo (value : Z) : bool :=
  negb (value =? 0) && (Z.land value (wrap32 (value - 1)) =? 0).

Definition HasKafkaConsumerConfig (config : KafkaConsumerConfig) : bool :=
  negb (bool_decide (bootstrap_servers config = []))
  || negb (bool_decide (group_id config = [])) || negb (bool_decide (topics config = [])).

(** The constructor throws on options it refuses. *)
Definition make_index (options : ForwardIndexOptions) : StatusOr ForwardIndex :=
  if negb (IsPowerOfTwo (options_shard_count options)) then
    Fault (Thrown "ForwardIndexOptions::shard_count must be a non-zero power of two")
  else if negb (ForwardIndexModeUsesKafkaRealtime (options_mode options))
          && HasKafkaConsumerConfig (options_kafka_consumer options) then
    Fault (Thrown "full-snapshot-only mode does not accept Kafka consumer config")
  else Ok (MkForwardIndex options (make_directory (options_shard_count options)) 1 ∅ ∅ ∅ []).

(** ** Reads *)

Definition ThrowStatus {A} (status : Status) : StatusOr A :=
  Fault (Thrown (if decide (status_message status = ""%string) then "forward index read failed"
                 else status_message status)).

(** A [StatusOr] whose error is thrown. *)
Definition or_throw {A} (c : StatusOr A) : StatusOr A :=
  match c with Err status => ThrowStatus status | _ => c end.

(** [ForwardIndex::ShardFor] *)
Definition index_shard (options : ForwardIndexOptions) (primary_key : Z) : Z :=
  wrap32 (Z.land (StableHash64 primary_key (options_hash_seed options)
                    (options_hash_version options))
            (wrap64 (options_shard_count options - 1))).

(** Reads load the state of a shard from the directory, which other threads
    may publish to meanwhile: [load] is what [Load] returns for each shard. *)
Section Reads.
Variable options : ForwardIndexOptions.
Variable load : Z → StatusOr (option ShardState).

Definition Get_from (primary_key : Z) : StatusOr (option Row) :=
  let* shard := or_throw (load (index_shard options primary_key)) in
  match shard with
  | None => Ok None
  | Some state => or_throw (ShardState_Get state primary_key)
  end.

(** [positions_by_shard[ShardFor(primary_keys[i])].push_back(i)] *)
Definition add_position (positions : list (list Z)) (ik : Z * Z) : StatusOr (list (list Z)) :=
  let shard := index_shard options ik.2 in
  let* old := at_ positions shard in
  set_at positions shard (old ++ [ik.1]).

(** [rows[positions[i]] = shard_rows[i]] *)
Definition place_row (rows : list (option Row)) (pr : Z * option Row)
    : StatusOr (list (option Row)) :=
  set_at rows pr.1 pr.2.

(** One round of the loop over the shards. *)
Definition mget_shard (primary_keys : list Z) (positions_by_shard : list (list Z))
    (rows : list (option Row)) (shard_id : Z) : StatusOr (list (option Row)) :=
  let* positions := at_ positions_by_shard shard_id in
  match positions with
  | [] => Ok rows
  | _ =>
      let* shard := or_throw (load shard_id) in
      match shard with
      | None => Ok rows
      | Some state =>
          let* shard_keys := omapM (at_ primary_keys) positions in
          let* shard_rows := or_throw (ShardState_MGet state shard_keys) in
          if negb (Zlen shard_rows =? Zlen positions) then
            Fault (Thrown "shard returned a row count that does not match request count")
          else ofold place_row (zip positions shard_rows) rows
      end
  end.

Definition MGet_from (primary_keys : list Z) : StatusOr (list (option Row)) :=
  let n := options_shard_count options in
  let rows := replicate (length primary_keys) None in
  let* positions_by_shard :=
    ofold add_position (zip (seqZ 0 (Zlen primary_keys)) primary_keys)
      (replicate (Z.to_nat n) []) in
  ofold (mget_shard primary_keys positions_by_shard) (seqZ 0 n) rows.
End Reads.

Definition ForwardIndex_Get (index : ForwardIndex) : Z → StatusOr (option Row) :=
  Get_from (options_ index) (ShardDirectory_Load (shard_directory_ index)).

Definition ForwardIndex_MGet (index : ForwardIndex) : list Z → StatusOr (list (option Row)) :=
  MGet_from (options_ index) (ShardDirectory_Load (shard_directory_ index)).

(** ** Loads *)

Definition set_loads (loads : gmap Z LoadState) (index : ForwardIndex) : ForwardIndex :=
  MkForwardIndex (options_ index) (shard_directory_ index) (next_load_id_ index) loads
    (load_cancellations_ index) (flags_ index) (load_workers_ index).

Definition set_directory (d : ShardDirectory) (index : ForwardIndex) : ForwardIndex :=
  MkForwardIndex (options_ index) d (next_load_id_ index) (loads_ index)
    (load_cancellations_ index) (flags_ index) (load_workers_ index).

(** [cancellation->store(true)] *)
Definition set_flag (id : Z) (index : ForwardIndex) : ForwardIndex :=
  MkForwardIndex (options_ index) (shard_directory_ index) (next_load_id_ index) (loads_ index)
    (load_cancellations_ index) (<[id := true]> (flags_ index)) (load_workers_ index).

Definition erase_cancellation (id : Z) (index : ForwardIndex) : ForwardIndex :=
  MkForwardIndex (options_ index) (shard_directory_ index) (next_load_id_ index) (loads_ index)
    (load_cancellations_ index ∖ {[id]}) (flags_ index) (load_workers_ index).

(** [map.emplace]: an existing entry stays. *)
Definition emplace {A} (k : Z) (x : A) (m : gmap Z A) : gmap Z A :=
  match m !! k with Some _ => m | None => <[k := x]> m end.

Definition cancelled_from (s : LoadState) : LoadState :=
  set_end kLoadCancelled true (str "load cancelled") (str "load cancelled") s.

Section Loads.
Variable stat : cpp_string → sys_error + file_kind.

Definition PreflightLocalArtifactUri (request : LoadRequest) : StatusM :=
  let uri := request_artifact_uri request in
  let file_scheme := str "file://" in
  if bool_decide (uri = []) then InvalidArgument "artifact uri is empty"
  else if contains (str "://") uri && negb (starts_with file_scheme uri) then
    InvalidArgument "artifact uri scheme is unsupported"
  else
  let path := if contains (str "://") uri then drop (length file_scheme) uri else uri in
  if bool_decide (path = []) then InvalidArgument "artifact path is empty"
  else
  match stat (c_str path) with
  | inl _ => NotFound "artifact file does not exist"
  | inr OtherFile =>
      InvalidArgument "artifact path is neither a regular file nor a directory"
  | inr _ => Ok tt
  end.

Definition refused_state (request : LoadRequest) (id : Z) (status : Status) : LoadState :=
  set_end kLoadFailed true (str (status_message status)) (str (status_message status))
    (initial_state request id).

Definition LoadAsync (request : LoadRequest) (index : ForwardIndex) : Z * ForwardIndex :=
  let id := next_load_id_ index in
  let next := wrap64 (id + 1) in
  match PreflightLocalArtifactUri request with
  | Err status =>
      (id, MkForwardIndex (options_ index) (shard_directory_ index) next
             (emplace id (refused_state request id status) (loads_ index))
             (load_cancellations_ index) (flags_ index) (load_workers_ index))
  | _ =>
      (id, MkForwardIndex (options_ index) (shard_directory_ index) next
             (emplace id (initial_state request id) (loads_ index))
             ({[id]} ∪ load_cancellations_ index) (<[id := false]> (flags_ index))
             (load_workers_ index ++ [(id, request)]))
  end.
End Loads.

Definition unknown_load (id : Z) : LoadState :=
  set_end kLoadUnknown true [] (str "unknown load id") (initial_state (MkLoadRequest [] []) id).

Definition GetLoadState (index : ForwardIndex) (id : Z) : LoadState :=
  default (unknown_load id) (loads_ index !! id).

Definition CancelLoad (id : Z) (index : ForwardIndex) : bool * ForwardIndex :=
  match loads_ index !! id with
  | None => (false, index)
  | Some s =>
      if load_terminal s then (false, index)
      else
      let index := set_loads (<[id := cancelled_from s]> (loads_ index)) index in
      (true, if decide (id ∈ load_cancellations_ index) then set_flag id index else index)
  end.

(** The destructor raises the flags it still has pointers to, then joins the
    workers. *)
Definition stop_loads (index : ForwardIndex) : ForwardIndex :=
  foldr set_flag index (elements (load_cancellations_ index)).

(** ** The callbacks of a worker *)

(** [store_state] *)
Definition store_load (id : Z) (state : LoadState) (index : ForwardIndex) : ForwardIndex :=
  match loads_ index !! id with
  | None => index
  | Some old =>
      if bool_decide (load_code old = kLoadCancelled) && load_terminal old
         && negb (bool_decide (load_code state = kLoadCancelled))
      then set_loads (<[id := cancelled_from state]> (loads_ index)) index
      else set_loads (<[id := state]> (loads_ index)) index
  end.

(** [publish_shard] *)
Definition publish_index (shard_id : Z) (state : ShardState) : stateful ForwardIndex Status unit :=
  λ index,
  let '(r, d) := ShardDirectory_Publish shard_id (Some state) (shard_directory_ index) in
  (r, set_directory d index).

(** [cancellation->load()] *)
Definition flag_of (id : Z) (index : ForwardIndex) : bool := default false (flags_ index !! id).

(** ** The runtime status *)

Record RuntimeStatus : Type := MkRuntimeStatus {
  runtime_shard_count : Z;
  runtime_shards : list ShardRuntimeStatus;
  runtime_loads : list LoadState;
  runtime_last_error : cpp_string;
}.

(** A [ShardRuntimeStatus] with its id and error, the rest default. *)
Definition blank_shard_status (shard_id : Z) (error : cpp_string) : ShardRuntimeStatus :=
  MkShardRuntimeStatus shard_id 0 0 0 [] false false false RealtimeDeltaStats_default 0 0 0 error.

(** One round of the loop over the shards. *)
Definition add_shard_status (d : ShardDirectory) (acc : list ShardRuntimeStatus * cpp_string)
    (shard_id : Z) : StatusOr (list ShardRuntimeStatus * cpp_string) :=
  match ShardDirectory_Load d shard_id with
  | Err status =>
      let error := str (status_message status) in
      Ok (acc.1 ++ [blank_shard_status shard_id error],
          if bool_decide (acc.2 = []) then error else acc.2)
  | Ok None => Ok (acc.1 ++ [blank_shard_status shard_id []], acc.2)
  | Ok (Some state) => Ok (acc.1 ++ [GetRuntimeStatus state], acc.2)
  | Fault f => Fault f
  end.

(** One round of the loop over the loads. *)
Definition add_load (acc : list LoadState * cpp_string) (state : LoadState)
    : list LoadState * cpp_string :=
  (acc.1 ++ [state],
   if bool_decide (load_last_error state = []) then acc.2 else load_last_error state).

(** The order in which an unordered map is iterated. *)
Class LoadOrder : Type := {
  load_order : gmap Z LoadState → list LoadState;
  load_order_perm : ∀ loads, load_order loads ≡ₚ (map_to_list loads).*2;
}.

Definition ForwardIndex_GetRuntimeStatus `{LoadOrder} (index : ForwardIndex)
    : StatusOr RuntimeStatus :=
  let n := options_shard_count (options_ index) in
  let* shards := ofold (add_shard_status (shard_directory_ index)) (seqZ 0 n) ([], []) in
  let loads := foldl add_load ([], shards.2) (load_order (loads_ index)) in
  Ok (MkRuntimeStatus n shards.1 loads.1 loads.2).

(** ** The worker of a load *)

(** What another thread does to the index in one step: a client, another
    worker's callback or end, or the destructor. *)
Inductive index_op : Type :=
| OpLoadAsync (request : LoadRequest)
| OpCancelLoad (id : Z)
| OpStoreState (id : Z) (state : LoadState)
| OpPublish (shard_id : Z) (state : ShardState)
| OpFinish (id : Z)
| OpStop.

Section Worker.
Context `{SectionSort}.
Variable stat : cpp_string → sys_error + file_kind.
Variable map_file : cpp_string → map_result.
Variable page_size : Z.

Definition run_op (op : index_op) (index : ForwardIndex) : ForwardIndex :=
  match op with
  | OpLoadAsync request => (LoadAsync stat request index).2
  | OpCancelLoad id => (CancelLoad id index).2
  | OpStoreState id state => store_load id state index
  | OpPublish shard_id state => (publish_index shard_id state index).2
  | OpFinish id => erase_cancellation id index
  | OpStop => stop_loads index
  end.

Definition run_ops (ops : list index_op) (index : ForwardIndex) : ForwardIndex :=
  foldl (λ i op, run_op op i) index ops.

(** The index, and what happens before each of the next callbacks. *)
Definition world : Type := ForwardIndex * list (list index_op).

Definition interfere (w : world) : world :=
  match w.2 with
  | [] => w
  | ops :: rest => (run_ops ops w.1, rest)
  end.

(** The callbacks of the worker of load [id]. *)
Definition index_callbacks (id : Z) : AsyncLoadCallbacks world :=
  MkAsyncLoadCallbacks
    (Some (λ shard_id state w,
       let w := interfere w in
       let '(r, index) := publish_index shard_id state w.1 in (r, (index, w.2))))
    (Some (λ state w, let w := interfere w in (store_load id state w.1, w.2)))
    (Some (λ w, let w := interfere w in (flag_of id w.1, w)))
    (Some (λ w, flag_of id w.1)).

(** The variable of a worker before the load assigns to it. *)
Definition LoadState_default : LoadState :=
  set_end kLoadUnknown true [] [] (initial_state (MkLoadRequest [] []) 0).

(** The body of a worker thread; the status is dropped. *)
Definition run_worker {R} `{AsyncCatchUpRunner world R} (fuel : nat) (id : Z)
    (request : LoadRequest) (w : world) : StatusM * world :=
  let '(status, (_, w')) :=
    RunExternalArtifactLoad stat map_file page_size (index_callbacks id) request id
      (options_ w.1) fuel (Some LoadState_default, w) in
  match status with
  | Fault f => (Fault f, w')
  | _ => let w'' := interfere w' in (status, (erase_cancellation id w''.1, w''.2))
  end.
End Worker.
