(* ===== verification/ForwardIndexProofs.v ===== *)
(** * Reads of the index

    [MGet] groups the keys by shard, asks every shard once and puts the rows
    back in their places; it answers what [Get] answers for each key. *)

From S2P Require Import Prelude Status Hash Types RealtimeDelta Snapshot Shard RowStorage Kafka.
From S2P Require Import ArtifactFormat MmapBacking AsyncLoad ForwardIndex.

Lemma IsPowerOfTwo_single n : is_u32 n → IsPowerOfTwo n = true → single_bit n = true ∧ 0 < n.
Proof.
  unfold IsPowerOfTwo, single_bit, is_u32. intros Hn [H0 Hl]%andb_true_iff. btoprop.
  rewrite wrap32_small in Hl by (unfold is_u32; lia). split; [|lia].
  apply andb_true_iff. split; [by apply negb_true_iff, Z.eqb_neq|by apply Z.eqb_eq].
Qed.

(** The shard of a key is its hash modulo the number of shards. *)
Lemma index_shard_mod o k :
  is_u32 (options_shard_count o) → IsPowerOfTwo (options_shard_count o) = true →
  index_shard o k
  = StableHash64 k (options_hash_seed o) (options_hash_version o) mod options_shard_count o.
Proof.
  intros Hn Hp. destruct (IsPowerOfTwo_single _ Hn Hp) as [Hs Hpos]. unfold is_u32 in Hn.
  unfold index_shard. rewrite wrap64_small by (unfold is_u64; lia).
  rewrite land_single_bit by (lia || done). apply wrap32_small. unfold is_u32.
  pose proof (Z.mod_pos_bound (StableHash64 k (options_hash_seed o) (options_hash_version o))
    (options_shard_count o) Hpos). lia.
Qed.

Lemma omapM_fails {A B} (f : A → StatusOr B) l :
  match omapM f l with
  | Ok _ => True
  | Err e => ∃ x, x ∈ l ∧ f x = Err e
  | Fault x => ∃ y, y ∈ l ∧ f y = Fault x
  end.
Proof.
  induction l as [|x l IH]; cbn [omapM]; [done|].
  destruct (f x) as [y|e|z] eqn:E; cbn [obind].
  - destruct (omapM f l) as [ys|e|z]; cbn [obind]; [done|..];
      destruct IH as (w & Hw & Hf); exists w; (split; [by right|done]).
  - exists x. split; [left|done].
  - exists x. split; [left|done].
Qed.

(** Placing rows at distinct positions. *)
Lemma place_rows ps : ∀ (rs rows : list (option Row)),
  length rs = length ps → NoDup ps → Forall (λ p, 0 ≤ p < Zlen rows) ps →
  ∃ rows', ofold place_row (zip ps rs) rows = Ok rows' ∧ length rows' = length rows
    ∧ (∀ j p r, ps !! j = Some p → rs !! j = Some r → rows' !! Z.to_nat p = Some r)
    ∧ ∀ i, Z.of_nat i ∉ ps → rows' !! i = rows !! i.
Proof.
  induction ps as [|p ps IH]; intros [|r rs] rows Hl Hnd Hin; try done.
  { exists rows. by split_and!. }
  apply NoDup_cons in Hnd as [Hp Hnd]. apply Forall_cons in Hin as [Hr Hin]. cbn [zip ofold].
  unfold place_row at 1. cbn [fst snd]. rewrite set_at_in by done. cbn [obind].
  destruct (IH rs (<[Z.to_nat p := r]> rows)) as (rows' & Hf & Hlen & Hset & Hkeep).
  { by injection Hl. }
  { done. }
  { unfold Zlen. by rewrite length_insert. }
  exists rows'. split; [exact Hf|]. rewrite length_insert in Hlen. split; [done|].
  assert (Z.of_nat (Z.to_nat p) = p) as Hzp by lia. split.
  - intros [|j] q x Hq Hx.
    + injection Hq as <-. injection Hx as <-. rewrite Hkeep by (by rewrite Hzp).
      apply list_lookup_insert_eq. unfold Zlen in Hr. lia.
    + by apply (Hset j).
  - intros i Hi. apply not_elem_of_cons in Hi as [Hne Hi]. rewrite Hkeep by done.
    apply list_lookup_insert_ne. lia.
Qed.

Section MGet.
Variable o : ForwardIndexOptions.
Variable load : Z → StatusOr (option ShardState).
Hypothesis Hn : is_u32 (options_shard_count o).
Hypothesis Hpow : IsPowerOfTwo (options_shard_count o) = true.
Variable keys : list Z.

Abbreviation n := (options_shard_count o).
Abbreviation shard := (index_shard o).

Lemma shard_range k : 0 ≤ shard k < n.
Proof.
  rewrite index_shard_mod by done. destruct (IsPowerOfTwo_single _ Hn Hpow).
  by apply Z.mod_pos_bound.
Qed.

(** The keys with their positions, and those of a shard. *)
Definition indexed : list (Z * Z) := zip (seqZ 0 (Zlen keys)) keys.
Definition in_shard (s : Z) : list (Z * Z) := filter (λ ik, shard ik.2 = s) indexed.

Lemma indexed_lookup i k : (i, k) ∈ indexed → 0 ≤ i < Zlen keys ∧ keys !! Z.to_nat i = Some k.
Proof.
  intros [j Hj]%list_elem_of_lookup. unfold indexed in Hj. apply lookup_zip_Some in Hj as [Hi Hk].
  apply lookup_seqZ in Hi as [Hi Hlt]. cbn [fst snd] in *. rewrite Z.add_0_l in Hi. subst i.
  rewrite Nat2Z.id. split; [lia|done].
Qed.

Lemma indexed_complete j k : keys !! j = Some k → (Z.of_nat j, k) ∈ indexed.
Proof.
  intros Hk. apply (list_elem_of_lookup_2 _ j). unfold indexed. apply lookup_zip_Some.
  split; [|done]. rewrite lookup_seqZ. pose proof (lookup_lt_Some _ _ _ Hk). unfold Zlen. split; lia.
Qed.

Lemma indexed_positions : indexed.*1 = seqZ 0 (Zlen keys).
Proof. unfold indexed. apply fst_zip. rewrite length_seqZ. unfold Zlen. lia. Qed.

Lemma in_shard_NoDup s : NoDup (in_shard s).*1.
Proof.
  assert (NoDup indexed.*1) as Hnd by (rewrite indexed_positions; apply NoDup_seqZ).
  revert Hnd. unfold in_shard. induction indexed as [|x l IH]; [done|].
  rewrite fmap_cons. intros [Hx Hl]%NoDup_cons. rewrite filter_cons.
  case_decide; [|by apply IH]. rewrite fmap_cons. apply NoDup_cons. split; [|by apply IH].
  intros (y & Hy & Hin)%list_elem_of_fmap. apply Hx. apply list_elem_of_fmap.
  exists y. split; [done|]. by apply list_elem_of_filter in Hin as [_ Hin].
Qed.

(** The loop that groups the positions. *)
Lemma grouped_positions :
  ∃ ps, ofold (add_position o) indexed (replicate (Z.to_nat n) []) = Ok ps
    ∧ ∀ s, 0 ≤ s < n → ps !! Z.to_nat s = Some (in_shard s).*1.
Proof.
  pose (P done t := length t = Z.to_nat n ∧ ∀ s, 0 ≤ s < n →
    (t : list (list Z)) !! Z.to_nat s = Some (filter (λ ik, shard ik.2 = s) done).*1).
  destruct (ofold_total (add_position o) P indexed (replicate (Z.to_nat n) []))
    as (ps & Hps & _ & Hs); [| |by exists ps].
  - split; [apply length_replicate|]. intros s Hs. rewrite lookup_replicate. split; [done|lia].
  - intros done [i k] rest t _ [Hlen Hall]. unfold add_position. cbn [fst snd].
    pose proof (shard_range k) as Hk.
    rewrite (proj2 (at_Ok _ (shard k) _)) by (split; [lia|by apply Hall]). cbn [obind].
    rewrite set_at_in by (unfold Zlen; rewrite Hlen; lia). eexists. split; [reflexivity|].
    split; [by rewrite length_insert|]. intros s Hs. rewrite filter_app, fmap_app, filter_cons.
    cbn [snd filter]. destruct (decide (shard k = s)) as [<-|Hne].
    + rewrite list_lookup_insert_eq by (rewrite Hlen; lia). done.
    + rewrite list_lookup_insert_ne by lia. rewrite Hall by done. cbn. by rewrite app_nil_r.
Qed.

Lemma in_shard_elem s i k :
  (i, k) ∈ in_shard s → 0 ≤ i < Zlen keys ∧ keys !! Z.to_nat i = Some k ∧ shard k = s.
Proof.
  unfold in_shard. intros [Hs Hin]%list_elem_of_filter. cbn in Hs.
  destruct (indexed_lookup i k Hin). done.
Qed.

Lemma in_shard_keys s :
  omapM (E := Status) (at_ keys) (in_shard s).*1 = Ok (in_shard s).*2.
Proof.
  apply omapM_Ok. apply Forall2_fmap_l, Forall2_fmap_r, Forall_Forall2_diag, Forall_forall.
  intros [i k] (Hi & Hk & _)%in_shard_elem. apply at_Ok. cbn. split; [lia|done].
Qed.

(** What the rows of a shard must become. *)
Definition answered (s : Z) (rows rows' : list (option Row)) : Prop :=
  length rows' = length rows
  ∧ ∀ j k, keys !! j = Some k →
    if decide (shard k = s) then ∃ x, Get_from o load k = Ok x ∧ rows' !! j = Some x
    else rows' !! j = rows !! j.

Lemma place_answers s st rs rows :
  load s = Ok (Some st) → length rows = length keys →
  omapM (ShardState_Get st) (in_shard s).*2 = Ok rs →
  ∃ rows', ofold place_row (zip (in_shard s).*1 rs) rows = Ok rows' ∧ answered s rows rows'.
Proof.
  intros Hload Hlen Hrs. apply omapM_Ok in Hrs as Hrs'. apply Forall2_length in Hrs' as Hl.
  rewrite length_fmap in Hl.
  destruct (place_rows (in_shard s).*1 rs rows) as (rows' & Hf & Hlen' & Hset & Hkeep).
  - by rewrite length_fmap.
  - apply in_shard_NoDup.
  - apply Forall_fmap, Forall_forall. intros [i k] (Hi & _)%in_shard_elem. unfold Zlen in *.
    cbn. by rewrite Hlen.
  - exists rows'. split; [exact Hf|]. split; [done|]. intros j k Hk.
    pose proof (indexed_complete j k Hk) as Hin. case_decide as Hs.
    + assert ((Z.of_nat j, k) ∈ in_shard s) as [m Hm]%list_elem_of_lookup
        by (by apply list_elem_of_filter).
      rewrite Forall2_fmap_l in Hrs'.
      destruct (Forall2_lookup_l _ _ _ _ _ Hrs' Hm) as (x & Hx & Hget). exists x. split.
      * unfold Get_from. rewrite Hs, Hload. cbn. cbn in Hget. by rewrite Hget.
      * rewrite <-(Nat2Z.id j). apply (Hset m); [by rewrite list_lookup_fmap, Hm|done].
    + apply Hkeep. intros ([i k'] & Hi & (Hr & Hk' & Hs')%in_shard_elem)%list_elem_of_fmap.
      cbn in Hi. subst i. rewrite Nat2Z.id, Hk in Hk'. by injection Hk' as ->.
Qed.

(** The shard's rows, asked for at once. *)
Lemma mget_state_answers s st rows :
  load s = Ok (Some st) → length rows = length keys →
  match
    let* shard_keys := omapM (at_ keys) (in_shard s).*1 in
    let* shard_rows := or_throw (ShardState_MGet st shard_keys) in
    if negb (Zlen shard_rows =? Zlen (in_shard s).*1) then
      Fault (Thrown "shard returned a row count that does not match request count")
    else ofold place_row (zip (in_shard s).*1 shard_rows) rows
  with
  | Ok rows' => answered s rows rows'
  | Err _ => False
  | Fault f => ∃ k, k ∈ keys ∧ Get_from o load k = Fault f
  end.
Proof.
  intros Hload Hlen. rewrite in_shard_keys. cbn [obind]. unfold ShardState_MGet.
  assert (∀ k, k ∈ (in_shard s).*2 → k ∈ keys
    ∧ Get_from o load k = or_throw (ShardState_Get st k)) as Hget.
  { intros k ([i k'] & -> & (_ & Hk & Hd)%in_shard_elem)%list_elem_of_fmap. cbn.
    split; [by eapply list_elem_of_lookup_2|]. unfold Get_from. by rewrite Hd, Hload. }
  pose proof (omapM_fails (ShardState_Get st) (in_shard s).*2) as Hfail.
  destruct (omapM (ShardState_Get st) (in_shard s).*2) as [rs|e|f] eqn:Ers; cbn [or_throw obind ThrowStatus].
  - pose proof (proj1 (omapM_Ok _ _ _) Ers) as Hl. apply Forall2_length in Hl.
    rewrite length_fmap in Hl. unfold Zlen at 1 2. rewrite length_fmap, Hl, Z.eqb_refl. cbn [negb].
    destruct (place_answers s st rs rows Hload Hlen Ers) as (rows' & -> & Hr). exact Hr.
  - destruct Hfail as (k & Hk & He). destruct (Hget k Hk) as [Hin Hg]. exists k.
    split; [done|]. by rewrite Hg, He.
  - destruct Hfail as (k & Hk & He). destruct (Hget k Hk) as [Hin Hg]. exists k.
    split; [done|]. by rewrite Hg, He.
Qed.

(** One shard. *)
Lemma mget_shard_answers ps s rows :
  (∀ s, 0 ≤ s < n → ps !! Z.to_nat s = Some (in_shard s).*1) → 0 ≤ s < n →
  length rows = length keys →
  (∀ j k, keys !! j = Some k → shard k = s → rows !! j = Some None) →
  match mget_shard load keys ps rows s with
  | Ok rows' => answered s rows rows'
  | Err _ => False
  | Fault f => ∃ k, k ∈ keys ∧ Get_from o load k = Fault f
  end.
Proof.
  intros Hps Hs Hlen Hnone. unfold mget_shard.
  rewrite (proj2 (at_Ok _ s _)) by (split; [lia|by apply Hps]). cbn [obind].
  assert (∀ rows', rows' = rows → (∀ j k, keys !! j = Some k → shard k = s →
    Get_from o load k = Ok None) → answered s rows rows') as Hsame.
  { intros rows' -> Hget. split; [done|]. intros j k Hk. case_decide as Hd; [|done].
    exists None. split; [by eapply Hget|by eapply Hnone]. }
  destruct (in_shard s).*1 as [|p l] eqn:Ep.
  { apply Hsame; [done|]. intros j k Hk Hd. pose proof (indexed_complete j k Hk) as Hin.
    apply fmap_nil_inv in Ep. exfalso. assert ((Z.of_nat j, k) ∈ in_shard s) as Hi
      by (by apply list_elem_of_filter). rewrite Ep in Hi. by apply elem_of_nil in Hi. }
  assert (∃ k, k ∈ keys ∧ shard k = s) as (k0 & Hk0 & Hs0).
  { assert (p ∈ (in_shard s).*1) as ([i k] & -> & (_ & Hk & Hd)%in_shard_elem)%list_elem_of_fmap
      by (rewrite Ep; left). exists k. split; [by eapply list_elem_of_lookup_2|done]. }
  assert (∀ k, shard k = s → Get_from o load k
    = let* x := or_throw (load s) in
      match x with None => Ok None | Some st => or_throw (ShardState_Get st k) end) as Hget
    by (intros k <-; done).
  destruct (load s) as [[st|]|e|f] eqn:El; cbn [or_throw obind ThrowStatus] in Hget |- *.
  - rewrite <-Ep. by apply mget_state_answers.
  - apply Hsame; [done|]. intros j k _ Hd. by apply Hget.
  - exists k0. split; [done|by apply Hget].
  - exists k0. split; [done|by apply Hget].
Qed.

Lemma MGet_from_answers :
  match MGet_from o load keys with
  | Ok rows => Forall2 (λ k row, Get_from o load k = Ok row) keys rows
  | Err _ => False
  | Fault f => ∃ k, k ∈ keys ∧ Get_from o load k = Fault f
  end.
Proof.
  unfold MGet_from. destruct grouped_positions as (ps & Hps & Hall). fold indexed. rewrite Hps.
  cbn [obind]. set (body := mget_shard load keys ps).
  pose (P (m : Z) (rows : list (option Row)) := length rows = length keys
    ∧ ∀ j k, keys !! j = Some k →
      if decide (shard k < m) then ∃ x, Get_from o load k = Ok x ∧ rows !! j = Some x
      else rows !! j = Some None).
  assert (∀ c m rows, 0 ≤ m → m + Z.of_nat c = n → P m rows →
    match ofold body (seqZ m (Z.of_nat c)) rows with
    | Ok rows' => P n rows'
    | Err _ => False
    | Fault f => ∃ k, k ∈ keys ∧ Get_from o load k = Fault f
    end) as Hloop.
  { induction c as [|c IH]; intros m rows Hm Hc HP.
    { replace m with n in HP by lia. exact HP. }
    rewrite seqZ_cons by lia. cbn [ofold]. destruct HP as [Hlen HP].
    pose proof (mget_shard_answers ps m rows Hall ltac:(lia) Hlen) as Hstep. fold body in Hstep.
    destruct (body rows m) as [rows'|e|f]; cbn [obind].
    - replace (Z.pred (Z.of_nat (S c))) with (Z.of_nat c) by lia. apply IH; [lia..|].
      destruct Hstep as [Hlen' Hans].
      { intros j k Hk Hd. specialize (HP j k Hk). rewrite decide_False in HP by lia. done. }
      split; [congruence|]. intros j k Hk. specialize (HP j k Hk). specialize (Hans j k Hk).
      destruct (decide (shard k < Z.succ m)), (decide (shard k < m)), (decide (shard k = m));
        try lia; try done; by rewrite Hans.
    - apply Hstep. intros j k Hk Hd. specialize (HP j k Hk). by rewrite decide_False in HP by lia.
    - apply Hstep. intros j k Hk Hd. specialize (HP j k Hk). by rewrite decide_False in HP by lia. }
  assert (P 0 (replicate (length keys) None)) as H0.
  { split; [apply length_replicate|]. intros j k Hk. pose proof (shard_range k).
    rewrite decide_False by lia. apply lookup_replicate. split; [done|]. by eapply lookup_lt_Some. }
  specialize (Hloop (Z.to_nat n) 0 (replicate (length keys) None)).
  destruct Hn as [Hn0 _]. rewrite Z2Nat.id in Hloop by done.
  specialize (Hloop ltac:(lia) ltac:(lia) H0).
  destruct (ofold body (seqZ 0 n) _) as [rows|e|f]; [|done..]. destruct Hloop as [Hlen HP].
  apply Forall2_same_length_lookup_2; [done|]. intros j k row Hk Hrow. specialize (HP j k Hk).
  pose proof (shard_range k). rewrite decide_True in HP by lia. destruct HP as (x & Hx & Hj). congruence.
Qed.
End MGet.
