(* ===== verification/IndexProofs.v ===== *)
(** * Loads of the index

    The operations under the mutex as a step relation on the index: its
    invariant, that a cancellation is final, and what a worker leaves behind
    whatever happens beside it. *)

From S2P Require Import Prelude Status Types RealtimeDelta Snapshot Shard Kafka.
From S2P Require Import ArtifactFormat MmapBacking AsyncLoad LoadProtocol ForwardIndex.

(** ** Steps *)

(** A state that a worker stores for load [id]. *)
Definition storable (id : Z) (s : LoadState) : Prop :=
  load_id s = id ∧ (load_code s = kLoadCancelled → load_terminal s = true).

Inductive index_step (stat : cpp_string → sys_error + file_kind)
    : ForwardIndex → ForwardIndex → Prop :=
| step_load_async request i :
    next_load_id_ i < u64_max → index_step stat i (LoadAsync stat request i).2
| step_cancel id i : index_step stat i (CancelLoad id i).2
| step_store id s i : storable id s → index_step stat i (store_load id s i)
| step_publish shard st i : index_step stat i (publish_index shard st i).2
| step_finish id i : index_step stat i (erase_cancellation id i)
| step_stop i : index_step stat i (stop_loads i).

Record index_ok (i : ForwardIndex) : Prop := {
  ix_next : 0 < next_load_id_ i ≤ u64_max;
  ix_loads : ∀ id s, loads_ i !! id = Some s → load_id s = id ∧ 0 < id < next_load_id_ i;
  ix_cancelled : ∀ id s, loads_ i !! id = Some s → load_code s = kLoadCancelled →
    load_terminal s = true;
  ix_pointers : ∀ id, id ∈ load_cancellations_ i → is_Some (loads_ i !! id) ∧ is_Some (flags_ i !! id);
  ix_directory : shard_count (shard_directory_ i) = options_shard_count (options_ i)
    ∧ Zlen (shards (shard_directory_ i)) = options_shard_count (options_ i);
}.

Lemma emplace_fresh {A} k (x : A) m : m !! k = None → emplace k x m = <[k := x]> m.
Proof. unfold emplace. by intros ->. Qed.

Lemma index_fresh i : index_ok i → loads_ i !! next_load_id_ i = None.
Proof.
  intros Hi. destruct (loads_ i !! next_load_id_ i) as [s|] eqn:E; [|done].
  apply (ix_loads _ Hi) in E. lia.
Qed.

(** Registering a load. *)
Lemma register_ok i s pointers flags workers :
  index_ok i → next_load_id_ i < u64_max → storable (next_load_id_ i) s →
  (∀ id, id ∈ pointers → (id = next_load_id_ i ∨ id ∈ load_cancellations_ i) ∧ is_Some (flags !! id)) →
  index_ok (MkForwardIndex (options_ i) (shard_directory_ i) (wrap64 (next_load_id_ i + 1))
              (emplace (next_load_id_ i) s (loads_ i)) pointers flags workers).
Proof.
  intros Hi Hlt [Hs Hcan] Hpt. pose proof (index_fresh i Hi) as Hf.
  destruct Hi as [Hn Hl Hc Hp Hd]. rewrite emplace_fresh by done. unfold u64_max in *.
  rewrite wrap64_small by (unfold is_u64; lia). split; cbn; [unfold u64_max; lia|..|exact Hd].
  - intros id x [[<- <-]|[_ Hx]]%lookup_insert_Some; [split; [done|lia]|].
    destruct (Hl id x Hx). split; [done|lia].
  - intros id x [[<- <-]|[_ Hx]]%lookup_insert_Some; [done|by eapply Hc].
  - intros id Hin. destruct (Hpt id Hin) as [Hor Hflag]. split; [|done].
    apply lookup_insert_is_Some'. destruct Hor as [->|Hold]; [by left|right; apply Hp, Hold].
Qed.

Lemma LoadAsync_ok stat request i :
  index_ok i → next_load_id_ i < u64_max → index_ok (LoadAsync stat request i).2.
Proof.
  intros Hi Hlt. unfold LoadAsync.
  destruct (PreflightLocalArtifactUri stat request) as [u|e|f]; cbn [snd]; apply register_ok; try done.
  - intros id [->%elem_of_singleton|Hin]%elem_of_union.
    + split; [by left|]. rewrite lookup_insert_eq. by eexists.
    + split; [by right|]. apply lookup_insert_is_Some'. right. by apply (ix_pointers _ Hi).
  - intros id Hin. split; [by right|]. by apply (ix_pointers _ Hi).
  - intros id [->%elem_of_singleton|Hin]%elem_of_union.
    + split; [by left|]. rewrite lookup_insert_eq. by eexists.
    + split; [by right|]. apply lookup_insert_is_Some'. right. by apply (ix_pointers _ Hi).
Qed.

Lemma set_load_ok id s i :
  index_ok i → is_Some (loads_ i !! id) → storable id s →
  index_ok (set_loads (<[id := s]> (loads_ i)) i).
Proof.
  intros [Hn Hl Hc Hp Hd] [old Hold] [Hid Hcan]. split; cbn; [done|..|done].
  - intros id' x [[<- <-]|[_ Hx]]%lookup_insert_Some; [|by apply Hl].
    split; [done|]. by eapply Hl.
  - intros id' x [[<- <-]|[_ Hx]]%lookup_insert_Some; [done|by eapply Hc].
  - intros id' Hin. destruct (Hp id' Hin). split; [|done]. apply lookup_insert_is_Some'. by right.
Qed.

Lemma cancelled_storable id s : load_id s = id → storable id (cancelled_from s).
Proof. by intros. Qed.

Lemma set_flag_ok id i : index_ok i → index_ok (set_flag id i).
Proof.
  intros [Hn Hl Hc Hp Hd]. split; cbn; try done. intros id' Hin. destruct (Hp id' Hin).
  split; [done|]. apply lookup_insert_is_Some'. by right.
Qed.

Lemma CancelLoad_ok id i : index_ok i → index_ok (CancelLoad id i).2.
Proof.
  intros Hi. unfold CancelLoad. destruct (loads_ i !! id) as [s|] eqn:E; [|done].
  destruct (load_terminal s); [done|].
  assert (index_ok (set_loads (<[id:=cancelled_from s]> (loads_ i)) i)) as Hset.
  { apply set_load_ok; [done|by eexists|]. apply cancelled_storable, (ix_loads _ Hi id s E). }
  cbn. case_decide; [by apply set_flag_ok|done].
Qed.

Lemma store_load_ok id s i : index_ok i → storable id s → index_ok (store_load id s i).
Proof.
  intros Hi Hs. unfold store_load. destruct (loads_ i !! id) as [old|] eqn:E; [|done].
  destruct (_ && _); (apply set_load_ok; [done|by eexists|]); [apply cancelled_storable, Hs|exact Hs].
Qed.

Lemma publish_index_ok shard st i : index_ok i → index_ok (publish_index shard st i).2.
Proof.
  intros [Hn Hl Hc Hp [Hd1 Hd2]]. unfold publish_index, ShardDirectory_Publish.
  destruct (_ <=? _); [by split|].
  unfold set_at. destruct (_ || _); [by split|]. split; cbn; try done.
  split; [done|]. unfold Zlen in *. by rewrite length_insert.
Qed.

Lemma foldr_set_flag l i : index_ok i → index_ok (foldr set_flag i l).
Proof. intros Hi. induction l; cbn; [done|]. by apply set_flag_ok. Qed.

Lemma index_step_ok stat i i' : index_ok i → index_step stat i i' → index_ok i'.
Proof.
  intros Hi Hs. destruct Hs.
  - by apply LoadAsync_ok.
  - by apply CancelLoad_ok.
  - by apply store_load_ok.
  - by apply publish_index_ok.
  - destruct Hi as [Hn Hl Hc Hp Hd]. split; cbn; try done. intros id' [Hin _]%elem_of_difference.
    by apply Hp.
  - by apply foldr_set_flag.
Qed.

Lemma make_index_ok o i : is_u32 (options_shard_count o) → make_index o = Ok i → index_ok i.
Proof.
  unfold make_index. destruct (negb _); [done|]. destruct (_ && _); [done|]. intros Hn [= <-].
  split; cbn; [unfold u64_max; lia|..].
  - intros id s Hs. by rewrite lookup_empty in Hs.
  - intros id s Hs. by rewrite lookup_empty in Hs.
  - intros id Hid. by apply not_elem_of_empty in Hid.
  - split; [done|]. unfold Zlen. rewrite length_replicate. unfold is_u32 in Hn. lia.
Qed.

(** ** Cancellations *)

(** The load is cancelled, and its worker is told. *)
Definition is_cancelled_load (id : Z) (i : ForwardIndex) : Prop :=
  ∃ s, loads_ i !! id = Some s ∧ load_code s = kLoadCancelled ∧ load_terminal s = true.

Lemma emplace_keeps {A} k k' (x y : A) m : m !! k = Some y → emplace k' x m !! k = Some y.
Proof.
  unfold emplace. destruct (m !! k') eqn:E; [done|]. intros Hk.
  rewrite lookup_insert_ne; [done|congruence].
Qed.

Lemma foldr_set_flag_loads l i : loads_ (foldr set_flag i l) = loads_ i.
Proof. by induction l. Qed.

Lemma cancelled_stays stat id i i' :
  is_cancelled_load id i → index_step stat i i' → is_cancelled_load id i'.
Proof.
  intros (s & Hs & Hc & Ht) Hstep.
  destruct Hstep as [request i _|id' i|id' s' i [Hid Hcan]|shard st i|id' i|i].
  - exists s. split; [|done]. unfold LoadAsync.
    destruct (PreflightLocalArtifactUri stat request); cbn; by apply emplace_keeps.
  - unfold CancelLoad. destruct (loads_ i !! id') as [old|] eqn:E; [|by exists s].
    destruct (load_terminal old) eqn:Et; [by exists s|].
    exists s. split; [|done]. assert (id' ≠ id) by congruence.
    cbn. case_decide; cbn; by rewrite lookup_insert_ne.
  - unfold store_load. destruct (loads_ i !! id') as [old|] eqn:E; [|by exists s].
    destruct (decide (id' = id)) as [->|Hne].
    + assert (old = s) as -> by congruence. rewrite Hc, Ht, bool_decide_eq_true_2 by done. cbn.
      destruct (bool_decide (load_code s' = kLoadCancelled)) eqn:Hcode; cbn.
      * apply bool_decide_eq_true in Hcode. exists s'. split; [apply lookup_insert_eq|by auto].
      * exists (cancelled_from s'). split; [apply lookup_insert_eq|done].
    + exists s. split; [|done]. destruct (_ && _); cbn; by rewrite lookup_insert_ne.
  - exists s. split; [|done]. unfold publish_index. by destruct (ShardDirectory_Publish _ _ _).
  - by exists s.
  - exists s. split; [|done]. unfold stop_loads. by rewrite foldr_set_flag_loads.
Qed.

Lemma CancelLoad_cancels id i i' : CancelLoad id i = (true, i') → is_cancelled_load id i'.
Proof.
  unfold CancelLoad. destruct (loads_ i !! id) as [s|]; [|done]. destruct (load_terminal s); [done|].
  intros [= <-]. exists (cancelled_from s). split; [|done].
  case_decide; cbn; apply lookup_insert_eq.
Qed.

Lemma CancelLoad_refused id i :
  (CancelLoad id i).1 = false ↔ load_terminal (GetLoadState i id) = true.
Proof.
  unfold CancelLoad, GetLoadState. destruct (loads_ i !! id) as [s|]; [|done]. cbn.
  destruct (load_terminal s); [done|]. by case_decide.
Qed.

Lemma CancelLoad_refused_same id i : (CancelLoad id i).1 = false → (CancelLoad id i).2 = i.
Proof.
  unfold CancelLoad. destruct (loads_ i !! id) as [s|]; [|done]. destruct (load_terminal s); [done|].
  by case_decide.
Qed.

(** The flag of a cancelled load stays up. *)
Lemma flag_stays stat id i i' :
  index_ok i → id < next_load_id_ i → flag_of id i = true → index_step stat i i' → flag_of id i' = true.
Proof.
  intros Hi Hid Hf Hstep. unfold flag_of in *.
  assert (∀ l j, flags_ j !! id = flags_ i !! id →
    default false (flags_ (foldr set_flag j l) !! id) = true) as Hup.
  { intros l j Hj. induction l as [|x l IH]; cbn; [by rewrite Hj|].
    destruct (decide (x = id)) as [->|Hne]; [by rewrite lookup_insert_eq|by rewrite lookup_insert_ne]. }
  destruct Hstep as [request i _|id' i|id' s' i _|shard st i|id' i|i].
  - unfold LoadAsync. destruct (PreflightLocalArtifactUri stat request); cbn; [|done|];
      (rewrite lookup_insert_ne; [done|lia]).
  - unfold CancelLoad. destruct (loads_ i !! id') as [old|]; [|done]. destruct (load_terminal old); [done|].
    cbn. case_decide; [|done]. apply (Hup [id'] (set_loads _ i)). done.
  - unfold store_load. destruct (loads_ i !! id') as [old|]; [|done]. by destruct (_ && _).
  - unfold publish_index. by destruct (ShardDirectory_Publish _ _ _).
  - done.
  - by apply Hup.
Qed.
