(* ===== verification/WorkerProofs.v ===== *)
(** * What a worker leaves behind

    The callbacks of a worker are observed through the index itself: the entry
    of its load follows the last state it stored, and the directory serves
    what it published, whatever the schedule does in between. *)

From S2P Require Import Prelude Status Types RealtimeDelta Snapshot Shard Kafka.
From S2P Require Import ArtifactFormat MmapBacking AsyncLoad LoadProtocol AsyncLoadProofs.
From S2P Require Import ForwardIndex IndexProofs.

(** What other threads do beside the worker of load [id]. *)
Definition beside (id : Z) (op : index_op) : Prop :=
  match op with
  | OpStoreState id' _ | OpFinish id' => id' ≠ id
  | _ => True
  end.

Definition not_publishing (op : index_op) : Prop :=
  match op with OpPublish _ _ => False | _ => True end.

Definition all_ops (P : index_op → Prop) (w : world) : Prop := Forall (Forall P) w.2.

(** The entry of a load is what its worker stored last, unless it was
    cancelled. *)
Definition follows_state (s s' : LoadState) : Prop :=
  s' = s ∨ (load_code s' = kLoadCancelled ∧ load_terminal s' = true).

Definition entry (id : Z) (i : ForwardIndex) (s : LoadState) : Prop :=
  ∃ s', loads_ i !! id = Some s' ∧ follows_state s s'.

Section Worker.
Context `{SectionSort}.
Variable stat : cpp_string → sys_error + file_kind.
Variable id : Z.

Lemma run_op_entry op i s :
  beside id op → entry id i s → entry id (run_op stat op i) s.
Proof.
  intros Hop (s' & Hs' & Hf). destruct op as [request|id'|id' x|shard st|id'|]; cbn in *.
  - exists s'. split; [|done]. unfold LoadAsync.
    destruct (PreflightLocalArtifactUri stat request); cbn; by apply emplace_keeps.
  - unfold CancelLoad. destruct (loads_ i !! id') as [old|] eqn:E; [|by exists s'].
    destruct (load_terminal old) eqn:Et; [by exists s'|].
    destruct (decide (id' = id)) as [->|Hne].
    + exists (cancelled_from old). split; [|by right]. cbn. case_decide; cbn; apply lookup_insert_eq.
    + exists s'. split; [|done]. cbn. case_decide; cbn; by rewrite lookup_insert_ne.
  - exists s'. split; [|done]. unfold store_load. destruct (loads_ i !! id') as [old|]; [|done].
    destruct (_ && _); cbn; by rewrite lookup_insert_ne.
  - exists s'. split; [|done]. unfold publish_index. by destruct (ShardDirectory_Publish _ _ _).
  - by exists s'.
  - exists s'. split; [|done]. unfold stop_loads. by rewrite foldr_set_flag_loads.
Qed.

Lemma run_op_directory op i :
  not_publishing op → shard_directory_ (run_op stat op i) = shard_directory_ i
    ∧ options_ (run_op stat op i) = options_ i.
Proof.
  destruct op as [request|id'|id' x|shard st|id'|]; cbn; [| | |done|done|]; intros _.
  - unfold LoadAsync. by destruct (PreflightLocalArtifactUri stat request).
  - unfold CancelLoad. destruct (loads_ i !! id') as [old|]; [|done].
    destruct (load_terminal old); [done|]. by case_decide.
  - unfold store_load. destruct (loads_ i !! id') as [old|]; [|done]. by destruct (_ && _).
  - unfold stop_loads. by induction (elements (load_cancellations_ i)).
Qed.

(** Rules of [interfere]. *)
Lemma interfere_rule (P : index_op → Prop) (Q : ForwardIndex → Prop) w :
  (∀ op i, P op → Q i → Q (run_op stat op i)) → all_ops P w → Q w.1 →
  Q (interfere stat w).1 ∧ all_ops P (interfere stat w).
Proof.
  intros Hstep. destruct w as [i [|ops rest]]; cbn; [done|]. intros Hall Hi.
  apply Forall_cons in Hall as [Hops Hrest]. split; [|done]. unfold run_ops. cbn.
  revert i Hi. induction Hops as [|op ops Hop _ IH]; intros i Hi; cbn; [done|]. by apply IH, Hstep.
Qed.

Lemma store_load_entry s0 s i : entry id i s0 → entry id (store_load id s i) s.
Proof.
  intros (s' & Hs' & _). unfold store_load. rewrite Hs'.
  destruct (_ && _) eqn:E; eexists; (split; [apply lookup_insert_eq|]); [by right|by left].
Qed.

(** ** The entry of the load *)

Definition entry_tr (s0 : LoadState) (w : world) (t : list load_event) : Prop :=
  entry id w.1 (default s0 (last_stored t)) ∧ all_ops (beside id) w.

Lemma entry_observes s0 : observes (index_callbacks stat id) (entry_tr s0) (λ _, True).
Proof.
  assert (∀ w t, entry_tr s0 w t → entry_tr s0 (interfere stat w) t) as Hi.
  { intros w t [He Ha]. apply (interfere_rule (beside id) (λ i, entry id i _)); [|done..].
    intros op i. apply run_op_entry. }
  split.
  - intros s w t [He Ha]%Hi. unfold entry_tr, stored. cbn. rewrite last_stored_snoc. cbn.
    split; [by eapply store_load_entry|done].
  - intros ask w t [= <-] Hw. cbn. by apply Hi.
  - intros publish i st w t [= <-] [He Ha]%Hi. unfold publish_index.
    destruct (ShardDirectory_Publish i (Some st) _) as [[u|e|f] d]; [| |done];
      unfold entry_tr; rewrite last_stored_snoc; by split.
Qed.

(** ** The directory *)

Definition directory_serves (t : list load_event) (d : ShardDirectory) : Prop :=
  ∀ i st, 0 ≤ i → published_in t i = Some st → shards d !! Z.to_nat i = Some (Some st).

Definition directory_tr (o : ForwardIndexOptions) (w : world) (t : list load_event) : Prop :=
  (directory_serves t (shard_directory_ w.1)
   ∧ shard_count (shard_directory_ w.1) = options_shard_count o ∧ options_ w.1 = o)
  ∧ all_ops not_publishing w.

Lemma directory_observes o : observes (index_callbacks stat id) (directory_tr o) (λ _, True).
Proof.
  assert (∀ w t, directory_tr o w t → directory_tr o (interfere stat w) t) as Hi.
  { intros w t [Hd Ha].
    apply (interfere_rule not_publishing (λ i, directory_serves t (shard_directory_ i)
      ∧ shard_count (shard_directory_ i) = options_shard_count o ∧ options_ i = o)); [|done..].
    intros op i Hop. by destruct (run_op_directory op i Hop) as [-> ->]. }
  assert (∀ t e, (∀ i st, e ≠ Published i st true) → ∀ d, directory_serves t d →
    directory_serves (t ++ [e]) d) as Hsame.
  { intros t e He d Hd i st Hi0. rewrite published_in_snoc.
    destruct e as [s|j x []]; try apply Hd; try done. by destruct (He j x). }
  split.
  - intros s w t [(Hd & Hc & Ho) Ha]%Hi. unfold directory_tr, stored. cbn. split; [|done].
    unfold store_load. destruct (loads_ _ !! id) as [old|]; [|by split; [apply Hsame|]].
    destruct (_ && _); (split; [by apply Hsame|done]).
  - intros ask w t [= <-] Hw. cbn. by apply Hi.
  - intros publish i st w t [= <-] [(Hd & Hc & Ho) Ha]%Hi. unfold publish_index, ShardDirectory_Publish.
    destruct (_ <=? i); [split; [|done]; split; [by apply Hsame|done]|].
    unfold set_at. destruct (_ || _) eqn:E; [done|]. btoprop. split; [|done]. cbn. split; [|done].
    intros j x Hj. rewrite published_in_snoc. cbn. case_decide as Hij.
    + intros [= <-]. subst j. apply list_lookup_insert_eq. unfold Zlen in *. lia.
    + intros Hx. rewrite list_lookup_insert_ne by lia. by apply Hd.
Qed.
End Worker.

(** ** A whole worker *)

Section Whole.
Context {R : Type} `{AsyncCatchUpRunner world R} `{SectionSort}.
Variable stat : cpp_string → sys_error + file_kind.
Variable map_file : cpp_string → map_result.
Variable page_size : Z.
Variable request : LoadRequest.
Variable id : Z.
Hypothesis Hfile : ∀ path bytes, map_file path = Mapped bytes → is_u64 (Zlen bytes).

(** The end of a worker. *)
Definition finish_worker (w : world) : world :=
  let w' := interfere stat w in (erase_cancellation id w'.1, w'.2).

Lemma run_worker_post tr allowed fuel w :
  let o := options_ w.1 in
  0 < options_shard_count o < 2 ^ 32 →
  observes (index_callbacks stat id) tr allowed → runner_behaves world R allowed →
  allowed UnknownEnumerator →
  loop_behaves stat map_file (index_callbacks stat id) request id o tr allowed fuel → tr w [] →
  match run_worker stat map_file page_size fuel id request w with
  | (Fault f, _) => allowed f
  | (x, w') => ∃ v t s, w' = finish_worker v ∧ tr v t
      ∧ trace stat map_file request id o t (Ended s)
      ∧ (match x with Err e => failed_with e s | _ => load_code s = kLoadSucceeded end)
  end.
Proof.
  intros o Hn Htr Hrunner Henum Hloop Hw. unfold run_worker, RunExternalArtifactLoad. cbn [fst snd].
  pose proof (run_load_behaves stat map_file page_size _ request id o tr allowed Htr Hrunner Henum
    Hfile ltac:(lia) fuel (MkLoadRun w LoadState_default [] [] None) Hloop ltac:(lia) Hw eq_refl
    eq_refl) as Hp. fold o.
  destruct (run_load _ _ _ _ _ _ _ _ _) as [[u|e|f] r]; cbn in *; [| |done].
  - destruct Hp as (Hc & t & Hv & Ht). by exists (run_world r), t, (run_state r).
  - destruct Hp as (Hc & t & Hv & Ht). by exists (run_world r), t, (run_state r).
Qed.

(** *** The entry it leaves *)
Lemma worker_entry fuel w s0 :
  let o := options_ w.1 in
  0 < options_shard_count o < 2 ^ 32 → runner_behaves world R (λ _, True) →
  loads_ w.1 !! id = Some s0 → all_ops (beside id) w →
  match run_worker stat map_file page_size fuel id request w with
  | (Fault _, _) => True
  | (x, w') =>
      load_terminal (GetLoadState w'.1 id) = true ∧ ¬ (id ∈ load_cancellations_ w'.1)
      ∧ (load_code (GetLoadState w'.1 id) = kLoadCancelled
         ∨ (match x with
           | Err e => failed_with e (GetLoadState w'.1 id)
           | _ => load_code (GetLoadState w'.1 id) = kLoadSucceeded
               ∧ reports (options_shard_count o) (options_shard_count o) (options_shard_count o)
                   (options_shard_count o) (GetLoadState w'.1 id)
           end))
  end.
Proof.
  intros o Hn Hrunner Hs0 Hops.
  pose proof (run_worker_post (entry_tr id s0) (λ _, True) fuel w Hn (entry_observes stat id s0)
    Hrunner I) as Hp. cbv zeta in Hp. fold o in Hp.
  assert (entry_tr id s0 w []) as Hw by (split; [exists s0; split; [done|by left]|done]).
  specialize (Hp (catch_up_loop_post stat map_file _ request id o _ _ (entry_observes stat id s0)
    Hrunner fuel I) Hw). clear Hw.
  assert (∀ v t s, entry_tr id s0 v t → trace stat map_file request id o t (Ended s) →
    ¬ (id ∈ load_cancellations_ (finish_worker v).1)
    ∧ follows_state s (GetLoadState (finish_worker v).1 id) ∧ load_terminal s = true
    ∧ (load_code s = kLoadSucceeded → reports (options_shard_count o) (options_shard_count o)
        (options_shard_count o) (options_shard_count o) s)) as Hend.
  { intros v t s [He Ha] Ht. rewrite (trace_last _ _ _ _ _ _ _ Ht) in He. cbn in He.
    destruct (interfere_rule stat (beside id) (λ i, entry id i s) v) as [(s' & Hs' & Hf) _];
      [intros op i; apply run_op_entry|done..|].
    apply trace_ok in Ht as [[_ Hterm] Hrep]; [|lia]. split; [cbn; set_solver|].
    split; [unfold GetLoadState, finish_worker; cbn; by rewrite Hs'|]. split; [done|].
    intros E. by rewrite decide_True in Hrep. }
  destruct (run_worker _ _ _ _ _ _ _) as [[u|e|f] w']; [| |done];
    destruct Hp as (v & t & s & -> & Hv & Ht & Hx);
    destruct (Hend v t s Hv Ht) as (Hid & [-> |[Hc Ht']] & Hterm & Hrep); eauto 10.
Qed.
End Whole.
