(* ===== verification/StopProofs.v ===== *)
(** * A cancelled load stops

    Every round of the catch-up asks whether the load is cancelled, so a
    cancellation that comes in the schedule ends the loop. *)

From S2P Require Import Prelude Status Types RealtimeDelta Snapshot Shard Kafka UpdateApplier.
From S2P Require Import ArtifactFormat MmapBacking AsyncLoad LoadProtocol AsyncLoadProofs.
From S2P Require Import ForwardIndex IndexProofs WorkerProofs.

(** The operations that raise the flag of a running load. *)
Definition raises (id : Z) (op : index_op) : Prop := op = OpCancelLoad id ∨ op = OpStop.

Section Stop.
Context `{SectionSort}.
Variable stat : cpp_string → sys_error + file_kind.
Variable id : Z.

(** The load can be told to stop, and has been told when it is not running;
    [m] more load ids do not wrap. *)
Record stoppable (m : nat) (i : ForwardIndex) : Prop := {
  sp_pointer : id ∈ load_cancellations_ i;
  sp_id : 0 ≤ id < next_load_id_ i;
  sp_room : next_load_id_ i + Z.of_nat m ≤ u64_max;
  sp_told : flag_of id i = true ∨ ∃ s, loads_ i !! id = Some s ∧ load_terminal s = false;
}.

Lemma flag_raised id' i : flag_of id i = true → flag_of id (set_flag id' i) = true.
Proof.
  unfold flag_of. cbn. destruct (decide (id' = id)) as [->|Hne];
    [by rewrite lookup_insert_eq|by rewrite lookup_insert_ne].
Qed.

Lemma foldr_raised l i : flag_of id i = true → flag_of id (foldr set_flag i l) = true.
Proof. intros Hf. induction l; cbn; [done|]. by apply flag_raised. Qed.

Lemma foldr_raises l i : id ∈ l → flag_of id (foldr set_flag i l) = true.
Proof.
  induction l as [|x l IH]; [by intros ?%elem_of_nil|]. intros [<-|Hl]%elem_of_cons; cbn.
  - unfold flag_of. cbn. by rewrite lookup_insert_eq.
  - by apply flag_raised, IH.
Qed.

Lemma foldr_set_flag_same l i :
  load_cancellations_ (foldr set_flag i l) = load_cancellations_ i
  ∧ next_load_id_ (foldr set_flag i l) = next_load_id_ i
  ∧ loads_ (foldr set_flag i l) = loads_ i.
Proof. by induction l. Qed.

Lemma LoadAsync_flag request i :
  id < next_load_id_ i → flag_of id (LoadAsync stat request i).2 = flag_of id i.
Proof.
  intros Hid. unfold LoadAsync, flag_of.
  destruct (PreflightLocalArtifactUri stat request); cbn; [|done|];
    (rewrite lookup_insert_ne; [done|lia]).
Qed.

Lemma LoadAsync_stoppable m request i :
  stoppable (S m) i → stoppable m (LoadAsync stat request i).2.
Proof.
  intros [Hin Hid Hroom Htold]. unfold u64_max in *.
  assert (next_load_id_ (LoadAsync stat request i).2 = next_load_id_ i + 1) as Hnext.
  { rewrite <-(wrap64_small (next_load_id_ i + 1)) by (unfold is_u64; lia).
    unfold LoadAsync. by destruct (PreflightLocalArtifactUri stat request). }
  split; [|lia|unfold u64_max; lia|].
  - unfold LoadAsync. destruct (PreflightLocalArtifactUri stat request); cbn; set_solver.
  - rewrite LoadAsync_flag by lia. destruct Htold as [?|(s & Hs & Ht)]; [by left|right].
    exists s. split; [|done]. unfold LoadAsync.
    destruct (PreflightLocalArtifactUri stat request); cbn; by apply emplace_keeps.
Qed.

Lemma CancelLoad_stoppable m id' i : stoppable (S m) i → stoppable m (CancelLoad id' i).2.
Proof.
  intros [Hin Hid Hroom Htold]. unfold CancelLoad.
  assert (stoppable m i) as Hsame by (split; [done..|lia|done]).
  destruct (loads_ i !! id') as [s'|] eqn:E; [|exact Hsame].
  destruct (load_terminal s') eqn:Et; [exact Hsame|].
  set (j := set_loads _ i).
  assert (load_cancellations_ j = load_cancellations_ i ∧ next_load_id_ j = next_load_id_ i
    ∧ flag_of id j = flag_of id i) as (E1 & E2 & E3) by done.
  assert (flag_of id i = true → stoppable m (set_flag id' j) ∧ stoppable m j) as Hflag.
  { intros Hf. split; (split; [exact Hin|exact Hid|cbn; lia|left; try apply flag_raised; by rewrite E3]). }
  destruct (decide (id' = id)) as [->|Hne].
  - cbn [snd]. rewrite decide_True by done. split; [exact Hin|exact Hid|cbn; lia|left].
    unfold flag_of. cbn. by rewrite lookup_insert_eq.
  - destruct Htold as [Hf|(s & Hs & Ht)]; [by case_decide; apply Hflag|].
    cbn [snd]. case_decide; (split; [exact Hin|exact Hid|cbn; lia|right; exists s;
      split; [|done]; cbn; by rewrite lookup_insert_ne]).
Qed.

Lemma run_op_stoppable m op i :
  beside id op → stoppable (S m) i → stoppable m (run_op stat op i).
Proof.
  intros Hop Hi. assert (stoppable m i) as Hsame by (destruct Hi; split; [done..|lia|done]).
  destruct op as [request|id'|id' x|shard st|id'|]; cbn in *.
  - by apply LoadAsync_stoppable.
  - by apply CancelLoad_stoppable.
  - destruct Hi as [Hin Hid Hroom Htold]. unfold store_load.
    destruct (loads_ i !! id') as [old|] eqn:E; [|exact Hsame].
    destruct (_ && _); (split; [exact Hin|exact Hid|cbn; lia|]);
      (destruct Htold as [?|(s & Hs & Ht)]; [by left|right; exists s; split; [|done];
        cbn; by rewrite lookup_insert_ne]).
  - destruct Hi as [Hin Hid Hroom Htold]. unfold publish_index.
    destruct (ShardDirectory_Publish _ _ _); (split; [exact Hin|exact Hid|cbn; lia|exact Htold]).
  - destruct Hi as [Hin Hid Hroom Htold].
    split; [cbn; set_solver|exact Hid|cbn; lia|exact Htold].
  - destruct Hi as [Hin Hid Hroom _]. unfold stop_loads.
    destruct (foldr_set_flag_same (elements (load_cancellations_ i)) i) as (E1 & E2 & E3).
    split; rewrite ?E1, ?E2; [done..|lia|left]. by apply foldr_raises, elem_of_elements.
Qed.

Lemma run_op_flag m op i :
  beside id op → stoppable (S m) i → flag_of id i = true ∨ raises id op →
  flag_of id (run_op stat op i) = true.
Proof.
  intros Hop Hi [Hf|Hr].
  - destruct op as [request|id'|id' x|shard st|id'|]; cbn.
    + rewrite LoadAsync_flag; [done|apply Hi].
    + unfold CancelLoad. destruct (loads_ i !! id') as [s|]; [|done].
      destruct (load_terminal s); [done|]. cbn. case_decide; [by apply flag_raised|done].
    + unfold store_load. destruct (loads_ i !! id'); [|done]. by destruct (_ && _).
    + unfold publish_index. by destruct (ShardDirectory_Publish _ _ _).
    + done.
    + by apply foldr_raised.
  - destruct Hi as [Hin _ _ Htold], Hr as [->| ->]; cbn; [|by apply foldr_raises, elem_of_elements].
    unfold CancelLoad. destruct Htold as [Hf|(s & Hs & Ht)].
    + destruct (loads_ i !! id) as [s|]; [|done]. destruct (load_terminal s); [done|].
      cbn. case_decide; [by apply flag_raised|done].
    + rewrite Hs, Ht. cbn. rewrite decide_True by done. unfold flag_of. cbn. by rewrite lookup_insert_eq.
Qed.

Lemma run_ops_stoppable m ops i :
  Forall (beside id) ops → stoppable (length ops + m) i →
  stoppable m (run_ops stat ops i)
  ∧ (flag_of id i = true ∨ Exists (raises id) ops → flag_of id (run_ops stat ops i) = true).
Proof.
  intros Hops. unfold run_ops. revert i.
  induction Hops as [|op ops Hop _ IH]; intros i Hi; cbn [foldl length Nat.add] in *.
  - split; [done|]. intros [?|He]; [done|by apply Exists_nil in He].
  - pose proof (run_op_stoppable _ op i Hop Hi) as Hi'. destruct (IH _ Hi') as [IH1 IH2].
    split; [done|]. intros Hor. apply IH2.
    pose proof (run_op_flag _ op i Hop Hi) as Hf.
    destruct Hor as [?|[?|?]%Exists_cons]; [left; apply Hf; by left|left; apply Hf; by right|by right].
Qed.

(** ** The world of a worker *)

Definition spare (w : world) : nat := length (concat w.2).

(** The flag is up, or goes up within the next [k] slots. *)
Definition due (k : nat) (w : world) : Prop :=
  flag_of id w.1 = true
  ∨ ∃ j ops, (j < k)%nat ∧ w.2 !! j = Some ops ∧ Exists (raises id) ops.

Definition doomed (k : nat) (w : world) : Prop :=
  all_ops (beside id) w ∧ stoppable (spare w) w.1 ∧ due k w.

Lemma interfere_doomed k w : doomed (S k) w → doomed k (interfere stat w).
Proof.
  intros (Hall & Hs & Hd). destruct w as [i [|ops rest]]; unfold interfere; cbn [fst snd] in *.
  { split_and!; [done..|]. destruct Hd as [?|(j & ops & _ & Hj & _)]; [by left|].
    cbn in Hj. by rewrite lookup_nil in Hj. }
  apply Forall_cons in Hall as [Hops Hrest]. unfold spare in Hs. cbn in Hs.
  rewrite length_app in Hs. destruct (run_ops_stoppable _ _ _ Hops Hs) as [Hs' Hf].
  split_and!; [done..|]. destruct Hd as [Hd|([|j] & ops' & Hj & Hl & He)]; cbn in *.
  - left. apply Hf. by left.
  - injection Hl as <-. left. apply Hf. by right.
  - right. exists j, ops'. split; [lia|done].
Qed.

Lemma interfere_told w : doomed 1 w → flag_of id (interfere stat w).1 = true.
Proof.
  intros (_ & _ & [Hf|(j & ops & Hj & _)])%interfere_doomed; [done|lia].
Qed.

Lemma due_mono k k' w : (k ≤ k')%nat → due k w → due k' w.
Proof. intros Hk [?|(j & ops & ? & ?)]; [by left|right]. exists j, ops. split; [lia|done]. Qed.

Lemma doomed_mono k k' w : (k ≤ k')%nat → doomed k w → doomed k' w.
Proof. intros Hk (? & ? & Hd). pose proof (due_mono k k' w Hk Hd). by split_and!. Qed.

Lemma interfere_keeps_doomed k w : doomed k w → doomed k (interfere stat w).
Proof.
  intros Hd. apply interfere_doomed, (doomed_mono k); [lia|done].
Qed.

(** While the load runs, its cancellation is due. *)
Definition still_running (t : list load_event) : Prop :=
  ∀ s, Stored s ∈ t → load_terminal s = false.

Lemma still_running_app t t' : still_running (t ++ t') → still_running t.
Proof. intros Hs s Hin. apply Hs, elem_of_app. by left. Qed.

Definition doom_tr (k : nat) (w : world) (t : list load_event) : Prop :=
  still_running t → doomed k w.

Lemma doom_tr_mono k k' w t : (k ≤ k')%nat → doom_tr k w t → doom_tr k' w t.
Proof. intros Hk Ht Hr. apply (doomed_mono k); [done|]. by apply Ht. Qed.

Lemma store_load_doomed k s w :
  load_terminal s = false → doomed k w → doomed k (store_load id s w.1, w.2).
Proof.
  intros Hs Hw. pose proof Hw as (Hall & [Hin Hid Hroom Htold] & Hd). unfold store_load.
  destruct (loads_ w.1 !! id) as [old|] eqn:E; [|by destruct w].
  destruct (bool_decide _ && _ && _) eqn:Eb.
  - split_and!; [exact Hall| |exact Hd]. split; [exact Hin|exact Hid|exact Hroom|].
    destruct Htold as [?|(s' & Hs' & Ht)]; [by left|]. cbn in Hs'.
    assert (old = s') as -> by congruence. rewrite Ht in Eb.
    by rewrite andb_false_r in Eb.
  - split_and!; [exact Hall| |exact Hd]. split; [exact Hin|exact Hid|exact Hroom|].
    right. exists s. split; [apply lookup_insert_eq|done].
Qed.

Lemma publish_index_doomed k shard st w :
  doomed k w → doomed k ((publish_index shard st w.1).2, w.2).
Proof.
  intros (Hall & [Hin Hid Hroom Htold] & Hd). unfold publish_index.
  destruct (ShardDirectory_Publish _ _ _). split_and!; [exact Hall| |exact Hd].
  split; [exact Hin|exact Hid|exact Hroom|exact Htold].
Qed.

Lemma publish_index_fault shard st i f :
  (publish_index shard st i).1 = Fault f → f ≠ Diverges.
Proof.
  unfold publish_index, ShardDirectory_Publish. destruct (_ <=? _); [done|].
  unfold set_at. destruct (_ || _); [|done]. by intros [= <-].
Qed.

Lemma doom_observes k : observes (index_callbacks stat id) (doom_tr k) (λ f, f ≠ Diverges).
Proof.
  split.
  - intros s w t Hw Hr. cbn. apply store_load_doomed; [apply Hr, elem_of_app; right; left|].
    apply interfere_keeps_doomed, Hw. by eapply still_running_app.
  - intros ask w t [= <-] Hw Hr. cbn. by apply interfere_keeps_doomed, Hw.
  - intros publish i st w t [= <-] Hw.
    assert (∀ r, r = publish_index i st (interfere stat w).1 → still_running t →
      doomed k (r.2, (interfere stat w).2)) as Hd.
    { intros r -> Hr. by apply publish_index_doomed, interfere_keeps_doomed, Hw. }
    cbn. pose proof (publish_index_fault i st (interfere stat w).1) as Hf.
    destruct (publish_index i st (interfere stat w).1) as [[u|e|f] d]; cbn in *.
    + intros Hr. apply (Hd _ eq_refl). by eapply still_running_app.
    + intros Hr. apply (Hd _ eq_refl). by eapply still_running_app.
    + by apply Hf.
Qed.

Lemma trace_running map_file request options t st :
  trace stat map_file request id options t st →
  match st with Ended _ => True | _ => still_running t end.
Proof.
  assert (∀ t s, still_running t → load_terminal s = false → still_running (t ++ [Stored s])) as Hs.
  { intros t0 s H1 H2 s' [Hin|Hin]%elem_of_app; [by apply H1|].
    apply list_elem_of_singleton in Hin. congruence. }
  assert (∀ t i x b, still_running t → still_running (t ++ [Published i x b])) as Hp.
  { intros t0 i x b H1 s' [Hin|Hin]%elem_of_app; [by apply H1|]. by apply list_elem_of_singleton in Hin. }
  induction 1 as [|t st e st' _ IH Hstep]; [by intros s ?%elem_of_nil|].
  destruct Hstep; try done; try (apply Hs; [done|]); try (by apply Hp).
  all: match goal with Hr : is_running _ _ |- _ => apply Hr end.
Qed.
End Stop.

(** ** The loop of the catch-up *)

Section Loop.
Context {R : Type} `{AsyncCatchUpRunner world R} `{SectionSort}.
Variable stat : cpp_string → sys_error + file_kind.
Variable map_file : cpp_string → map_result.
Variable page_size : Z.
Variable request : LoadRequest.
Variable id : Z.
Variable options : ForwardIndexOptions.
Hypothesis Hrunner : runner_behaves world R (λ f, f ≠ Diverges).
Implicit Types r : load_run world R.

Abbreviation callbacks := (index_callbacks stat id).
Abbreviation observing k := (observing stat map_file request id options (doom_tr id k)).
Abbreviation catching k := (catching stat map_file request id options (doom_tr id k)).
Abbreviation ended k := (ended stat map_file request id options (doom_tr id k)).
Abbreviation post := (post (λ f, f ≠ Diverges)).

Lemma catching_mono k k' T g r : (k ≤ k')%nat → catching k T g r → catching k' T g r.
Proof.
  intros Hk [[(t & Hw & Ht) ? ? ?] [? ? ?] ? ?]. split; [|by split|done..].
  split; [|done..]. exists t. split; [by apply (doom_tr_mono id k)|done].
Qed.

Lemma observing_mono k k' T g r : (k ≤ k')%nat → observing k T g r → observing k' T g r.
Proof. intros Hk (Hc & Hg & Hf). split; [by apply (catching_mono k)|done]. Qed.

Lemma ended_mono k k' e r : (k ≤ k')%nat → ended k e r → ended k' e r.
Proof.
  intros Hk (Hf & t & Hw & Ht). split; [done|]. exists t.
  split; [by apply (doom_tr_mono id k)|done].
Qed.

Lemma post_ended_mono {A} k k' (Q Q' : A → load_run world R → Prop) res :
  (k ≤ k')%nat → (∀ a r, Q a r → Q' a r) → post Q (ended k) res → post Q' (ended k') res.
Proof.
  intros Hk HQ. destruct res as [[a|e|f] r]; [apply HQ|by apply ended_mono|done].
Qed.

Lemma catching_interfere k T g r :
  catching (S k) T g r → catching k T g (put_world (interfere stat (run_world r)) r).
Proof.
  intros [[(t & Hw & Ht) ? ? ?] [? ? ?] ? ?]. split; [|by split|done..].
  split; [|done..]. exists t. split; [|done]. intros Hr. by apply interfere_doomed, Hw.
Qed.

(** The flag is up once its last slot has passed. *)
Lemma CheckCancelled_doomed k T g r :
  catching (S k) T g r →
  post (λ _ r', (0 < k)%nat ∧ catching k T g r' ∧ run_state r' = run_state r) (ended k)
    (CheckCancelled callbacks r).
Proof.
  intros Hr. pose proof (catching_interfere k T g r Hr) as Hr'.
  unfold CheckCancelled, IsCancelled, sbind at 1. cbn [is_cancelled index_callbacks].
  unfold on_world. fold (put_world (interfere stat (run_world r)) r).
  destruct (flag_of id (interfere stat (run_world r)).1) eqn:Ef.
  - by eapply MarkCancelled_ended, ct_live; [apply doom_observes|].
  - split; [|by split]. destruct k as [|k]; [|lia].
    destruct Hr as [[(t & Hw & Ht) _ _ _] _ _ _].
    pose proof (interfere_told stat id _ (Hw (trace_running _ _ _ _ _ _ _ Ht))). congruence.
Qed.

Lemma catch_up_round_doomed k T g r :
  ForwardIndexModeUsesKafkaRealtime (options_mode options) = true → observing (S k) T g r →
  post (λ _ r', (0 < k)%nat ∧ ∃ g', observing k T g' r') (ended k) (catch_up_round callbacks r).
Proof.
  intros Hreal (Hr & Hg & Hfol). unfold catch_up_round. pose proof (doom_observes stat id k) as Htr.
  eapply post_bind; [by apply CheckCancelled_doomed|]. intros [] r1 (Hk & Hr1 & Hs1).
  eapply post_bind; [by apply (poll_once_post _ _ _ _ _ _ _ _ Htr Hrunner T g)|].
  intros [] r2 [Hr2 Hs2]. unfold sbind, get_run.
  eapply post_mono; [apply (observe_progress_post stat map_file _ request id options _ _ Htr Hrunner _ T g);
    [done|exact Hr2|by rewrite Hs2, Hs1, Hg]|]. by intros [] r3 Hr3.
Qed.

(** As many rounds as slots are enough. *)
Lemma catch_up_loop_doomed fuel K :
  (0 < K ≤ fuel)%nat →
  loop_behaves stat map_file callbacks request id options (doom_tr id K) (λ f, f ≠ Diverges) fuel.
Proof.
  intros HK T g r Hreal. revert K HK g r. induction fuel as [|fuel IH]; intros K HK g r Hr; [lia|].
  cbn [catch_up_loop]. unfold sbind at 1, get_run. destruct (CatchUpRequired _) eqn:E.
  - destruct K as [|k]; [lia|]. eapply (post_bind _ (λ _ r', (0 < k)%nat ∧ ∃ g', observing k T g' r')).
    + eapply (post_ended_mono k (S k)); [lia| |by apply (catch_up_round_doomed k T g)]. done.
    + intros [] r' (Hk & g' & Hr'). eapply (post_ended_mono k (S k)); [lia| |by apply (IH k ltac:(lia) g')].
      intros [] r'' (g'' & Ho & Hc). exists g''. split; [|done]. apply (observing_mono k); [lia|done].
  - exists g. split; [done|]. destruct Hr as (_ & <- & _). done.
Qed.
End Loop.
