(* ===== verification/ServeProofs.v ===== *)
(** * A load that nobody stops succeeds

    In the mode without Kafka a worker whose artifact loads ends as succeeded
    when nobody cancels the load or publishes beside it, and what it published
    is what the index serves. *)

From S2P Require Import Prelude Status Types RealtimeDelta Snapshot Shard Kafka.
From S2P Require Import ArtifactFormat MmapBacking ArtifactSafety AsyncLoad LoadProtocol AsyncLoadProofs.
From S2P Require Import ForwardIndex IndexProofs WorkerProofs.

(** What other threads may do without touching load [id] or the directory. *)
Definition harmless (id : Z) (op : index_op) : Prop :=
  match op with
  | OpLoadAsync _ => True
  | OpCancelLoad id' | OpStoreState id' _ | OpFinish id' => id' ≠ id
  | OpPublish _ _ | OpStop => False
  end.

Lemma harmless_beside id op : harmless id op → beside id op ∧ not_publishing op.
Proof. by destruct op. Qed.

Section Serve.
Context `{SectionSort}.
Variable stat : cpp_string → sys_error + file_kind.
Variable id : Z.

(** The entry of the load, its flag down, and a directory for [n] shards. *)
Record quiet (n : Z) (s : LoadState) (i : ForwardIndex) : Prop := {
  qt_entry : loads_ i !! id = Some s;
  qt_flag : flag_of id i = false;
  qt_count : shard_count (shard_directory_ i) = n;
  qt_shards : Zlen (shards (shard_directory_ i)) = n;
}.

Lemma run_op_quiet n op s i : harmless id op → quiet n s i → quiet n s (run_op stat op i).
Proof.
  intros Hop Hq.
  pose proof (run_op_directory stat op i (proj2 (harmless_beside id op Hop))) as [Hd _].
  destruct Hq as [He Hf Hc Hs]. split; [..|by rewrite Hd|by rewrite Hd];
    destruct op as [request|id'|id' x|shard st|id'|]; cbn in *; try done.
  - unfold LoadAsync. destruct (PreflightLocalArtifactUri stat request); cbn; by apply emplace_keeps.
  - unfold CancelLoad. destruct (loads_ i !! id') as [old|]; [|done].
    destruct (load_terminal old); [done|]. cbn. case_decide; cbn; by rewrite lookup_insert_ne.
  - unfold store_load. destruct (loads_ i !! id') as [old|]; [|done].
    destruct (_ && _); cbn; by rewrite lookup_insert_ne.
  - unfold LoadAsync, flag_of in *. destruct (PreflightLocalArtifactUri stat request); cbn; [|done|].
    all: rewrite lookup_insert; by case_decide.
  - unfold CancelLoad, flag_of in *. destruct (loads_ i !! id') as [old|]; [|done].
    destruct (load_terminal old); [done|]. cbn. destruct (decide (id' ∈ load_cancellations_ i)); cbn; [by rewrite lookup_insert_ne|done].
  - unfold store_load. destruct (loads_ i !! id') as [old|]; [|done]. by destruct (_ && _).
Qed.

(** Only the last stored state may be terminal. *)
Definition calm (t : list load_event) : Prop :=
  ∀ t1 s e t2, t = t1 ++ Stored s :: e :: t2 → load_terminal s = false.

Lemma calm_app t t' : calm (t ++ t') → calm t.
Proof. intros Hc t1 s e t2 ->. apply (Hc t1 s e (t2 ++ t')). by rewrite <-app_assoc. Qed.

Lemma last_stored_elem t s : last_stored t = Some s → ∃ t1 t2, t = t1 ++ Stored s :: t2.
Proof.
  induction t as [|e t IH] using rev_ind; [done|]. rewrite last_stored_snoc.
  destruct e as [x|i st b]; [intros [= ->]; by exists t, []|].
  intros (t1 & t2 & ->)%IH. exists t1, (t2 ++ [Published i st b]). by rewrite <-app_assoc.
Qed.

Lemma calm_last t e s : calm (t ++ [e]) → last_stored t = Some s → load_terminal s = false.
Proof.
  intros Hc (t1 & t2 & ->)%last_stored_elem. destruct t2 as [|e2 t2].
  - apply (Hc t1 s e []). by rewrite <-app_assoc.
  - apply (Hc t1 s e2 (t2 ++ [e])). by rewrite <-app_assoc.
Qed.

Lemma trace_calm map_file request o t st : trace stat map_file request id o t st → calm t.
Proof. intros Ht t1 s e t2 ->. by apply trace_stored in Ht as (_ & _ & ?). Qed.

Definition quiet_tr (n : Z) (s0 : LoadState) (w : world) (t : list load_event) : Prop :=
  all_ops (harmless id) w ∧ (calm t → quiet n (default s0 (last_stored t)) w.1).

Lemma interfere_quiet n s0 w t : quiet_tr n s0 w t → quiet_tr n s0 (interfere stat w) t.
Proof.
  intros [Ha Hq].
  destruct (interfere_rule stat (harmless id) (λ i, calm t → quiet n (default s0 (last_stored t)) i) w)
    as [Hq' Ha']; [|done..|by split].
  intros op i Hop Hi Hc. by apply run_op_quiet, Hi.
Qed.

Lemma quiet_observes n s0 :
  load_terminal s0 = false → observes (index_callbacks stat id) (quiet_tr n s0) (λ _, True).
Proof.
  intros Hs0. split.
  - intros s w t Hw. destruct (interfere_quiet _ _ _ _ Hw) as [Ha Hq]. split; [exact Ha|].
    intros Hc. rewrite last_stored_snoc. cbn [default stored index_callbacks store_state fst].
    destruct (Hq (calm_app _ _ Hc)) as [He Hf Hcount Hsh]. unfold store_load. rewrite He.
    assert (load_terminal (default s0 (last_stored t)) = false) as ->.
    { destruct (last_stored t) as [x|] eqn:E; [|done]. by eapply calm_last. }
    rewrite andb_false_r. cbn [andb]. split; [apply lookup_insert_eq|exact Hf|exact Hcount|exact Hsh].
  - intros ask w t [= <-] Hw. cbn. by apply interfere_quiet.
  - intros publish i st w t [= <-] Hw. destruct (interfere_quiet _ _ _ _ Hw) as [Ha Hq].
    unfold publish_index, ShardDirectory_Publish.
    assert (∀ b, calm (t ++ [Published i st b]) →
      quiet n (default s0 (last_stored (t ++ [Published i st b]))) (interfere stat w).1) as Hq'.
    { intros b Hc. rewrite last_stored_snoc. by apply Hq, (calm_app _ _ Hc). }
    destruct (_ <=? i).
    + split; [exact Ha|]. intros Hc. by destruct (Hq' _ Hc).
    + unfold set_at. destruct (_ || _); [done|]. split; [exact Ha|]. intros Hc.
      destruct (Hq' _ Hc) as [He Hf Hcount Hsh]. split; [exact He|exact Hf|exact Hcount|].
      cbn. unfold Zlen in *. by rewrite length_insert.
Qed.
End Serve.

(** Two relations observed at once. *)
Lemma observes_and {W} (cb : AsyncLoadCallbacks W) tr1 tr2 allowed :
  observes cb tr1 allowed → observes cb tr2 allowed →
  observes cb (λ w t, tr1 w t ∧ tr2 w t) allowed.
Proof.
  intros [S1 C1 P1] [S2 C2 P2]. split.
  - intros s w t [H1 H2]. split; [by apply S1|by apply S2].
  - intros ask w t E [H1 H2]. split; [by eapply C1|by eapply C2].
  - intros publish i st w t E [H1 H2]. specialize (P1 _ i st _ _ E H1).
    specialize (P2 _ i st _ _ E H2). by destruct (publish i st w) as [[u|e|f] w'].
Qed.

(** ** The run *)

Section Success.
Context {R : Type} `{AsyncCatchUpRunner world R} `{SectionSort}.
Variable stat : cpp_string → sys_error + file_kind.
Variable map_file : cpp_string → map_result.
Variable page_size : Z.
Variable request : LoadRequest.
Variable id : Z.
Variable options : ForwardIndexOptions.
Variable s0 : LoadState.
Hypothesis Hs0 : load_terminal s0 = false.
Hypothesis Hrunner : runner_behaves world R (λ _, True).
Hypothesis Hfile : ∀ path bytes, map_file path = Mapped bytes → is_u64 (Zlen bytes).
Hypothesis Hn : 0 ≤ options_shard_count options < 2 ^ 32.
Hypothesis Hmode : ForwardIndexModeUsesKafkaRealtime (options_mode options) = false.
Hypothesis Huri : request_artifact_uri request ≠ [].

Abbreviation n := (options_shard_count options).

Hypothesis Hshards : ∀ i, 0 ≤ i < n → ∃ b,
  LoadShard stat map_file (request_artifact_uri request) i (load_options options) = Ok b.

Definition serve_tr (w : world) (t : list load_event) : Prop :=
  quiet_tr id n s0 w t ∧ directory_tr options w t.

Lemma serve_observes : observes (index_callbacks stat id) serve_tr (λ _, True).
Proof. apply observes_and; [by apply quiet_observes|apply directory_observes]. Qed.

Abbreviation callbacks := (index_callbacks stat id).
Abbreviation live := (live stat map_file request id options serve_tr).
Abbreviation loading := (loading stat map_file request id options serve_tr).
Abbreviation publishing := (publishing stat map_file request id options serve_tr).
Abbreviation sure Q := (post (λ _, False) Q (λ _ _, False)).
Implicit Types r : load_run world R.

Definition succeeds {A} (res : StatusOr A * load_run world R) : Prop :=
  match res with (Ok _, _) => True | _ => False end.

Lemma surely {A} (Q : A → load_run world R → Prop) allowed X res :
  post allowed Q X res → succeeds res → sure Q res.
Proof. by destruct res as [[a|e|f] r]. Qed.

Lemma CheckCancelled_quiet m l p c T g r :
  live m l p c T g r → ∃ w, CheckCancelled callbacks r = (Ok tt, put_world w r).
Proof.
  intros [(t & [Hw _] & Ht) _ _ _]. unfold CheckCancelled, IsCancelled, sbind.
  cbn [is_cancelled index_callbacks]. unfold on_world.
  destruct (interfere_quiet stat id n s0 _ _ Hw) as [_ Hq].
  destruct (Hq (trace_calm _ _ _ _ _ _ _ Ht)) as [_ Hf _ _]. rewrite Hf. by eexists.
Qed.

Lemma load_shard_succeeds i r :
  0 ≤ i < n → loading i 0 r → succeeds (load_shard stat map_file callbacks request options i r).
Proof.
  intros Hi (Hts & T & g & Hl & Hb). unfold load_shard, sbind at 1.
  destruct (CheckCancelled_quiet _ _ _ _ _ _ _ Hl) as [w ->].
  destruct (Hshards i Hi) as [b Hb']. unfold sbind at 1, or_fail, slift. rewrite Hb'.
  unfold sbind at 1, modify_state at 1. unfold sbind at 1, modify_state at 1.
  pose proof (lv_reports _ _ _ _ _ _ _ _ _ _ _ _ _ Hl) as Hrep. cbn [run_state with_state put_world] in *.
  apply (reports_named b i) in Hrep as [Hrep _]. apply (reports_named b i) in Hrep as [_ Hrep].
  erewrite update_eq by (by apply (note_loaded_reports n Hn i 0 0)).
  unfold sbind, get_run, set_backings. by rewrite StoreState_eq.
Qed.

Lemma prewarm_shard_succeeds p r :
  0 ≤ p < n → loading n p r → succeeds (prewarm_shard page_size callbacks p r).
Proof.
  intros Hp (Hts & T & g & Hl & Hb). unfold prewarm_shard, sbind at 1.
  destruct (CheckCancelled_quiet _ _ _ _ _ _ _ Hl) as [w ->].
  pose proof (bk_length _ _ _ _ _ _ _ Hb) as Hlen.
  destruct (at_in (E := Status) (run_backings r) p) as (b & Hlook & Hat); [lia|].
  unfold sbind at 1 2, get_run at 1, slift at 1. cbn [put_world run_backings]. rewrite Hat.
  rewrite Prewarm_spec. rewrite set_at_in by lia. cbn [sbind slift set_backings or_fail].
  pose proof (lv_reports _ _ _ _ _ _ _ _ _ _ _ _ _ Hl) as Hrep.
  erewrite update_eq by (by apply (note_prewarmed_reports n Hn n)). by rewrite StoreState_eq.
Qed.

(** The index accepts every shard it has. *)
Lemma publish_succeeds c st w t :
  0 ≤ c < n → serve_tr w t → calm t →
  ∃ w', (λ w, let w := interfere stat w in
         let '(r, index) := publish_index c st w.1 in (r, (index, w.2))) w = (Ok tt, w').
Proof.
  intros Hc [Hw _] Ht. destruct (interfere_quiet stat id n s0 _ _ Hw) as [_ Hq].
  destruct (Hq Ht) as [_ _ Hcount Hsh]. cbv beta zeta. unfold publish_index, ShardDirectory_Publish.
  rewrite Hcount, (proj2 (Z.leb_gt n c)) by lia. rewrite set_at_in by lia. by eexists.
Qed.

Lemma publish_one_succeeds publish c r :
  publish_shard callbacks = Some publish → 0 ≤ c < n → publishing c r →
  succeeds (publish_one callbacks id publish c r).
Proof.
  intros Hpub Hc (T & g & Hl & Hb & Hts). rewrite Hmode in Hts. unfold publish_one, sbind at 1.
  destruct (CheckCancelled_quiet _ _ _ _ _ _ _ Hl) as [w Hcheck].
  pose proof (CheckCancelled_post stat map_file callbacks request id options serve_tr (λ _, True)
    serve_observes n n n c T g r Hl) as Hpost. rewrite Hcheck in *. cbn [post] in Hpost.
  destruct Hpost as (w' & Hw' & Hl'). assert (w = w') as -> by (by injection Hw'). clear Hw' Hcheck.
  destruct (at_in (E := Status) (run_backings r) c) as (b & Hlook & Hat);
    [rewrite (bk_length _ _ _ _ _ _ _ Hb); lia|].
  unfold sbind at 1 2, get_run at 1, slift at 1. cbn [put_world run_backings]. rewrite Hat.
  unfold sbind at 1, get_run at 1. cbn [put_world run_tables]. rewrite Hts. unfold sbind at 1, sret.
  destruct Hl' as [(t & Hw & Ht) _ Hrep _]. injection Hpub as <-. cbn [put_world run_world] in Hw.
  unfold sbind at 1, or_fail, on_world. cbn [put_world run_world].
  match goal with |- context [publish_index c ?st] =>
    destruct (publish_succeeds c st _ _ Hc Hw (trace_calm _ _ _ _ _ _ _ Ht)) as [w2 Hw2] end.
  cbv beta zeta in Hw2. rewrite Hw2.
  erewrite update_eq by (by apply (note_cutover_reports n Hn n n)). by rewrite StoreState_eq.
Qed.

Lemma load_and_prewarm_succeeds r :
  run_tables r = [] → run_backings r = [] → (∃ T g, live 0 0 0 0 T g r) →
  sure (λ _, loading n n) (load_and_prewarm stat map_file page_size callbacks request options r).
Proof.
  intros Hts Hbs (T & g & [Htr Hrun Hrep _]). unfold load_and_prewarm.
  unfold sbind at 1, modify_state. eapply (post_bind _ (λ _, loading n 0)).
  - apply (post_for _ _ (λ i, loading i 0)); [lia| |].
    + split; [exact Hts|]. exists T, g. split.
      * split; [done|done|by apply list_shards_reports|by left].
      * split; cbn [with_state run_backings]; rewrite Hbs;
          [done|by intros i b Hb; rewrite lookup_nil in Hb|by intros b Hb].
    + intros i r' Hi Hr'. eapply surely; [|by apply load_shard_succeeds].
      by eapply (load_shard_post _ _ _ _ _ _ _ (λ _, True) serve_observes I Hfile Hn).
  - intros [] r' Hr'. apply (post_for _ _ (λ i, loading n i)); [lia|done|].
    intros i r2 Hi Hr2. eapply surely; [|by apply prewarm_shard_succeeds].
    by apply (prewarm_shard_post _ _ _ _ _ _ _ _ _ serve_observes Hn).
Qed.

Lemma CheckCancelled_sure m l p c T g r :
  live m l p c T g r →
  sure (λ _ r', ∃ w, r' = put_world w r ∧ live m l p c T g r') (CheckCancelled callbacks r).
Proof.
  intros Hl. destruct (CheckCancelled_quiet _ _ _ _ _ _ _ Hl) as [w Hc].
  eapply surely; [by apply (CheckCancelled_post _ _ _ _ _ _ _ (λ _, True) serve_observes)|by rewrite Hc].
Qed.

Lemma cut_over_succeeds publish fuel r :
  publish_shard callbacks = Some publish → loading n n r →
  sure (λ _ _, True) (cut_over callbacks id options publish fuel r).
Proof.
  intros Hpub (Hts & T & g & Hl & Hb). unfold cut_over. rewrite Hmode. cbn [negb].
  unfold sbind at 1, modify_state, publish_all.
  eapply (post_bind _ (λ _, publishing n)); [|intros [] r' _; unfold succeed, sbind, modify_state;
    by rewrite StoreState_eq].
  apply (post_for _ _ publishing); [lia| |].
  - exists T, g. rewrite Hmode. destruct Hl as [Htrace Hrun Hrep Hm].
    split; [split; [exact Htrace|exact Hrun|by destruct Hrep|done]|]. split; [by destruct Hb|exact Hts].
  - intros i r' Hi Hr'. eapply surely; [|by apply publish_one_succeeds].
    by eapply (publish_one_post _ _ _ _ _ _ _ (λ _, True) serve_observes Hn).
Qed.

Lemma run_load_succeeds fuel r :
  0 < n → serve_tr (run_world r) [] → run_tables r = [] → run_backings r = [] →
  succeeds (run_load stat map_file page_size callbacks request id options fuel r).
Proof.
  intros Hpos Hw Hts Hbs. unfold run_load, sbind at 1, modify_state.
  set (r1 := with_state _ r). set (no := MkKafkaProgress []).
  assert (∀ A (c : StatusOr A * load_run world R), sure (λ _ _, True) c → succeeds c) as Hsure
    by (by intros A [[a|e|f] ?]).
  apply Hsure. clear Hsure.
  eapply (post_bind _ (λ _ r', live 0 0 0 0 no no r' ∧ run_tables r' = [] ∧ run_backings r' = [])).
  { rewrite StoreState_eq. split; [|by split]. split; [|done|done|by right].
    eapply (store_observed _ _ _ _ _ _ _ _ serve_observes (run_state r1) _ []);
      [exact Hw|constructor|by apply protocol_start]. }
  intros [] r2 (Hl & Hts2 & Hbs2). rewrite bool_decide_eq_false_2 by done.
  cbn [publish_shard index_callbacks].
  eapply post_bind; [by apply CheckCancelled_sure|]. intros [] r3 (w & -> & Hl3).
  eapply post_bind; [apply load_and_prewarm_succeeds; [exact Hts2|exact Hbs2|by exists no, no]|].
  intros [] r4 Hr4. by apply cut_over_succeeds.
Qed.

(** A worker that nobody stops. *)
Lemma quiet_worker fuel w :
  options_ w.1 = options → 0 < n → serve_tr w [] →
  ∃ v t s, run_worker stat map_file page_size fuel id request w = (Ok tt, finish_worker stat id v)
    ∧ serve_tr v t ∧ trace stat map_file request id options t (Ended s)
    ∧ load_code s = kLoadSucceeded.
Proof.
  intros Ho Hpos Hw.
  pose proof (run_worker_post stat map_file page_size request id Hfile serve_tr (λ _, True) fuel w) as Hp.
  cbv zeta in Hp. rewrite Ho in Hp.
  specialize (Hp ltac:(lia) serve_observes Hrunner I
    (catch_up_loop_post _ _ _ _ _ _ _ _ serve_observes Hrunner fuel I) Hw).
  pose proof (run_load_succeeds fuel (MkLoadRun w LoadState_default [] [] None) Hpos Hw eq_refl eq_refl)
    as Hs.
  assert (∃ w', run_worker stat map_file page_size fuel id request w = (Ok tt, w')) as [w' Hrun].
  { unfold run_worker, RunExternalArtifactLoad. cbn [fst snd]. rewrite Ho.
    destruct (run_load _ _ _ _ _ _ _ _ _) as [[[]|e|f] r]; [by eexists|done..]. }
  rewrite Hrun in Hp |- *. destruct Hp as (v & t & s & -> & Hv & Ht & Hc). by exists v, t, s.
Qed.
End Success.
