(* ===== verification/IndexTheorems.v ===== *)
(** * What the forward index guarantees

    Reads of many keys answer like reads of one; a cancellation is final and
    ends the load; a worker leaves a terminal state that says what it did; and
    an artifact that was written is what the index serves once it is loaded. *)

From S2P Require Import Prelude Status Types Schema SchemaProofs RowStorage RealtimeDelta Snapshot.
From S2P Require Import SnapshotProofs Shard Kafka ArtifactFormat ArtifactWriter MmapBacking.
From S2P Require Import ArtifactCodec ArtifactSchema ArtifactLoad ArtifactTheorems AsyncLoad LoadProtocol AsyncLoadProofs.
From S2P Require Import ForwardIndex ForwardIndexProofs IndexProofs WorkerProofs.
From S2P Require Import StopProofs ServeProofs.

(** ** Serving an artifact *)

(** The file of a shard holds an image that was written with it. *)
Record written_shard `{SectionSort} (stat : cpp_string → sys_error + file_kind)
    (map_file : cpp_string → map_result) (s : RuntimeSchema) (spec : ArtifactBuildSpec)
    (uri : cpp_string) (shard : ArtifactShardBuildSpec) : Prop := {
  ws_image : ∃ shards F path,
    shard ∈ shards ∧ shards_typed spec shards ∧ Zlen shards < 2 ^ 22
    ∧ (stable_sort ∨ Forall (λ sh, shard_rows sh ≠ []) shards)
    ∧ artifact_image spec shards = Ok F ∧ is_u64 (Zlen F)
    ∧ ResolveArtifactFilePath stat uri (shard_spec_id shard) = Ok path
    ∧ map_file (c_str path) = Mapped F;
}.

(** A specification that the writer keeps whole. *)
Record spec_kept (v : Z) (s : RuntimeSchema) (spec : ArtifactBuildSpec) : Prop := {
  sk_schema : reachable_schema v s;
  sk_version : is_u64 v;
  sk_defaults : no_defaults s;
  sk_layout : spec_layout spec = Some (compile_layout s);
  sk_size : 0 < row_slot_size (compile_layout s);
  sk_progress : progress_list_ok (spec_progress spec);
}.

Lemma written_loads `{SectionSort} stat map_file v s spec uri shard o :
  spec_kept v s spec → options_match spec (load_options_of o) →
  written_shard stat map_file s spec uri shard →
  ∃ b, LoadShard stat map_file uri (shard_spec_id shard) o = Ok b
    ∧ backing_ok (mmap_backing b) (compile_layout s) (shard_map (compile_layout s) shard).
Proof.
  intros [] Ho [(shards & F & path & Hin & Hty & Hfew & Hsort & Himg & HF & Hpath & Hmap)].
  destruct (artifact_roundtrip_spec stat map_file v s spec shards F shard uri path o)
    as (b & Hload & _ & _ & _ & _ & Hok); [done..|]. by exists b.
Qed.

Lemma LoadAsync_accepts stat request i :
  PreflightLocalArtifactUri stat request = Ok tt → index_ok i →
  let i' := (LoadAsync stat request i).2 in
  options_ i' = options_ i ∧ (LoadAsync stat request i).1 = next_load_id_ i
  ∧ quiet (next_load_id_ i) (options_shard_count (options_ i))
      (initial_state request (next_load_id_ i)) i'.
Proof.
  intros Hp Hi. unfold LoadAsync. rewrite Hp. cbn. split; [done|]. split; [done|].
  pose proof (index_fresh i Hi) as Hf. destruct (ix_directory _ Hi) as [Hc Hs]. split; cbn.
  - rewrite emplace_fresh by done. apply lookup_insert_eq.
  - unfold flag_of. cbn. by rewrite lookup_insert_eq.
  - done.
  - done.
Qed.

Lemma ready_serves `{SectionSort} stat map_file request id o shard st b L rows d key :
  ForwardIndexModeUsesKafkaRealtime (options_mode o) = false →
  ready stat map_file request id o shard st →
  LoadShard stat map_file (request_artifact_uri request) shard (load_options o) = Ok b →
  backing_ok (mmap_backing b) L rows → shard = index_shard o key →
  ShardDirectory_Load d shard = Ok (Some st) →
  Get_from o (ShardDirectory_Load d) key = or_throw (map_get L rows key).
Proof.
  intros Hmode [_ _ Hdelta Hcompact (b' & Hb' & Hfull)] Hb Hok -> Hd.
  assert (b' = b) as -> by congruence. unfold Get_from. rewrite Hd. cbn [or_throw obind].
  unfold ShardState_Get, Layers_Get. rewrite Hmode in Hdelta. rewrite Hcompact, Hfull.
  destruct (realtime_delta (layers st)) as [x|]; [destruct Hdelta as [_ Hx]; discriminate Hx; by eexists|].
  cbn. f_equal. exact (view_Get_spec (mmap_backing b) _ _ key Hok).
Qed.

(** What a worker that nobody stopped leaves. *)
Lemma finish_serves `{SectionSort} stat map_file request id o s0 v t s :
  let n := options_shard_count o in
  load_terminal s0 = false → 0 < n →
  serve_tr id o s0 v t → trace stat map_file request id o t (Ended s) →
  load_code s = kLoadSucceeded →
  let i := (finish_worker stat id v).1 in
  GetLoadState i id = s ∧ options_ i = o
  ∧ ∀ k, 0 ≤ k < n → ∃ st, ShardDirectory_Load (shard_directory_ i) k = Ok (Some st)
      ∧ ready stat map_file request id o k st.
Proof.
  intros n Hs0 Hn Hv Ht Hs i. apply (ob_cancel _ _ _ (serve_observes stat id o s0 Hs0) _ v t eq_refl) in Hv.
  cbn [snd] in Hv. destruct Hv as [[_ Hq] [(Hserves & Hcount & Ho) _]].
  destruct (Hq (trace_calm _ _ _ _ _ _ _ Ht)) as [He _ Hc Hsh].
  rewrite (trace_last _ _ _ _ _ _ _ Ht) in He. cbn in He.
  split; [unfold GetLoadState, i, finish_worker; cbn; by rewrite He|]. split; [exact Ho|].
  intros k Hk. destruct (trace_serving stat map_file request id o ltac:(lia) t _ Ht Hs k Hk) as (st & Hp & Hr).
  exists st. split; [|exact Hr]. apply Hserves in Hp; [|lia].
  unfold ShardDirectory_Load, i, finish_worker. cbn. rewrite Hcount, (proj2 (Z.leb_gt _ _)) by lia.
  apply at_Ok. split; [lia|exact Hp].
Qed.

(** ** The index through its steps *)

Lemma make_index_power o i :
  is_u32 (options_shard_count o) → make_index o = Ok i →
  IsPowerOfTwo (options_shard_count o) = true ∧ 0 < options_shard_count o.
Proof.
  intros Hn. unfold make_index. destruct (IsPowerOfTwo _) eqn:E; [|done]. intros _.
  split; [done|]. by destruct (IsPowerOfTwo_single _ Hn E).
Qed.

Lemma index_step_options stat i i' : index_step stat i i' → options_ i' = options_ i.
Proof.
  destruct 1 as [request i _|id i|id s i _|shard st i|id i|i].
  - unfold LoadAsync. by destruct (PreflightLocalArtifactUri stat request).
  - unfold CancelLoad. destruct (loads_ i !! id) as [s|]; [|done]. destruct (load_terminal s); [done|].
    cbn. by case_decide.
  - unfold store_load. destruct (loads_ i !! id); [|done]. by destruct (_ && _).
  - unfold publish_index. by destruct (ShardDirectory_Publish _ _ _).
  - done.
  - unfold stop_loads. by induction (elements (load_cancellations_ i)).
Qed.

Lemma steps_keep stat o i0 i :
  is_u32 (options_shard_count o) → make_index o = Ok i0 → rtc (index_step stat) i0 i →
  index_ok i ∧ options_ i = o.
Proof.
  intros Hn H0 Hi. assert (options_ i0 = o) as Ho.
  { unfold make_index in H0. destruct (negb _); [done|]. destruct (_ && _); [done|]. by injection H0 as <-. }
  pose proof (make_index_ok o i0 Hn H0) as Hok. clear H0.
  induction Hi as [i|i i' i'' Hstep _ IH]; [done|].
  apply IH; [by rewrite (index_step_options _ _ _ Hstep)|by eapply index_step_ok].
Qed.

Lemma steps_stay_cancelled stat id i i' :
  index_ok i → id < next_load_id_ i → is_cancelled_load id i → rtc (index_step stat) i i' →
  is_cancelled_load id i' ∧ (flag_of id i = true → flag_of id i' = true).
Proof.
  intros Hok Hid Hc Hi. induction Hi as [i|i i1 i' Hstep _ IH]; [done|].
  pose proof (index_step_ok _ _ _ Hok Hstep) as Hok1.
  pose proof (cancelled_stays _ _ _ _ Hc Hstep) as Hc1. pose proof Hc1 as (s & Hs & _).
  apply (ix_loads _ Hok1) in Hs as [_ Hid1].
  destruct (IH Hok1 ltac:(lia) Hc1) as [IH1 IH2]. split; [done|]. intros Hf. apply IH2.
  exact (flag_stays stat id i i1 Hok Hid Hf Hstep).
Qed.

(** ** The runtime status *)

Definition shard_status (k : nat) (d : option ShardState) : ShardRuntimeStatus :=
  match d with
  | None => blank_shard_status (Z.of_nat k) []
  | Some state => GetRuntimeStatus state
  end.

Lemma shard_statuses d m acc :
  shard_count d = Zlen (shards d) → (m + length acc = length (shards d))%nat →
  ofold (add_shard_status d) (seqZ (Zlen acc) (Z.of_nat m)) (acc, [])
  = Ok (acc ++ imap (λ k, shard_status (length acc + k)) (drop (length acc) (shards d)), []).
Proof.
  intros Hd. revert acc. induction m as [|m IH]; intros acc Hm.
  - rewrite drop_ge by lia. cbn. by rewrite app_nil_r.
  - rewrite seqZ_cons by lia. cbn [ofold]. unfold add_shard_status at 1, ShardDirectory_Load.
    rewrite Hd, (proj2 (Z.leb_gt _ _)) by (unfold Zlen; lia).
    destruct (lookup_lt_is_Some_2 (shards d) (length acc)) as [x Hx]; [lia|].
    rewrite (proj2 (at_Ok _ (Zlen acc) x)) by (unfold Zlen; split; [lia|by rewrite Nat2Z.id]).
    rewrite (drop_S _ _ _ Hx). cbn [imap].
    assert (∀ y, ofold (add_shard_status d) (seqZ (Z.succ (Zlen acc)) (Z.pred (Z.of_nat (S m))))
        (acc ++ [y], [])
      = Ok (acc ++ y :: imap (λ k, shard_status (length acc + S k)) (drop (S (length acc)) (shards d)), []))
      as Hrest.
    { intros y. specialize (IH (acc ++ [y])). rewrite length_app, Zlen_app in IH. cbn [length] in IH.
      change (Zlen [y]) with 1 in IH. replace (Z.pred (Z.of_nat (S m))) with (Z.of_nat m) by lia.
      rewrite <-Z.add_1_r, IH by lia. rewrite <-app_assoc. cbn [app].
      replace (length acc + 1)%nat with (S (length acc)) by lia. do 4 f_equal.
      apply imap_ext. intros k z _. f_equal. lia. }
    assert (length acc + 0 = length acc)%nat as Hlen by lia.
    destruct x as [st|]; cbn [obind fst snd]; rewrite Hrest; unfold shard_status; by rewrite ?Hlen.
Qed.

(** The loop over the loads keeps them, and the last error that is not empty. *)
Lemma add_loads l acc :
  (foldl add_load acc l).1 = acc.1 ++ l
  ∧ ((foldl add_load acc l).2 = acc.2 ∧ Forall (λ s, load_last_error s = []) l
     ∨ ∃ s, s ∈ l ∧ load_last_error s ≠ [] ∧ (foldl add_load acc l).2 = load_last_error s).
Proof.
  revert acc. induction l as [|s l IH]; intros acc; cbn [foldl].
  { rewrite app_nil_r. split; [done|]. by left. }
  destruct (IH (add_load acc s)) as [-> Hor]. unfold add_load at 1. cbn [fst].
  rewrite <-app_assoc. split; [done|].
  destruct Hor as [[-> Hl]|(x & Hx & Hne & ->)].
  - unfold add_load. cbn [snd]. case_bool_decide as E; [left; split; [done|by constructor]|right].
    exists s. split; [left|done].
  - right. exists x. split; [by right|done].
Qed.

(** ** The theorems *)

(** *** C1: A loaded artifact is what the index serves.

    When every shard of an index without Kafka has a file that holds a written
    image of it, [LoadAsync] of the artifact starts a worker that succeeds,
    whatever other threads do meanwhile short of cancelling it, publishing or
    destroying the index; the state of the load then says succeeded, and [Get]
    of every key materialises exactly the row that the specification of the
    key's shard has for it. *)
Theorem loaded_artifact_is_served {R : Type} `{AsyncCatchUpRunner world R} `{SectionSort}
    (stat : cpp_string → sys_error + file_kind) (map_file : cpp_string → map_result)
    (page_size v : Z) (s : RuntimeSchema) (spec : ArtifactBuildSpec) (request : LoadRequest)
    (o : ForwardIndexOptions) (i0 i : ForwardIndex) (others : list (list index_op)) (fuel : nat)
    (Hrunner : runner_behaves world R (λ _, True))
    (Hfile : ∀ path bytes, map_file path = Mapped bytes → is_u64 (Zlen bytes))
    (Hn : is_u32 (options_shard_count o)) (Hmake : make_index o = Ok i0)
    (Hsteps : rtc (index_step stat) i0 i)
    (Hmode : ForwardIndexModeUsesKafkaRealtime (options_mode o) = false)
    (Hspec : spec_kept v s spec) (Ho : options_match spec (load_options_of (load_options o)))
    (Hwritten : ∀ k, 0 ≤ k < options_shard_count o → ∃ shard, shard_spec_id shard = k
      ∧ written_shard stat map_file s spec (request_artifact_uri request) shard)
    (Huri : PreflightLocalArtifactUri stat request = Ok tt)
    (Hothers : Forall (Forall (harmless (LoadAsync stat request i).1)) others) :
  let '(id, i1) := LoadAsync stat request i in
  match run_worker stat map_file page_size fuel id request (i1, others) with
  | (Ok _, (i2, _)) =>
      load_code (GetLoadState i2 id) = kLoadSucceeded
      ∧ ∀ key shard,
          written_shard stat map_file s spec (request_artifact_uri request) shard →
          shard_spec_id shard = index_shard o key →
          ForwardIndex_Get i2 key
          = or_throw (map_get (compile_layout s) (shard_map (compile_layout s) shard) key)
  | _ => False
  end.
Proof.
  destruct (steps_keep stat o i0 i Hn Hmake Hsteps) as [Hi Hopt0].
  destruct (make_index_power o i0 Hn Hmake) as [Hpow Hpos].
  destruct (LoadAsync_accepts stat request i Huri Hi) as (Ho1 & Hid & Hq). rewrite Hopt0 in Ho1, Hq.
  destruct (LoadAsync stat request i) as [id i1]. cbn [fst snd] in *. subst id.
  assert (request_artifact_uri request ≠ []) as Hne.
  { intros E. unfold PreflightLocalArtifactUri in Huri. by rewrite E in Huri. }
  set (id := next_load_id_ i) in *. set (s0 := initial_state request id) in *.
  destruct (quiet_worker stat map_file page_size request id o s0 eq_refl Hrunner Hfile Hn
    Hmode Hne) with (fuel := fuel) (w := (i1, others)) as (w2 & t & s2 & Hrun & Hw2 & Ht & Hs2).
  - intros k Hk. destruct (Hwritten k Hk) as (shard & <- & Hws).
    destruct (written_loads _ _ _ _ _ _ _ _ Hspec Ho Hws) as (b & Hb & _). by exists b.
  - exact Ho1.
  - exact Hpos.
  - split; [split; [exact Hothers|intros _; exact Hq]|]. split; [split; [|split]|].
    + intros k st _ Hk. done.
    + apply Hq.
    + exact Ho1.
    + eapply Forall_impl; [exact Hothers|]. intros ops Hops. eapply Forall_impl; [exact Hops|].
      intros op Hop. by apply (harmless_beside id).
  - rewrite Hrun. destruct (finish_serves stat map_file request id o s0 w2 t s2 eq_refl Hpos
      Hw2 Ht Hs2) as (Hstate & Hopt & Hserve). destruct (finish_worker stat id w2) as [i2 rest].
    cbn [fst] in *. split; [by rewrite Hstate|]. intros key shard Hws Hsh.
    destruct (Hserve _ (shard_range o Hn Hpow key)) as (st & Hload & Hready).
    destruct (written_loads _ _ _ _ _ _ _ _ Hspec Ho Hws) as (b & Hb & Hok).
    unfold ForwardIndex_Get. rewrite Hopt. rewrite Hsh in Hb. by eapply ready_serves.
Qed.

(** *** C10: Many keys are answered like one.

    For every index the constructor accepts and whatever the shards hold when
    they are read, [MGet] returns a row for every key, in order, each the one
    [Get] returns; when it throws, [Get] of one of the keys throws the same. *)
Theorem MGet_answers_like_Get (o : ForwardIndexOptions) (i0 : ForwardIndex)
    (load : Z → StatusOr (option ShardState)) (keys : list Z)
    (Hn : is_u32 (options_shard_count o)) (Hmake : make_index o = Ok i0) :
  match MGet_from o load keys with
  | Ok rows => Forall2 (λ k row, Get_from o load k = Ok row) keys rows
  | Err _ => False
  | Fault f => ∃ k, k ∈ keys ∧ Get_from o load k = Fault f
  end.
Proof. apply MGet_from_answers; [done|]. by apply (make_index_power o i0). Qed.

(** *** C34: The index stays well formed.

    Whatever the clients, the workers and the destructor do, in any order:
    every load is registered under its own id, below the next one; a cancelled
    load is terminal; a flag that is still shared belongs to a registered
    load; the directory keeps its number of shards, and the options stay. *)
Theorem index_stays_ok (stat : cpp_string → sys_error + file_kind) (o : ForwardIndexOptions)
    (i0 i : ForwardIndex) (Hn : is_u32 (options_shard_count o)) (Hmake : make_index o = Ok i0)
    (Hsteps : rtc (index_step stat) i0 i) :
  index_ok i ∧ options_ i = o.
Proof. exact (steps_keep stat o i0 i Hn Hmake Hsteps). Qed.

(** *** C20: A cancellation is final.

    When [CancelLoad] returns true, the load is terminal and cancelled from
    then on, whatever its worker stores later, and no later call cancels it
    again; its worker, when it still runs, sees its flag up from then on. *)
Theorem cancellation_is_final (stat : cpp_string → sys_error + file_kind)
    (o : ForwardIndexOptions) (i0 i i1 i2 : ForwardIndex) (id : Z)
    (Hn : is_u32 (options_shard_count o)) (Hmake : make_index o = Ok i0)
    (Hsteps : rtc (index_step stat) i0 i) (Hcancel : CancelLoad id i = (true, i1))
    (Hlater : rtc (index_step stat) i1 i2) :
  load_code (GetLoadState i2 id) = kLoadCancelled ∧ load_terminal (GetLoadState i2 id) = true
  ∧ (CancelLoad id i2).1 = false
  ∧ (id ∈ load_cancellations_ i → flag_of id i2 = true).
Proof.
  destruct (steps_keep stat o i0 i Hn Hmake Hsteps) as [Hi _].
  assert (index_ok i1) as Hi1 by (pose proof (CancelLoad_ok id i Hi) as H; by rewrite Hcancel in H).
  pose proof (CancelLoad_cancels id i i1 Hcancel) as Hc1.
  assert (id < next_load_id_ i1) as Hid by (destruct Hc1 as (s & Hs & _); by eapply ix_loads).
  destruct (steps_stay_cancelled stat id i1 i2 Hi1 Hid Hc1 Hlater) as [(s & Hs & Hcode & Hterm) Hflag].
  assert (GetLoadState i2 id = s) as E by (unfold GetLoadState; by rewrite Hs).
  split_and!; [by rewrite E..|apply CancelLoad_refused; by rewrite E|].
  intros Hin. apply Hflag. unfold CancelLoad in Hcancel. destruct (loads_ i !! id); [|done].
  destruct (load_terminal _); [done|]. cbn in Hcancel. rewrite decide_True in Hcancel by done.
  injection Hcancel as <-. unfold flag_of. cbn. by rewrite lookup_insert_eq.
Qed.

(** *** C35: A worker leaves a terminal state.

    Whatever other threads do meanwhile, a worker that returns leaves its load
    terminal and drops its flag; the state says cancelled, or succeeded with
    every shard loaded, warm and cut over when the load returned ok, or names
    the error it returned. *)
Theorem worker_leaves_terminal_state {R : Type} `{AsyncCatchUpRunner world R} `{SectionSort}
    (stat : cpp_string → sys_error + file_kind) (map_file : cpp_string → map_result)
    (page_size : Z) (request : LoadRequest) (id : Z) (fuel : nat) (w : world) (s0 : LoadState)
    (Hfile : ∀ path bytes, map_file path = Mapped bytes → is_u64 (Zlen bytes))
    (Hn : 0 < options_shard_count (options_ w.1) < 2 ^ 32)
    (Hrunner : runner_behaves world R (λ _, True))
    (Hentry : loads_ w.1 !! id = Some s0) (Hothers : all_ops (beside id) w) :
  let n := options_shard_count (options_ w.1) in
  match run_worker stat map_file page_size fuel id request w with
  | (Fault _, _) => True
  | (x, (i, _)) =>
      load_terminal (GetLoadState i id) = true ∧ ¬ (id ∈ load_cancellations_ i)
      ∧ (load_code (GetLoadState i id) = kLoadCancelled
         ∨ (match x with
            | Err e => failed_with e (GetLoadState i id)
            | _ => load_code (GetLoadState i id) = kLoadSucceeded
                   ∧ reports n n n n (GetLoadState i id)
            end))
  end.
Proof.
  intros n.
  pose proof (worker_entry stat map_file page_size request id Hfile fuel w s0 Hn Hrunner Hentry Hothers)
    as Hp. by destruct (run_worker _ _ _ _ _ _ _) as [[u|e|f] [i rest]].
Qed.

(** *** C9: A cancelled load ends.

    When one of the next [K] slots of the schedule cancels the load or destroys
    the index, [K] rounds of the catch-up are enough: the worker returns,
    whatever the consumer delivers and however far the partitions run ahead. *)
Theorem cancelled_load_ends {R : Type} `{AsyncCatchUpRunner world R} `{SectionSort}
    (stat : cpp_string → sys_error + file_kind) (map_file : cpp_string → map_result)
    (page_size : Z) (request : LoadRequest) (id : Z) (K fuel : nat) (w : world) (s0 : LoadState)
    (Hfile : ∀ path bytes, map_file path = Mapped bytes → is_u64 (Zlen bytes))
    (Hn : 0 < options_shard_count (options_ w.1) < 2 ^ 32)
    (Hrunner : runner_behaves world R (λ f, f ≠ Diverges))
    (Hentry : loads_ w.1 !! id = Some s0) (Hrunning : load_terminal s0 = false)
    (Hpointer : id ∈ load_cancellations_ w.1) (Hid : 0 ≤ id < next_load_id_ w.1)
    (Hroom : next_load_id_ w.1 + Zlen (concat w.2) ≤ u64_max)
    (Hothers : all_ops (beside id) w)
    (Hdue : ∃ j ops, (j < K)%nat ∧ w.2 !! j = Some ops ∧ Exists (raises id) ops)
    (Hfuel : (K ≤ fuel)%nat) :
  (run_worker stat map_file page_size fuel id request w).1 ≠ Fault Diverges.
Proof.
  destruct Hdue as (j & ops & Hj & Hops).
  assert (doom_tr id K w []) as Hw.
  { intros _. split; [exact Hothers|]. split; [|by right; exists j, ops].
    split; [exact Hpointer|exact Hid|exact Hroom|right; by exists s0]. }
  pose proof (run_worker_post stat map_file page_size request id Hfile (doom_tr id K)
    (λ f, f ≠ Diverges) fuel w Hn (doom_observes stat id K) Hrunner ltac:(done)
    (catch_up_loop_doomed stat map_file request id _ Hrunner fuel K ltac:(lia)) Hw) as Hp.
  destruct (run_worker _ _ _ _ _ _ _) as [[u|e|f] w']; cbn; congruence.
Qed.

(** The runtime status lists everything.

    In every reachable state the status lists one entry for every shard of the
    index, in order, that of the state published for it or a blank one, and
    every load once; its error is empty exactly when no load has one, and is
    one of theirs otherwise. *)
Theorem runtime_status_lists_all `{LoadOrder} (stat : cpp_string → sys_error + file_kind)
    (o : ForwardIndexOptions) (i0 i : ForwardIndex)
    (Hn : is_u32 (options_shard_count o)) (Hmake : make_index o = Ok i0)
    (Hsteps : rtc (index_step stat) i0 i) :
  ∃ status, ForwardIndex_GetRuntimeStatus i = Ok status
    ∧ runtime_shard_count status = options_shard_count o
    ∧ runtime_shards status = imap shard_status (shards (shard_directory_ i))
    ∧ Zlen (runtime_shards status) = options_shard_count o
    ∧ runtime_loads status ≡ₚ (map_to_list (loads_ i)).*2
    ∧ (if decide (runtime_last_error status = [])
       then ∀ s, s ∈ runtime_loads status → load_last_error s = []
       else ∃ s, s ∈ runtime_loads status ∧ runtime_last_error status = load_last_error s).
Proof.
  destruct (steps_keep stat o i0 i Hn Hmake Hsteps) as [[_ _ _ _ [Hc Hs]] Ho].
  unfold ForwardIndex_GetRuntimeStatus. rewrite Ho in *. rewrite <-Hs. unfold Zlen at 1.
  pose proof (shard_statuses (shard_directory_ i) (length (shards (shard_directory_ i))) []
    ltac:(congruence) ltac:(cbn; lia)) as Hshards.
  change (Zlen []) with 0 in Hshards. rewrite Hshards. cbn [obind fst snd app length drop].
  destruct (add_loads (load_order (loads_ i)) ([], [])) as [Hl He]. cbn [fst snd app] in Hl, He.
  eexists. split; [done|]. cbn. rewrite Hl. split_and!; [done|done| |apply load_order_perm|].
  - unfold Zlen. by rewrite length_imap.
  - destruct He as [[-> Hall]|(s & Hs' & Hne & ->)].
    + rewrite decide_True by done. by apply Forall_forall.
    + rewrite decide_False by done. by exists s.
Qed.
