(* ===== verification/IndexSamples.v ===== *)
(** * A sample index

    An index of two shards that loads the sample artifact, with a runner that
    never catches up for the modes with Kafka. *)

From S2P Require Import Prelude Status Types Schema SchemaProofs RowStorage RealtimeDelta Snapshot.
From S2P Require Import SnapshotProofs Shard Kafka ArtifactFormat ArtifactWriter MmapBacking.
From S2P Require Import ArtifactLoad ArtifactTheorems ArtifactSamples AsyncLoad LoadProtocol AsyncLoadProofs.
From S2P Require Import ForwardIndex IndexProofs WorkerProofs StopProofs ServeProofs.
From S2P Require Import StoreSamples IndexTheorems.

Definition index_options (mode : ForwardIndexMode) : ForwardIndexOptions :=
  MkForwardIndexOptions mode 2 7 1 ThresholdConfig_default (MkKafkaConsumerConfig [] [] []).

Definition new_index (mode : ForwardIndexMode) : ForwardIndex :=
  MkForwardIndex (index_options mode) (make_directory 2) 1 ∅ ∅ ∅ [].

Definition index_request : LoadRequest := MkLoadRequest (str "file:///a.kvi") [].

(** A runner that stays behind. *)
Definition stuck : AsyncCatchUpRunner world () := {|
  create_runner _ := Ok tt;
  runner_Start _ p := (Ok tt, p);
  runner_CaptureSafeProgress p :=
    (Ok (MkKafkaProgress
       [MkKafkaPartitionProgress (MkKafkaPartition (str "rows") 0) 5 9 4]), p);
  runner_PollApplyCommitOnce _ p := (Ok tt, p);
|}.

Lemma stuck_behaves (allowed : fault → Prop) : @runner_behaves world () stuck allowed.
Proof. split; [done|..]; intros; split; [intros f E; discriminate E|done| intros f E; discriminate E|done|intros f E; discriminate E|done]. Qed.

Definition sample_stat := one_stat.
Definition sample_map := one_map sample_file.

Lemma sample_map_size path bytes : sample_map path = Mapped bytes → is_u64 (Zlen bytes).
Proof. apply one_map_size. vm_compute. split; congruence. Qed.

(** The worker of a load of the sample. *)
Definition sample_worker (mode : ForwardIndexMode) (fuel : nat) (others : list (list index_op))
    : StatusM * world :=
  let '(id, i) := LoadAsync sample_stat index_request (new_index mode) in
  run_worker (H := keeping_sort) (H0 := stuck) sample_stat sample_map 4096 fuel id index_request
    (i, others).

Lemma sample_preflight : PreflightLocalArtifactUri sample_stat index_request = Ok tt.
Proof. vm_compute. reflexivity. Qed.

(** ** The theorems on the sample *)

Lemma new_index_made mode :
  make_index (index_options mode) = Ok (new_index mode).
Proof. unfold make_index. by destruct mode. Qed.

Lemma sample_spec_kept : spec_kept 1 plain_schema sample_build.
Proof.
  split.
  - exact plain_reachable.
  - vm_compute. split; congruence.
  - repeat constructor.
  - reflexivity.
  - vm_compute. reflexivity.
  - split; [vm_compute; split; congruence| |repeat constructor; by intros []%elem_of_nil].
    constructor; [|constructor]. split; vm_compute; try (split; congruence); congruence.
Qed.

Lemma sample_written shard :
  shard ∈ spec_shards sample_build →
  written_shard (H := keeping_sort) sample_stat sample_map plain_schema sample_build
    (request_artifact_uri index_request) shard.
Proof.
  intros Hin. split. exists (spec_shards sample_build), sample_file, (str "/a.kvi").
  split; [exact Hin|]. split; [exact sample_typed|]. split; [vm_compute; reflexivity|].
  split; [right; repeat constructor; discriminate|]. split; [exact sample_image|].
  split; [vm_compute; split; congruence|]. split; [|vm_compute; reflexivity].
  apply elem_of_cons in Hin as [->|Hin]; [vm_compute; reflexivity|].
  apply list_elem_of_singleton in Hin as ->. vm_compute. reflexivity.
Qed.

Lemma two_shards : is_u32 2.
Proof. unfold is_u32. lia. Qed.

Lemma sample_match :
  options_match sample_build (load_options_of (load_options (index_options kFullSnapshotOnly))).
Proof.
  split; vm_compute; [right; reflexivity|right; reflexivity|reflexivity|right; reflexivity].
Qed.

Lemma sample_covers k :
  0 ≤ k < 2 → ∃ shard, shard_spec_id shard = k
    ∧ written_shard (H := keeping_sort) sample_stat sample_map plain_schema sample_build
        (request_artifact_uri index_request) shard.
Proof.
  intros Hk. assert (k = 0 ∨ k = 1) as [-> | ->] by lia.
  - exists (MkArtifactShardBuildSpec 0 [MkArtifactRow 11 (plain_row Byte.x01)]).
    split; [reflexivity|apply sample_written; left].
  - exists second_shard.
    split; [reflexivity|apply sample_written; right; left].
Qed.

Definition other_ops : list (list index_op) :=
  [[OpLoadAsync (MkLoadRequest [] [])]; [OpCancelLoad 5]].

Lemma sample_id mode : (LoadAsync sample_stat index_request (new_index mode)).1 = 1.
Proof. unfold LoadAsync. by rewrite sample_preflight. Qed.

Lemma sample_others mode :
  Forall (Forall (harmless (LoadAsync sample_stat index_request (new_index mode)).1)) other_ops.
Proof. rewrite sample_id. repeat constructor. cbn. lia. Qed.

(** Key 12 of the sample, served by the index while another load fails. *)
Lemma loaded_artifact_is_served_witness :
  match sample_worker kFullSnapshotOnly 0 other_ops with
  | (Ok _, (i, _)) =>
      load_code (GetLoadState i 1) = kLoadSucceeded
      ∧ ForwardIndex_Get i 12
        = or_throw (let* row := MaterializeRow (Some plain_layout) (plain_row Byte.x00) in Ok (Some row))
  | _ => False
  end.
Proof.
  pose proof (@loaded_artifact_is_served () stuck keeping_sort sample_stat sample_map 4096 1
    plain_schema sample_build index_request (index_options kFullSnapshotOnly)
    (new_index kFullSnapshotOnly) (new_index kFullSnapshotOnly)
    other_ops 0 (stuck_behaves _) sample_map_size)
    as H.
  specialize (H two_shards (new_index_made _) (rtc_refl _ _) eq_refl sample_spec_kept).
  specialize (H sample_match sample_covers sample_preflight (sample_others _)).
  pose proof (sample_id kFullSnapshotOnly) as Hid. unfold sample_worker.
  destruct (LoadAsync sample_stat index_request (new_index kFullSnapshotOnly)) as [id i1].
  cbn [fst] in Hid. subst id.
  destruct (run_worker _ _ _ _ _ _ _) as [[u|e|f] [i2 rest]]; [|exact H..].
  destruct H as [Hs Hget]. split; [exact Hs|].
  rewrite (Hget 12 second_shard).
  - by rewrite second_shard_row.
  - apply sample_written. right. left.
  - vm_compute. reflexivity.
Defined.

(** A shard with a realtime table. *)
Definition realtime_shard (shard : Z) : StatusOr (option ShardState) :=
  Ok (Some (MkShardState shard 1 (MkLayers (Some table_one) None None))).

Lemma MGet_answers_like_Get_witness :
  ∃ rows, MGet_from (index_options kRealtimeDelta) realtime_shard [8; 7; 8] = Ok rows
    ∧ Forall2 (λ k row, Get_from (index_options kRealtimeDelta) realtime_shard k = Ok row)
        [8; 7; 8] rows
    ∧ rows !! 1%nat = Some (Some sample_row).
Proof.
  pose proof (MGet_answers_like_Get (index_options kRealtimeDelta) (new_index kRealtimeDelta)
    realtime_shard [8; 7; 8] two_shards (new_index_made _)) as H.
  assert (MGet_from (index_options kRealtimeDelta) realtime_shard [8; 7; 8]
    = Ok [None; Some sample_row; None]) as Hrows by (vm_compute; reflexivity).
  rewrite Hrows in H. eexists. split; [exact Hrows|]. split; [exact H|reflexivity].
Defined.

(** A load that is registered, and cancelled. *)
Definition loading_index : ForwardIndex :=
  (LoadAsync sample_stat index_request (new_index kRealtimeDelta)).2.

Lemma loading_steps : rtc (index_step sample_stat) (new_index kRealtimeDelta) loading_index.
Proof. apply rtc_once, step_load_async. reflexivity. Qed.

Lemma index_stays_ok_witness :
  index_ok loading_index ∧ options_ loading_index = index_options kRealtimeDelta.
Proof.
  exact (index_stays_ok sample_stat (index_options kRealtimeDelta) (new_index kRealtimeDelta)
    loading_index two_shards (new_index_made _) loading_steps).
Defined.

(** Its worker reports a success too late. *)
Definition late_success : LoadState :=
  MarkSucceeded (initial_state index_request 1).

Lemma cancellation_is_final_witness :
  let i := store_load 1 late_success (CancelLoad 1 loading_index).2 in
  load_code (GetLoadState i 1) = kLoadCancelled ∧ flag_of 1 i = true ∧ (CancelLoad 1 i).1 = false.
Proof.
  assert (rtc (index_step sample_stat) (CancelLoad 1 loading_index).2
    (store_load 1 late_success (CancelLoad 1 loading_index).2)) as Hlater
    by (apply rtc_once, step_store; split; [reflexivity|discriminate]).
  destruct (cancellation_is_final sample_stat (index_options kRealtimeDelta) (new_index kRealtimeDelta)
    loading_index (CancelLoad 1 loading_index).2 _ 1 two_shards (new_index_made _) loading_steps
    ltac:(vm_compute; reflexivity) Hlater) as (Hc & _ & Hr & Hf).
  split; [exact Hc|]. split; [|exact Hr]. apply Hf. vm_compute. reflexivity.
Defined.

(** The load is cancelled before it maps its first shard. *)
Definition cancelling : list (list index_op) := [[]; []; [OpCancelLoad 1]].

Lemma worker_leaves_terminal_state_witness :
  match run_worker (H := keeping_sort) (H0 := stuck) sample_stat sample_map 4096 0 1 index_request
          (loading_index, cancelling) with
  | (Err _, (i, _)) => load_terminal (GetLoadState i 1) = true
      ∧ ¬ (1 ∈ load_cancellations_ i)
  | _ => False
  end.
Proof.
  pose proof (@worker_leaves_terminal_state () stuck keeping_sort sample_stat sample_map 4096
    index_request 1 0 (loading_index, cancelling) (initial_state index_request 1) sample_map_size
    ltac:(vm_compute; split; congruence) (stuck_behaves _) ltac:(vm_compute; reflexivity)
    ltac:(repeat constructor)) as H.
  cbv zeta in H.
  assert (match (run_worker (H := keeping_sort) (H0 := stuck) sample_stat sample_map 4096 0 1 index_request
          (loading_index, cancelling)).1 with Err _ => True | _ => False end) as Hok by (vm_compute; exact I).
  destruct (run_worker _ _ _ _ _ _ _) as [[u|e|f] [i rest]]; [done| |done].
  split; apply H.
Defined.

(** The index is destroyed while the load waits for a partition that runs
    ahead. *)
Definition stopping : list (list index_op) := replicate 20 [] ++ [[OpStop]].

Lemma cancelled_load_ends_witness :
  (run_worker (H := keeping_sort) (H0 := stuck) sample_stat sample_map 4096 21 1 index_request
     (loading_index, stopping)).1 ≠ Fault Diverges.
Proof.
  apply (@cancelled_load_ends () stuck keeping_sort sample_stat sample_map 4096 index_request 1 21 21
    (loading_index, stopping) (initial_state index_request 1)).
  - exact sample_map_size.
  - vm_compute. split; congruence.
  - apply stuck_behaves.
  - vm_compute. reflexivity.
  - reflexivity.
  - vm_compute. reflexivity.
  - vm_compute. split; congruence.
  - vm_compute. congruence.
  - repeat constructor.
  - exists 20%nat, [OpStop]. split; [lia|]. split; [reflexivity|]. left. by right.
  - lia.
Defined.

Definition any_order : LoadOrder := {|
  load_order loads := (map_to_list loads).*2;
  load_order_perm loads := Permutation_refl _;
|}.

Lemma runtime_status_lists_all_witness :
  ∃ status, ForwardIndex_GetRuntimeStatus (H := any_order) loading_index = Ok status
    ∧ Zlen (runtime_shards status) = 2 ∧ runtime_loads status = [initial_state index_request 1].
Proof.
  destruct (@runtime_status_lists_all any_order sample_stat (index_options kRealtimeDelta)
    (new_index kRealtimeDelta) loading_index two_shards (new_index_made _) loading_steps)
    as (status & Hs & _ & _ & Hn & Hl & _).
  exists status. split; [exact Hs|]. split; [exact Hn|].
  apply Permutation_singleton_r. rewrite Hl. reflexivity.
Defined.
