(* ===== verification/OfflineSchema.v ===== *)
(** * Schema files: [tools/offline/src/offline_artifact_builder.cc]

    The text helpers of the offline builder, the line-by-line parser of a
    schema file and its writer.  The file system is a parameter: the content
    of the file read, and the output stream written. *)

From S2P Require Import Prelude Status Types Schema MmapBacking.
From Stdlib Require Strings.String.

(** A [std::string] in a status message. *)
Definition text_of (s : cpp_string) : string := String.string_of_list_byte s.

(** ** Lines *)

Definition is_blank (c : byte) : bool :=
  bool_decide (c = Byte.x20) || bool_decide (c = Byte.x09) || bool_decide (c = Byte.x0d).

Fixpoint drop_blanks (text : cpp_string) : cpp_string :=
  match text with
  | c :: rest => if is_blank c then drop_blanks rest else text
  | [] => []
  end.

Definition Trim (text : cpp_string) : cpp_string :=
  reverse (drop_blanks (reverse (drop_blanks text))).

(** The loop over the line, inside single or double quotes or not. *)
Fixpoint strip_from (in_single_quote in_double_quote : bool) (line : cpp_string) : cpp_string :=
  match line with
  | [] => []
  | c :: rest =>
      if bool_decide (c = Byte.x27) && negb in_double_quote then
        c :: strip_from (negb in_single_quote) in_double_quote rest
      else if bool_decide (c = Byte.x22) && negb in_single_quote then
        c :: strip_from in_single_quote (negb in_double_quote) rest
      else if bool_decide (c = Byte.x23) && negb in_single_quote && negb in_double_quote then []
      else c :: strip_from in_single_quote in_double_quote rest
  end.

Definition StripComment (line : cpp_string) : cpp_string := strip_from false false line.

Definition Unquote (value : cpp_string) : cpp_string :=
  if (2 <=? Zlen value)
     && ((bool_decide (head value = Some Byte.x22) && bool_decide (last value = Some Byte.x22))
         || (bool_decide (head value = Some Byte.x27) && bool_decide (last value = Some Byte.x27)))
  then take (length value - 2) (drop 1 value)
  else value.

(** [text.find(':')]: what is before and behind it. *)
Fixpoint split_colon (text : cpp_string) : option (cpp_string * cpp_string) :=
  match text with
  | [] => None
  | c :: rest =>
      if bool_decide (c = Byte.x3a) then Some ([], rest)
      else match split_colon rest with
           | Some (key, value) => Some (c :: key, value)
           | None => None
           end
  end.

Definition ParseKeyValue (text : cpp_string) : StatusOr (cpp_string * cpp_string) :=
  match split_colon text with
  | None => InvalidArgument "schema line is not a key-value pair"
  | Some (before, behind) =>
      let key := Trim before in
      let value := Unquote (Trim behind) in
      if bool_decide (key = []) then InvalidArgument "schema key is empty"
      else Ok (key, value)
  end.

(** [std::getline] until the end of the file: a line ends with a newline or
    with the file, and the file does not end in an empty line. *)
Fixpoint getlines (content : list byte) : list cpp_string :=
  match content with
  | [] => []
  | c :: rest =>
      if bool_decide (c = Byte.x0a) then [] :: getlines rest
      else match getlines rest with
           | line :: lines => (c :: line) :: lines
           | [] => [[c]]
           end
  end.

(** ** Values *)

Definition is_digit (c : byte) : bool := (48 <=? byte_to_Z c) && (byte_to_Z c <=? 57).

Fixpoint digits_prefix (text : cpp_string) : cpp_string :=
  match text with
  | c :: rest => if is_digit c then c :: digits_prefix rest else []
  | [] => []
  end.

Definition digits_value (digits : cpp_string) : Z :=
  foldl (λ value c, value * 10 + (byte_to_Z c - 48)) 0 digits.

(** [std::from_chars] of an unsigned type of maximum [max]: the value, or
    nothing when there is no digit or the number is too large, and how many
    characters it has read. *)
Definition from_chars (max : Z) (text : cpp_string) : option Z * nat :=
  let digits := digits_prefix text in
  (if bool_decide (digits = []) then None
   else if max <? digits_value digits then None
   else Some (digits_value digits), length digits).

Definition ParseUnsigned (max : Z) (text name : cpp_string) : StatusOr Z :=
  if bool_decide (text = []) then InvalidArgument (text_of name +:+ " is empty")
  else
  match from_chars max text with
  | (Some value, read) =>
      if bool_decide (read = length text) then Ok value
      else InvalidArgument ("invalid unsigned integer for " +:+ text_of name)
  | (None, _) => InvalidArgument ("invalid unsigned integer for " +:+ text_of name)
  end.

Definition ParseBool (text : cpp_string) : StatusOr bool :=
  if bool_decide (text = str "true") then Ok true
  else if bool_decide (text = str "false") then Ok false
  else InvalidArgument "invalid boolean value".

Definition ParseType (text : cpp_string) : StatusOr FieldType :=
  if bool_decide (text = str "int8") then Ok kInt8
  else if bool_decide (text = str "int32") then Ok kInt32
  else if bool_decide (text = str "int64") then Ok kInt64
  else if bool_decide (text = str "uint64") then Ok kUInt64
  else if bool_decide (text = str "bool") then Ok kBool
  else if bool_decide (text = str "string") then Ok kString
  else InvalidArgument "unknown field type".

Definition FieldTypeName (type : FieldType) : string :=
  match type with
  | kInt8 => "int8" | kInt32 => "int32" | kInt64 => "int64"
  | kUInt64 => "uint64" | kBool => "bool" | kString => "string"
  end.

(** ** Data *)

Record ParsedField : Type := MkParsedField {
  parsed_spec : FieldSpec;
  encoding_name : cpp_string;
  has_field_id : bool;
  has_name : bool;
  has_type : bool;
  has_is_list : bool;
  has_nullable : bool;
  has_encoding : bool;
}.

Definition FieldSpec_default : FieldSpec :=
  MkFieldSpec 0 [] kInt64 false true kFixed DMonostate false.

Definition ParsedField_default : ParsedField :=
  MkParsedField FieldSpec_default [] false false false false false false.

Record ParsedSchemaConfig : Type := MkParsedSchemaConfig {
  config_schema_version : Z;
  has_schema_version : bool;
  config_shard_count : option Z;
  config_hash_seed : option Z;
  config_hash_version : option Z;
  primary_key_name : cpp_string;
  primary_key_type : FieldType;
  has_primary_key_name : bool;
  has_primary_key_type : bool;
  config_fields : list FieldSpec;
}.

Definition ParsedSchemaConfig_default : ParsedSchemaConfig :=
  MkParsedSchemaConfig 0 false None None None [] kUInt64 false false [].

(** ** Keys *)

Definition ApplyTopLevelKey (c : ParsedSchemaConfig) (key value : cpp_string)
    : StatusOr ParsedSchemaConfig :=
  if bool_decide (key = str "schema_version") then
    let* parsed := ParseUnsigned u64_max value key in
    Ok (MkParsedSchemaConfig parsed true (config_shard_count c) (config_hash_seed c)
          (config_hash_version c) (primary_key_name c) (primary_key_type c)
          (has_primary_key_name c) (has_primary_key_type c) (config_fields c))
  else if bool_decide (key = str "shard_count") then
    let* parsed := ParseUnsigned u32_max value key in
    Ok (MkParsedSchemaConfig (config_schema_version c) (has_schema_version c) (Some parsed)
          (config_hash_seed c) (config_hash_version c) (primary_key_name c) (primary_key_type c)
          (has_primary_key_name c) (has_primary_key_type c) (config_fields c))
  else if bool_decide (key = str "hash_seed") then
    let* parsed := ParseUnsigned u64_max value key in
    Ok (MkParsedSchemaConfig (config_schema_version c) (has_schema_version c)
          (config_shard_count c) (Some parsed) (config_hash_version c) (primary_key_name c)
          (primary_key_type c) (has_primary_key_name c) (has_primary_key_type c) (config_fields c))
  else if bool_decide (key = str "hash_version") then
    let* parsed := ParseUnsigned u32_max value key in
    Ok (MkParsedSchemaConfig (config_schema_version c) (has_schema_version c)
          (config_shard_count c) (config_hash_seed c) (Some parsed) (primary_key_name c)
          (primary_key_type c) (has_primary_key_name c) (has_primary_key_type c) (config_fields c))
  else InvalidArgument ("unsupported top-level schema key: " +:+ text_of key).

Definition ApplyPrimaryKey (c : ParsedSchemaConfig) (key value : cpp_string)
    : StatusOr ParsedSchemaConfig :=
  if bool_decide (key = str "name") then
    Ok (MkParsedSchemaConfig (config_schema_version c) (has_schema_version c)
          (config_shard_count c) (config_hash_seed c) (config_hash_version c) value
          (primary_key_type c) true (has_primary_key_type c) (config_fields c))
  else if bool_decide (key = str "type") then
    let* type := ParseType value in
    Ok (MkParsedSchemaConfig (config_schema_version c) (has_schema_version c)
          (config_shard_count c) (config_hash_seed c) (config_hash_version c)
          (primary_key_name c) type (has_primary_key_name c) true (config_fields c))
  else InvalidArgument ("unsupported primary_key schema key: " +:+ text_of key).

(** [config->fields.push_back(field)] *)
Definition push_field (field : FieldSpec) (c : ParsedSchemaConfig) : ParsedSchemaConfig :=
  MkParsedSchemaConfig (config_schema_version c) (has_schema_version c) (config_shard_count c)
    (config_hash_seed c) (config_hash_version c) (primary_key_name c) (primary_key_type c)
    (has_primary_key_name c) (has_primary_key_type c) (config_fields c ++ [field]).

(** The assignments of [ApplyFieldKey]. *)
Definition set_id (id : Z) (p : ParsedField) : ParsedField :=
  let f := parsed_spec p in
  MkParsedField (MkFieldSpec id (spec_name f) (spec_type f) (spec_is_list f) (spec_nullable f)
                   (spec_encoding f) (spec_default_value f) (deleted f))
    (encoding_name p) true (has_name p) (has_type p) (has_is_list p) (has_nullable p)
    (has_encoding p).

Definition set_name (name : cpp_string) (p : ParsedField) : ParsedField :=
  let f := parsed_spec p in
  MkParsedField (MkFieldSpec (spec_field_id f) name (spec_type f) (spec_is_list f)
                   (spec_nullable f) (spec_encoding f) (spec_default_value f) (deleted f))
    (encoding_name p) (has_field_id p) true (has_type p) (has_is_list p) (has_nullable p)
    (has_encoding p).

Definition set_type (type : FieldType) (p : ParsedField) : ParsedField :=
  let f := parsed_spec p in
  MkParsedField (MkFieldSpec (spec_field_id f) (spec_name f) type (spec_is_list f)
                   (spec_nullable f) (spec_encoding f) (spec_default_value f) (deleted f))
    (encoding_name p) (has_field_id p) (has_name p) true (has_is_list p) (has_nullable p)
    (has_encoding p).

Definition set_is_list (is_list : bool) (p : ParsedField) : ParsedField :=
  let f := parsed_spec p in
  MkParsedField (MkFieldSpec (spec_field_id f) (spec_name f) (spec_type f) is_list
                   (spec_nullable f) (spec_encoding f) (spec_default_value f) (deleted f))
    (encoding_name p) (has_field_id p) (has_name p) (has_type p) true (has_nullable p)
    (has_encoding p).

Definition set_nullable (nullable : bool) (p : ParsedField) : ParsedField :=
  let f := parsed_spec p in
  MkParsedField (MkFieldSpec (spec_field_id f) (spec_name f) (spec_type f) (spec_is_list f)
                   nullable (spec_encoding f) (spec_default_value f) (deleted f))
    (encoding_name p) (has_field_id p) (has_name p) (has_type p) (has_is_list p) true
    (has_encoding p).

Definition set_encoding_name (name : cpp_string) (p : ParsedField) : ParsedField :=
  MkParsedField (parsed_spec p) name (has_field_id p) (has_name p) (has_type p) (has_is_list p)
    (has_nullable p) true.

Definition set_encoding (encoding : FieldEncoding) (f : FieldSpec) : FieldSpec :=
  MkFieldSpec (spec_field_id f) (spec_name f) (spec_type f) (spec_is_list f) (spec_nullable f)
    encoding (spec_default_value f) (deleted f).

Definition ApplyFieldKey (p : ParsedField) (key value : cpp_string) : StatusOr ParsedField :=
  if bool_decide (key = str "field_id") then
    let* parsed := ParseUnsigned u32_max value key in Ok (set_id parsed p)
  else if bool_decide (key = str "name") then Ok (set_name value p)
  else if bool_decide (key = str "type") then
    let* type := ParseType value in Ok (set_type type p)
  else if bool_decide (key = str "is_list") then
    let* parsed := ParseBool value in Ok (set_is_list parsed p)
  else if bool_decide (key = str "nullable") then
    let* parsed := ParseBool value in Ok (set_nullable parsed p)
  else if bool_decide (key = str "encoding") then Ok (set_encoding_name value p)
  else InvalidArgument ("unsupported field schema key: " +:+ text_of key).

(** ** Lines *)

Inductive schema_section : Type := kTopLevel | kPrimaryKey | kFields.

(** The variables of the loop; [pending_field] is set when a field is
    pending. *)
Record parse_state : Type := MkParseState {
  parse_config : ParsedSchemaConfig;
  parse_section : schema_section;
  pending_field : ParsedField;
  has_pending_field : bool;
}.

Definition FlushParsedField (s : parse_state) : StatusOr parse_state :=
  if negb (has_pending_field s) then Ok s
  else
  let p := pending_field s in
  if negb (has_field_id p) || negb (has_name p) || negb (has_type p) || negb (has_is_list p)
     || negb (has_nullable p) || negb (has_encoding p) then
    InvalidArgument "schema field is missing required keys"
  else
  let* encoding := ParseFieldEncoding (text_of (encoding_name p)) (spec_is_list (parsed_spec p))
                     (spec_type (parsed_spec p)) in
  Ok (MkParseState (push_field (set_encoding encoding (parsed_spec p)) (parse_config s))
        (parse_section s) ParsedField_default false).

Definition with_section (section : schema_section) (s : parse_state) : parse_state :=
  MkParseState (parse_config s) section (pending_field s) (has_pending_field s).

Definition with_config (c : ParsedSchemaConfig) (s : parse_state) : parse_state :=
  MkParseState c (parse_section s) (pending_field s) (has_pending_field s).

Definition with_field (p : ParsedField) (s : parse_state) : parse_state :=
  MkParseState (parse_config s) (parse_section s) p true.

(** An error is reported with its line. *)
Definition at_line {A} (kind : string) (line_number : Z) (c : StatusOr A) : StatusOr A :=
  match c with
  | Err status =>
      InvalidArgument ("invalid " +:+ kind +:+ " line " +:+ text_of (decimal_digits 20 line_number)
                       +:+ ": " +:+ status_message status)
  | _ => c
  end.

(** The number of leading spaces. *)
Fixpoint indent_of (line : cpp_string) : nat :=
  match line with
  | c :: rest => if bool_decide (c = Byte.x20) then S (indent_of rest) else 0%nat
  | [] => 0%nat
  end.

(** A line without indentation. *)
Definition parse_top (line_number : Z) (trimmed : cpp_string) (s : parse_state)
    : StatusOr parse_state :=
  let* s := FlushParsedField s in
  if bool_decide (trimmed = str "primary_key:") then Ok (with_section kPrimaryKey s)
  else if bool_decide (trimmed = str "fields:") then Ok (with_section kFields s)
  else
  let* kv := at_line "schema" line_number (ParseKeyValue trimmed) in
  let* c := at_line "schema" line_number (ApplyTopLevelKey (parse_config s) kv.1 kv.2) in
  Ok (with_section kTopLevel (with_config c s)).

Definition parse_primary_key (line_number : Z) (trimmed : cpp_string) (s : parse_state)
    : StatusOr parse_state :=
  let* kv := at_line "primary_key" line_number (ParseKeyValue trimmed) in
  let* c := at_line "schema" line_number (ApplyPrimaryKey (parse_config s) kv.1 kv.2) in
  Ok (with_config c s).

(** A key of the pending field. *)
Definition parse_field_key (line_number : Z) (text : cpp_string) (s : parse_state)
    : StatusOr parse_state :=
  let* kv := at_line "field" line_number (ParseKeyValue text) in
  let* p := at_line "schema" line_number (ApplyFieldKey (pending_field s) kv.1 kv.2) in
  Ok (with_field p s).

Definition parse_field (line_number : Z) (trimmed : cpp_string) (s : parse_state)
    : StatusOr parse_state :=
  if starts_with (str "- ") trimmed then
    let* s := FlushParsedField s in
    let s := with_field (pending_field s) s in
    let first_key := Trim (drop 2 trimmed) in
    if bool_decide (first_key = []) then Ok s else parse_field_key line_number first_key s
  else if negb (has_pending_field s) then
    InvalidArgument "field property appeared before a field item"
  else parse_field_key line_number trimmed s.

(** One round of the loop. *)
Definition parse_line (s : parse_state) (line : Z * cpp_string) : StatusOr parse_state :=
  let '(line_number, raw_line) := line in
  let without_comment := StripComment raw_line in
  let trimmed := Trim without_comment in
  if bool_decide (trimmed = []) then Ok s
  else if bool_decide (indent_of without_comment = 0%nat) then parse_top line_number trimmed s
  else
  match parse_section s with
  | kPrimaryKey => parse_primary_key line_number trimmed s
  | kFields => parse_field line_number trimmed s
  | kTopLevel => InvalidArgument "schema line is in an unknown section"
  end.

(** The checks behind the loop. *)
Definition check_config (c : ParsedSchemaConfig) : StatusOr ParsedSchemaConfig :=
  if negb (has_schema_version c) then InvalidArgument "schema_version is required"
  else if negb (has_primary_key_name c) || negb (has_primary_key_type c) then
    InvalidArgument "primary_key name and type are required"
  else if negb (bool_decide (primary_key_type c = kUInt64)) then
    InvalidArgument "primary_key type must be uint64"
  else match config_fields c with
       | [] => InvalidArgument "schema must contain at least one field"
       | _ => Ok c
       end.

Definition parse_start : parse_state :=
  MkParseState ParsedSchemaConfig_default kTopLevel ParsedField_default false.

(** The lines of a file, numbered from 1. *)
Definition parse_schema (content : list byte) : StatusOr ParsedSchemaConfig :=
  let lines := getlines content in
  let* s := ofold parse_line (zip (seqZ 1 (Zlen lines)) lines) parse_start in
  let* s := FlushParsedField s in
  check_config (parse_config s).

(** [content] is that of the file, unless it cannot be opened. *)
Definition ParseSchemaFile (content : option (list byte)) : StatusOr ParsedSchemaConfig :=
  match content with
  | None => NotFound "schema file not found"
  | Some bytes => parse_schema bytes
  end.

Definition BuildRuntimeSchema (config : ParsedSchemaConfig) (schema_version : Z)
    : StatusOr RuntimeSchema :=
  match sfor AddField (config_fields config) (MkRuntimeSchema schema_version [] []) with
  | (Ok _, schema) => Ok schema
  | (Err e, _) => Err e
  | (Fault f, _) => Fault f
  end.

(** ** Writing *)

Definition number (n : Z) : cpp_string := decimal_digits 20 n.
Definition newline : cpp_string := [Byte.x0a].
Definition bool_name (b : bool) : cpp_string := if b then str "true" else str "false".

Definition field_text (field : FieldSpec) : cpp_string :=
  str "  - field_id: " ++ number (spec_field_id field) ++ newline
  ++ str "    name: " ++ spec_name field ++ newline
  ++ str "    type: " ++ str (FieldTypeName (spec_type field)) ++ newline
  ++ str "    is_list: " ++ bool_name (spec_is_list field) ++ newline
  ++ str "    nullable: " ++ bool_name (spec_nullable field) ++ newline
  ++ str "    encoding: " ++ str (FieldEncodingConfigName (spec_encoding field)) ++ newline
  ++ newline.

(** What [WriteSchemaFile] streams into the file. *)
Definition schema_text (config : ParsedSchemaConfig)
    (schema_version shard_count hash_seed hash_version : Z) : cpp_string :=
  str "schema_version: " ++ number schema_version ++ newline
  ++ str "shard_count: " ++ number shard_count ++ newline
  ++ str "hash_seed: " ++ number hash_seed ++ newline
  ++ str "hash_version: " ++ number hash_version ++ newline ++ newline
  ++ str "primary_key:" ++ newline
  ++ str "  name: " ++ primary_key_name config ++ newline
  ++ str "  type: uint64" ++ newline ++ newline
  ++ str "fields:" ++ newline
  ++ concat (field_text <$> config_fields config).

Section Output.
Context {F : Type} (open_output : cpp_string → F → bool * F)
  (write_output : cpp_string → list byte → F → bool * F).

Definition WriteSchemaFile (path : cpp_string) (config : ParsedSchemaConfig)
    (schema_version shard_count hash_seed hash_version : Z) : stateful F Status unit := λ fs,
  let '(opened, fs) := open_output path fs in
  if negb opened then (Unavailable "failed to open output schema file", fs)
  else
  let '(written, fs) :=
    write_output path (schema_text config schema_version shard_count hash_seed hash_version) fs in
  if negb written then (Unavailable "failed to write output schema file", fs) else (Ok tt, fs).
End Output.
