(* ===== verification/OfflineSchemaProofs.v ===== *)
(** * The schema file round-trips

    What [WriteSchemaFile] writes is what [ParseSchemaFile] reads: numbers,
    names the format can hold, and one field after the other. *)

From S2P Require Import Prelude Status Types Schema SchemaProofs MmapBacking OfflineSchema.

(** ** Numbers *)

Lemma digit_byte d : 0 ≤ d < 10 → byte_to_Z (byte_of_Z (48 + d)) = 48 + d.
Proof. intros Hd. rewrite byte_to_of_Z. apply Z.mod_small. lia. Qed.

Lemma digits_value_snoc ds c : digits_value (ds ++ [c]) = digits_value ds * 10 + (byte_to_Z c - 48).
Proof. unfold digits_value. by rewrite foldl_app. Qed.

Lemma decimal_value fuel n :
  0 ≤ n < 10 ^ Z.of_nat fuel → digits_value (decimal_digits fuel n) = n.
Proof.
  revert n. induction fuel as [|fuel IH]; intros n Hn.
  - cbn in *. lia.
  - cbn [decimal_digits]. rewrite Nat2Z.inj_succ, Z.pow_succ_r in Hn by lia.
    pose proof (Z.mod_pos_bound n 10 ltac:(lia)). pose proof (Z.div_mod n 10 ltac:(lia)) as Hdm.
    rewrite digits_value_snoc, digit_byte by lia. destruct (Z.ltb_spec n 10) as [Hlt|Hge].
    + cbn. rewrite Z.mod_small by lia. lia.
    + rewrite IH; [lia|]. split; [apply Z.div_pos; lia|]. apply Z.div_lt_upper_bound; lia.
Qed.

Lemma decimal_all_digits fuel n : 0 ≤ n → Forall (λ c, is_digit c = true) (decimal_digits fuel n).
Proof.
  revert n. induction fuel as [|fuel IH]; intros n Hn; cbn [decimal_digits]; [done|].
  pose proof (Z.mod_pos_bound n 10 ltac:(lia)).
  apply Forall_app. split.
  - destruct (_ <? _); [done|]. apply IH. apply Z.div_pos; lia.
  - constructor; [|done]. unfold is_digit. rewrite digit_byte by lia.
    apply andb_true_iff. split; apply Z.leb_le; lia.
Qed.

Lemma digits_prefix_all ds : Forall (λ c, is_digit c = true) ds → digits_prefix ds = ds.
Proof. induction 1 as [|c ds Hc _ IH]; cbn; [done|]. by rewrite Hc, IH. Qed.

Lemma number_not_nil n : number n ≠ [].
Proof. unfold number. cbn [decimal_digits]. intros E. by apply app_eq_nil in E as [_ ?]. Qed.

Lemma ParseUnsigned_number max n key :
  0 ≤ n ≤ max → max ≤ u64_max → ParseUnsigned max (number n) key = Ok n.
Proof.
  intros Hn Hmax. unfold ParseUnsigned, from_chars. rewrite bool_decide_eq_false_2 by apply number_not_nil.
  unfold number. rewrite digits_prefix_all by (apply decimal_all_digits; lia).
  rewrite decimal_value by (unfold u64_max in *; cbn; lia).
  rewrite bool_decide_eq_false_2 by apply number_not_nil.
  rewrite (proj2 (Z.ltb_ge _ _)) by lia. by rewrite bool_decide_eq_true_2.
Qed.

(** ** Trimming *)

(** Text that neither starts nor ends with a blank. *)
Definition starts_tight (t : cpp_string) : Prop := ∃ c r, t = c :: r ∧ is_blank c = false.
Definition ends_tight (t : cpp_string) : Prop := ∃ r c, t = r ++ [c] ∧ is_blank c = false.

Lemma drop_blanks_tight t : starts_tight t → drop_blanks t = t.
Proof. intros (c & r & -> & Hc). cbn. by rewrite Hc. Qed.

Lemma drop_blanks_spaces k t : drop_blanks (replicate k Byte.x20 ++ t) = drop_blanks t.
Proof. induction k as [|k IH]; [done|exact IH]. Qed.

Lemma reverse_tight t : ends_tight t → starts_tight (reverse t).
Proof. intros (r & c & -> & Hc). exists c, (reverse r). by rewrite reverse_app. Qed.

Lemma Trim_spaces k t :
  starts_tight t → ends_tight t → Trim (replicate k Byte.x20 ++ t) = t.
Proof.
  intros Hs He. unfold Trim. rewrite drop_blanks_spaces, (drop_blanks_tight t) by done.
  rewrite drop_blanks_tight by (by apply reverse_tight). apply reverse_involutive.
Qed.

Lemma drop_blanks_length t : (length (drop_blanks t) ≤ length t)%nat.
Proof. induction t as [|c t IH]; cbn; [done|]. destruct (is_blank c); cbn; lia. Qed.

Lemma drop_blanks_same t : length (drop_blanks t) = length t → t ≠ [] → starts_tight t.
Proof.
  destruct t as [|c t]; [done|]. cbn. destruct (is_blank c) eqn:E.
  - pose proof (drop_blanks_length t). cbn. lia.
  - intros _ _. by exists c, t.
Qed.

Lemma Trim_same t : Trim t = t → t ≠ [] → starts_tight t ∧ ends_tight t.
Proof.
  unfold Trim. intros Ht Hne. pose proof (f_equal length Ht) as Hl.
  rewrite length_reverse in Hl. pose proof (drop_blanks_length (reverse (drop_blanks t))) as H1.
  rewrite length_reverse in H1. pose proof (drop_blanks_length t) as H2.
  assert (starts_tight t) as Hs by (apply drop_blanks_same; [lia|done]). split; [done|].
  rewrite (drop_blanks_tight t Hs) in *. destruct (drop_blanks_same (reverse t)) as (c & r & E & Hc).
  - rewrite length_reverse. lia.
  - intros E. apply Hne. apply (f_equal reverse) in E. by rewrite reverse_involutive in E.
  - exists (reverse r), c. split; [|done]. rewrite <-(reverse_involutive t), E. by rewrite reverse_cons.
Qed.

(** ** Lines with a key *)

(** Text that the format can hold as a value. *)
Record plain (t : cpp_string) : Prop := {
  pl_trim : Trim t = t;
  pl_quotes : Unquote t = t;
  pl_chars : Forall (λ c, c ≠ Byte.x0a ∧ c ≠ Byte.x23) t;
  pl_some : t ≠ [];
}.

(** A key of the format. *)
Record is_key (t : cpp_string) : Prop := {
  ky_start : starts_tight t;
  ky_end : ends_tight t;
  ky_chars : Forall (λ c, c ≠ Byte.x0a ∧ c ≠ Byte.x23 ∧ c ≠ Byte.x3a ∧ c ≠ Byte.x2d) t;
}.

Definition key_value (key value : cpp_string) : cpp_string := key ++ Byte.x3a :: Byte.x20 :: value.
Definition key_line (k : nat) (key value : cpp_string) : cpp_string :=
  replicate k Byte.x20 ++ key_value key value.

Lemma StripComment_plain t : Forall (λ c, c ≠ Byte.x0a ∧ c ≠ Byte.x23) t → StripComment t = t.
Proof.
  unfold StripComment. intros Ht. generalize false at 1 as q. generalize false as d. revert Ht.
  induction 1 as [|c t [_ Hc] _ IH]; intros d q; cbn [strip_from]; [done|].
  rewrite (bool_decide_eq_false_2 (c = Byte.x23)) by done. cbn [andb].
  destruct (_ && _); [by rewrite IH|]. destruct (_ && _); by rewrite IH.
Qed.

Lemma split_colon_key key rest :
  Forall (λ c, c ≠ Byte.x0a ∧ c ≠ Byte.x23 ∧ c ≠ Byte.x3a ∧ c ≠ Byte.x2d) key →
  split_colon (key ++ Byte.x3a :: rest) = Some (key, rest).
Proof.
  induction 1 as [|c key (_ & _ & Hc & _) _ IH]; cbn; [done|].
  rewrite bool_decide_eq_false_2 by done. by rewrite IH.
Qed.

Lemma ParseKeyValue_plain key value :
  is_key key → plain value → ParseKeyValue (key_value key value) = Ok (key, value).
Proof.
  intros [Hs He Hc] [Ht Hq Hv Hne]. unfold ParseKeyValue, key_value. rewrite split_colon_key by done.
  destruct (Trim_same value Ht Hne) as [Hvs Hve].
  pose proof (Trim_spaces 0 key Hs He) as Hk. pose proof (Trim_spaces 1 value Hvs Hve) as Hval.
  cbn [replicate app] in Hk, Hval. rewrite Hk, Hval, Hq.
  rewrite bool_decide_eq_false_2; [done|]. by destruct Hs as (c & r & -> & _).
Qed.

Lemma key_value_tight key value :
  is_key key → plain value → starts_tight (key_value key value) ∧ ends_tight (key_value key value).
Proof.
  intros [(c & r & -> & Hc) _ _] [Ht _ _ Hne]. split.
  - by exists c, (r ++ Byte.x3a :: Byte.x20 :: value).
  - destruct (Trim_same value Ht Hne) as [_ (r' & c' & -> & Hc')].
    exists ((c :: r) ++ Byte.x3a :: Byte.x20 :: r'), c'. split; [|done]. unfold key_value.
    by rewrite <-app_assoc.
Qed.

Lemma indent_of_spaces k t : starts_tight t → indent_of (replicate k Byte.x20 ++ t) = k.
Proof.
  intros (c & r & -> & Hc). induction k as [|k IH]; cbn [replicate app indent_of].
  - rewrite bool_decide_eq_false_2; [done|]. by intros ->.
  - rewrite bool_decide_eq_true_2 by done. by rewrite IH.
Qed.

(** What the loop sees of such a line. *)
Lemma key_line_seen k key value :
  is_key key → plain value →
  StripComment (key_line k key value) = key_line k key value
  ∧ Trim (key_line k key value) = key_value key value
  ∧ indent_of (key_line k key value) = k ∧ key_value key value ≠ [].
Proof.
  intros Hk Hv. destruct (key_value_tight key value Hk Hv) as [Hs He]. split_and!.
  - apply StripComment_plain. unfold key_line, key_value. apply Forall_app. split.
    + by apply Forall_replicate.
    + apply Forall_app. split; [|constructor; [done|constructor; [done|apply Hv]]].
      eapply Forall_impl; [apply Hk|]. naive_solver.
  - by apply Trim_spaces.
  - by apply indent_of_spaces.
  - by destruct Hs as (c & r & -> & _).
Qed.

Lemma key_value_not_header key value header rest :
  is_key key → split_colon header = Some (rest, []) → key_value key value ≠ header.
Proof.
  intros [_ _ Hc] Hh E. unfold key_value in E. rewrite <-E, split_colon_key in Hh by done. congruence.
Qed.

Lemma parse_line_top s n key value :
  is_key key → plain value →
  parse_line s (n, key_line 0 key value)
  = let* s := FlushParsedField s in
    let* c := at_line "schema" n (ApplyTopLevelKey (parse_config s) key value) in
    Ok (with_section kTopLevel (with_config c s)).
Proof.
  intros Hk Hv. destruct (key_line_seen 0 key value Hk Hv) as (Hc & Ht & Hi & Hne).
  unfold parse_line. rewrite Hc, Ht, Hi, bool_decide_eq_false_2, bool_decide_eq_true_2 by done.
  unfold parse_top. destruct (FlushParsedField s) as [s'|e|f]; [|done..]. cbn [obind].
  rewrite !bool_decide_eq_false_2 by (by eapply key_value_not_header).
  by rewrite ParseKeyValue_plain.
Qed.

Lemma parse_line_key s n k key value :
  is_key key → plain value → parse_section s = kPrimaryKey →
  parse_line s (n, key_line (S k) key value)
  = let* c := at_line "schema" n (ApplyPrimaryKey (parse_config s) key value) in
    Ok (with_config c s).
Proof.
  intros Hk Hv Hs. destruct (key_line_seen (S k) key value Hk Hv) as (Hc & Ht & Hi & Hne).
  unfold parse_line. rewrite Hc, Ht, Hi, !bool_decide_eq_false_2, Hs by done.
  unfold parse_primary_key. by rewrite ParseKeyValue_plain.
Qed.

Lemma key_not_item key value : is_key key → starts_with (str "- ") (key_value key value) = false.
Proof.
  intros [(c & r & -> & Hc) _ Hch]. unfold starts_with, key_value. apply bool_decide_eq_false_2.
  apply Forall_cons in Hch as [(_ & _ & _ & Hd) _]. cbn. intros [= E]. by apply Hd.
Qed.

Lemma parse_line_field s n k key value :
  is_key key → plain value → parse_section s = kFields → has_pending_field s = true →
  parse_line s (n, key_line (S k) key value)
  = let* p := at_line "schema" n (ApplyFieldKey (pending_field s) key value) in
    Ok (with_field p s).
Proof.
  intros Hk Hv Hs Hp. destruct (key_line_seen (S k) key value Hk Hv) as (Hc & Ht & Hi & Hne).
  unfold parse_line. rewrite Hc, Ht, Hi, !bool_decide_eq_false_2, Hs by done.
  unfold parse_field. rewrite key_not_item, Hp by done. cbn [negb].
  unfold parse_field_key. by rewrite ParseKeyValue_plain.
Qed.

(** The first line of a field. *)
Definition item_line (key value : cpp_string) : cpp_string :=
  str "  - " ++ key_value key value.

Lemma parse_line_item s n key value :
  is_key key → plain value → parse_section s = kFields →
  parse_line s (n, item_line key value)
  = let* s := FlushParsedField s in
    let s := with_field (pending_field s) s in
    let* p := at_line "schema" n (ApplyFieldKey (pending_field s) key value) in
    Ok (with_field p s).
Proof.
  intros Hk Hv Hs. destruct (key_value_tight key value Hk Hv) as [Hst Het].
  destruct (key_line_seen 0 key value Hk Hv) as (Hc & Ht & _ & Hne).
  assert (StripComment (item_line key value) = item_line key value) as Hc'.
  { apply StripComment_plain. unfold item_line, key_value. apply Forall_app. split.
    - repeat constructor; by vm_compute.
    - apply Forall_app. split; [|constructor; [done|constructor; [done|apply Hv]]].
      eapply Forall_impl; [apply Hk|]. naive_solver. }
  assert (item_line key value = replicate 2 Byte.x20 ++ str "- " ++ key_value key value) as Hitem
    by reflexivity.
  assert (starts_tight (str "- " ++ key_value key value)) as Hst' by (by eexists _, _).
  assert (ends_tight (str "- " ++ key_value key value)) as Het'.
  { destruct Het as (r & c & -> & Hb). exists (str "- " ++ r), c. by rewrite <-app_assoc. }
  unfold parse_line. rewrite Hc', Hitem, Trim_spaces, indent_of_spaces by done.
  rewrite bool_decide_eq_false_2 by done. cbn [bool_decide]. rewrite bool_decide_eq_false_2, Hs by done.
  unfold parse_field. unfold starts_with. rewrite take_app_length, bool_decide_eq_true_2 by done.
  destruct (FlushParsedField s) as [s'|e|f]; [|done..]. cbn [obind].
  change (drop 2 (str "- " ++ key_value key value)) with (key_value key value).
  pose proof (Trim_spaces 0 _ Hst Het) as Htr. cbn [replicate app] in Htr. rewrite Htr.
  rewrite bool_decide_eq_false_2 by done. unfold parse_field_key. by rewrite ParseKeyValue_plain.
Qed.

(** ** Runs of lines *)

(** Reading the lines [ls], wherever they are in the file. *)
Definition reads (s : parse_state) (ls : list cpp_string) (s' : parse_state) : Prop :=
  ∀ k, ofold parse_line (zip (seqZ k (Zlen ls)) ls) s = Ok s'.

Lemma reads_nil s : reads s [] s.
Proof. done. Qed.

Lemma reads_cons s l s1 ls s' :
  (∀ n, parse_line s (n, l) = Ok s1) → reads s1 ls s' → reads s (l :: ls) s'.
Proof.
  intros Hl Hls k. rewrite Zlen_cons. pose proof (Zlen_nonneg ls). rewrite seqZ_cons by lia.
  cbn [zip zip_with ofold]. rewrite Hl. cbn [obind].
  replace (Z.pred (1 + Zlen ls)) with (Zlen ls) by lia. apply Hls.
Qed.

Lemma reads_app s ls1 s1 ls2 s' : reads s ls1 s1 → reads s1 ls2 s' → reads s (ls1 ++ ls2) s'.
Proof.
  intros H1 H2 k. rewrite Zlen_app. pose proof (Zlen_nonneg ls1). pose proof (Zlen_nonneg ls2).
  rewrite seqZ_app by lia. rewrite zip_with_app by (rewrite length_seqZ; unfold Zlen; lia).
  rewrite ofold_app. unfold reads in *. rewrite H1. apply H2.
Qed.

Lemma parse_line_empty s n : parse_line s (n, []) = Ok s.
Proof. done. Qed.

(** Keys and values by evaluation. *)
Definition key_check (t : cpp_string) : bool :=
  match head t, last t with
  | Some c, Some d => negb (is_blank c) && negb (is_blank d)
  | _, _ => false
  end && forallb (λ c, negb (existsb (λ d, bool_decide (c = d)) [Byte.x0a; Byte.x23; Byte.x3a; Byte.x2d])) t.

Lemma key_check_ok t : key_check t = true → is_key t.
Proof.
  unfold key_check. destruct t as [|c t]; [done|]. cbn [head]. destruct (last (c :: t)) as [d|] eqn:E; [|done].
  intros [[Hc Hd]%andb_true_iff Ht]%andb_true_iff. split.
  - exists c, t. split; [done|]. by destruct (is_blank c).
  - apply last_Some in E as [r ->]. exists r, d. split; [done|]. by destruct (is_blank d).
  - rewrite forallb_forall in Ht. apply Forall_forall. intros x Hx%list_elem_of_In.
    specialize (Ht x Hx). cbn in Ht. repeat (case_bool_decide; [done|]). done.
Qed.

Ltac key_ok := apply key_check_ok; vm_compute; reflexivity.
Ltac plain_ok := split; [vm_compute; reflexivity|vm_compute; reflexivity|repeat constructor; by vm_compute|done].

Lemma plain_digits ds : Forall (λ c, is_digit c = true) ds → ds ≠ [] → plain ds.
Proof.
  intros Hds Hne. assert (∀ c, is_digit c = true → is_blank c = false ∧ c ≠ Byte.x0a ∧ c ≠ Byte.x23
    ∧ c ≠ Byte.x22 ∧ c ≠ Byte.x27) as Hdig.
  { intros c Hc. split_and!; [by destruct c|intros ->; by vm_compute in Hc..]. }
  assert (starts_tight ds) as Hs.
  { destruct Hds as [|c r Hc]; [done|]. exists c, r. split; [done|]. by apply Hdig. }
  assert (ends_tight ds) as He.
  { destruct (last ds) as [d|] eqn:E; [|by apply last_None in E]. apply last_Some in E as [r ->].
    exists r, d. split; [done|]. apply Forall_app in Hds as [_ [Hd _]%Forall_cons]. by apply Hdig. }
  split; [exact (Trim_spaces 0 ds Hs He)| |eapply Forall_impl; [exact Hds|naive_solver]|done].
  unfold Unquote. destruct Hds as [|c r Hc]; [done|]. cbn [head].
  rewrite !(bool_decide_eq_false_2 (Some c = Some _)) by (intros [= E]; apply Hdig in Hc; naive_solver).
  by rewrite andb_false_r.
Qed.

Lemma plain_number n : 0 ≤ n → plain (number n).
Proof. intros Hn. apply plain_digits; [by apply decimal_all_digits|apply number_not_nil]. Qed.

(** ** The fields *)

(** A field that the file can hold. *)
Record writable (f : FieldSpec) : Prop := {
  wf_id : is_u32 (spec_field_id f);
  wf_name : plain (spec_name f);
  wf_encoding : encoding_allowed (spec_is_list f) (spec_type f) (spec_encoding f) = true;
  wf_default : spec_default_value f = DMonostate;
  wf_deleted : deleted f = false;
}.

Definition field_lines (f : FieldSpec) : list cpp_string :=
  [item_line (str "field_id") (number (spec_field_id f));
   key_line 4 (str "name") (spec_name f);
   key_line 4 (str "type") (str (FieldTypeName (spec_type f)));
   key_line 4 (str "is_list") (bool_name (spec_is_list f));
   key_line 4 (str "nullable") (bool_name (spec_nullable f));
   key_line 4 (str "encoding") (str (FieldEncodingConfigName (spec_encoding f)));
   []].

(** The pending field behind its lines. *)
Definition parsed_of (f : FieldSpec) : ParsedField :=
  MkParsedField (MkFieldSpec (spec_field_id f) (spec_name f) (spec_type f) (spec_is_list f)
                   (spec_nullable f) kFixed DMonostate false)
    (str (FieldEncodingConfigName (spec_encoding f))) true true true true true true.

Definition with_fields (fs : list FieldSpec) (c : ParsedSchemaConfig) : ParsedSchemaConfig :=
  MkParsedSchemaConfig (config_schema_version c) (has_schema_version c) (config_shard_count c)
    (config_hash_seed c) (config_hash_version c) (primary_key_name c) (primary_key_type c)
    (has_primary_key_name c) (has_primary_key_type c) fs.

(** Among the fields, [done] of them read, the last still pending. *)
Definition among_fields (c : ParsedSchemaConfig) (done : list FieldSpec) (s : parse_state) : Prop :=
  parse_section s = kFields
  ∧ FlushParsedField s = Ok (MkParseState (with_fields done c) kFields ParsedField_default false).

Lemma flush_parsed c done f :
  writable f →
  FlushParsedField (MkParseState (with_fields done c) kFields (parsed_of f) true)
  = Ok (MkParseState (with_fields (done ++ [f]) c) kFields ParsedField_default false).
Proof.
  intros [_ _ He Hd Hdel]. unfold FlushParsedField. cbn [has_pending_field negb pending_field parsed_of
    has_field_id has_name has_type has_is_list has_nullable has_encoding orb parsed_spec spec_is_list
    spec_type encoding_name].
  assert (ParseFieldEncoding (text_of (str (FieldEncodingConfigName (spec_encoding f))))
    (spec_is_list f) (spec_type f) = Ok (spec_encoding f)) as ->.
  { destruct (spec_encoding f), (spec_is_list f), (spec_type f); try done; vm_compute; reflexivity. }
  cbn [obind]. do 2 f_equal. unfold push_field, with_fields, set_encoding. cbn.
  destruct f. cbn in *. by subst.
Qed.

Lemma ApplyFieldKey_id p n :
  is_u32 n → ApplyFieldKey p (str "field_id") (number n) = Ok (set_id n p).
Proof.
  intros Hn. unfold is_u32 in Hn. unfold ApplyFieldKey. rewrite bool_decide_eq_true_2 by done.
  rewrite ParseUnsigned_number; [done|unfold u32_max; lia|unfold u32_max, u64_max; lia].
Qed.

Lemma ApplyFieldKey_type p t :
  ApplyFieldKey p (str "type") (str (FieldTypeName t)) = Ok (set_type t p).
Proof. by destruct t. Qed.

Lemma ApplyFieldKey_is_list p b :
  ApplyFieldKey p (str "is_list") (bool_name b) = Ok (set_is_list b p).
Proof. by destruct b. Qed.

Lemma ApplyFieldKey_nullable p b :
  ApplyFieldKey p (str "nullable") (bool_name b) = Ok (set_nullable b p).
Proof. by destruct b. Qed.

Lemma field_reads c done s f :
  writable f → among_fields c done s → ∃ s', reads s (field_lines f) s' ∧ among_fields c (done ++ [f]) s'.
Proof.
  intros Hf [Hs Hflush]. pose proof Hf as [Hid Hname _ _ _]. unfold is_u32 in Hid.
  exists (MkParseState (with_fields done c) kFields (parsed_of f) true).
  split; [|split; [done|by apply flush_parsed]]. unfold field_lines.
  eapply reads_cons.
  { intros n. rewrite parse_line_item; [|key_ok|apply plain_number; lia|done]. rewrite Hflush.
    cbn [obind pending_field with_field]. rewrite ApplyFieldKey_id by done. reflexivity. }
  assert (∀ s p key value, parse_section s = kFields → has_pending_field s = true → is_key key →
    plain value → ApplyFieldKey (pending_field s) key value = Ok p →
    ∀ n, parse_line s (n, key_line 4 key value) = Ok (with_field p s)) as Hkey.
  { intros s0 p key value H1 H2 H3 H4 H5 n. rewrite parse_line_field by done. by rewrite H5. }
  eapply reads_cons; [eapply Hkey; [done|done|key_ok|done|reflexivity]|].
  eapply reads_cons; [eapply Hkey; [done|done|key_ok| |apply ApplyFieldKey_type]|].
  { destruct (spec_type f); plain_ok. }
  eapply reads_cons; [eapply Hkey; [done|done|key_ok| |apply ApplyFieldKey_is_list]|].
  { destruct (spec_is_list f); plain_ok. }
  eapply reads_cons; [eapply Hkey; [done|done|key_ok| |apply ApplyFieldKey_nullable]|].
  { destruct (spec_nullable f); plain_ok. }
  eapply reads_cons; [eapply Hkey; [done|done|key_ok| |reflexivity]|].
  { destruct (spec_encoding f); plain_ok. }
  eapply reads_cons; [intros n; apply parse_line_empty|]. apply reads_nil.
Qed.

(** ** The file *)

Definition unlines (ls : list cpp_string) : cpp_string := concat ((λ l, l ++ newline) <$> ls).

Lemma getlines_line l rest :
  Forall (λ c, c ≠ Byte.x0a) l → getlines (l ++ newline ++ rest) = l :: getlines rest.
Proof.
  induction 1 as [|c l Hc _ IH]; [done|]. cbn [app getlines].
  rewrite bool_decide_eq_false_2 by done. by rewrite IH.
Qed.

Lemma getlines_unlines ls :
  Forall (Forall (λ c, c ≠ Byte.x0a)) ls → getlines (unlines ls) = ls.
Proof.
  unfold unlines. induction 1 as [|l ls Hl _ IH]; [done|]. cbn [fmap list_fmap concat].
  rewrite <-app_assoc, getlines_line by done. by rewrite IH.
Qed.

Lemma unlines_app ls ls' : unlines (ls ++ ls') = unlines ls ++ unlines ls'.
Proof. unfold unlines. by rewrite fmap_app, concat_app. Qed.

Lemma key_line_text k key prefix value :
  replicate k Byte.x20 ++ key ++ [Byte.x3a; Byte.x20] = prefix → key_line k key value = prefix ++ value.
Proof. intros <-. unfold key_line, key_value. by rewrite <-!app_assoc. Qed.

Lemma key_line_no_newline k key value :
  is_key key → plain value → Forall (λ c, c ≠ Byte.x0a) (key_line k key value).
Proof.
  intros Hk Hv. unfold key_line, key_value. apply Forall_app. split; [by apply Forall_replicate|].
  apply Forall_app. split; [eapply Forall_impl; [apply Hk|naive_solver]|].
  constructor; [done|]. constructor; [done|]. eapply Forall_impl; [apply Hv|naive_solver].
Qed.

Lemma item_line_eq key value : item_line key value = key_line 2 (str "- " ++ key) value.
Proof. unfold item_line, key_line, key_value. cbn [replicate]. by rewrite <-!app_assoc. Qed.

Lemma field_lines_text f : unlines (field_lines f) = field_text f.
Proof.
  unfold unlines, field_lines, field_text. cbn [fmap list_fmap concat]. rewrite item_line_eq.
  rewrite (key_line_text 2 _ (str "  - field_id: ")) by (vm_compute; reflexivity).
  rewrite (key_line_text 4 _ (str "    name: ")) by (vm_compute; reflexivity).
  rewrite (key_line_text 4 _ (str "    type: ")) by (vm_compute; reflexivity).
  rewrite (key_line_text 4 _ (str "    is_list: ")) by (vm_compute; reflexivity).
  rewrite (key_line_text 4 _ (str "    nullable: ")) by (vm_compute; reflexivity).
  rewrite (key_line_text 4 _ (str "    encoding: ")) by (vm_compute; reflexivity).
  by rewrite <-!app_assoc.
Qed.

Lemma field_lines_no_newline f : writable f → Forall (Forall (λ c, c ≠ Byte.x0a)) (field_lines f).
Proof.
  intros [Hid Hname _ _ _]. unfold is_u32 in Hid. unfold field_lines. rewrite item_line_eq.
  assert (∀ t, Forall (λ c, c ≠ Byte.x0a) t → Forall (λ c, c ≠ Byte.x0a) (key_line 2 (str "- field_id") t))
    as Hitem.
  { intros t Ht. unfold key_line, key_value. rewrite !Forall_app.
    split_and!; [repeat constructor; by vm_compute..|]. by repeat constructor. }
  apply Forall_cons_2.
  { apply Hitem. eapply Forall_impl; [apply (plain_number (spec_field_id f)); lia|naive_solver]. }
  apply Forall_cons_2; [apply key_line_no_newline; [key_ok|done]|].
  apply Forall_cons_2; [apply key_line_no_newline; [key_ok|destruct (spec_type f); plain_ok]|].
  apply Forall_cons_2; [apply key_line_no_newline; [key_ok|destruct (spec_is_list f); plain_ok]|].
  apply Forall_cons_2; [apply key_line_no_newline; [key_ok|destruct (spec_nullable f); plain_ok]|].
  apply Forall_cons_2; [apply key_line_no_newline; [key_ok|destruct (spec_encoding f); plain_ok]|].
  by repeat constructor.
Qed.

Section File.
Variable config : ParsedSchemaConfig.
Variables v sc seed hv : Z.

Definition header_lines : list cpp_string :=
  [key_line 0 (str "schema_version") (number v); key_line 0 (str "shard_count") (number sc);
   key_line 0 (str "hash_seed") (number seed); key_line 0 (str "hash_version") (number hv); [];
   str "primary_key:"; key_line 2 (str "name") (primary_key_name config);
   key_line 2 (str "type") (str "uint64"); []; str "fields:"].

Lemma schema_text_lines :
  schema_text config v sc seed hv
  = unlines (header_lines ++ concat (field_lines <$> config_fields config)).
Proof.
  rewrite unlines_app. unfold schema_text.
  assert (∀ fs, concat (field_text <$> fs) = unlines (concat (field_lines <$> fs))) as ->.
  { induction fs as [|f fs IH]; [done|]. cbn [fmap list_fmap concat].
    by rewrite unlines_app, field_lines_text, <-IH. }
  unfold unlines at 2, header_lines. cbn [fmap list_fmap concat].
  rewrite (key_line_text 0 _ (str "schema_version: ")) by (vm_compute; reflexivity).
  rewrite (key_line_text 0 _ (str "shard_count: ")) by (vm_compute; reflexivity).
  rewrite (key_line_text 0 _ (str "hash_seed: ")) by (vm_compute; reflexivity).
  rewrite (key_line_text 0 _ (str "hash_version: ")) by (vm_compute; reflexivity).
  rewrite (key_line_text 2 _ (str "  name: ")) by (vm_compute; reflexivity).
  assert (key_line 2 (str "type") (str "uint64") = str "  type: uint64") as -> by (vm_compute; reflexivity).
  rewrite <-!app_assoc. done.
Qed.

Hypothesis Hv : is_u64 v.
Hypothesis Hsc : is_u32 sc.
Hypothesis Hseed : is_u64 seed.
Hypothesis Hhv : is_u32 hv.
Hypothesis Hname : plain (primary_key_name config).

(** What the header says. *)
Definition header_config : ParsedSchemaConfig :=
  MkParsedSchemaConfig v true (Some sc) (Some seed) (Some hv) (primary_key_name config) kUInt64
    true true [].

Lemma header_no_newline : Forall (Forall (λ c, c ≠ Byte.x0a)) header_lines.
Proof.
  unfold is_u32, is_u64 in *.
  assert (∀ key n, is_key key → 0 ≤ n → Forall (λ c, c ≠ Byte.x0a) (key_line 0 key (number n))) as Hnum
    by (intros key n Hk H0; by apply key_line_no_newline, plain_number).
  unfold header_lines.
  do 4 (apply Forall_cons_2; [apply Hnum; [key_ok|lia]|]). apply Forall_cons_2; [done|].
  apply Forall_cons_2; [repeat constructor; by vm_compute|].
  apply Forall_cons_2; [apply key_line_no_newline; [key_ok|done]|].
  apply Forall_cons_2; [repeat constructor; by vm_compute|]. apply Forall_cons_2; [done|].
  apply Forall_cons_2; [repeat constructor; by vm_compute|done].
Qed.

Lemma header_number c c' key n :
  is_key key → 0 ≤ n → ApplyTopLevelKey c key (number n) = Ok c' →
  ∀ k, parse_line (MkParseState c kTopLevel ParsedField_default false) (k, key_line 0 key (number n))
    = Ok (MkParseState c' kTopLevel ParsedField_default false).
Proof.
  intros Hk Hn Ha k. rewrite parse_line_top; [|done|by apply plain_number].
  unfold FlushParsedField. cbn [has_pending_field negb obind parse_config]. by rewrite Ha.
Qed.

Lemma header_key c c' key value :
  is_key key → plain value → ApplyPrimaryKey c key value = Ok c' →
  ∀ k, parse_line (MkParseState c kPrimaryKey ParsedField_default false) (k, key_line 2 key value)
    = Ok (MkParseState c' kPrimaryKey ParsedField_default false).
Proof. intros Hk Hp Ha k. rewrite parse_line_key by done. cbn [parse_config]. by rewrite Ha. Qed.

Lemma parse_line_section c section0 n header section :
  header = str "primary_key:" ∧ section = kPrimaryKey ∨ header = str "fields:" ∧ section = kFields →
  parse_line (MkParseState c section0 ParsedField_default false) (n, header)
  = Ok (MkParseState c section ParsedField_default false).
Proof. by intros [[-> ->]|[-> ->]]. Qed.

(** The configuration, key by key. *)
Definition numbered (n : nat) : ParsedSchemaConfig :=
  MkParsedSchemaConfig v true (if decide (1 <= n)%nat then Some sc else None)
    (if decide (2 <= n)%nat then Some seed else None) (if decide (3 <= n)%nat then Some hv else None)
    [] kUInt64 false false [].
Definition named : ParsedSchemaConfig :=
  MkParsedSchemaConfig v true (Some sc) (Some seed) (Some hv) (primary_key_name config) kUInt64
    true false [].

Ltac next_key := rewrite ?(bool_decide_eq_false_2 (str _ = str _)) by (by vm_compute);
  rewrite bool_decide_eq_true_2 by reflexivity.

Lemma keys_numbered :
  ApplyTopLevelKey ParsedSchemaConfig_default (str "schema_version") (number v) = Ok (numbered 0)
  ∧ ApplyTopLevelKey (numbered 0) (str "shard_count") (number sc) = Ok (numbered 1)
  ∧ ApplyTopLevelKey (numbered 1) (str "hash_seed") (number seed) = Ok (numbered 2)
  ∧ ApplyTopLevelKey (numbered 2) (str "hash_version") (number hv) = Ok (numbered 3).
Proof.
  unfold is_u32, is_u64 in *. unfold ApplyTopLevelKey.
  split_and!; next_key; (rewrite ParseUnsigned_number; [reflexivity|unfold u32_max, u64_max; lia..]).
Qed.

Lemma keys_named :
  ApplyPrimaryKey (numbered 3) (str "name") (primary_key_name config) = Ok named
  ∧ ApplyPrimaryKey named (str "type") (str "uint64") = Ok header_config.
Proof. unfold ApplyPrimaryKey. by split; next_key. Qed.

Lemma header_reads :
  reads parse_start header_lines (MkParseState header_config kFields ParsedField_default false).
Proof.
  destruct keys_numbered as (H1 & H2 & H3 & H4). destruct keys_named as [H5 H6].
  unfold is_u32, is_u64 in *. unfold header_lines, parse_start.
  eapply reads_cons; [apply header_number; [key_ok|lia|exact H1]|].
  eapply reads_cons; [apply header_number; [key_ok|lia|exact H2]|].
  eapply reads_cons; [apply header_number; [key_ok|lia|exact H3]|].
  eapply reads_cons; [apply header_number; [key_ok|lia|exact H4]|].
  eapply reads_cons; [intros n; apply parse_line_empty|].
  eapply reads_cons; [intros n; apply parse_line_section; by left|].
  eapply reads_cons; [apply header_key; [key_ok|exact Hname|exact H5]|].
  eapply reads_cons; [apply header_key; [key_ok|plain_ok|exact H6]|].
  eapply reads_cons; [intros n; apply parse_line_empty|].
  eapply reads_cons; [intros n; apply parse_line_section; by right|apply reads_nil].
Qed.

Hypothesis Hfields : Forall writable (config_fields config).
Hypothesis Hsome : config_fields config ≠ [].

Lemma fields_read done fs s c :
  Forall writable fs → among_fields c done s →
  ∃ s', reads s (concat (field_lines <$> fs)) s' ∧ among_fields c (done ++ fs) s'.
Proof.
  intros Hfs. revert done s. induction Hfs as [|f fs Hf _ IH]; intros done s Hs.
  - exists s. rewrite app_nil_r. split; [apply reads_nil|exact Hs].
  - destruct (field_reads c done s f Hf Hs) as (s1 & Hr1 & Hs1).
    destruct (IH _ _ Hs1) as (s2 & Hr2 & Hs2). exists s2. split.
    + cbn [fmap list_fmap concat]. by eapply reads_app.
    + by rewrite <-app_assoc in Hs2.
Qed.

Lemma schema_text_reads_back :
  parse_schema (schema_text config v sc seed hv) = Ok (with_fields (config_fields config) header_config).
Proof.
  unfold parse_schema. rewrite schema_text_lines, getlines_unlines.
  2:{ apply Forall_app. split; [apply header_no_newline|]. apply Forall_concat, Forall_fmap.
      eapply Forall_impl; [exact Hfields|]. intros f Hf. by apply field_lines_no_newline. }
  destruct (fields_read [] (config_fields config) (MkParseState header_config kFields ParsedField_default false)
    header_config Hfields ltac:(by split)) as (s & Hr & [_ Hs]).
  rewrite (reads_app _ _ _ _ _ header_reads Hr 1). cbn [obind]. rewrite Hs. cbn [obind parse_config app].
  unfold check_config. cbn. by destruct (config_fields config).
Qed.
End File.

(** ** Names that look like comments *)

(** [StripComment] cuts at the first hash when no quote comes before it. *)
Lemma StripComment_cut t b :
  Forall (λ c, c ≠ Byte.x27 ∧ c ≠ Byte.x22 ∧ c ≠ Byte.x23) t → StripComment (t ++ Byte.x23 :: b) = t.
Proof.
  unfold StripComment. induction 1 as [|c t (H1 & H2 & H3) _ IH]; [done|]. cbn [app strip_from].
  by rewrite !bool_decide_eq_false_2, IH by done.
Qed.

Lemma StripComment_quoted t rest :
  Forall (λ c, c ≠ Byte.x22) t →
  strip_from false true (t ++ Byte.x22 :: rest) = t ++ Byte.x22 :: strip_from false false rest.
Proof.
  induction 1 as [|c t Hc _ IH]; [done|]. cbn [app strip_from].
  rewrite (bool_decide_eq_false_2 (c = Byte.x22)) by done. cbn [andb negb].
  rewrite !andb_false_r. by rewrite IH.
Qed.

Lemma Trim_trailing k t : starts_tight t → Trim ((replicate k Byte.x20 ++ t) ++ [Byte.x20])
  = Trim (replicate k Byte.x20 ++ t).
Proof.
  intros (c & r & -> & Hc). unfold Trim. rewrite <-app_assoc, !drop_blanks_spaces.
  assert (∀ u, drop_blanks (c :: u) = c :: u) as Hd by (intros u; cbn; by rewrite Hc).
  cbn [app]. rewrite !Hd.
  change (c :: r ++ [Byte.x20]) with ((c :: r) ++ [Byte.x20]). rewrite reverse_app. reflexivity.
Qed.

(** Lines the parser does not tell apart. *)
Definition same_line (l l' : cpp_string) : Prop := ∀ s n, parse_line s (n, l) = parse_line s (n, l').

Lemma same_lines ls ls' s k :
  Forall2 same_line ls ls' →
  ofold parse_line (zip (seqZ k (Zlen ls)) ls) s = ofold parse_line (zip (seqZ k (Zlen ls')) ls') s.
Proof.
  intros Hls. revert s k. induction Hls as [|l l' ls ls' Hl _ IH]; intros s k; [done|].
  rewrite !Zlen_cons. pose proof (Zlen_nonneg ls). pose proof (Zlen_nonneg ls').
  rewrite (seqZ_cons k (1 + Zlen ls)), (seqZ_cons k (1 + Zlen ls')) by lia.
  cbn [zip zip_with ofold]. rewrite Hl. destruct (parse_line s (k, l')) as [s1|e|ft]; cbn [obind]; [|done..].
  replace (Z.pred (1 + Zlen ls)) with (Zlen ls) by lia.
  replace (Z.pred (1 + Zlen ls')) with (Zlen ls') by lia. apply IH.
Qed.

(** The name with a text behind a hash. *)
Definition commented (tail name : cpp_string) : cpp_string := name ++ Byte.x20 :: Byte.x23 :: tail.

Definition rename (g : cpp_string → cpp_string) (f : FieldSpec) : FieldSpec :=
  MkFieldSpec (spec_field_id f) (g (spec_name f)) (spec_type f) (spec_is_list f) (spec_nullable f)
    (spec_encoding f) (spec_default_value f) (deleted f).

Definition unquoted (name : cpp_string) : Prop := Forall (λ c, c ≠ Byte.x27 ∧ c ≠ Byte.x22) name.

Lemma commented_line k key tail name :
  is_key key → unquoted key → plain name → unquoted name →
  same_line (key_line k key (commented tail name)) (key_line k key name).
Proof.
  intros Hk Huk Hn Hun s n.
  destruct (key_line_seen k key name Hk Hn) as (Hc & _ & _ & _).
  destruct (key_value_tight key name Hk Hn) as [Hs _].
  assert (StripComment (key_line k key (commented tail name)) = key_line k key name ++ [Byte.x20]) as Hcut.
  { replace (key_line k key (commented tail name))
      with ((key_line k key name ++ [Byte.x20]) ++ Byte.x23 :: tail)
      by (unfold key_line, key_value, commented; by rewrite <-!app_assoc).
    apply StripComment_cut. unfold key_line, key_value, unquoted in *.
    rewrite !Forall_app, !Forall_cons. split_and!; try done.
    - by apply Forall_replicate.
    - apply Forall_forall. intros c Hin. rewrite Forall_forall in Huk. pose proof (ky_chars _ Hk) as Hkc.
      rewrite Forall_forall in Hkc. naive_solver.
    - apply Forall_forall. intros c Hin. rewrite Forall_forall in Hun. pose proof (pl_chars _ Hn) as Hnc.
      rewrite Forall_forall in Hnc. naive_solver. }
  assert (Trim (key_line k key name ++ [Byte.x20]) = Trim (key_line k key name)) as Htrim
    by by apply Trim_trailing.
  assert (indent_of (key_line k key name ++ [Byte.x20]) = indent_of (key_line k key name)) as Hindent.
  { unfold key_line. rewrite <-app_assoc, !indent_of_spaces; [done|done|].
    destruct Hs as (c & r & -> & Hb). by exists c, (r ++ [Byte.x20]). }
  unfold parse_line. by rewrite Hcut, Hc, Htrim, Hindent.
Qed.

Lemma commented_fields tail fs :
  Forall writable fs → Forall (λ f, unquoted (spec_name f)) fs →
  Forall2 same_line (concat (field_lines <$> (rename (commented tail) <$> fs)))
    (concat (field_lines <$> fs)).
Proof.
  induction fs as [|f fs IH]; intros Hw Hu; [constructor|].
  apply Forall_cons in Hw as [Hf Hw]. apply Forall_cons in Hu as [Huf Hu].
  cbn [fmap list_fmap concat]. apply Forall2_app; [|by apply IH].
  unfold field_lines. cbn [rename spec_field_id spec_name spec_type spec_is_list spec_nullable spec_encoding].
  assert (∀ l, same_line l l) as Hrefl by done.
  repeat (apply Forall2_cons; split; [try apply Hrefl|]); [|apply Forall2_nil; done].
  apply commented_line; [key_ok|repeat constructor; done|apply Hf|done].
Qed.

Lemma field_lines_rename g f :
  Forall (λ c, c ≠ Byte.x0a) (g (spec_name f)) →
  Forall (Forall (λ c, c ≠ Byte.x0a)) (field_lines f) →
  Forall (Forall (λ c, c ≠ Byte.x0a)) (field_lines (rename g f)).
Proof.
  intros Hg. unfold field_lines. rewrite !Forall_cons.
  cbn [rename spec_field_id spec_name spec_type spec_is_list spec_nullable spec_encoding].
  intros (H1 & H2 & Hrest). split_and!; [done| |apply Hrest..].
  unfold key_line, key_value in *. rewrite !Forall_app, !Forall_cons in *. naive_solver.
Qed.

(** The file for fields with such names is read as if it was for the others. *)
Lemma commented_text config tail v sc seed hv :
  is_u64 v → is_u32 sc → is_u64 seed → is_u32 hv → plain (primary_key_name config) →
  Forall writable (config_fields config) → Forall (λ f, unquoted (spec_name f)) (config_fields config) →
  Forall (λ c, c ≠ Byte.x0a) tail →
  parse_schema (schema_text (with_fields (rename (commented tail) <$> config_fields config) config)
    v sc seed hv)
  = parse_schema (schema_text config v sc seed hv).
Proof.
  intros Hv Hsc Hseed Hhv Hname Hw Hu Ht. unfold parse_schema. rewrite !schema_text_lines.
  cbn [with_fields config_fields]. set (fs := config_fields config) in *.
  change (header_lines (with_fields _ config) v sc seed hv) with (header_lines config v sc seed hv).
  assert (Forall (Forall (λ c, c ≠ Byte.x0a)) (header_lines config v sc seed hv)) as Hh
    by by apply header_no_newline.
  rewrite !getlines_unlines; cycle 1.
  { apply Forall_app. split; [done|]. apply Forall_concat, Forall_fmap.
    eapply Forall_impl; [exact Hw|]. intros f. apply field_lines_no_newline. }
  { apply Forall_app. split; [done|]. apply Forall_concat, Forall_fmap, Forall_fmap.
    eapply Forall_impl; [exact Hw|]. intros f Hf. apply field_lines_rename; [|by apply field_lines_no_newline].
    unfold commented. apply Forall_app. split; [|by repeat constructor].
    eapply Forall_impl; [apply (wf_name f Hf)|naive_solver]. }
  rewrite (same_lines (header_lines config v sc seed hv ++ _)
    (header_lines config v sc seed hv ++ concat (field_lines <$> fs))); [done|].
  apply Forall2_app; [by apply Forall_Forall2_diag, Forall_true|by apply commented_fields].
Qed.

(** In double quotes such a name can be given. *)
Definition quoted (name : cpp_string) : cpp_string := Byte.x22 :: name ++ [Byte.x22].

Lemma strip_plain_prefix q t rest :
  Forall (λ c, c ≠ Byte.x27 ∧ c ≠ Byte.x22 ∧ c ≠ Byte.x23) t →
  strip_from false q (t ++ rest) = t ++ strip_from false q rest.
Proof.
  induction 1 as [|c t (H1 & H2 & H3) _ IH]; [done|]. cbn [app strip_from].
  by rewrite !bool_decide_eq_false_2, IH by done.
Qed.

Lemma quoted_name_line s n name :
  Forall (λ c, c ≠ Byte.x22) name → parse_section s = kFields → has_pending_field s = true →
  parse_line s (n, key_line 4 (str "name") (quoted name)) = Ok (with_field (set_name name (pending_field s)) s).
Proof.
  intros Hn Hs Hp. set (line := key_line 4 (str "name") (quoted name)).
  assert (StripComment line = line) as Hc.
  { unfold line, key_line, key_value, quoted, StripComment.
    rewrite (strip_plain_prefix _ (replicate 4 Byte.x20)) by (by repeat constructor).
    rewrite (strip_plain_prefix _ (str "name")) by (repeat constructor; by vm_compute).
    change (strip_from false false (Byte.x3a :: Byte.x20 :: Byte.x22 :: name ++ [Byte.x22]))
      with (Byte.x3a :: Byte.x20 :: Byte.x22 :: strip_from false true (name ++ [Byte.x22])).
    by rewrite StripComment_quoted. }
  assert (starts_tight (key_value (str "name") (quoted name))) as Hst by (by eexists _, _).
  assert (ends_tight (key_value (str "name") (quoted name))) as Het.
  { exists (str "name" ++ Byte.x3a :: Byte.x20 :: Byte.x22 :: name), Byte.x22. split; [|done].
    unfold key_value, quoted. by rewrite <-app_assoc. }
  assert (ParseKeyValue (key_value (str "name") (quoted name)) = Ok (str "name", name)) as Hkv.
  { unfold ParseKeyValue, key_value. rewrite split_colon_key by (repeat constructor; by vm_compute).
    assert (Trim (Byte.x20 :: quoted name) = quoted name) as ->.
    { apply (Trim_spaces 1); [by eexists _, _|]. exists (Byte.x22 :: name), Byte.x22. by split. }
    change (Trim (str "name")) with (str "name"). rewrite bool_decide_eq_false_2 by done.
    do 2 f_equal. unfold Unquote, quoted. cbn [head].
    rewrite !bool_decide_eq_true_2 by (done || by rewrite last_cons, last_snoc).
    assert ((2 <=? Zlen (Byte.x22 :: name ++ [Byte.x22])) = true) as ->.
    { apply Z.leb_le. rewrite Zlen_cons, Zlen_app. change (Zlen [Byte.x22]) with 1.
      pose proof (Zlen_nonneg name). lia. }
    change (drop 1 (Byte.x22 :: name ++ [Byte.x22])) with (name ++ [Byte.x22]). cbn [andb orb length].
    rewrite length_app. cbn [length].
    replace (S (length name + 1) - 2)%nat with (length name) by lia. apply take_app_length. }
  unfold parse_line. rewrite Hc.
  assert (Trim line = key_value (str "name") (quoted name)) as -> by by apply Trim_spaces.
  assert (indent_of line = 4%nat) as -> by by apply indent_of_spaces.
  rewrite !bool_decide_eq_false_2, Hs by done. unfold parse_field.
  change (starts_with (str "- ") (key_value (str "name") (quoted name))) with false. cbv iota.
  rewrite Hp. cbn [negb]. unfold parse_field_key. by rewrite Hkv.
Qed.
