(* ===== verification/OfflineEncode.v ===== *)
(** * Encoding a row offline: [tools/offline/src/offline_artifact_builder.cc]

    The builder writes the values of one table row into an [EncodedRow] itself,
    for the encodings the row storage has no writer for: it appends integers
    byte by byte, and stores the references of a string list without bounds
    checks.  [EncodeRow] goes through the fields of the layout. *)

From S2P Require Import Prelude Status ByteIo Types Schema RowStorage UpdateApplier OfflineSchema.

Definition FieldValue : Type := FieldDefaultValue.

(** [std::get] of another alternative than the value holds. *)
Definition bad_get {A} : writer A := slift (Fault BadVariantAccess).

(** [std::get<T>(value)] for the scalar type of the field type. *)
Definition get_scalar (t : FieldType) (value : FieldValue) : writer ScalarValue :=
  match value with
  | DScalar v => if decide (scalar_type v = t) then sret v else bad_get
  | _ => bad_get
  end.

(** [std::get<std::vector<T>>(value)] for an integer or boolean [T], as words. *)
Definition get_words (t : FieldType) (value : FieldValue) : writer (list Z) :=
  match value with
  | DList vs =>
      if decide (list_type vs = t) then
        match list_words vs with
        | Some words => sret words
        | None => bad_get
        end
      else bad_get
  | _ => bad_get
  end.

(** [std::get<std::vector<std::string>>(value)] *)
Definition get_strings (value : FieldValue) : writer (list cpp_string) :=
  match value with
  | DList (LString vs) => sret vs
  | _ => bad_get
  end.

(** ** Integers, byte by byte *)

(** The loop of [AppendLittleEndian], from byte [i] on. *)
Fixpoint push_bytes (encoded : Z) (i n : nat) (bytes : list byte) : list byte :=
  match n with
  | O => bytes
  | S n' =>
      push_bytes encoded (S i) n'
        (bytes ++ [byte_of_Z (Z.land (Z.shiftr encoded (8 * Z.of_nat i)) 255)])
  end.

Definition AppendLittleEndian (t : int_type) (value : Z) (bytes : list byte) : list byte :=
  push_bytes (to_unsigned t value) 0 (it_size t) bytes.

(** The loop of [WriteLittleEndianAt]: [bytes[offset + i]] is not checked. *)
Fixpoint store_bytes (value offset : Z) (i n : nat) : stateful (list byte) Status unit :=
  match n with
  | O => sret tt
  | S n' => λ bytes,
      match set_at bytes (offset + Z.of_nat i)
              (byte_of_Z (Z.land (Z.shiftr value (8 * Z.of_nat i)) 255)) with
      | Ok bytes' => store_bytes value offset (S i) n' bytes'
      | Err e => (Err e, bytes)
      | Fault f => (Fault f, bytes)
      end
  end.

(** The overloads for [std::uint64_t] and [std::uint32_t]. *)
Definition WriteLittleEndianAt (t : int_type) (offset value : Z)
    : stateful (list byte) Status unit :=
  store_bytes value offset 0 (it_size t).

Definition WriteValueRefBytes (offset ref_offset byte_length element_count_or_flags : Z)
    : stateful (list byte) Status unit :=
  do* _ := WriteLittleEndianAt uint64_t offset ref_offset in
  do* _ := WriteLittleEndianAt uint32_t (offset + 8) byte_length in
  WriteLittleEndianAt uint32_t (offset + 8 + 4) element_count_or_flags.

(** ** Lists in the arena *)

(** [for (value : values) AppendLittleEndian<T>(bytes, value);] *)
Definition append_words (t : int_type) (values : list Z) (bytes : list byte) : list byte :=
  foldl (λ bytes value, AppendLittleEndian t value bytes) bytes values.

Definition WriteScalarListArena (t : int_type) (field : FieldLayout) (values : list Z)
    : writer unit :=
  do* r := get_row in
  let offset := Zlen (arena r) in
  do* _ := on_arena (λ a, (Ok tt, append_words t values a)) in
  do* r := get_row in
  let byte_length64 := Zlen (arena r) - offset in
  if (u32_max <? byte_length64) || (u32_max <? Zlen values) then
    serr (Status_make kInvalidArgument "list value is too large")
  else WriteValueRefField field
         (MkValueRef16 offset (wrap32 byte_length64) (wrap32 (Zlen values))).

(** The loop over the strings: insert each one, store its reference. *)
Fixpoint insert_strings (ref_offset : Z) (i : nat) (values : list cpp_string) : writer unit :=
  match values with
  | [] => sret tt
  | value :: values' =>
      if u32_max <? Zlen value then
        serr (Status_make kInvalidArgument "string list element is too large")
      else
      do* r := get_row in
      let element_offset := Zlen (arena r) in
      do* _ := append_arena value in
      do* _ := on_arena (WriteValueRefBytes (ref_offset + Z.of_nat i * 16)
                           element_offset (wrap32 (Zlen value)) 0) in
      insert_strings ref_offset (S i) values'
  end.

Definition WriteStringListArena (field : FieldLayout) (values : list cpp_string) : writer unit :=
  if u32_max <? Zlen values then
    serr (Status_make kInvalidArgument "string list is too large")
  else
  do* r := get_row in
  let ref_offset := Zlen (arena r) in
  let ref_bytes := Zlen values * 16 in
  do* _ := append_arena (replicate (Z.to_nat ref_bytes) Byte.x00) in
  do* _ := insert_strings ref_offset 0 values in
  if u32_max <? ref_bytes then
    serr (Status_make kInvalidArgument "string list ref payload is too large")
  else WriteValueRefField field
         (MkValueRef16 ref_offset (wrap32 ref_bytes) (wrap32 (Zlen values))).

(** ** One field *)

Definition WriteScalarFieldValue (field : FieldLayout) (value : FieldValue) : writer unit :=
  match type field with
  | kString =>
      do* string_value := get_scalar kString value in
      match string_value, encoding field with
      | SString s, kArena => WriteArenaStringField field s
      | SString s, kDictionary =>
          do* r := get_row in
          if u32_max <? Zlen (string_dictionary r) then
            serr (Status_make kInvalidArgument "string dictionary is too large")
          else
          let id := wrap32 (Zlen (string_dictionary r)) in
          do* _ := modify_row (λ r, set_string_dictionary (string_dictionary r ++ [s]) r) in
          WriteDictionaryStringField field id
      | _, _ => serr (Status_make kInvalidArgument "unsupported scalar field encoding")
      end
  | t =>
      do* v := get_scalar t value in
      WriteScalarField field v
  end.

(** The visitor that fills [bytes] and [element_count]; the alternatives it
    does not mention leave both alone. *)
Definition visit_elements (value : FieldValue) : list byte * Z :=
  match value with
  | DList vs =>
      match list_words vs with
      | Some words => (append_words (field_int_type (list_type vs)) words [], wrap32 (Zlen words))
      | None => ([], 0)
      end
  | _ => ([], 0)
  end.

(** The loop that adds the strings to the element dictionary. *)
Fixpoint add_elements (values : list cpp_string) : writer (list Z) :=
  match values with
  | [] => sret []
  | string_value :: values' =>
      do* r := get_row in
      if u32_max <? Zlen (string_element_dictionary r) then
        serr (Status_make kInvalidArgument "element dictionary is too large")
      else
      let id := wrap32 (Zlen (string_element_dictionary r)) in
      do* _ := modify_row (λ r, set_string_element_dictionary
                                  (string_element_dictionary r ++ [string_value]) r) in
      do* ids := add_elements values' in
      sret (id :: ids)
  end.

Definition WriteListFieldValue (field : FieldLayout) (value : FieldValue) : writer unit :=
  match encoding field, type field with
  | kArena, kString =>
      do* values := get_strings value in
      WriteStringListArena field values
  | kArena, t =>
      do* values := get_words t value in
      WriteScalarListArena (field_int_type t) field values
  | kListDictionary, kString =>
      do* values := get_strings value in
      do* r := get_row in
      if (u32_max <? Zlen (string_list_dictionary r)) || (u32_max <? Zlen values) then
        serr (Status_make kInvalidArgument "string-list dictionary is too large")
      else
      let id := wrap32 (Zlen (string_list_dictionary r)) in
      do* _ := modify_row
                 (λ r, set_string_list_dictionary (string_list_dictionary r ++ [values]) r) in
      WriteListDictionaryField field id (wrap32 (Zlen values))
  | kListDictionary, _ =>
      let '(bytes, element_count) := visit_elements value in
      do* r := get_row in
      if u32_max <? Zlen (scalar_list_dictionary r) then
        serr (Status_make kInvalidArgument "scalar-list dictionary is too large")
      else
      let id := wrap32 (Zlen (scalar_list_dictionary r)) in
      do* _ := modify_row
                 (λ r, set_scalar_list_dictionary (scalar_list_dictionary r ++ [bytes]) r) in
      WriteListDictionaryField field id element_count
  | kElementDictionary, kString =>
      do* values := get_strings value in
      if u32_max <? Zlen values then
        serr (Status_make kInvalidArgument "element dictionary list is too large")
      else
      do* ids := add_elements values in
      WriteElementDictionaryStringListField field ids
  | _, _ => serr (Status_make kInvalidArgument "unsupported list field encoding")
  end.

(** ** One row *)

(** One round of the loop over the fields of the layout. *)
Definition encode_value (values : gmap Z FieldValue) (field : FieldLayout) : writer unit :=
  match values !! field_id field with
  | None | Some DMonostate =>
      if negb (nullable field) && negb (HasDefault (default_value field)) then
        serr (Status_make kInvalidArgument
                ("required field is absent: " +:+ text_of (name field)))
      else sret tt
  | Some value =>
      if is_list field then WriteListFieldValue field value
      else WriteScalarFieldValue field value
  end.

Definition EncodeRow (layout : CompiledRowLayout) (values : gmap Z FieldValue)
    : StatusOr EncodedRow :=
  match sfor (encode_value values) (fields layout) (Some (CreateEncodedRow layout)) with
  | (Ok _, Some encoded) => Ok encoded
  | (Ok _, None) => Fault NullDereference
  | (Err e, _) => Err e
  | (Fault f, _) => Fault f
  end.
