(* ===== verification/OfflineEncodeProofs.v ===== *)
(** * The offline encoder writes the rows of the update path

    For values of the fields' types, [EncodeRow] makes the row that applying
    the same values as an upsert makes: the writers of the offline builder and
    those of [ingest/update_applier.cc] agree, field by field. *)

From S2P Require Import Prelude Status ByteIo Types Schema SchemaProofs RowStorage RowSafety.
From S2P Require Import RowProofs RowListProofs RowAccess Payload Codec PayloadProofs UpdateApplier.
From S2P Require Import EncodeProofs OfflineSchema OfflineEncode.

(** ** Bytes *)

Lemma push_bytes_app encoded i n bytes :
  push_bytes encoded i n bytes = bytes ++ le_bytes n (Z.shiftr encoded (8 * Z.of_nat i)).
Proof.
  revert i bytes. induction n as [|n IH]; intros i bytes; [by rewrite app_nil_r|].
  cbn [push_bytes]. rewrite IH, <-app_assoc. f_equal. unfold le_bytes at 2. fold le_bytes.
  change 255 with (Z.ones 8). rewrite Z.land_ones, Z.shiftr_shiftr by lia. cbn [app]. f_equal.
  - apply byte_of_Z_mod.
  - do 2 f_equal. lia.
Qed.

Lemma append_words_app t ws bytes : append_words t ws bytes = bytes ++ words_bytes t ws.
Proof.
  unfold append_words. revert bytes. induction ws as [|w ws IH]; intros bytes;
    [by rewrite app_nil_r|].
  cbn [foldl]. rewrite IH. unfold AppendLittleEndian. rewrite push_bytes_app, words_bytes_cons.
  by rewrite Z.shiftr_0_r, <-app_assoc.
Qed.

(** The unchecked stores write what the checked ones write, where those fit. *)
Lemma store_bytes_in u offset i n bytes :
  0 ≤ offset → offset + Z.of_nat i + Z.of_nat n ≤ Zlen bytes →
  store_bytes u offset i n bytes = (Ok tt, write_bytes u (Z.to_nat offset) i n bytes).
Proof.
  intros Ho. revert i bytes. induction n as [|n IH]; intros i bytes Hl; [done|].
  cbn [store_bytes write_bytes]. rewrite set_at_in by lia.
  rewrite IH by (unfold Zlen in *; rewrite length_insert; lia).
  do 4 f_equal. lia.
Qed.

Lemma WriteLittleEndianAt_in t offset v bytes :
  0 ≤ offset → offset + Z.of_nat (it_size t) ≤ Zlen bytes → 0 ≤ v < it_modulus t →
  WriteLittleEndianAt t offset v bytes = WriteLittleEndian t v offset bytes.
Proof.
  intros Ho Hl Hv. unfold WriteLittleEndianAt, WriteLittleEndian.
  rewrite store_bytes_in, to_unsigned_id by (done || lia).
  assert (CheckSpanBounds (Zlen bytes) offset (Z.of_nat (it_size t)) = Ok tt) as ->
    by (apply CheckSpanBounds_Ok; lia). done.
Qed.

Lemma WriteValueRefBytes_in ref offset bytes :
  ref_wf ref → 0 ≤ offset → offset + 16 ≤ Zlen bytes →
  WriteValueRefBytes offset (ref_offset ref) (byte_length ref) (element_count_or_flags ref) bytes
  = WriteValueRef16 ref offset bytes.
Proof.
  intros (H1 & H2 & H3) Ho Hl. unfold WriteValueRefBytes, WriteValueRef16, sbind, slift.
  assert (CheckSpanBounds (Zlen bytes) offset 16 = Ok tt) as ->
    by (apply CheckSpanBounds_Ok; lia).
  replace (offset + 8 + 4) with (offset + 12) by lia.
  assert (∀ t (v o : Z) b, Zlen b = Zlen bytes → 0 ≤ v < it_modulus t → offset ≤ o →
    o + Z.of_nat (it_size t) ≤ Zlen bytes →
    WriteLittleEndianAt t o v b = WriteLittleEndian t v o b
    ∧ ∃ b', WriteLittleEndian t v o b = (Ok tt, b') ∧ Zlen b' = Zlen bytes) as Hone.
  { intros t v o b Hb Hv Ho' Hl'. split; [by apply WriteLittleEndianAt_in; lia|].
    rewrite WriteLittleEndian_in by lia. eexists. split; [done|].
    rewrite <-Hb. unfold Zlen. rewrite length_splice; [done|]. rewrite length_le_bytes.
    unfold Zlen in *. lia. }
  destruct (Hone uint64_t (ref_offset ref) offset bytes) as (E1 & b1 & W1 & L1);
    [done|exact H1|lia|simpl; lia|]. rewrite E1, W1.
  destruct (Hone uint32_t (byte_length ref) (offset + 8) b1) as (E2 & b2 & W2 & L2);
    [done|exact H2|lia|simpl; lia|]. rewrite E2, W2.
  by apply Hone; [|exact H3|lia|simpl; lia].
Qed.

Lemma insert_strings_eq base i ss r :
  0 ≤ base → base + (Z.of_nat i + Zlen ss) * 16 ≤ Zlen (arena r) →
  Zlen (arena r) + Zlen (concat ss) < 2 ^ 32 →
  insert_strings base i ss (Some r) = write_string_refs base i ss (Some r).
Proof.
  intros Hb. revert i r. induction ss as [|s ss IH]; intros i r Hl Hs; [done|].
  rewrite concat_cons_Zlen in Hs. rewrite Zlen_cons in Hl. pose proof (Zlen_nonneg s).
  pose proof (Zlen_nonneg ss). pose proof (Zlen_nonneg (concat ss)).
  pose proof (Zlen_nonneg (arena r)). cbn [insert_strings write_string_refs].
  rewrite (proj2 (Z.ltb_ge _ _)) by (unfold u32_max; lia).
  unfold sbind. cbn [get_row append_arena on_arena arena set_arena].
  rewrite wrap32_small by (unfold is_u32; lia).
  set (ref := MkValueRef16 (Zlen (arena r)) (Zlen s) 0).
  assert (ref_wf ref) as Hrw by (unfold ref_wf, is_u64, is_u32; simpl; lia).
  pose proof (WriteValueRefBytes_in ref (base + Z.of_nat i * 16) (arena r ++ s) Hrw) as Heq.
  cbn [ref ref_offset byte_length element_count_or_flags] in Heq.
  rewrite Heq by (rewrite ?Zlen_app; lia). fold ref.
  rewrite WriteValueRef16_in by (done || rewrite ?Zlen_app; lia). cbv iota beta.
  set (a' := splice _ _ _).
  assert (Zlen a' = Zlen (arena r) + Zlen s) as Ha.
  { unfold a', Zlen. rewrite length_splice; rewrite ?length_app, ?length_ref_bytes; unfold Zlen in *; lia. }
  apply IH; cbn [arena set_arena]; rewrite Ha; lia.
Qed.

Lemma add_elements_eq ss r :
  Zlen (string_element_dictionary r) + Zlen ss ≤ u32_max →
  add_elements ss (Some r) = add_string_elements ss (Some r).
Proof.
  revert r. induction ss as [|s ss IH]; intros r Hb; [done|].
  rewrite Zlen_cons in Hb. pose proof (Zlen_nonneg ss).
  cbn [add_elements add_string_elements]. unfold sbind. cbn [get_row].
  rewrite (proj2 (Z.ltb_ge _ _)) by (unfold u32_max in *; lia). cbn [modify_row].
  rewrite IH; [done|]. cbn [string_element_dictionary set_string_element_dictionary].
  rewrite Zlen_app, Zlen_cons. change (Zlen []) with 0. lia.
Qed.

(** ** One field *)

(** A table value as a value of a message. *)
Definition decoded_of (v : FieldValue) : DecodedValue :=
  match v with
  | DMonostate => VMonostate
  | DScalar s => VScalar s
  | DList vs => VList vs
  end.

Definition write_offline (f : FieldLayout) (v : FieldValue) : writer unit :=
  if is_list f then WriteListFieldValue f v else WriteScalarFieldValue f v.

Section WriteOffline.
Context (L : CompiledRowLayout) (Hwf : layout_wf L).
Context (f : FieldLayout) (r : EncodedRow).
Hypotheses (Hf : f ∈ fields L).
Context (n : Z).
Hypotheses (Hroom : room n r).

Lemma scalar_offline s :
  is_list f = false → type f = scalar_type s →
  WriteScalarFieldValue f (DScalar s) (Some r)
  = match s with
    | SString s => write_string_value f s (Some r)
    | s => WriteScalarField f s (Some r)
    end.
Proof.
  intros Hl Ht. destruct (lw_shape L Hwf f Hf) as (_ & _ & He & _). rewrite Hl in He.
  unfold WriteScalarFieldValue. destruct s; rewrite Ht in *; try reflexivity.
  unfold write_string_value. by destruct (encoding f).
Qed.

(** The elements of an integer or boolean list. *)
Lemma words_offline vs ws :
  is_list f = true → type f = list_type vs → list_words vs = Some ws →
  let payload := words_bytes (field_int_type (list_type vs)) ws in
  n + Zlen payload ≤ 2 ^ 30 → Zlen ws ≤ Zlen payload →
  WriteListFieldValue f (DList vs) (Some r) = write_scalar_list f vs (Some r).
Proof.
  intros Hl Ht Hw payload Hsz Hws. pose proof (Zlen_nonneg ws).
  destruct (lw_shape L Hwf f Hf) as (_ & _ & He & _). rewrite Hl in He.
  destruct Hroom as [Ra Rs Rl Rsl Re]. pose proof (Zlen_nonneg (arena r)).
  pose proof (Zlen_nonneg (scalar_list_dictionary r)).
  assert (type f ≠ kString) as Hns by (rewrite Ht; by destruct vs).
  pose proof (EncodeScalarListSpan_words vs ws Hw) as Hspan. fold payload in Hspan.
  unfold WriteListFieldValue, write_scalar_list. destruct (encoding f) eqn:Henc;
    try (by destruct (type f)).
  - assert (WriteScalarListArena (field_int_type (list_type vs)) f ws (Some r)
      = WriteArenaListField f vs (Some r)) as Heq.
    { unfold WriteScalarListArena, WriteArenaListField, sbind.
      cbn [check_not_null get_row on_arena arena set_arena].
      rewrite append_words_app, Zlen_app. fold payload.
      replace (Zlen (arena r) + Zlen payload - Zlen (arena r)) with (Zlen payload) by lia.
      rewrite !(proj2 (Z.ltb_ge _ _)) by (unfold u32_max; lia).
      rewrite Hl, Henc, !bool_decide_eq_true_2 by done. cbn [orb negb].
      rewrite (list_size_words _ _ Hw), Hspan. destruct vs; try done;
        cbn [slift get_row]; by rewrite (proj2 (Z.ltb_ge u64_max _)) by (unfold u64_max; lia). }
    rewrite <-Heq, Ht. unfold sbind, get_words. rewrite Hw.
    by destruct vs; cbn [list_type] in *; try rewrite decide_True by done.
  - unfold visit_elements. rewrite Hw, append_words_app. cbn [app]. fold payload.
    unfold WriteListDictionaryScalarList. rewrite (list_size_words _ _ Hw), Hspan.
    destruct (type f); try done; unfold sbind; cbn [check_not_null get_row];
      rewrite !(proj2 (Z.ltb_ge _ _)) by (unfold u32_max; lia); done.
Qed.

Lemma strings_offline ss :
  is_list f = true → type f = kString → 4 + n + 4 * Zlen ss + Zlen (concat ss) ≤ 2 ^ 30 →
  WriteListFieldValue f (DList (LString ss)) (Some r) = write_string_list f ss (Some r).
Proof.
  intros Hl Ht Hsz. pose proof (Zlen_nonneg ss). pose proof (Zlen_nonneg (concat ss)).
  destruct (lw_shape L Hwf f Hf) as (_ & _ & He & _). rewrite Hl, Ht in He.
  destruct Hroom as [Ra Rs Rl Rsl Re]. pose proof (Zlen_nonneg (arena r)).
  pose proof (Zlen_nonneg (string_list_dictionary r)).
  unfold WriteListFieldValue, write_string_list. rewrite Ht.
  destruct (encoding f) eqn:Henc; try done;
    unfold sbind; cbn [get_strings check_not_null get_row].
  - unfold WriteStringListArena, WriteArenaStringListField, sbind. cbn [sret check_not_null].
    rewrite Hl, Ht, Henc, !bool_decide_eq_true_2 by done. cbn [orb negb].
    rewrite !(proj2 (Z.ltb_ge _ _)) by (unfold u32_max; lia). cbn [get_row].
    cbn [append_arena on_arena].
    set (zeros := replicate _ Byte.x00).
    assert (Zlen zeros = 16 * Zlen ss) as Hz
      by (unfold zeros, Zlen; rewrite length_replicate; unfold Zlen in *; lia).
    rewrite insert_strings_eq; [done|lia|..]; cbn [arena set_arena]; rewrite Zlen_app; lia.
  - cbn [sret get_row]. rewrite !(proj2 (Z.ltb_ge _ _)) by (unfold u32_max; lia). done.
  - cbn [sret]. rewrite !(proj2 (Z.ltb_ge _ _)) by (unfold u32_max; lia).
    by rewrite add_elements_eq by (unfold u32_max; lia).
Qed.

(** The two writers agree on the values that fit the field. *)
Lemma write_offline_eq d v :
  field_ok d → n + Zlen (decoded_field_bytes d) ≤ 2 ^ 30 →
  decoded_of v = decoded_value d → fits f (decoded_value d) →
  write_offline f v (Some r) = write_value f d (Some r).
Proof.
  intros Hd Hsz Hv Hfit. rewrite field_bytes_size, <-Hv in Hsz. rewrite <-Hv in Hfit.
  pose proof (fo_value d Hd) as Hok. rewrite <-Hv in Hok.
  unfold write_offline, write_value, UpdateApplier.WriteListFieldValue,
    UpdateApplier.WriteScalarFieldValue. rewrite <-Hv.
  destruct v as [|s|vs]; [done| |]; destruct Hfit as [Hl Ht]; rewrite Hl; cbn [negb decoded_of].
  - rewrite scalar_offline by done. by destruct s; cbn [scalar_type] in Ht; rewrite Ht.
  - cbn [decoded_of value_bytes value_ok] in *.
    destruct vs as [ws|ws|ws|ws|bs|ss]; cbn [list_type] in Ht; rewrite Ht; cbn [value_bytes] in Hsz;
      rewrite Zlen_app, count_bytes_size in Hsz.
    1-4: apply (words_offline _ ws); [done..|cbn; lia|];
      apply payload_size; [by eapply words_list_ok|done].
    + rewrite bool_bytes_words in Hsz. destruct Hroom.
      pose proof (Zlen_nonneg (words_bytes uint8_t (bool_word <$> bs))).
      rewrite write_bools_as_words by
        (done || (unfold is_u32, u32_max, u64_max in *; lia)).
      apply (words_offline _ (bool_word <$> bs)); [done..|cbn; lia|].
      by apply (payload_size (LBool bs)); [apply bools_ok|].
    + rewrite string_bytes_size in Hsz. apply strings_offline; [done..|lia].
Qed.
End WriteOffline.

(** ** One row *)

(** The value the table has for a field, unless it has none. *)
Definition value_of (values : gmap Z FieldValue) (f : FieldLayout) : option FieldValue :=
  match values !! field_id f with
  | None | Some DMonostate => None
  | Some v => Some v
  end.

(** The row as the message that upserts it: the values there are, in the
    order of the layout. *)
Definition field_message (values : gmap Z FieldValue) (f : FieldLayout) : option DecodedField :=
  (λ v, MkDecodedField (field_id f) (wire_kind (decoded_of v)) (decoded_of v))
  <$> value_of values f.

Definition row_message (L : CompiledRowLayout) (values : gmap Z FieldValue) : DecodedPayload :=
  MkDecodedPayload (omap (field_message values) (fields L)).

(** A value of the field's type that its C++ type can hold. *)
Definition typed_value (f : FieldLayout) (v : FieldValue) : Prop :=
  fits f (decoded_of v) ∧ value_ok (decoded_of v).

Definition typed_row (L : CompiledRowLayout) (values : gmap Z FieldValue) : Prop :=
  ∀ f v, f ∈ fields L → value_of values f = Some v → typed_value f v.

Lemma message_ids values (fs : list FieldLayout) :
  decoded_id <$> omap (field_message values) fs
  = field_id <$> filter (λ f, is_Some (value_of values f)) fs.
Proof.
  induction fs as [|f fs IH]; [done|]. cbn [omap list_omap]. unfold field_message at 1.
  destruct (value_of values f) as [v|] eqn:Hv; cbn [fmap option_fmap option_map].
  - rewrite filter_cons_True by (rewrite Hv; by eexists). cbn. f_equal. exact IH.
  - rewrite filter_cons_False by (rewrite Hv; by intros [? [=]]). exact IH.
Qed.

Lemma field_message_Some values f d :
  field_message values f = Some d → ∃ v, value_of values f = Some v
    ∧ decoded_value d = decoded_of v ∧ decoded_id d = field_id f
    ∧ decoded_kind d = wire_kind (decoded_of v).
Proof. intros (v & -> & ->)%fmap_Some. by exists v. Qed.

Section EncodeRow.
Context (L : CompiledRowLayout) (Hwf : layout_wf L).
Hypothesis (Hids : Forall (λ f, is_u32 (field_id f)) (fields L)).
Context (values : gmap Z FieldValue).
Hypothesis (Htyped : typed_row L values).
Hypothesis (Hsize : Zlen (payload_bytes (row_message L values)) ≤ 2 ^ 30).

Abbreviation messages fs := (omap (field_message values) fs).

Lemma message_in d :
  d ∈ messages (fields L) → ∃ f v, f ∈ fields L ∧ value_of values f = Some v
    ∧ field_message values f = Some d ∧ decoded_value d = decoded_of v ∧ decoded_id d = field_id f.
Proof.
  intros (f & Hf & Hm)%list_elem_of_omap.
  destruct (field_message_Some _ _ _ Hm) as (v & Hv & He & Hi & _). by exists f, v.
Qed.

Lemma messages_fit d fs1 fs2 :
  messages (fields L) = fs1 ++ d :: fs2 → fields_size (fs1 ++ [d]) ≤ 2 ^ 30.
Proof.
  intros Heq. pose proof (fields_size_payload (row_message L values)) as Hp.
  cbn [row_message payload_fields] in Hp. rewrite Heq in Hp.
  change (d :: fs2) with ([d] ++ fs2) in Hp. rewrite app_assoc, fields_size_app in Hp.
  pose proof (fields_size_nonneg fs2). lia.
Qed.

Lemma message_ok d : d ∈ messages (fields L) → field_ok d.
Proof.
  intros Hd. destruct (list_elem_of_split _ _ Hd) as (fs1 & fs2 & Hsplit).
  pose proof (messages_fit d fs1 fs2 Hsplit) as Hsz.
  rewrite fields_size_app, fields_size_one, field_bytes_size in Hsz.
  pose proof (fields_size_nonneg fs1). pose proof (Zlen_nonneg (value_bytes (decoded_value d))).
  destruct (message_in d Hd) as (f & v & Hf & Hv & Hm & He & Hi).
  destruct (field_message_Some _ _ _ Hm) as (v' & Hv' & He' & _ & Hk).
  assert (v' = v) as -> by congruence.
  split; [rewrite Hi; by eapply Forall_forall in Hids| |rewrite He; by eapply Htyped|].
  - by rewrite Hk, He.
  - unfold is_u32. lia.
Qed.

Lemma row_message_ok : payload_ok (row_message L values).
Proof.
  split; cbn [row_message payload_fields].
  - pose proof (fields_size_payload (row_message L values)) as Hp. cbn [row_message payload_fields] in Hp.
    assert (∀ ds, 9 * Zlen ds ≤ fields_size ds) as Hn.
    { induction ds as [|d ds IH]; [done|]. change (d :: ds) with ([d] ++ ds).
      rewrite fields_size_app, fields_size_one, field_bytes_size, Zlen_app.
      pose proof (Zlen_nonneg (value_bytes (decoded_value d))). change (Zlen [d]) with 1. lia. }
    specialize (Hn (messages (fields L))). pose proof (Zlen_nonneg (messages (fields L))).
    unfold is_u32. lia.
  - apply Forall_forall. intros d Hd. by apply message_ok.
  - rewrite message_ids. apply (sublist_NoDup _ (field_id <$> fields L)); [apply lw_ids, Hwf|].
    apply fmap_sublist, sublist_filter.
Qed.

(** One round of the offline loop is one round of the update path's. *)
Lemma encode_value_present fs1 f fs2 d r :
  fields L = fs1 ++ f :: fs2 → field_message values f = Some d →
  row_holds L (messages fs1) r → room (fields_size (messages fs1)) r →
  encode_value values f (Some r) = encode_field L d (Some r)
  ∧ ∃ r', encode_field L d (Some r) = (Ok tt, Some r')
      ∧ row_holds L (messages (fs1 ++ [f])) r' ∧ room (fields_size (messages (fs1 ++ [f]))) r'.
Proof.
  intros Hsplit Hm Hr Hroom.
  assert (messages (fields L) = messages fs1 ++ d :: messages fs2) as Hms
    by (rewrite Hsplit, omap_app; simpl; by rewrite Hm).
  assert (f ∈ fields L) as Hf by (rewrite Hsplit; set_solver).
  assert (d ∈ messages (fields L)) as Hd by (rewrite Hms; set_solver).
  destruct (field_message_Some _ _ _ Hm) as (v & Hv & He & Hi & _).
  pose proof (message_ok d Hd) as Hok. pose proof (messages_fit _ _ _ Hms) as Hsz.
  destruct (Htyped f v Hf Hv) as [Hfit _]. rewrite <-He in Hfit.
  assert (FindField L (decoded_id d) = Some f) as Hff by (rewrite Hi; by apply FindField_in).
  assert (decoded_id d ∉ decoded_id <$> messages fs1) as Hnew.
  { pose proof (po_ids _ row_message_ok) as Hnd. cbn [row_message payload_fields] in Hnd.
    rewrite Hms, fmap_app, fmap_cons in Hnd. apply NoDup_app in Hnd as (_ & Hnd & _).
    intros Hin. apply (Hnd _ Hin). by left. }
  assert (messages (fs1 ++ [f]) = messages fs1 ++ [d]) as -> by (rewrite omap_app; simpl; by rewrite Hm).
  pose proof (encode_field_step L _ d r Hwf Hok Hnew Hr Hroom Hsz) as Hstep.
  rewrite (encode_field_found L d f Hff) in * by (by destruct (decoded_value d)).
  split.
  - rewrite <-(write_offline_eq L Hwf f r Hf _ Hroom d v Hok) by
      (done || (rewrite fields_size_app, fields_size_one in Hsz; lia)).
    unfold encode_value, write_offline. unfold value_of in Hv.
    destruct (values !! field_id f) as [[]|]; by simplify_eq.
  - destruct (write_value f d (Some r)) as [[[]|e|ft] o]; [| |done].
    + destruct Hstep as (r' & -> & ? & ?). eauto.
    + destruct Hstep as (g & Hg & Hn). by simplify_eq.
Qed.

Lemma encode_value_absent f r :
  field_message values f = None →
  encode_value values f (Some r)
  = (if required f then InvalidArgument ("required field is absent: " +:+ text_of (name f))
     else Ok tt, Some r).
Proof.
  unfold field_message, value_of, encode_value, required.
  destruct (values !! field_id f) as [[]|]; intros; by destruct (negb _ && negb _).
Qed.

Lemma encode_values_loop fs2 fs1 r :
  fields L = fs1 ++ fs2 → row_holds L (messages fs1) r → room (fields_size (messages fs1)) r →
  match sfor (encode_value values) fs2 (Some r) with
  | (Ok _, o) => sfor (encode_field L) (messages fs2) (Some r) = (Ok tt, o) ∧ is_Some o
                 ∧ ∀ f, f ∈ fs2 → required f = true → is_Some (value_of values f)
  | (Err e, _) => status_code e = kInvalidArgument
                  ∧ ∃ f, f ∈ fs2 ∧ required f = true ∧ value_of values f = None
  | (Fault _, _) => False
  end.
Proof.
  revert fs1 r. induction fs2 as [|f fs2 IH]; intros fs1 r Hsplit Hr Hroom.
  { split_and!; [done|by eexists|]. intros f []%elem_of_nil. }
  assert (fields L = (fs1 ++ [f]) ++ fs2) as Hsplit' by (by rewrite <-app_assoc).
  cbn [sfor omap list_omap]. unfold sbind.
  destruct (field_message values f) as [d|] eqn:Hm.
  - destruct (encode_value_present _ _ _ _ _ Hsplit Hm Hr Hroom) as (-> & r' & He & Hr' & Hroom').
    rewrite He. specialize (IH _ r' Hsplit' Hr' Hroom'). cbn [sfor]. unfold sbind at 1. rewrite He.
    destruct (sfor _ fs2 _) as [[u|e|ft] o]; [|set_solver|done].
    destruct IH as (H1 & H2 & H3). split_and!; [done..|].
    intros g [->|Hg]%elem_of_cons Hq; [|by apply H3].
    destruct (field_message_Some _ _ _ Hm) as (v & -> & _). by eexists.
  - rewrite (encode_value_absent f r Hm).
    assert (value_of values f = None) as Hv by (unfold field_message in Hm; by destruct (value_of values f)).
    destruct (required f) eqn:Hq; [split; [done|]; exists f; set_solver|].
    assert (messages (fs1 ++ [f]) = messages fs1) as Hsame
      by (rewrite omap_app; simpl; by rewrite Hm, app_nil_r).
    specialize (IH (fs1 ++ [f]) r Hsplit'). rewrite Hsame in IH. specialize (IH Hr Hroom).
    destruct (sfor _ fs2 _) as [[u|e|ft] o]; [|set_solver|done].
    destruct IH as (H1 & H2 & H3). split_and!; [done..|].
    intros g [->|Hg]%elem_of_cons Hq'; [congruence|by apply H3].
Qed.
End EncodeRow.

Lemma EncodeRow_spec L values :
  layout_wf L → Forall (λ f, is_u32 (field_id f)) (fields L) → typed_row L values →
  Zlen (payload_bytes (row_message L values)) ≤ 2 ^ 30 →
  match EncodeRow L values with
  | Ok r => EncodeForLayout (row_message L values) (Some L) = Ok r
            ∧ row_holds L (payload_fields (row_message L values)) r
            ∧ ∀ f, f ∈ fields L → required f = true → is_Some (value_of values f)
  | Err e => status_code e = kInvalidArgument
             ∧ ∃ f, f ∈ fields L ∧ required f = true ∧ value_of values f = None
  | Fault _ => False
  end.
Proof.
  intros Hwf Hids Hty Hsz. destruct (CreateEncodedRow_ok L Hwf) as (H1 & H2 & H3 & H4).
  assert (row_holds L [] (CreateEncodedRow L)) as H0.
  { split; [done|done| |intros f Hf _; by apply H4]. intros d f H. by apply elem_of_nil in H. }
  pose proof (encode_values_loop L Hwf Hids values Hty Hsz (fields L) [] _ eq_refl H0 H3) as Hl.
  pose proof (EncodeForLayout_spec L _ Hwf (row_message_ok L Hwf Hids values Hty Hsz) Hsz) as Hup.
  unfold EncodeRow, EncodeForLayout in *. cbn [row_message payload_fields] in *.
  destruct (sfor (encode_value values) _ _) as [[u|e|ft] o]; [|done..].
  destruct Hl as (Hrun & [r ->] & Hreq). rewrite Hrun in *.
  assert (¬ refused L (row_message L values)) as Hnot.
  { intros [(d & f & Hd & Hf & Hn)|(f & Hf & Hq & Hn)]; cbn [row_message payload_fields] in *.
    - destruct (message_in L values d Hd) as (g & v & Hg & Hv & _ & He & Hi).
      assert (g = f) as -> by (rewrite Hi, FindField_in in Hf by done; congruence).
      apply Hn. rewrite He. by eapply Hty.
    - apply Hn. rewrite message_ids. apply list_elem_of_fmap_2, list_elem_of_filter. auto. }
  destruct (MaterializeRow (Some L) r) as [w|e|ft]; cbn [obind] in *; [|done..].
  destruct Hup as (Hr & _ & _). auto.
Qed.

(** A row built offline answers every field of the layout: with the table's
    value where it has one, with the default otherwise. *)
Lemma EncodeRow_reads L values r :
  layout_wf L → Forall (λ f, is_u32 (field_id f)) (fields L) → typed_row L values →
  Zlen (payload_bytes (row_message L values)) ≤ 2 ^ 30 → EncodeRow L values = Ok r →
  row_ok L r ∧ ∀ f, f ∈ fields L →
    match value_of values f with
    | Some v => reads_back (row_of L r) f (decoded_of v)
    | None => Row_Has (row_of L r) (field_id f) = Ok false ∧ reads_default (row_of L r) f
    end.
Proof.
  intros Hwf Hids Hty Hsz Hr. pose proof (EncodeRow_spec L values Hwf Hids Hty Hsz) as H.
  rewrite Hr in H. destruct H as (_ & [Hrow _ Hvals Habs] & Hreq). split; [done|].
  intros f Hf. destruct (value_of values f) as [v|] eqn:Hv.
  - set (d := MkDecodedField (field_id f) (wire_kind (decoded_of v)) (decoded_of v)).
    change (decoded_of v) with (decoded_value d). eapply holds_reads_back, Hvals.
    + apply list_elem_of_omap. exists f. split; [done|]. unfold field_message. by rewrite Hv.
    + cbn. by apply FindField_in.
  - assert (Row_Has (row_of L r) (field_id f) = Ok false) as Hhas.
    { apply Habs; [done|]. cbn [row_message payload_fields]. rewrite message_ids.
      intros (g & Hg & Hin)%list_elem_of_fmap. apply list_elem_of_filter in Hin as [[w Hw] Hin].
      pose proof (FindField_in L f Hwf Hf) as E1. rewrite Hg, FindField_in in E1 by done.
      congruence. }
    split; [done|]. rewrite row_has_bit in Hhas by done. injection Hhas as Hbit.
    assert (required f = false) as Hq.
    { destruct (required f) eqn:E; [|done]. destruct (Hreq f Hf E) as [w Hw]. congruence. }
    unfold reads_default. destruct (is_list f) eqn:Hl; [by apply absent_list|by apply absent_scalar].
Qed.
