(* ===== verification/OfflineColumns.v ===== *)
(** * Reading table columns: [tools/offline/src/offline_artifact_builder.cc]

    The builder reads Parquet files through Arrow.  Arrow is not part of the
    repository: its arrays, columns and tables are parameters, with the
    accessors the code calls.  What the builder does with them is modelled: it
    locates a row in the chunks of a column, checks types and nulls, and
    converts the cell to the value of a field. *)

From S2P Require Import Prelude Status ByteIo Types Schema OfflineSchema OfflineEncode.

(** ** Arrow *)

(** The [arrow::Type::type] ids the code compares with; the rest is [OtherType]. *)
Inductive arrow_type : Type :=
| INT8 | INT32 | INT64 | UINT64 | BOOL | STRING | LARGE_STRING | LIST | LARGE_LIST
| OtherType (id : Z).

#[export] Instance arrow_type_eq_dec : EqDecision arrow_type.
Proof. solve_decision. Defined.

(** Arrays and their accessors; [list_values] and the like of a [ListArray] or
    a [LargeListArray].  A [ChunkedArray] is the list of its chunks. *)
Class Arrow : Type := {
  arrow_array : Type;
  array_length : arrow_array → Z;
  type_id : arrow_array → arrow_type;
  IsNull : arrow_array → Z → bool;
  Int8Value : arrow_array → Z → Z;
  Int32Value : arrow_array → Z → Z;
  Int64Value : arrow_array → Z → Z;
  UInt64Value : arrow_array → Z → Z;
  BooleanValue : arrow_array → Z → bool;
  GetString : arrow_array → Z → cpp_string;
  list_values : arrow_array → arrow_array;
  value_offset : arrow_array → Z → Z;
  value_length : arrow_array → Z → Z;
  arrow_table : Type;
  num_rows : arrow_table → Z;
  GetColumnByName : arrow_table → cpp_string → option (list arrow_array);
}.

(** What Arrow documents of the accessors: values are those of their types,
    and the length of a list is not negative. *)
Class ArrowLaws `{Arrow} : Prop := {
  int8_values a i : in_int_range int8_t (Int8Value a i);
  int32_values a i : in_int_range int32_t (Int32Value a i);
  int64_values a i : in_int_range int64_t (Int64Value a i);
  uint64_values a i : in_int_range uint64_t (UInt64Value a i);
  lengths_nonneg a i : 0 ≤ value_length a i;
}.

Definition column_error {A} (field_name : cpp_string) : StatusOr A :=
  InvalidArgument ("parquet column has wrong type for field " +:+ text_of field_name).

(** [std::numeric_limits<T>::min()] and [max()] *)
Definition int_min (t : int_type) : Z := if it_signed t then - (it_modulus t / 2) else 0.
Definition int_max (t : int_type) : Z :=
  if it_signed t then it_modulus t / 2 - 1 else it_modulus t - 1.

(** [static_cast<T>(value)] *)
Definition int_cast (t : int_type) (value : Z) : Z := of_unsigned t (to_unsigned t value).

Section Columns.
Context `{Arrow}.

Definition CheckedArray (array : arrow_array) (expected : arrow_type) (field_name : cpp_string)
    : StatusOr arrow_array :=
  if negb (bool_decide (type_id array = expected)) then column_error field_name else Ok array.

(** The loop over the chunks, [offset] rows behind the first. *)
Fixpoint locate (offset : Z) (column : list arrow_array) (row_index : Z)
    : StatusOr (arrow_array * Z) :=
  match column with
  | [] => InvalidArgument "row index is out of parquet column bounds"
  | chunk :: chunks =>
      if row_index <? offset + array_length chunk then Ok (chunk, row_index - offset)
      else locate (offset + array_length chunk) chunks row_index
  end.

Definition LocateArray (column : list arrow_array) (row_index : Z) : StatusOr (arrow_array * Z) :=
  locate 0 column row_index.

Definition ReadPrimaryKey (column : list arrow_array) (row_index : Z) (name : cpp_string)
    : StatusOr Z :=
  let* located := LocateArray column row_index in
  let '(array, local) := located in
  if IsNull array local then
    InvalidArgument ("primary key column contains null: " +:+ text_of name)
  else if bool_decide (type_id array = UINT64) then Ok (UInt64Value array local)
  else if bool_decide (type_id array = INT64) then
    let value := Int64Value array local in
    if value <? 0 then InvalidArgument "primary key column contains negative value"
    else Ok (int_cast uint64_t value)
  else InvalidArgument "primary key column must be uint64 or int64".

(** ** Scalars *)

(** [ReadIntegerValue<Out, ArrowArray>]; [raw_type] and [Value] are those of
    [ArrowArray]. *)
Definition ReadIntegerValue (out raw_type : int_type) (Value : arrow_array → Z → Z)
    (array : arrow_array) (index : Z) (expected : arrow_type) (field_name : cpp_string)
    : StatusOr Z :=
  let* typed := CheckedArray array expected field_name in
  let raw := Value typed index in
  if Bool.eqb (it_signed raw_type) (it_signed out)
     && ((raw <? int_cast raw_type (int_min out)) || (int_cast raw_type (int_max out) <? raw))
  then InvalidArgument "integer value is out of range"
  else Ok (int_cast out raw).

Definition ReadStringValue (array : arrow_array) (index : Z) (field_name : cpp_string)
    : StatusOr cpp_string :=
  if bool_decide (type_id array = STRING) then Ok (GetString array index)
  else if bool_decide (type_id array = LARGE_STRING) then Ok (GetString array index)
  else column_error field_name.

Definition ReadScalarValue (field : FieldLayout) (array : arrow_array) (index : Z)
    : StatusOr FieldValue :=
  match type field with
  | kInt8 =>
      let* value := ReadIntegerValue int8_t int8_t Int8Value array index INT8 (name field) in
      Ok (DScalar (SInt8 value))
  | kInt32 =>
      let* value := ReadIntegerValue int32_t int32_t Int32Value array index INT32 (name field) in
      Ok (DScalar (SInt32 value))
  | kInt64 =>
      let* value := ReadIntegerValue int64_t int64_t Int64Value array index INT64 (name field) in
      Ok (DScalar (SInt64 value))
  | kUInt64 =>
      let* value := ReadIntegerValue uint64_t uint64_t UInt64Value array index UINT64 (name field) in
      Ok (DScalar (SUInt64 value))
  | kBool =>
      let* typed := CheckedArray array BOOL (name field) in
      Ok (DScalar (SBool (BooleanValue typed index)))
  | kString =>
      let* value := ReadStringValue array index (name field) in
      Ok (DScalar (SString value))
  end.

(** ** Lists *)

(** [result.reserve(length)], then the loop over the elements, none of which
    may be null; a negative length is a huge [size_t]. *)
Definition read_elements {A} (values : arrow_array) (start length : Z) (read : Z → StatusOr A)
    : StatusOr (list A) :=
  if length <? 0 then Fault (Thrown "std::length_error")
  else omapM (λ i,
    let index := start + i in
    if IsNull values index then InvalidArgument "list field contains null element"
    else read index) (seqZ 0 length).

Definition ReadIntegerList (out : int_type) (Value : arrow_array → Z → Z)
    (values : arrow_array) (start length : Z) (expected : arrow_type) (field_name : cpp_string)
    : StatusOr (list Z) :=
  let* typed := CheckedArray values expected field_name in
  read_elements values start length (λ index, Ok (int_cast out (Value typed index))).

Definition ReadListValuesByType (field : FieldLayout) (values : arrow_array) (start length : Z)
    : StatusOr FieldValue :=
  match type field with
  | kInt8 =>
      let* value := ReadIntegerList int8_t Int8Value values start length INT8 (name field) in
      Ok (DList (LInt8 value))
  | kInt32 =>
      let* value := ReadIntegerList int32_t Int32Value values start length INT32 (name field) in
      Ok (DList (LInt32 value))
  | kInt64 =>
      let* value := ReadIntegerList int64_t Int64Value values start length INT64 (name field) in
      Ok (DList (LInt64 value))
  | kUInt64 =>
      let* value := ReadIntegerList uint64_t UInt64Value values start length UINT64 (name field) in
      Ok (DList (LUInt64 value))
  | kBool =>
      let* typed := CheckedArray values BOOL (name field) in
      let* result := read_elements values start length (λ index, Ok (BooleanValue typed index)) in
      Ok (DList (LBool result))
  | kString =>
      let* result := read_elements values start length
                       (λ index, ReadStringValue values index (name field)) in
      Ok (DList (LString result))
  end.

Definition ReadListValue (field : FieldLayout) (array : arrow_array) (index : Z)
    : StatusOr FieldValue :=
  if bool_decide (type_id array = LIST) then
    ReadListValuesByType field (list_values array) (value_offset array index)
      (value_length array index)
  else if bool_decide (type_id array = LARGE_LIST) then
    ReadListValuesByType field (list_values array) (value_offset array index)
      (value_length array index)
  else InvalidArgument ("parquet column has wrong list type for field " +:+ text_of (name field)).

Definition ReadFieldValue (field : FieldLayout) (column : list arrow_array) (row_index : Z)
    : StatusOr FieldValue :=
  let* located := LocateArray column row_index in
  let '(array, local) := located in
  if IsNull array local then
    if nullable field then Ok DMonostate
    else InvalidArgument ("required field contains null: " +:+ text_of (name field))
  else if is_list field then ReadListValue field array local
  else ReadScalarValue field array local.

(** ** The columns of a table *)

Record TableColumns : Type := MkTableColumns {
  primary_key_column : list arrow_array;
  field_columns : gmap Z (list arrow_array);
}.

(** One round of the loop over the fields; [emplace] keeps an earlier entry. *)
Definition resolve_field (table : arrow_table) (columns : TableColumns) (field : FieldLayout)
    : StatusOr TableColumns :=
  match GetColumnByName table (name field) with
  | None =>
      if negb (nullable field) && negb (HasDefault (default_value field)) then
        InvalidArgument ("parquet table is missing required field: " +:+ text_of (name field))
      else Ok columns
  | Some column =>
      Ok (match field_columns columns !! field_id field with
          | Some _ => columns
          | None => MkTableColumns (primary_key_column columns)
                      (<[field_id field := column]> (field_columns columns))
          end)
  end.

Definition ResolveTableColumns (table : arrow_table) (config : ParsedSchemaConfig)
    (layout : CompiledRowLayout) : StatusOr TableColumns :=
  match GetColumnByName table (primary_key_name config) with
  | None => InvalidArgument "parquet table is missing primary key column"
  | Some primary_key =>
      ofold (resolve_field table) (fields layout) (MkTableColumns primary_key ∅)
  end.

(** The loop over the fields that reads the values of one row. *)
Definition read_field (columns : TableColumns) (row_index : Z) (values : gmap Z FieldValue)
    (field : FieldLayout) : StatusOr (gmap Z FieldValue) :=
  match field_columns columns !! field_id field with
  | None => Ok values
  | Some column =>
      let* value := ReadFieldValue field column row_index in
      Ok (match values !! field_id field with
          | Some _ => values
          | None => <[field_id field := value]> values
          end)
  end.

Definition read_row (layout : CompiledRowLayout) (columns : TableColumns) (row_index : Z)
    : StatusOr (gmap Z FieldValue) :=
  ofold (read_field columns row_index) (fields layout) ∅.

End Columns.
