(* ===== verification/OfflineColumnsProofs.v ===== *)
(** * Values read from table columns fit the fields

    Whatever the columns hold, reading a field ends in an error or in a value
    of the alternative the field's writer takes; for such values, of any size,
    [EncodeRow] takes no wrong alternative of a variant and stores no byte
    outside the arena. *)

From S2P Require Import Prelude Status ByteIo Types Schema SchemaProofs RowStorage RowSafety.
From S2P Require Import RowListProofs Payload Codec PayloadProofs UpdateApplier EncodeProofs.
From S2P Require Import OfflineSchema OfflineEncode OfflineEncodeProofs OfflineColumns.

(** ** Reading *)

(** A call that ends in an error or in a value with the property. *)
Definition returns {A} (P : A → Prop) (c : StatusOr A) : Prop :=
  match c with Ok a => P a | Err _ => True | Fault _ => False end.

Lemma returns_bind {A B} (P : A → Prop) (Q : B → Prop) (c : StatusOr A) (k : A → StatusOr B) :
  returns P c → (∀ a, P a → returns Q (k a)) → returns Q (obind c k).
Proof. destruct c; simpl; auto. Qed.

Lemma returns_weaken {A} (P Q : A → Prop) (c : StatusOr A) :
  returns P c → (∀ a, P a → Q a) → returns Q c.
Proof. destruct c; simpl; auto. Qed.

Lemma returns_omapM {A B} (P : B → Prop) (f : A → StatusOr B) l :
  (∀ x, x ∈ l → returns P (f x)) → returns (Forall P) (omapM f l).
Proof.
  induction l as [|x l IH]; intros Hf; [constructor|]. cbn [omapM].
  eapply returns_bind; [apply Hf; left|]. intros y Hy.
  eapply returns_bind; [apply IH; intros; apply Hf; by right|]. intros ys Hys. by constructor.
Qed.

Lemma returns_ofold {A S} (P : S → Prop) (f : S → A → StatusOr S) l s :
  P s → (∀ x t, x ∈ l → P t → returns P (f t x)) → returns P (ofold f l s).
Proof.
  revert s. induction l as [|x l IH]; intros s Hs Hf; [done|]. cbn [ofold].
  eapply returns_bind; [apply Hf; [left|done]|]. intros t Ht.
  apply IH; [done|]. intros y u Hy Hu. apply Hf; [by right|done].
Qed.

(** The elements of a value are those of their C++ type. *)
Definition in_range (v : FieldValue) : Prop :=
  match v with
  | DScalar (SInt8 w) => in_int_range int8_t w
  | DScalar (SInt32 w) => in_int_range int32_t w
  | DScalar (SInt64 w) => in_int_range int64_t w
  | DScalar (SUInt64 w) => in_int_range uint64_t w
  | DList (LInt8 ws) => Forall (in_int_range int8_t) ws
  | DList (LInt32 ws) => Forall (in_int_range int32_t) ws
  | DList (LInt64 ws) => Forall (in_int_range int64_t) ws
  | DList (LUInt64 ws) => Forall (in_int_range uint64_t) ws
  | DMonostate | DScalar (SBool _ | SString _) | DList (LBool _ | LString _) => True
  end.

(** What a field of the layout may be given. *)
Definition well_typed (f : FieldLayout) (v : FieldValue) : Prop :=
  match v with
  | DMonostate => nullable f = true
  | v => fits f (decoded_of v) ∧ in_range v
  end.

Lemma int_cast_id t v : (0 < it_size t)%nat → in_int_range t v → int_cast t v = v.
Proof. apply of_to_unsigned. Qed.

Lemma words_size t ws : (0 < it_size t)%nat → Zlen ws ≤ Zlen (words_bytes t ws).
Proof. intros Hs. unfold Zlen. rewrite length_words_bytes. nia. Qed.

Lemma concat_element_size (s : cpp_string) ss : s ∈ ss → Zlen s ≤ Zlen (concat ss).
Proof.
  induction 1 as [s ss|s t ss _ IH]; change (concat (?x :: ss)) with (x ++ concat ss);
    rewrite Zlen_app; [pose proof (Zlen_nonneg (concat ss))|pose proof (Zlen_nonneg t)]; lia.
Qed.

(** A value that fits into [2^30] bytes has the counts of a message. *)
Lemma in_range_value_ok v :
  in_range v → Zlen (value_bytes (decoded_of v)) ≤ 2 ^ 30 → value_ok (decoded_of v).
Proof.
  destruct v as [|[w|w|w|w|b|s]|[ws|ws|ws|ws|bs|ss]]; cbn; try done; intros Hr;
    rewrite Zlen_app, count_bytes_size; intros Hsz; unfold words_ok, is_u32.
  1-4: split; [|done]; pose proof (Zlen_nonneg ws);
    match type of Hsz with _ + Zlen (words_bytes ?t _) ≤ _ =>
      pose proof (words_size t ws ltac:(simpl; lia)) end; lia.
  - rewrite bool_bytes_words in Hsz. pose proof (Zlen_nonneg bs).
    pose proof (words_size uint8_t (bool_word <$> bs) ltac:(simpl; lia)) as Hw.
    unfold Zlen at 1 in Hw. rewrite length_fmap in Hw. fold (Zlen bs) in Hw. lia.
  - rewrite string_bytes_size in Hsz. pose proof (Zlen_nonneg ss).
    pose proof (Zlen_nonneg (concat ss)). split; [lia|].
    apply Forall_forall. intros s Hs. pose proof (concat_element_size s ss Hs). pose proof (Zlen_nonneg s). lia.
Qed.

Section Columns.
Context `{ArrowLaws}.

Lemma CheckedArray_returns a expected n : returns (λ a', a' = a) (CheckedArray a expected n).
Proof. unfold CheckedArray. by destruct (bool_decide _). Qed.

Lemma ReadIntegerValue_returns t Value a i expected n :
  (0 < it_size t)%nat → (∀ a i, in_int_range t (Value a i)) →
  returns (in_int_range t) (ReadIntegerValue t t Value a i expected n).
Proof.
  intros Ht HV. unfold ReadIntegerValue. eapply returns_bind; [apply CheckedArray_returns|].
  intros a' ->. cbv zeta. destruct (_ && _); [done|]. cbn. by rewrite int_cast_id.
Qed.

Lemma ReadStringValue_returns a i n : returns (λ _, True) (ReadStringValue a i n).
Proof. unfold ReadStringValue, column_error. by repeat case_match. Qed.

Lemma ReadScalarValue_returns f a i :
  is_list f = false → returns (well_typed f) (ReadScalarValue f a i).
Proof.
  intros Hl. unfold ReadScalarValue. destruct (type f) eqn:Ht.
  1-4: eapply returns_bind; [apply ReadIntegerValue_returns; [simpl; lia|apply _ || idtac]|
    intros v Hv; cbn; by rewrite Hl, Ht].
  1-4: intros; apply int8_values || apply int32_values || apply int64_values || apply uint64_values.
  - eapply returns_bind; [apply CheckedArray_returns|]. intros v _. cbn. by rewrite Hl, Ht.
  - eapply returns_bind; [apply ReadStringValue_returns|]. intros v _. cbn. by rewrite Hl, Ht.
Qed.

Lemma read_elements_returns {A} (P : A → Prop) values start length (read : Z → StatusOr A) :
  0 ≤ length → (∀ i, returns P (read i)) →
  returns (λ l, Forall P l) (read_elements values start length read).
Proof.
  intros Hn Hr. unfold read_elements. rewrite (proj2 (Z.ltb_ge _ _)) by lia.
  apply returns_omapM. intros i _. cbv zeta. by destruct (IsNull _ _).
Qed.

Lemma ReadIntegerList_returns t Value values start length expected n :
  (0 < it_size t)%nat → (∀ a i, in_int_range t (Value a i)) → 0 ≤ length →
  returns (Forall (in_int_range t)) (ReadIntegerList t Value values start length expected n).
Proof.
  intros Ht HV Hn. unfold ReadIntegerList. eapply returns_bind; [apply CheckedArray_returns|].
  intros a ->. apply read_elements_returns; [done|]. intros i. cbn. by rewrite int_cast_id.
Qed.

Lemma ReadListValuesByType_returns f values start length :
  is_list f = true → 0 ≤ length →
  returns (well_typed f) (ReadListValuesByType f values start length).
Proof.
  intros Hl Hn. unfold ReadListValuesByType. destruct (type f) eqn:Ht.
  1-4: eapply returns_bind; [apply ReadIntegerList_returns; [simpl; lia|idtac|done]|
    intros v Hv; cbn; by rewrite Hl, Ht].
  1-4: intros; apply int8_values || apply int32_values || apply int64_values || apply uint64_values.
  - eapply returns_bind; [apply CheckedArray_returns|]. intros a _.
    eapply returns_bind; [by apply (read_elements_returns (λ _, True))|].
    intros v _. cbn. by rewrite Hl, Ht.
  - eapply returns_bind; [apply (read_elements_returns (λ _, True)); [done|]; intros i;
      apply ReadStringValue_returns|].
    intros v _. cbn. by rewrite Hl, Ht.
Qed.

Lemma LocateArray_returns column row_index : returns (λ _, True) (LocateArray column row_index).
Proof.
  unfold LocateArray. generalize 0. induction column as [|chunk column IH]; intros o; [done|].
  cbn [locate]. by destruct (_ <? _).
Qed.

Lemma ResolveTableColumns_returns table config L :
  returns (λ _, True) (ResolveTableColumns table config L).
Proof.
  unfold ResolveTableColumns. destruct (GetColumnByName _ _); [|done].
  apply returns_ofold; [done|]. intros f columns _ _. unfold resolve_field.
  destruct (GetColumnByName _ _); [done|]. by destruct (_ && _).
Qed.

Lemma ReadFieldValue_returns f column row_index :
  returns (well_typed f) (ReadFieldValue f column row_index).
Proof.
  unfold ReadFieldValue. eapply (returns_bind (λ _, True)).
  { apply LocateArray_returns. }
  intros [a local] _. destruct (IsNull a local); [by destruct (nullable f) eqn:E|].
  destruct (is_list f) eqn:Hl; [|by apply ReadScalarValue_returns].
  unfold ReadListValue. destruct (bool_decide _); [|destruct (bool_decide _); [|done]];
    apply ReadListValuesByType_returns; (done || apply lengths_nonneg).
Qed.

(** ** Rows *)

Definition typed_values (L : CompiledRowLayout) (values : gmap Z FieldValue) : Prop :=
  ∀ f v, f ∈ fields L → values !! field_id f = Some v → well_typed f v.

Lemma read_row_returns L columns row_index :
  layout_wf L → returns (typed_values L) (read_row L columns row_index).
Proof.
  intros Hwf. apply returns_ofold; [intros f v _ Hv; by rewrite lookup_empty in Hv|].
  intros f values Hf Hvs. unfold read_field. destruct (field_columns columns !! _) as [column|]; [|done].
  eapply returns_bind; [apply ReadFieldValue_returns|]. intros v Hv.
  destruct (values !! field_id f) as [w|] eqn:Hw; [done|]. intros g u Hg.
  destruct (decide (field_id g = field_id f)) as [He|Hne]; [|by rewrite lookup_insert_ne; [apply Hvs|]].
  rewrite He, lookup_insert_eq. intros [= <-].
  pose proof (FindField_in L f Hwf Hf) as E. rewrite <-He, FindField_in in E by done. by injection E as ->.
Qed.
End Columns.

(** ** Encoding *)

(** From a row with [P] the writer returns, without a fault, and when it
    succeeds the result and the row have [Q]. *)
Definition safe {A} (P : EncodedRow → Prop) (w : writer A) (Q : A → EncodedRow → Prop) : Prop :=
  ∀ r, P r → match w (Some r) with
             | (Ok a, Some r') => Q a r'
             | (Ok _, None) | (Fault _, _) => False
             | (Err _, _) => True
             end.

Abbreviation anything := (λ _ : EncodedRow, True).
Abbreviation safely w := (safe anything w (λ _ _, True)).

Lemma safe_bind {A B} P Q R (w : writer A) (k : A → writer B) :
  safe P w Q → (∀ a, safe (Q a) (k a) R) → safe P (sbind w k) R.
Proof.
  intros Hw Hk r Hr. unfold sbind. specialize (Hw r Hr).
  destruct (w (Some r)) as [[a|e|ft] [r'|]]; try done. by apply Hk.
Qed.

Lemma safe_step {A B} (w : writer A) (k : A → writer B) :
  safely w → (∀ a, safely (k a)) → safely (sbind w k).
Proof. intros. by eapply safe_bind. Qed.

Lemma safe_got {A B} P (a : A) (k : A → writer B) Q : safe P (k a) Q → safe P (sbind (sret a) k) Q.
Proof. done. Qed.

Lemma safe_err {A} P (e : Status) Q : safe (A := A) P (serr e) Q.
Proof. by intros r Hr. Qed.

Lemma safe_ret {A} (a : A) P : safe P (sret a) (λ _, P).
Proof. by intros r Hr. Qed.

Lemma safe_if {A} P Q (b : bool) (w w' : writer A) :
  safe P w Q → safe P w' Q → safe P (if b then w else w') Q.
Proof. by destruct b. Qed.

Lemma safe_check : safely check_not_null.
Proof. by intros r Hr. Qed.

Lemma safe_get P : safe P get_row (λ a r, P r ∧ a = r).
Proof. by intros r Hr. Qed.

Lemma safe_modify f : safely (modify_row f).
Proof. by intros r Hr. Qed.

Lemma safe_append new : safely (append_arena new).
Proof. by intros r Hr. Qed.

Lemma safe_get_row : safely get_row.
Proof. by intros r Hr. Qed.

Create HintDb safe_writers.
#[export] Hint Resolve safe_err safe_ret safe_check safe_modify safe_append safe_get_row : safe_writers.
#[export] Hint Extern 1 (safe _ (sret _) _) => intros ? ?; exact I : safe_writers.

(** Takes a writer apart into its steps. *)
Ltac safe_steps :=
  repeat first
    [ progress (intros; cbv zeta)
    | lazymatch goal with
      | |- safe _ (if _ then _ else _) _ => apply safe_if
      | |- safe _ (sbind _ _) _ => apply safe_step
      end
    | solve [auto with safe_writers] ].

Lemma write_word_result t v o b :
  ∃ c b', WriteLittleEndian t v o b = (c, b') ∧ no_fault c.
Proof.
  unfold WriteLittleEndian. destruct (CheckSpanBounds_cases (Zlen b) o (Z.of_nat (it_size t)))
    as [-> | ->]; by eexists _, _.
Qed.

Section Field.
Context (f : FieldLayout) (Hbit : 0 ≤ presence_bit_index f).

Lemma safe_present : safely (SetFieldPresent f).
Proof.
  intros r _. unfold SetFieldPresent, sbind. cbn [check_not_null on_row_slot].
  unfold set_presence_bit. destruct (Z.leb_spec (Zlen (row_slot r)) (presence_bit_index f / 8)); [done|].
  destruct (at_in (E := Status) (row_slot r) (presence_bit_index f / 8)) as (b & _ & ->).
  { split; [apply Z.div_pos; lia|done]. }
  rewrite set_at_in; [done|]. split; [apply Z.div_pos; lia|done].
Qed.

Lemma safe_ref ref : safely (WriteValueRefField f ref).
Proof.
  unfold WriteValueRefField. safe_steps; [|apply safe_present].
  intros r _. cbn [on_row_slot]. unfold WriteValueRef16, sbind, slift.
  destruct (CheckSpanBounds _ _ _) as [u|e|ft] eqn:E; [|done|].
  - destruct (write_word_result uint64_t (ref_offset ref) (slot_offset f) (row_slot r))
      as ([|?|?] & b1 & -> & ?); try done.
    destruct (write_word_result uint32_t (byte_length ref) (slot_offset f + 8) b1)
      as ([|?|?] & b2 & -> & ?); try done.
    destruct (write_word_result uint32_t (element_count_or_flags ref) (slot_offset f + 12) b2)
      as ([|?|?] & b3 & -> & ?); done.
  - by destruct (CheckSpanBounds_cases (Zlen (row_slot r)) (slot_offset f) 16) as [E'|E'];
      rewrite E' in E.
Qed.

Lemma safe_word v : scalar_type v ≠ kString → safely (WriteScalarField f v).
Proof.
  intros Hv. unfold WriteScalarField. safe_steps.
  assert (∃ w, scalar_word v = Some w) as [w ->] by (destruct v; try done; by eexists).
  safe_steps; [|apply safe_present]. intros r _. cbn [on_row_slot].
  destruct (write_word_result (field_int_type (scalar_type v)) w (slot_offset f) (row_slot r))
    as ([|?|?] & b1 & -> & ?); done.
Qed.

(** The references of a string list lie in the part of the arena reserved for
    them. *)
Lemma safe_insert base i ss n :
  0 ≤ base → n = base + (Z.of_nat i + Zlen ss) * 16 →
  safe (λ r, n ≤ Zlen (arena r)) (insert_strings base i ss) (λ _ _, True).
Proof.
  intros Hb. revert i n. induction ss as [|s ss IH]; intros i n ->; [by intros r Hr|].
  rewrite Zlen_cons. pose proof (Zlen_nonneg ss). cbn [insert_strings]. apply safe_if; [apply safe_err|].
  intros r Hr. unfold sbind. cbn [get_row append_arena on_arena arena set_arena].
  set (ref_place := base + Z.of_nat i * 16).
  assert (∀ t v o b, Zlen b = Zlen (arena r ++ s) → 0 ≤ o →
    o + Z.of_nat (it_size t) ≤ base + (Z.of_nat i + 1) * 16 →
    ∃ b', WriteLittleEndianAt t o v b = (Ok tt, b') ∧ Zlen b' = Zlen b) as Hone.
  { intros t v o b Hbl Ho Hle. unfold WriteLittleEndianAt.
    rewrite store_bytes_in; [|done|rewrite Hbl, Zlen_app; pose proof (Zlen_nonneg s); lia].
    eexists. split; [done|]. rewrite write_bytes_splice.
    - unfold Zlen. f_equal. apply length_splice. rewrite length_le_bytes, Nat.add_0_r.
      unfold Zlen in *. rewrite length_app in Hbl. lia.
    - unfold Zlen in *. rewrite length_app in Hbl. lia. }
  unfold WriteValueRefBytes, sbind.
  destruct (Hone uint64_t (Zlen (arena r)) ref_place (arena r ++ s)) as (b1 & -> & L1);
    [done|unfold ref_place; simpl; lia..|].
  destruct (Hone uint32_t (wrap32 (Zlen s)) (ref_place + 8) b1) as (b2 & -> & L2);
    [by rewrite L1|unfold ref_place; simpl; lia..|].
  destruct (Hone uint32_t 0 (ref_place + 8 + 4) b2) as (b3 & -> & L3);
    [by rewrite L2|unfold ref_place; simpl; lia..|].
  eapply (IH (S i)); [reflexivity|]. cbn [arena set_arena].
  rewrite L3, L2, L1, Zlen_app. pose proof (Zlen_nonneg s). lia.
Qed.

Lemma safe_string_list ss : safely (WriteStringListArena f ss).
Proof.
  unfold WriteStringListArena. apply safe_if; [apply safe_err|]. intros r _. unfold sbind.
  cbn [get_row append_arena on_arena].
  set (r1 := set_arena _ r).
  pose proof (safe_insert (Zlen (arena r)) 0 ss _ (Zlen_nonneg _) eq_refl r1) as Hs.
  assert (Zlen (arena r) + (Z.of_nat 0 + Zlen ss) * 16 ≤ Zlen (arena r1)) as Hl.
  { cbn [r1 arena set_arena]. rewrite Zlen_app. unfold Zlen at 4. rewrite length_replicate.
    unfold Zlen. lia. }
  specialize (Hs Hl). destruct (insert_strings _ _ _ _) as [[u|e|ft] [r2|]]; try done.
  destruct (_ <? _); [done|]. by apply safe_ref.
Qed.

Lemma safe_word_list t ws : safely (WriteScalarListArena t f ws).
Proof.
  unfold WriteScalarListArena. safe_steps. by apply safe_ref.
Qed.

Lemma safe_add_elements ss : safely (add_elements ss).
Proof. induction ss as [|s ss IH]; cbn [add_elements]; safe_steps. Qed.

Lemma safe_element_list ids : safely (WriteElementDictionaryStringListField f ids).
Proof.
  unfold WriteElementDictionaryStringListField. safe_steps; [|by apply safe_ref].
  intros r _. cbn [on_arena]. generalize (arena r). generalize 0%nat. revert a.
  induction ids as [|id ids IH]; intros _ i b; [done|]. cbn [write_words]. unfold sbind.
  destruct (write_word_result uint32_t id (Zlen (arena a0) + Z.of_nat i * 4) b)
    as ([|?|?] & b1 & -> & ?); try done. by apply IH.
Qed.

Lemma safe_named_refs :
  (∀ s, safely (WriteArenaStringField f s)) ∧ (∀ id, safely (WriteDictionaryStringField f id))
  ∧ ∀ id n, safely (WriteListDictionaryField f id n).
Proof.
  unfold WriteArenaStringField, WriteDictionaryStringField, WriteListDictionaryField.
  split_and!; safe_steps; by apply safe_ref.
Qed.

Lemma safe_scalar s : type f = scalar_type s → safely (WriteScalarFieldValue f (DScalar s)).
Proof.
  intros Ht. destruct safe_named_refs as (H1 & H2 & _). unfold WriteScalarFieldValue.
  destruct s as [v|v|v|v|b|s]; rewrite Ht; cbn [scalar_type get_scalar].
  all: rewrite decide_True by done; apply safe_got; try (by apply safe_word).
  destruct (encoding f); auto with safe_writers. safe_steps.
Qed.

Lemma safe_list vs : type f = list_type vs → safely (WriteListFieldValue f (DList vs)).
Proof.
  intros Ht. destruct safe_named_refs as (_ & _ & H3). unfold WriteListFieldValue.
  destruct vs as [ws|ws|ws|ws|bs|ss]; rewrite Ht; cbn [list_type get_words get_strings list_words];
    destruct (encoding f); try apply safe_err; try rewrite decide_True by done;
    try apply safe_got; auto using safe_word_list, safe_string_list; cbn [visit_elements list_words];
    safe_steps; auto using safe_add_elements, safe_element_list.
Qed.

Lemma safe_encode_value values :
  (∀ v, values !! field_id f = Some v → well_typed f v) → safely (encode_value values f).
Proof.
  intros Hty. unfold encode_value. destruct (values !! field_id f) as [[|s|vs]|] eqn:Hv;
    try (safe_steps; done); destruct (Hty _ eq_refl) as [[Hl Ht] _]; rewrite Hl;
    [by apply safe_scalar|by apply safe_list].
Qed.
End Field.

Lemma EncodeRow_no_fault L values :
  layout_wf L → typed_values L values → no_fault (EncodeRow L values).
Proof.
  intros Hwf Hty. unfold EncodeRow.
  assert (safely (sfor (encode_value values) (fields L))) as Hs.
  { assert (∀ f, f ∈ fields L → safely (encode_value values f)) as Hone.
    { intros f Hf. apply safe_encode_value; [by apply (field_bit L f)|]. intros v. by apply Hty. }
    induction (fields L) as [|f fs IH]; [by intros r|]. cbn [sfor]. apply safe_step.
    - apply Hone. left.
    - intros _. apply IH. intros g Hg. apply Hone. by right. }
  specialize (Hs (CreateEncodedRow L) I). by destruct (sfor _ _ _) as [[?|?|?] [?|]].
Qed.
