(* ===== verification/OfflineBuilder.v ===== *)
(** * Building an artifact directory: [tools/offline/src/offline_artifact_builder.cc]

    [BuildArtifactDirectory] reads the schema file, collects the Parquet files
    below the input path, sorts their rows into shards and writes a schema
    file and one artifact per shard.  The file system and the Parquet reader
    are parameters: functions of a state [F] that [mkdir] and the output
    streams change. *)

From S2P Require Import Prelude Status Hash Types Schema RowStorage Kafka ArtifactFormat ArtifactWriter MmapBacking.
From S2P Require ForwardIndex.
From S2P Require Import OfflineSchema OfflineEncode OfflineColumns.

Record BuildArtifactOptions : Type := MkBuildArtifactOptions {
  schema_path : cpp_string;
  input_path : cpp_string;
  output_path : cpp_string;
  build_artifact_id : cpp_string;
  option_shard_count : option Z;
  option_hash_seed : option Z;
  option_hash_version : option Z;
  option_schema_version : option Z;
  omit_source_progress : bool;
}.

Record BuildArtifactResult : Type := MkBuildArtifactResult {
  row_count : Z;
  result_shard_count : Z;
  result_hash_seed : Z;
  result_hash_version : Z;
  result_schema_version : Z;
  rows_per_shard : list Z;
  parquet_files : list cpp_string;
}.

(** ** The file system and the Parquet reader *)

Inductive mkdir_result : Type := Created | AlreadyExists | MkdirFailed (text : string).

(** [FileReaderBuilder::OpenFile], [Build] and [FileReader::ReadTable], with
    the text of an error. *)
Inductive parquet_result (T : Type) : Type :=
| OpenFileFailed (text : string)
| BuildFailed (text : string)
| ReadTableFailed (text : string)
| NullTable
| TableRead (table : T).
Arguments OpenFileFailed {T} text.
Arguments BuildFailed {T} text.
Arguments ReadTableFailed {T} text.
Arguments NullTable {T}.
Arguments TableRead {T} table.

Class OfflineSystem (F : Type) `{Arrow} : Type := {
  fs_stat : cpp_string → F → option file_kind;
  fs_mkdir : cpp_string → F → mkdir_result * F;
  (** the names in a directory, or the error of [opendir] *)
  fs_readdir : cpp_string → F → string + list cpp_string;
  fs_read : cpp_string → F → option (list byte);
  fs_open : cpp_string → F → bool * F;
  fs_write : cpp_string → list byte → F → bool * F;
  fs_parquet : cpp_string → F → parquet_result arrow_table;
}.

(** ** Paths *)

Definition JoinPath (lhs rhs : cpp_string) : cpp_string :=
  if bool_decide (lhs = []) || bool_decide (lhs = str "/") then lhs ++ rhs
  else lhs ++ str "/" ++ rhs.

Definition EndsWith (text suffix : cpp_string) : bool :=
  (Zlen suffix <=? Zlen text) && bool_decide (drop (length text - length suffix) text = suffix).

Definition ShardFileName (shard_id : Z) : cpp_string :=
  let digits := decimal_digits 10 shard_id in
  str "shard_" ++ replicate (5 - length digits) (byte_of_Z 48) ++ digits ++ str ".kvi".

(** The parts of a path between its slashes. *)
Fixpoint split_slash (path : cpp_string) : list cpp_string :=
  match path with
  | [] => [[]]
  | c :: rest =>
      if bool_decide (c = Byte.x2f) then [] :: split_slash rest
      else match split_slash rest with
           | part :: parts => (c :: part) :: parts
           | [] => [[c]]
           end
  end.

(** [std::sort] of strings: by their bytes, as unsigned characters. *)
Fixpoint string_le (lhs rhs : cpp_string) : bool :=
  match lhs, rhs with
  | [], _ => true
  | _ :: _, [] => false
  | a :: lhs', b :: rhs' =>
      (byte_to_Z a <? byte_to_Z b) || ((byte_to_Z a =? byte_to_Z b) && string_le lhs' rhs')
  end.

Definition string_before (lhs rhs : cpp_string) : Prop := string_le lhs rhs = true.

#[export] Instance string_before_dec : RelDecision string_before.
Proof. intros lhs rhs. unfold string_before. apply _. Defined.

Definition sort_strings : list cpp_string → list cpp_string := merge_sort string_before.

Section Builder.
Context {F : Type} `{OfflineSystem F}.

(** The loop over the parts of a path, [current] being the path so far. *)
Fixpoint make_parts (current : cpp_string) (parts : list cpp_string) : stateful F Status unit :=
  match parts with
  | [] => sret tt
  | [] :: parts' => make_parts current parts'
  | part :: parts' => λ fs,
      let current := if bool_decide (current = str "/") then current ++ part
                     else JoinPath current part in
      match fs_mkdir (c_str current) fs with
      | (MkdirFailed text, fs) => (Unavailable ("failed to create directory: " +:+ text), fs)
      | (_, fs) =>
          if bool_decide (fs_stat (c_str current) fs = Some Directory) then
            make_parts current parts' fs
          else (InvalidArgument "output path component is not a directory", fs)
      end
  end.

Definition MakeDirs (path : cpp_string) : stateful F Status unit :=
  match path with
  | [] => serr (Status_make kInvalidArgument "directory path is empty")
  | c :: rest =>
      if bool_decide (c = Byte.x2f) then make_parts (str "/") (split_slash rest)
      else make_parts [] (split_slash path)
  end.

(** ** Input files *)

(** The children of a directory that [readdir] lists, hidden names skipped. *)
Definition visible_children (path : cpp_string) (names : list cpp_string) : list cpp_string :=
  JoinPath path <$> filter (λ name, name ≠ [] ∧ head name ≠ Some Byte.x2e) names.

(** [fuel] bounds the depth of the directories. *)
Fixpoint CollectParquetFilesRecursive (fuel : nat) (fs : F) (path : cpp_string)
    (files : list cpp_string) : StatusOr (list cpp_string) :=
  match fuel with
  | O => Fault Diverges
  | S fuel' =>
      match fs_stat (c_str path) fs with
      | None => NotFound "input path does not exist"
      | Some RegularFile => Ok (if EndsWith path (str ".parquet") then files ++ [path] else files)
      | Some OtherFile => InvalidArgument "input path is neither file nor directory"
      | Some Directory =>
          match fs_readdir (c_str path) fs with
          | inl text => Unavailable ("failed to open input directory: " +:+ text)
          | inr names =>
              ofold (λ files child, CollectParquetFilesRecursive fuel' fs child files)
                (sort_strings (visible_children path names)) files
          end
      end
  end.

Definition CollectParquetFiles (fuel : nat) (fs : F) (input_path : cpp_string)
    : StatusOr (list cpp_string) :=
  let* files := CollectParquetFilesRecursive fuel fs input_path [] in
  if bool_decide (files = []) then NotFound "no parquet files found under input path"
  else Ok files.

(** ** Rows *)

(** [ArrowStatusToKv] of a failed status. *)
Definition ArrowStatusToKv {A} (text context : string) : StatusOr A :=
  InvalidArgument (context +:+ ": " +:+ text).

(** What the loops over files and rows build up: the specification of the
    artifact, the keys seen and the counts. *)
Record build_state : Type := MkBuildState {
  state_spec : ArtifactBuildSpec;
  seen_primary_keys : gset Z;
  state_result : BuildArtifactResult;
}.

Definition set_shards (shards : list ArtifactShardBuildSpec) (spec : ArtifactBuildSpec)
    : ArtifactBuildSpec :=
  MkArtifactBuildSpec (spec_artifact_id spec) (spec_shard_count spec) (spec_hash_seed spec)
    (spec_hash_version spec) (spec_layout spec) (include_source_progress_section spec)
    (spec_source_progress spec) shards.

(** [spec->shards[shard_id].rows.push_back(row)] *)
Definition push_row (shard_id : Z) (row : ArtifactRow) (spec : ArtifactBuildSpec)
    : StatusOr ArtifactBuildSpec :=
  let* shard := at_ (spec_shards spec) shard_id in
  let* shards := set_at (spec_shards spec) shard_id
                   (MkArtifactShardBuildSpec (shard_spec_id shard) (shard_rows shard ++ [row])) in
  Ok (set_shards shards spec).

(** [++result->row_count; ++result->rows_per_shard[shard_id];] *)
Definition count_row (shard_id : Z) (result : BuildArtifactResult)
    : StatusOr BuildArtifactResult :=
  let* count := at_ (rows_per_shard result) shard_id in
  let* counts := set_at (rows_per_shard result) shard_id (wrap64 (count + 1)) in
  Ok (MkBuildArtifactResult (wrap64 (row_count result + 1)) (result_shard_count result)
        (result_hash_seed result) (result_hash_version result) (result_schema_version result)
        counts (parquet_files result)).

Definition builder_shard (spec : ArtifactBuildSpec) (primary_key : Z) : Z :=
  wrap32 (Z.land (StableHash64 primary_key (spec_hash_seed spec) (spec_hash_version spec))
            (wrap64 (spec_shard_count spec - 1))).

(** One round of the loop over the rows of a table. *)
Definition add_table_row (schema_config : ParsedSchemaConfig) (layout : CompiledRowLayout)
    (columns : TableColumns) (state : build_state) (row_index : Z) : StatusOr build_state :=
  let* primary_key := ReadPrimaryKey (primary_key_column columns) row_index
                        (primary_key_name schema_config) in
  if decide (primary_key ∈ seen_primary_keys state) then
    FailedPrecondition "duplicate primary key in full artifact"
  else
  let* values := read_row layout columns row_index in
  let* encoded := EncodeRow layout values in
  let shard_id := builder_shard (state_spec state) primary_key in
  let* spec := push_row shard_id (MkArtifactRow primary_key encoded) (state_spec state) in
  let* result := count_row shard_id (state_result state) in
  Ok (MkBuildState spec ({[primary_key]} ∪ seen_primary_keys state) result).

Definition ReadParquetFileIntoSpec (schema_config : ParsedSchemaConfig)
    (layout : CompiledRowLayout) (fs : F) (state : build_state) (path : cpp_string)
    : StatusOr build_state :=
  match fs_parquet path fs with
  | OpenFileFailed text => ArrowStatusToKv text "failed to open parquet file"
  | BuildFailed text => ArrowStatusToKv text "failed to create parquet reader"
  | ReadTableFailed text => ArrowStatusToKv text "failed to read parquet file"
  | NullTable => InvalidArgument "parquet reader returned a null table"
  | TableRead table =>
      let* columns := ResolveTableColumns table schema_config layout in
      ofold (add_table_row schema_config layout columns) (seqZ 0 (num_rows table)) state
  end.

(** ** The directory *)

Definition check_options (options : BuildArtifactOptions) : StatusM :=
  if bool_decide (schema_path options = []) then InvalidArgument "schema path is required"
  else if bool_decide (input_path options = []) then InvalidArgument "input path is required"
  else if bool_decide (output_path options = []) then InvalidArgument "output path is required"
  else if bool_decide (build_artifact_id options = []) then InvalidArgument "artifact id is required"
  else Ok tt.

(** The parameters of the build: the options, else the schema file, else the
    defaults. *)
Record build_parameters : Type := MkBuildParameters {
  output_schema_version : Z;
  build_shard_count : Z;
  build_hash_seed : Z;
  build_hash_version : Z;
}.

Definition resolve_parameters (options : BuildArtifactOptions) (config : ParsedSchemaConfig)
    : StatusOr build_parameters :=
  let output_schema_version :=
    default (wrap64 (config_schema_version config + 1)) (option_schema_version options) in
  let shard_count := default (default 128 (config_shard_count config)) (option_shard_count options) in
  let hash_seed := default (default 0 (config_hash_seed config)) (option_hash_seed options) in
  let hash_version :=
    default (default 1 (config_hash_version config)) (option_hash_version options) in
  if negb (ForwardIndex.IsPowerOfTwo shard_count) then
    InvalidArgument "shard_count must be a non-zero power of two"
  else if hash_version =? 0 then InvalidArgument "hash_version must be non-zero"
  else if output_schema_version =? 0 then InvalidArgument "schema_version must be non-zero"
  else Ok (MkBuildParameters output_schema_version shard_count hash_seed hash_version).

(** The specification without rows and the result without counts. *)
Definition initial_spec (options : BuildArtifactOptions) (p : build_parameters)
    (layout : CompiledRowLayout) : ArtifactBuildSpec :=
  MkArtifactBuildSpec (build_artifact_id options) (build_shard_count p) (build_hash_seed p)
    (build_hash_version p) (Some layout) (negb (omit_source_progress options)) []
    ((λ shard_id, MkArtifactShardBuildSpec shard_id []) <$> seqZ 0 (build_shard_count p)).

Definition initial_result (p : build_parameters) (files : list cpp_string) : BuildArtifactResult :=
  MkBuildArtifactResult 0 (build_shard_count p) (build_hash_seed p) (build_hash_version p)
    (output_schema_version p) (replicate (Z.to_nat (build_shard_count p)) 0) files.

(** Everything up to the first write: the specification to write. *)
Definition build_spec (fuel : nat) (options : BuildArtifactOptions) (fs : F)
    : StatusOr (ParsedSchemaConfig * build_parameters * build_state) :=
  let* _ := check_options options in
  let* schema_config := ParseSchemaFile (fs_read (schema_path options) fs) in
  let* p := resolve_parameters options schema_config in
  let* runtime_schema := BuildRuntimeSchema schema_config (output_schema_version p) in
  let* layout := Compile runtime_schema in
  let* files := CollectParquetFiles fuel fs (input_path options) in
  let* state := ofold (ReadParquetFileIntoSpec schema_config layout fs) files
                  (MkBuildState (initial_spec options p layout) ∅ (initial_result p files)) in
  Ok (schema_config, p, state).

(** The loop over the shards. *)
Definition write_shard (options : BuildArtifactOptions) (spec : ArtifactBuildSpec) (shard_id : Z)
    : stateful F Status unit :=
  WriteArtifactShard fs_open fs_write
    (JoinPath (output_path options) (ShardFileName shard_id)) spec shard_id.

Definition BuildArtifactDirectory (fuel : nat) (options : BuildArtifactOptions)
    : stateful F Status BuildArtifactResult := λ fs,
  (do* built := slift (build_spec fuel options fs) in
   let '(schema_config, p, state) := built in
   do* _ := MakeDirs (output_path options) in
   do* _ := WriteSchemaFile fs_open fs_write (JoinPath (output_path options) (str "schema.yaml"))
              schema_config (output_schema_version p) (build_shard_count p) (build_hash_seed p)
              (build_hash_version p) in
   do* _ := sfor (write_shard options (state_spec state)) (seqZ 0 (build_shard_count p)) in
   sret (state_result state)) fs.

End Builder.
