(* ===== verification/OfflineMain.v ===== *)
(** * The command line of the offline builder: [tools/offline/src/kv_index_build_artifact.cc]

    Arguments are parsed one after another; the first that is wrong ends the
    program with exit code 2 and the usage.  The output and error streams are
    the texts written to them. *)

From S2P Require Import Prelude Status Types Schema RowStorage MmapBacking.
From S2P Require Import OfflineSchema OfflineColumns OfflineBuilder.

Record Options : Type := MkOptions {
  arg_schema_path : cpp_string;
  arg_input_path : cpp_string;
  arg_output_path : cpp_string;
  arg_artifact_id : cpp_string;
  arg_shard_count : option Z;
  arg_hash_seed : option Z;
  arg_hash_version : option Z;
  arg_schema_version : option Z;
  arg_omit_source_progress : bool;
  help : bool;
}.

Definition Options_default : Options := MkOptions [] [] [] [] None None None None false false.

Definition PrintUsage : cpp_string :=
  str "usage: kv_index_build_artifact \" ++ newline
  ++ str "  --schema schema.yaml \" ++ newline
  ++ str "  --input parquet_dir \" ++ newline
  ++ str "  --output artifact_dir \" ++ newline
  ++ str "  --artifact_id build-id \" ++ newline
  ++ str "  [--schema_version N] [--shard_count 128] \" ++ newline
  ++ str "  [--hash_seed 0] [--hash_version 1] [--omit_source_progress]" ++ newline.

(** ** Numbers *)

(** The loop of [ParseUInt32]. *)
Fixpoint uint32_digits (value : Z) (text : cpp_string) : option Z :=
  match text with
  | [] => Some (wrap32 value)
  | c :: rest =>
      if (byte_to_Z c <? 48) || (57 <? byte_to_Z c) then None
      else
      let value := wrap64 (wrap64 (value * 10) + (byte_to_Z c - 48)) in
      if u32_max <? value then None else uint32_digits value rest
  end.

Definition ParseUInt32 (text : cpp_string) : option Z :=
  match text with [] => None | _ => uint32_digits 0 text end.

(** The loop of [ParseUInt64]. *)
Fixpoint uint64_digits (value : Z) (text : cpp_string) : option Z :=
  match text with
  | [] => Some value
  | c :: rest =>
      if (byte_to_Z c <? 48) || (57 <? byte_to_Z c) then None
      else
      let digit := byte_to_Z c - 48 in
      if (u64_max - digit) / 10 <? value then None
      else uint64_digits (wrap64 (wrap64 (value * 10) + digit)) rest
  end.

Definition ParseUInt64 (text : cpp_string) : option Z :=
  match text with [] => None | _ => uint64_digits 0 text end.

(** A value that must not be zero. *)
Definition non_zero (parsed : option Z) : option Z :=
  match parsed with
  | Some n => if n =? 0 then None else Some n
  | None => None
  end.

(** ** Arguments *)

Definition set_schema (v : cpp_string) (o : Options) : Options :=
  MkOptions v (arg_input_path o) (arg_output_path o) (arg_artifact_id o) (arg_shard_count o)
    (arg_hash_seed o) (arg_hash_version o) (arg_schema_version o) (arg_omit_source_progress o)
    (help o).
Definition set_input (v : cpp_string) (o : Options) : Options :=
  MkOptions (arg_schema_path o) v (arg_output_path o) (arg_artifact_id o) (arg_shard_count o)
    (arg_hash_seed o) (arg_hash_version o) (arg_schema_version o) (arg_omit_source_progress o)
    (help o).
Definition set_output (v : cpp_string) (o : Options) : Options :=
  MkOptions (arg_schema_path o) (arg_input_path o) v (arg_artifact_id o) (arg_shard_count o)
    (arg_hash_seed o) (arg_hash_version o) (arg_schema_version o) (arg_omit_source_progress o)
    (help o).
Definition set_artifact_id (v : cpp_string) (o : Options) : Options :=
  MkOptions (arg_schema_path o) (arg_input_path o) (arg_output_path o) v (arg_shard_count o)
    (arg_hash_seed o) (arg_hash_version o) (arg_schema_version o) (arg_omit_source_progress o)
    (help o).
Definition set_shard_count (v : Z) (o : Options) : Options :=
  MkOptions (arg_schema_path o) (arg_input_path o) (arg_output_path o) (arg_artifact_id o) (Some v)
    (arg_hash_seed o) (arg_hash_version o) (arg_schema_version o) (arg_omit_source_progress o)
    (help o).
Definition set_hash_seed (v : Z) (o : Options) : Options :=
  MkOptions (arg_schema_path o) (arg_input_path o) (arg_output_path o) (arg_artifact_id o)
    (arg_shard_count o) (Some v) (arg_hash_version o) (arg_schema_version o)
    (arg_omit_source_progress o) (help o).
Definition set_hash_version (v : Z) (o : Options) : Options :=
  MkOptions (arg_schema_path o) (arg_input_path o) (arg_output_path o) (arg_artifact_id o)
    (arg_shard_count o) (arg_hash_seed o) (Some v) (arg_schema_version o)
    (arg_omit_source_progress o) (help o).
Definition set_schema_version (v : Z) (o : Options) : Options :=
  MkOptions (arg_schema_path o) (arg_input_path o) (arg_output_path o) (arg_artifact_id o)
    (arg_shard_count o) (arg_hash_seed o) (arg_hash_version o) (Some v)
    (arg_omit_source_progress o) (help o).
Definition set_omit (o : Options) : Options :=
  MkOptions (arg_schema_path o) (arg_input_path o) (arg_output_path o) (arg_artifact_id o)
    (arg_shard_count o) (arg_hash_seed o) (arg_hash_version o) (arg_schema_version o) true (help o).
Definition set_help (o : Options) : Options :=
  MkOptions (arg_schema_path o) (arg_input_path o) (arg_output_path o) (arg_artifact_id o)
    (arg_shard_count o) (arg_hash_seed o) (arg_hash_version o) (arg_schema_version o)
    (arg_omit_source_progress o) true.

(** The arguments that take a value, and what they store: a text, or a number
    that may be refused. *)
Definition text_argument (arg : cpp_string) : option (cpp_string → Options → Options) :=
  if bool_decide (arg = str "--schema") then Some set_schema
  else if bool_decide (arg = str "--input") then Some set_input
  else if bool_decide (arg = str "--output") then Some set_output
  else if bool_decide (arg = str "--artifact_id") then Some set_artifact_id
  else None.

Definition number_argument (arg : cpp_string)
    : option ((cpp_string → option Z) * (Z → Options → Options)) :=
  if bool_decide (arg = str "--shard_count") then
    Some (λ text, non_zero (ParseUInt32 text), set_shard_count)
  else if bool_decide (arg = str "--hash_seed") then Some (ParseUInt64, set_hash_seed)
  else if bool_decide (arg = str "--hash_version") then
    Some (λ text, non_zero (ParseUInt32 text), set_hash_version)
  else if bool_decide (arg = str "--schema_version") then
    Some (λ text, non_zero (ParseUInt64 text), set_schema_version)
  else None.

(** The loop over the arguments behind the program's name; the error is what
    is written to the error stream.  [ValueFor] is the argument that follows. *)
Fixpoint ParseArgs (args : list cpp_string) (options : Options) : outcome cpp_string Options :=
  match args with
  | [] => Ok options
  | arg :: rest =>
      if bool_decide (arg = str "--help") || bool_decide (arg = str "-h") then Ok (set_help options)
      else match text_argument arg with
      | Some set =>
          match rest with
          | [] => Err (str "missing value for " ++ arg ++ newline)
          | value :: rest' => ParseArgs rest' (set value options)
          end
      | None =>
          match number_argument arg with
          | Some (parse, set) =>
              match rest with
              | [] => Err (str "invalid value for " ++ arg ++ newline)
              | value :: rest' =>
                  match parse value with
                  | None => Err (str "invalid value for " ++ arg ++ newline)
                  | Some parsed => ParseArgs rest' (set parsed options)
                  end
              end
          | None =>
              if bool_decide (arg = str "--omit_source_progress") then
                ParseArgs rest (set_omit options)
              else Err (str "unknown argument: " ++ arg ++ newline)
          end
      end
  end.

Definition ValidateRequired (options : Options) : outcome cpp_string unit :=
  if bool_decide (arg_schema_path options = []) then Err (str "missing required --schema" ++ newline)
  else if bool_decide (arg_input_path options = []) then
    Err (str "missing required --input" ++ newline)
  else if bool_decide (arg_output_path options = []) then
    Err (str "missing required --output" ++ newline)
  else if bool_decide (arg_artifact_id options = []) then
    Err (str "missing required --artifact_id" ++ newline)
  else Ok tt.

(** ** The program *)

(** What the program leaves: its exit code and the texts of both streams. *)
Record program_exit : Type := MkExit { exit_code : Z; out_text : cpp_string; err_text : cpp_string }.

Definition build_options_of (o : Options) : BuildArtifactOptions :=
  MkBuildArtifactOptions (arg_schema_path o) (arg_input_path o) (arg_output_path o)
    (arg_artifact_id o) (arg_shard_count o) (arg_hash_seed o) (arg_hash_version o)
    (arg_schema_version o) (arg_omit_source_progress o).

Definition report (o : Options) (result : BuildArtifactResult) : cpp_string :=
  str "wrote " ++ number (row_count result) ++ str " rows across "
  ++ number (result_shard_count result) ++ str " shards to " ++ arg_output_path o
  ++ str " with schema_version=" ++ number (result_schema_version result)
  ++ str ", hash_seed=" ++ number (result_hash_seed result)
  ++ str ", hash_version=" ++ number (result_hash_version result) ++ newline.

Section Program.
Context {F : Type} `{OfflineSystem F}.

(** [main]; an exception of the build escapes. *)
Definition main (fuel : nat) (args : list cpp_string) : stateful F Status program_exit := λ fs,
  match ParseArgs args Options_default with
  | Err text => (Ok (MkExit 2 [] (text ++ PrintUsage)), fs)
  | Fault f => (Fault f, fs)
  | Ok options =>
      if help options then (Ok (MkExit 0 PrintUsage []), fs)
      else match ValidateRequired options with
      | Err text => (Ok (MkExit 2 [] (text ++ PrintUsage)), fs)
      | Fault f => (Fault f, fs)
      | Ok _ =>
          match BuildArtifactDirectory fuel (build_options_of options) fs with
          | (Ok result, fs) => (Ok (MkExit 0 (report options result) []), fs)
          | (Err e, fs) =>
              (Ok (MkExit 1 [] (str "failed to build artifact: " ++ str (status_message e)
                                ++ newline)), fs)
          | (Fault f, fs) => (Fault f, fs)
          end
      end
  end.
End Program.
