(* ===== verification/OfflineBuildProofs.v ===== *)
(** * The build sorts the rows of the tables into shards

    [tables_rows] reads the same tables as a list of keys with their values;
    the loops of the builder accept exactly what it accepts with distinct keys,
    and leave every row in the shard of its key. *)

From S2P Require Import Prelude Status Hash Types Schema SchemaProofs RowStorage ArtifactFormat.
From S2P Require Import ArtifactWriter ForwardIndexProofs OfflineSchema OfflineEncode.
From S2P Require Import OfflineColumns OfflineBuilder.
From S2P Require ForwardIndex.

(** ** Indexed updates *)

Lemma fmap_seqZ_at {E X} (f : Z → X) n k : 0 ≤ k < n → @at_ E X (f <$> seqZ 0 n) k = Ok (f k).
Proof.
  intros Hk. apply at_Ok. split; [lia|]. rewrite list_lookup_fmap, lookup_seqZ_lt by lia.
  cbn. do 2 f_equal. lia.
Qed.

Lemma fmap_seqZ_set {E X} (f g : Z → X) n k :
  0 ≤ k < n → (∀ j, j ≠ k → g j = f j) →
  @set_at E X (f <$> seqZ 0 n) k (g k) = Ok (g <$> seqZ 0 n).
Proof.
  intros Hk Hg. rewrite set_at_in by (unfold Zlen; rewrite length_fmap, length_seqZ; lia).
  f_equal. apply list_eq. intros i. rewrite list_lookup_fmap.
  destruct (decide (i = Z.to_nat k)) as [->|Hne].
  - rewrite list_lookup_insert_eq by (rewrite length_fmap, length_seqZ; lia).
    rewrite lookup_seqZ_lt by lia. cbn. do 2 f_equal; lia.
  - rewrite list_lookup_insert_ne, list_lookup_fmap by done.
    destruct (decide (Z.of_nat i < n)); [|by rewrite lookup_seqZ_ge by lia].
    rewrite lookup_seqZ_lt by lia. cbn. f_equal. rewrite Hg; [done|lia].
Qed.

Lemma filter_push {A} (P : A → Prop) {HP : ∀ a, Decision (P a)} (done : list A) (next : A) :
  filter P (done ++ [next]) = filter P done ++ filter P [next].
Proof. apply filter_app. Qed.

(** ** The shard of a key *)

Lemma builder_shard_mod spec k :
  is_u32 (spec_shard_count spec) → ForwardIndex.IsPowerOfTwo (spec_shard_count spec) = true →
  builder_shard spec k
  = StableHash64 k (spec_hash_seed spec) (spec_hash_version spec) mod spec_shard_count spec.
Proof.
  intros Hn Hp. destruct (IsPowerOfTwo_single _ Hn Hp) as [Hs Hpos]. unfold is_u32 in Hn.
  unfold builder_shard. rewrite wrap64_small by (unfold is_u64; lia).
  rewrite land_single_bit by (lia || done). apply wrap32_small. unfold is_u32.
  pose proof (Z.mod_pos_bound (StableHash64 k (spec_hash_seed spec) (spec_hash_version spec))
    (spec_shard_count spec) Hpos). lia.
Qed.

Lemma builder_shard_range spec k :
  is_u32 (spec_shard_count spec) → ForwardIndex.IsPowerOfTwo (spec_shard_count spec) = true →
  0 ≤ builder_shard spec k < spec_shard_count spec.
Proof.
  intros Hn Hp. rewrite builder_shard_mod by done. apply Z.mod_pos_bound.
  by apply (IsPowerOfTwo_single _ Hn Hp).
Qed.

Section Tables.
Context `{Arrow} {F : Type} `{!OfflineSystem F}.

(** ** What the tables hold *)

Definition table_row (config : ParsedSchemaConfig) (L : CompiledRowLayout) (columns : TableColumns)
    (row_index : Z) : StatusOr (Z * gmap Z FieldValue) :=
  let* key := ReadPrimaryKey (primary_key_column columns) row_index (primary_key_name config) in
  let* values := read_row L columns row_index in
  Ok (key, values).

Definition table_rows (config : ParsedSchemaConfig) (L : CompiledRowLayout) (table : arrow_table)
    : StatusOr (list (Z * gmap Z FieldValue)) :=
  let* columns := ResolveTableColumns table config L in
  omapM (table_row config L columns) (seqZ 0 (num_rows table)).

Definition tables_rows (config : ParsedSchemaConfig) (L : CompiledRowLayout)
    (tables : list arrow_table) : StatusOr (list (Z * gmap Z FieldValue)) :=
  let* rows := omapM (table_rows config L) tables in
  Ok (concat rows).

Definition encode_table_row (L : CompiledRowLayout) (row : Z * gmap Z FieldValue)
    : StatusOr ArtifactRow :=
  let* encoded := EncodeRow L row.2 in
  Ok (MkArtifactRow row.1 encoded).

(** ** The state of the build after some rows *)

Section State.
Context (spec : ArtifactBuildSpec) (result : BuildArtifactResult).

Definition shard_part (rows : list ArtifactRow) (shard_id : Z) : list ArtifactRow :=
  filter (λ r, builder_shard spec (artifact_primary_key r) = shard_id) rows.

Definition shards_of (rows : list ArtifactRow) : list ArtifactShardBuildSpec :=
  (λ k, MkArtifactShardBuildSpec k (shard_part rows k)) <$> seqZ 0 (spec_shard_count spec).

Definition counted (rows : list ArtifactRow) : BuildArtifactResult :=
  MkBuildArtifactResult (wrap64 (Zlen rows)) (result_shard_count result) (result_hash_seed result)
    (result_hash_version result) (result_schema_version result)
    ((λ k, wrap64 (Zlen (shard_part rows k))) <$> seqZ 0 (spec_shard_count spec))
    (parquet_files result).

Definition state_of (rows : list ArtifactRow) : build_state :=
  MkBuildState (set_shards (shards_of rows) spec)
    (list_to_set (artifact_primary_key <$> rows)) (counted rows).

Hypothesis Hn : is_u32 (spec_shard_count spec).
Hypothesis Hpow : ForwardIndex.IsPowerOfTwo (spec_shard_count spec) = true.

Lemma shard_part_snoc rows r k :
  shard_part (rows ++ [r]) k
  = shard_part rows k
    ++ (if decide (builder_shard spec (artifact_primary_key r) = k) then [r] else []).
Proof. exact (filter_push _ rows r). Qed.

Lemma push_row_state rows r :
  push_row (builder_shard spec (artifact_primary_key r)) r (set_shards (shards_of rows) spec)
  = Ok (set_shards (shards_of (rows ++ [r])) spec).
Proof.
  pose proof (builder_shard_range spec (artifact_primary_key r) Hn Hpow) as Hk.
  set (k := builder_shard spec _) in *. unfold push_row. cbn [set_shards spec_shards].
  unfold shards_of at 1. rewrite fmap_seqZ_at by done. cbn [obind shard_spec_id shard_rows].
  set (g := λ j, MkArtifactShardBuildSpec j (shard_part (rows ++ [r]) j)).
  replace (MkArtifactShardBuildSpec k (shard_part rows k ++ [r])) with (g k).
  - unfold shards_of at 1. rewrite (fmap_seqZ_set _ g); [done|done|]. intros j Hj. unfold g.
    rewrite shard_part_snoc, decide_False by (unfold k in Hj; congruence). by rewrite app_nil_r.
  - unfold g. by rewrite shard_part_snoc, decide_True by done.
Qed.

Lemma wrap64_succ n : wrap64 (wrap64 n + 1) = wrap64 (n + 1).
Proof. unfold wrap64. by rewrite Z.add_mod_idemp_l by lia. Qed.

Lemma count_row_state rows r :
  count_row (builder_shard spec (artifact_primary_key r)) (counted rows)
  = Ok (counted (rows ++ [r])).
Proof.
  pose proof (builder_shard_range spec (artifact_primary_key r) Hn Hpow) as Hk.
  set (k := builder_shard spec _) in *. unfold count_row, counted at 1. cbn [rows_per_shard].
  rewrite fmap_seqZ_at by done. cbn [obind]. rewrite wrap64_succ.
  set (g := λ j, wrap64 (Zlen (shard_part (rows ++ [r]) j))).
  replace (wrap64 (Zlen (shard_part rows k) + 1)) with (g k).
  - unfold counted at 1. cbn [rows_per_shard]. rewrite (fmap_seqZ_set _ g).
    + cbn [obind]. unfold counted. cbn [row_count]. rewrite wrap64_succ. f_equal. f_equal.
      by rewrite Zlen_app.
    + done.
    + intros j Hj. unfold g. rewrite shard_part_snoc, decide_False by (unfold k in Hj; congruence).
      by rewrite app_nil_r.
  - unfold g. by rewrite shard_part_snoc, decide_True, Zlen_app by done.
Qed.

Lemma builder_shard_set shards k : builder_shard (set_shards shards spec) k = builder_shard spec k.
Proof. done. Qed.

(** ** One row *)

(** The key of the row and its encoding, or why it is not taken. *)
Lemma add_table_row_Ok config L columns rows i state :
  add_table_row config L columns (state_of rows) i = Ok state ↔
  ∃ row r, table_row config L columns i = Ok row ∧ encode_table_row L row = Ok r
    ∧ (artifact_primary_key r ∉ artifact_primary_key <$> rows) ∧ state = state_of (rows ++ [r]).
Proof.
  unfold add_table_row, table_row, encode_table_row. cbn [state_of seen_primary_keys state_spec state_result].
  assert (∀ k e, k ∉ artifact_primary_key <$> rows →
    (let* spec0 := push_row (builder_shard (set_shards (shards_of rows) spec) k) (MkArtifactRow k e)
                     (set_shards (shards_of rows) spec) in
     let* result0 := count_row (builder_shard (set_shards (shards_of rows) spec) k) (counted rows) in
     Ok (MkBuildState spec0 ({[k]} ∪ list_to_set (artifact_primary_key <$> rows)) result0))
    = Ok (state_of (rows ++ [MkArtifactRow k e]))) as Hok.
  { intros k e Hk. rewrite builder_shard_set. set (r := MkArtifactRow k e).
    change k with (artifact_primary_key r) at 1. rewrite push_row_state. cbn [obind].
    change k with (artifact_primary_key r) at 1. rewrite count_row_state. cbn [obind].
    unfold state_of. f_equal. f_equal. rewrite fmap_app, list_to_set_app_L. cbn. set_solver. }
  destruct (ReadPrimaryKey _ _ _) as [k|e|ft]; cbn [obind]; [|by split; [done|intros (? & ? & ? & ?)]..].
  case_decide as Hd; rewrite elem_of_list_to_set in Hd.
  { split; [done|]. intros (row & r & Hrow & Hr & Hni & _).
    apply obind_Ok in Hrow as (vs & _ & [= <-]). apply obind_Ok in Hr as (e & _ & [= <-]). done. }
  destruct (read_row _ _ _) as [vs|e|ft]; cbn [obind]; [|by split; [done|intros (? & ? & ? & ?)]..].
  split.
  - intros (e & He & Hs)%obind_Ok. rewrite Hok in Hs by done. injection Hs as <-.
    eexists _, _. split; [done|]. cbn. rewrite He. cbn. by split_and!.
  - intros (row & r & [= <-] & Hr & Hni & ->). cbn in Hr. apply obind_Ok in Hr as (e & He & [= <-]).
    rewrite He. cbn [obind]. by apply Hok.
Qed.

(** ** All rows *)

(** Keys stay distinct; rows keep their order. *)
Definition accepted (config : ParsedSchemaConfig) (L : CompiledRowLayout) (table : arrow_table)
    (more : list ArtifactRow) : Prop :=
  ∃ rows, table_rows config L table = Ok rows ∧ omapM (encode_table_row L) rows = Ok more.

Lemma fresh_app (rows more : list ArtifactRow) r :
  NoDup (artifact_primary_key <$> rows) →
  ((artifact_primary_key r ∉ artifact_primary_key <$> rows)
   ∧ NoDup (artifact_primary_key <$> (rows ++ [r]) ++ more)
   ↔ NoDup (artifact_primary_key <$> rows ++ r :: more)).
Proof.
  intros Hnd. rewrite <-app_assoc. cbn [app]. split; [by intros []|].
  intros Hall. split; [|done]. rewrite fmap_app, fmap_cons in Hall.
  apply NoDup_app in Hall as (_ & Hd & _). intros Hin. apply (Hd _ Hin). left.
Qed.

Lemma rows_loop_Ok config L columns ids rows state :
  NoDup (artifact_primary_key <$> rows) →
  ofold (add_table_row config L columns) ids (state_of rows) = Ok state ↔
  ∃ more, (∃ raw, omapM (table_row config L columns) ids = Ok raw
                  ∧ omapM (encode_table_row L) raw = Ok more)
    ∧ NoDup (artifact_primary_key <$> rows ++ more) ∧ state = state_of (rows ++ more).
Proof.
  revert rows. induction ids as [|i ids IH]; intros rows Hnd; cbn [ofold omapM].
  { split.
    - intros [= <-]. exists []. rewrite app_nil_r. split; [by exists []|done].
    - intros (more & (raw & [= <-] & [= <-]) & _ & ->). by rewrite app_nil_r. }
  rewrite obind_Ok. split.
  - intros (s1 & (row & r & Hrow & Hr & Hni & ->)%add_table_row_Ok & Hrest).
    apply IH in Hrest as (more & (raw & Hraw & Hmore) & Hnd' & ->).
    2:{ rewrite fmap_app. apply NoDup_app. split; [done|]. cbn. split; [set_solver|apply NoDup_singleton]. }
    exists (r :: more). split_and!.
    + exists (row :: raw). rewrite Hrow, Hraw. cbn [obind omapM]. by rewrite Hr, Hmore.
    + by apply fresh_app.
    + by rewrite <-app_assoc.
  - intros (all & (raws & (row & Hrow & (raw & Hraw & [= <-])%obind_Ok)%obind_Ok & Hall) & Hnd' & ->).
    cbn [omapM] in Hall. apply obind_Ok in Hall as (r & Hr & (more & Hmore & [= <-])%obind_Ok).
    apply fresh_app in Hnd' as [Hni Hnd']; [|done]. exists (state_of (rows ++ [r])). split.
    + apply add_table_row_Ok. by exists row, r.
    + apply IH.
      * rewrite fmap_app in Hnd'. by apply NoDup_app in Hnd' as (? & _).
      * exists more. split; [by exists raw|]. split; [done|]. by rewrite <-app_assoc.
Qed.

Lemma table_loop_Ok config L fs path table rows state :
  NoDup (artifact_primary_key <$> rows) → fs_parquet path fs = TableRead table →
  ReadParquetFileIntoSpec config L fs (state_of rows) path = Ok state ↔
  ∃ more, accepted config L table more
    ∧ NoDup (artifact_primary_key <$> rows ++ more) ∧ state = state_of (rows ++ more).
Proof.
  intros Hnd Ht. unfold ReadParquetFileIntoSpec, accepted, table_rows. rewrite Ht.
  destruct (ResolveTableColumns _ _ _) as [columns|e|ft]; cbn [obind].
  - by rewrite rows_loop_Ok.
  - split; [done|]. by intros (? & (? & ? & ?) & ?).
  - split; [done|]. by intros (? & (? & ? & ?) & ?).
Qed.

(** The tables of the files, when every file can be read. *)
Definition read_table (fs : F) (path : cpp_string) : StatusOr arrow_table :=
  match fs_parquet path fs with
  | TableRead table => Ok table
  | _ => InvalidArgument ""
  end.

Lemma files_loop_Ok config L fs files rows state :
  NoDup (artifact_primary_key <$> rows) →
  ofold (ReadParquetFileIntoSpec config L fs) files (state_of rows) = Ok state ↔
  ∃ tables mores, omapM (read_table fs) files = Ok tables
    ∧ Forall2 (accepted config L) tables mores
    ∧ NoDup (artifact_primary_key <$> rows ++ concat mores) ∧ state = state_of (rows ++ concat mores).
Proof.
  revert rows. induction files as [|path files IH]; intros rows Hnd; cbn [ofold omapM].
  { split.
    - intros [= <-]. exists [], []. cbn [concat]. rewrite app_nil_r. by split_and!.
    - intros (tables & mores & [= <-] & Hm & _ & ->). inversion Hm. cbn [concat]. by rewrite app_nil_r. }
  unfold read_table at 1. destruct (fs_parquet path fs) as [| | | |table] eqn:Ht.
  1-4: unfold ReadParquetFileIntoSpec; rewrite Ht; split; [done|by intros (? & ? & ? & ?)].
  cbn [obind]. rewrite obind_Ok. split.
  - intros (s1 & Hs1 & Hrest). apply (table_loop_Ok _ _ _ _ _ _ _ Hnd Ht) in Hs1 as (more & Hacc & Hnd' & ->).
    apply IH in Hrest as (tables & mores & -> & Hm & Hnd'' & ->); [|done].
    exists (table :: tables), (more :: mores). cbn [obind concat]. rewrite <-app_assoc in *.
    split_and!; [done|by constructor|done|done].
  - intros (all & mores & (tables & Htab & [= <-])%obind_Ok & Hm & Hnd' & ->).
    apply Forall2_cons_inv_l in Hm as (more & mores' & Hacc & Hm & ->). cbn [concat] in *.
    rewrite app_assoc in Hnd'.
    assert (NoDup (artifact_primary_key <$> rows ++ more)) as Hnd1
      by (rewrite fmap_app in Hnd'; by apply NoDup_app in Hnd' as (? & _)).
    exists (state_of (rows ++ more)). split.
    + apply (table_loop_Ok _ _ _ _ _ _ _ Hnd Ht). by exists more.
    + apply IH; [done|]. exists tables, mores'. by rewrite <-app_assoc in *.
Qed.
End State.
End Tables.
