(* ===== verification/OfflineInputProofs.v ===== *)
(** * The inputs of a build

    [CollectParquetFiles] ends on every tree of directories and lists exactly
    the Parquet files below the path, directory by directory in the order of
    their names.  The numbers of a schema file fit their C++ types, its fields
    have no defaults, and the schema built from them is one the program can
    reach. *)

From S2P Require Import Prelude Status Types Schema SchemaProofs RowStorage Kafka ArtifactFormat.
From S2P Require Import MmapBacking ArtifactSchema OfflineSchema OfflineEncode OfflineColumns.
From S2P Require Import OfflineColumnsProofs OfflineBuilder.

(** ** Input files *)

(** ** The order of names *)

#[export] Instance string_before_total : Total string_before.
Proof.
  unfold string_before. intros a. induction a as [|x a IH]; intros b; [by left|].
  destruct b as [|y b]; [by right|]. cbn [string_le].
  destruct (Z.lt_trichotomy (byte_to_Z x) (byte_to_Z y)) as [Hl|[->|Hg]].
  - left. by rewrite (proj2 (Z.ltb_lt _ _) Hl).
  - rewrite Z.ltb_irrefl, Z.eqb_refl. cbn. apply IH.
  - right. by rewrite (proj2 (Z.ltb_lt _ _) Hg).
Qed.

#[export] Instance string_before_trans : Transitive string_before.
Proof.
  unfold string_before. intros a. induction a as [|x a IH]; intros b c Hab Hbc; [done|].
  destruct b as [|y b]; [done|]. destruct c as [|z c]; [done|]. cbn [string_le] in *.
  apply orb_true_iff in Hab as [Hab|[Hab Hab']%andb_true_iff];
    apply orb_true_iff in Hbc as [Hbc|[Hbc Hbc']%andb_true_iff]; btoprop;
    apply orb_true_iff; [left; apply Z.ltb_lt; lia..|right].
  apply andb_true_iff. split; [apply Z.eqb_eq; lia|by apply (IH b)].
Qed.

Lemma sort_strings_spec names :
  sort_strings names ≡ₚ names ∧ StronglySorted string_before (sort_strings names).
Proof.
  split; [apply merge_sort_Permutation|]. apply StronglySorted_merge_sort; apply _.
Qed.

Lemma sort_strings_in name names : name ∈ sort_strings names ↔ name ∈ names.
Proof. by rewrite (proj1 (sort_strings_spec names)). Qed.

Section Files.
Context `{Arrow} {F : Type} `{!OfflineSystem F} (fs : F).

(** A path below [path] that the walk visits. *)
Inductive visits : cpp_string → cpp_string → Prop :=
| visits_here path : visits path path
| visits_child path names child below :
    fs_stat (c_str path) fs = Some Directory → fs_readdir (c_str path) fs = inr names →
    child ∈ visible_children path names → visits child below → visits path below.

Definition parquet_file (path : cpp_string) : Prop :=
  fs_stat (c_str path) fs = Some RegularFile ∧ EndsWith path (str ".parquet") = true.

(** The walk cannot go on at this path. *)
Definition blocked (path : cpp_string) : Prop :=
  match fs_stat (c_str path) fs with
  | None | Some OtherFile => True
  | Some RegularFile => False
  | Some Directory => ∃ text, fs_readdir (c_str path) fs = inl text
  end.

(** Directories are nested fewer than [n] deep. *)
Fixpoint nested (n : nat) (path : cpp_string) : Prop :=
  match n with
  | O => False
  | S n' =>
      ∀ names child, fs_stat (c_str path) fs = Some Directory →
        fs_readdir (c_str path) fs = inr names → child ∈ visible_children path names →
        nested n' child
  end.

(** What a walk over the paths [reach] returns: the Parquet files among them,
    or an error at one where it is blocked. *)
Definition lists (reach : cpp_string → Prop) (files : list cpp_string)
    (c : StatusOr (list cpp_string)) : Prop :=
  match c with
  | Ok files' => ∃ more, files' = files ++ more
      ∧ (∀ file, file ∈ more ↔ reach file ∧ parquet_file file)
      ∧ ∀ below, reach below → ¬ blocked below
  | Err _ => ∃ below, reach below ∧ blocked below
  | Fault _ => False
  end.

Lemma lists_ext (reach reach' : cpp_string → Prop) files c :
  (∀ p, reach p ↔ reach' p) → lists reach files c → lists reach' files c.
Proof.
  intros He. destruct c as [files'|e|ft]; cbn; [| |done].
  - intros (more & -> & Hm & Hb). exists more. split; [done|].
    split; [intros file; by rewrite Hm, He|intros below Hr; by apply Hb, He].
  - intros (below & Hr & Hb). exists below. by rewrite <-He.
Qed.

Lemma lists_add path reach files c :
  ¬ parquet_file path → ¬ blocked path → lists reach files c →
  lists (λ p, p = path ∨ reach p) files c.
Proof.
  intros Hp Hb. destruct c as [files'|e|ft]; cbn; [| |done].
  - intros (more & -> & Hm & Hbl). exists more. split; [done|]. split.
    + intros file. rewrite Hm. naive_solver.
    + intros below [->|Hr]; [done|by apply Hbl].
  - intros (below & Hr & Hbl). exists below. auto.
Qed.

(** A path that is no directory. *)
Lemma visits_leaf path below :
  fs_stat (c_str path) fs ≠ Some Directory → visits path below ↔ below = path.
Proof. intros Hs. split; [by inversion 1|intros ->; constructor]. Qed.

Lemma visits_directory path names below :
  fs_stat (c_str path) fs = Some Directory → fs_readdir (c_str path) fs = inr names →
  visits path below ↔ below = path
    ∨ ∃ child, child ∈ sort_strings (visible_children path names) ∧ visits child below.
Proof.
  intros Hs Hd. setoid_rewrite sort_strings_in. split.
  - inversion 1 as [|? names' child ? Hs' Hd' Hc Hv]; subst; [by left|right].
    exists child. split; [congruence|done].
  - intros [->|(child & Hc & Hv)]; [constructor|by eapply visits_child].
Qed.

Lemma collect_file path files :
  fs_stat (c_str path) fs = Some RegularFile →
  lists (visits path) files
    (Ok (if EndsWith path (str ".parquet") then files ++ [path] else files)).
Proof.
  intros Hs. assert (∀ p, visits path p ↔ p = path) as Hv
    by (intros p; apply visits_leaf; by rewrite Hs).
  exists (if EndsWith path (str ".parquet") then [path] else []). split_and!.
  - destruct (EndsWith _ _); [done|by rewrite app_nil_r].
  - intros file. rewrite Hv. unfold parquet_file.
    destruct (EndsWith path _) eqn:He; rewrite ?list_elem_of_singleton, ?elem_of_nil.
    + split; [by intros ->|by intros []].
    + split; [done|]. intros (-> & _ & He'). congruence.
  - intros below ->%Hv. unfold blocked. rewrite Hs. tauto.
Qed.

(** The loop over the children of a directory. *)
Lemma collect_children (walk : list cpp_string → cpp_string → StatusOr (list cpp_string)) l files :
  (∀ child files, child ∈ l → lists (visits child) files (walk files child)) →
  lists (λ below, ∃ child, child ∈ l ∧ visits child below) files (ofold walk l files).
Proof.
  revert files. induction l as [|c l IH]; intros files Hw; cbn [ofold].
  { exists []. rewrite app_nil_r. split_and!; [done| |].
    - intros file. split; [by intros ?%elem_of_nil|by intros ((c & ?%elem_of_nil & _) & _)].
    - by intros below (c & ?%elem_of_nil & _). }
  pose proof (Hw c files ltac:(left)) as Hc.
  destruct (walk files c) as [files1|e|ft]; cbn [obind]; [| |done].
  - destruct Hc as (more1 & -> & Hm1 & Hb1).
    specialize (IH (files ++ more1) (λ c' fs' Hc', Hw c' fs' (list_elem_of_further _ _ _ Hc'))).
    destruct (ofold walk l _) as [files2|e|ft]; [| |done].
    + destruct IH as (more2 & -> & Hm2 & Hb2). exists (more1 ++ more2). split_and!.
      * by rewrite app_assoc.
      * intros file. rewrite elem_of_app, Hm1, Hm2. setoid_rewrite elem_of_cons. naive_solver.
      * intros below (c' & [->|Hc']%elem_of_cons & Hv); eauto.
    + destruct IH as (below & (c' & Hc' & Hv) & Hb). exists below. split; [|done].
      exists c'. split; [by right|done].
  - destruct Hc as (below & Hv & Hb). exists below. split; [|done]. exists c. split; [left|done].
Qed.

Lemma collect_spec n fuel path files :
  nested n path → (n ≤ fuel)%nat →
  lists (visits path) files (CollectParquetFilesRecursive fuel fs path files).
Proof.
  revert fuel path files. induction n as [|n IH]; intros fuel path files Hn Hle; [done|].
  destruct fuel as [|fuel]; [lia|]. cbn [CollectParquetFilesRecursive].
  assert (blocked path → ∃ below, visits path below ∧ blocked below) as Hhere
    by (intros Hb; exists path; by split; [constructor|]).
  destruct (fs_stat (c_str path) fs) as [[]|] eqn:Hs; [by apply collect_file| | |].
  2,3: apply Hhere; unfold blocked; by rewrite Hs.
  destruct (fs_readdir (c_str path) fs) as [text|names] eqn:Hd.
  { apply Hhere. unfold blocked. rewrite Hs. by exists text. }
  eapply lists_ext; [intros p; symmetry; by apply visits_directory|].
  apply lists_add; [unfold parquet_file; rewrite Hs; by intros []| |].
  { unfold blocked. rewrite Hs, Hd. by intros [? ?]. }
  apply (collect_children (λ files child, CollectParquetFilesRecursive fuel fs child files)).
  intros child files' Hc. apply (proj1 (sort_strings_in _ _)) in Hc. apply IH; [exact (Hn names child Hs Hd Hc)|lia].
Qed.
End Files.

(** ** The schema file *)

(** ** Numbers *)

Lemma digits_prefix_digits text : Forall (λ c, is_digit c = true) (digits_prefix text).
Proof.
  induction text as [|c text IH]; [constructor|]. cbn [digits_prefix].
  destruct (is_digit c) eqn:Hc; by constructor.
Qed.

Lemma digits_value_nonneg ds : Forall (λ c, is_digit c = true) ds → 0 ≤ digits_value ds.
Proof.
  unfold digits_value. assert (∀ v, 0 ≤ v → Forall (λ c, is_digit c = true) ds →
    0 ≤ foldl (λ value c, value * 10 + (byte_to_Z c - 48)) v ds) as Hgen; [|by apply Hgen].
  induction ds as [|d ds IH]; intros v Hv Hds; [done|]. apply Forall_cons in Hds as [Hd Hds].
  cbn [foldl]. apply IH; [|done]. unfold is_digit in Hd. btoprop. lia.
Qed.

Lemma ParseUnsigned_returns max text name :
  returns (λ n, 0 ≤ n ≤ max) (ParseUnsigned max text name).
Proof.
  unfold ParseUnsigned. case_bool_decide; [done|]. unfold from_chars.
  case_bool_decide; [done|]. destruct (max <? digits_value _) eqn:Hm; [done|].
  case_bool_decide; [|done]. btoprop. split; [|done].
  apply digits_value_nonneg, digits_prefix_digits.
Qed.

(** ** Configurations *)

Record field_typed (f : FieldSpec) : Prop := {
  ft_id : is_u32 (spec_field_id f);
  ft_default : spec_default_value f = DMonostate;
  ft_deleted : deleted f = false;
}.

(** A field of a configuration: its encoding is one that its type may have. *)
Definition field_parsed (f : FieldSpec) : Prop :=
  field_typed f ∧ encoding_allowed (spec_is_list f) (spec_type f) (spec_encoding f) = true.

Definition when {A} (P : A → Prop) (o : option A) : Prop :=
  match o with Some a => P a | None => True end.

Record config_typed (c : ParsedSchemaConfig) : Prop := {
  ct_version : is_u64 (config_schema_version c);
  ct_count : when is_u32 (config_shard_count c);
  ct_seed : when is_u64 (config_hash_seed c);
  ct_hash : when is_u32 (config_hash_version c);
  ct_fields : Forall field_parsed (config_fields c);
}.

Definition state_typed (s : parse_state) : Prop :=
  config_typed (parse_config s) ∧ field_typed (parsed_spec (pending_field s)).

Lemma returns_if {A} (P : A → Prop) (b : bool) (c1 c2 : StatusOr A) :
  returns P c1 → returns P c2 → returns P (if b then c1 else c2).
Proof. by destruct b. Qed.

Lemma returns_decide {A} (P : A → Prop) (Q : Prop) `{Decision Q} (c1 c2 : StatusOr A) :
  returns P c1 → returns P c2 → returns P (if decide Q then c1 else c2).
Proof. by destruct (decide Q). Qed.

Lemma returns_any {A} (c : StatusOr A) : no_fault c → returns (λ _, True) c.
Proof. by destruct c. Qed.

Lemma returns_at_line {A} (P : A → Prop) kind n (c : StatusOr A) :
  returns P c → returns P (at_line kind n c).
Proof. by destruct c. Qed.

Lemma ParseType_returns text : returns (λ _, True) (ParseType text).
Proof. unfold ParseType. by repeat apply returns_if. Qed.

Lemma ParseBool_returns text : returns (λ _, True) (ParseBool text).
Proof. unfold ParseBool. by repeat apply returns_if. Qed.

Lemma ParseKeyValue_returns text : returns (λ _, True) (ParseKeyValue text).
Proof. unfold ParseKeyValue. destruct (split_colon text) as [[]|]; [|done]. by apply returns_if. Qed.

Lemma ApplyTopLevelKey_returns c key value :
  config_typed c → returns config_typed (ApplyTopLevelKey c key value).
Proof.
  intros []. unfold ApplyTopLevelKey. repeat apply returns_if; [..|done];
    (eapply returns_bind; [apply ParseUnsigned_returns|]; intros n Hn; cbn beta in Hn);
    split; cbn; try done; unfold u32_max, u64_max in Hn; unfold is_u64, is_u32; lia.
Qed.

Lemma ApplyPrimaryKey_returns c key value :
  config_typed c → returns config_typed (ApplyPrimaryKey c key value).
Proof.
  intros []. unfold ApplyPrimaryKey. repeat apply returns_if; [by split| |done].
  eapply returns_bind; [apply ParseType_returns|]. intros t _. by split.
Qed.

Lemma ApplyFieldKey_returns p key value :
  field_typed (parsed_spec p) → returns (λ p', field_typed (parsed_spec p')) (ApplyFieldKey p key value).
Proof.
  intros []. unfold ApplyFieldKey. repeat apply returns_if; try done; try (by split).
  - eapply returns_bind; [apply ParseUnsigned_returns|]. intros n Hn. cbn beta in Hn.
    split; cbn; try done. unfold u32_max in Hn. unfold is_u32. lia.
  - eapply returns_bind; [apply ParseType_returns|]. intros t _. by split.
  - eapply returns_bind; [apply ParseBool_returns|]. intros t _. by split.
  - eapply returns_bind; [apply ParseBool_returns|]. intros t _. by split.
Qed.

Lemma ParseFieldEncoding_returns n l t :
  returns (λ e, encoding_allowed l t e = true) (ParseFieldEncoding n l t).
Proof.
  unfold ParseFieldEncoding.
  repeat apply returns_decide; try done; destruct l, t; done.
Qed.

Lemma FlushParsedField_returns s : state_typed s → returns state_typed (FlushParsedField s).
Proof.
  intros [[] []]. unfold FlushParsedField. apply returns_if; [by split|]. apply returns_if; [done|].
  eapply returns_bind; [apply ParseFieldEncoding_returns|]. intros e He. split; [|by split].
  split; cbn; try done. apply Forall_app. split; [done|]. apply Forall_singleton. split; [by split|exact He].
Qed.

Lemma parse_field_key_returns n text s :
  state_typed s → returns state_typed (parse_field_key n text s).
Proof.
  intros [Hc Hf]. unfold parse_field_key.
  eapply returns_bind; [apply returns_at_line, ParseKeyValue_returns|]. intros kv _.
  eapply returns_bind; [by apply returns_at_line, ApplyFieldKey_returns|]. by intros p Hp.
Qed.

Lemma parse_line_returns s line : state_typed s → returns state_typed (parse_line s line).
Proof.
  intros Hs. destruct line as [n raw]. unfold parse_line.
  apply returns_if; [done|]. apply returns_if; [|destruct (parse_section s); [done|..]].
  - unfold parse_top. eapply returns_bind; [by apply FlushParsedField_returns|].
    intros s1 [Hc Hf]. apply returns_if; [by split|]. apply returns_if; [by split|].
    eapply returns_bind; [apply returns_at_line, ParseKeyValue_returns|]. intros kv _.
    eapply returns_bind; [by apply returns_at_line, ApplyTopLevelKey_returns|]. intros c Hc'. by split.
  - destruct Hs as [Hc Hf]. unfold parse_primary_key.
    eapply returns_bind; [apply returns_at_line, ParseKeyValue_returns|]. intros kv _.
    eapply returns_bind; [by apply returns_at_line, ApplyPrimaryKey_returns|]. intros c Hc'. by split.
  - unfold parse_field. apply returns_if.
    + eapply returns_bind; [by apply FlushParsedField_returns|]. intros s1 Hs1.
      apply returns_if; [done|by apply parse_field_key_returns].
    + apply returns_if; [done|by apply parse_field_key_returns].
Qed.

(** Whatever the file holds, parsing it ends in an error or in a configuration
    of typed values. *)
Lemma ParseSchemaFile_returns content : returns config_typed (ParseSchemaFile content).
Proof.
  destruct content as [bytes|]; [|done]. cbn [ParseSchemaFile]. unfold parse_schema.
  assert (state_typed parse_start) as H0 by (split; split; cbn; try done; unfold is_u32, is_u64; lia).
  eapply returns_bind; [apply returns_ofold; [exact H0|intros line s _; apply parse_line_returns]|].
  intros s Hs. eapply returns_bind; [by apply FlushParsedField_returns|]. intros s' [Hc _].
  unfold check_config. repeat apply returns_if; try done. by destruct (config_fields _).
Qed.

(** ** The schema *)

Lemma add_fields_reach fs s o s' :
  sfor AddField fs s = (o, s') → Forall field_typed fs → no_defaults s →
  rtc schema_step s s' ∧ no_defaults s' ∧ version s' = version s.
Proof.
  revert s. induction fs as [|f fs IH]; intros s Hrun Hfs Hd; cbn [sfor] in Hrun.
  { injection Hrun as _ <-. done. }
  apply Forall_cons in Hfs as [[Hid Hdef _] Hfs]. unfold sbind in Hrun.
  destruct (AddField f s) as [o1 s1] eqn:Hadd.
  assert (schema_step s s1) as Hstep by (by eapply step_add).
  assert (no_defaults s1 ∧ version s1 = version s) as [Hd1 Hv1].
  { destruct (AddField_inv _ _ _ _ Hadd) as [(_ & _ & _ & ->)|[-> _]]; [|done].
    split; [|done]. unfold no_defaults. cbn. apply Forall_app. split; [done|]. by apply Forall_singleton. }
  destruct o1 as [u|e|ft].
  - destruct (IH s1 Hrun Hfs Hd1) as (Hr & Hd' & Hv'). split_and!; [by eapply rtc_l|done|congruence].
  - injection Hrun as _ <-. split_and!; [by eapply rtc_once|done..].
  - injection Hrun as _ <-. split_and!; [by eapply rtc_once|done..].
Qed.

Lemma add_fields_active fs s u s' :
  sfor AddField fs s = (Ok u, s') → active_fields s' = active_fields s ++ fs.
Proof.
  revert s. induction fs as [|f fs IH]; intros s Hrun; cbn [sfor] in Hrun.
  { injection Hrun as _ <-. by rewrite app_nil_r. }
  unfold sbind in Hrun. destruct (AddField f s) as [[u1|e|ft] s1] eqn:Hadd; [|done..].
  destruct (AddField_inv _ _ _ _ Hadd) as [(_ & _ & _ & ->)|(_ & e & He & _)]; [|done].
  rewrite (IH _ Hrun). cbn. by rewrite <-app_assoc.
Qed.

Lemma BuildRuntimeSchema_returns config v :
  Forall field_parsed (config_fields config) →
  returns (λ s, reachable_schema v s ∧ no_defaults s ∧ active_fields s = config_fields config)
    (BuildRuntimeSchema config v).
Proof.
  intros Hp. assert (Forall field_typed (config_fields config)) as Hf
    by (eapply Forall_impl; [exact Hp|by intros f []]). unfold BuildRuntimeSchema.
  destruct (sfor AddField _ _) as [o s] eqn:Hrun.
  destruct (add_fields_reach _ _ _ _ Hrun Hf) as (Hr & Hd & _); [by unfold no_defaults|].
  destruct o as [u|e|ft]; [|done|].
  - cbn. split_and!; [done..|]. by rewrite (add_fields_active _ _ _ _ Hrun).
  - clear Hr Hd Hp. revert Hrun. generalize (MkRuntimeSchema v [] []).
    induction (config_fields config) as [|f fs IH]; cbn [sfor]; [done|].
    intros s0. unfold sbind. pose proof (AddField_no_fault f s0) as Hone.
    destruct (AddField f s0) as [[u|e|ft'] s1]; [|done..].
    apply Forall_cons in Hf as [_ Hf]. by apply IH.
Qed.
