(* ===== verification/OfflineServeProofs.v ===== *)
(** * What the files of a build hold

    After a build that succeeded, the file of every shard under the output
    directory is an image written with the rows of that shard. *)

From S2P Require Import Prelude Status Hash Types Schema SchemaProofs RowStorage Kafka ArtifactFormat.
From S2P Require Import ArtifactWriter MmapBacking ArtifactImage OfflineSchema.
From S2P Require Import OfflineSchemaProofs OfflineEncode OfflineColumns OfflineBuilder.
From S2P Require Import OfflineBuildProofs OfflineInputProofs.
From S2P Require ForwardIndex.

Lemma sfor_inv {S E A} (f : A → stateful S E unit) (P : list A → S → Prop) l s u s' :
  P [] s →
  (∀ done x rest t t', l = done ++ x :: rest → P done t → f x t = (Ok tt, t') → P (done ++ [x]) t') →
  sfor f l s = (Ok u, s') → P l s'.
Proof.
  intros H0 Hstep.
  assert (∀ todo done t, l = done ++ todo → P done t → sfor f todo t = (Ok u, s') → P l s') as Hgen;
    [|by apply (Hgen l [] s)].
  induction todo as [|x todo IH]; intros done t Hl HP; cbn [sfor].
  - intros [= _ <-]. by rewrite Hl, app_nil_r.
  - unfold sbind. destruct (f x t) as [[[]|e|ft] t1] eqn:Hf; [|done..].
    apply (IH (done ++ [x])); [by rewrite <-app_assoc|by eapply Hstep].
Qed.

(** ** File names *)

Lemma digits_value_zeros n ds : digits_value (replicate n (byte_of_Z 48) ++ ds) = digits_value ds.
Proof.
  unfold digits_value. rewrite foldl_app. f_equal. induction n as [|n IH]; [done|]. exact IH.
Qed.

Lemma ShardFileName_inj k k' :
  is_u32 k → is_u32 k' → ShardFileName k = ShardFileName k' → k = k'.
Proof.
  unfold is_u32. intros Hk Hk' Heq. unfold ShardFileName in Heq. apply app_inv_head in Heq.
  rewrite !app_assoc in Heq. apply app_inv_tail in Heq.
  apply (f_equal digits_value) in Heq. rewrite !digits_value_zeros in Heq.
  rewrite !decimal_value in Heq by (cbn; lia). done.
Qed.

Lemma ShardFileName_schema k : ShardFileName k ≠ str "schema.yaml".
Proof. by unfold ShardFileName. Qed.

Lemma JoinPath_same lhs rhs : JoinPath lhs rhs = MmapBacking.JoinPath lhs rhs.
Proof. done. Qed.

Lemma ShardFileName_same k : ShardFileName k = MmapBacking.ShardFileName k.
Proof. done. Qed.

(** ** Making the output directory *)

(** A path without empty parts. *)
Definition tidy (path : cpp_string) : Prop :=
  match path with
  | [] => False
  | c :: rest =>
      Forall (λ part, part ≠ []) (split_slash (if decide (c = Byte.x2f) then rest else path))
  end.

Definition enter (current part : cpp_string) : cpp_string :=
  if bool_decide (current = str "/") then current ++ part else JoinPath current part.

Section Directory.
Context `{Arrow} {F : Type} `{!OfflineSystem F}.

Lemma make_parts_Ok parts current fs u fs' :
  Forall (λ part, part ≠ []) parts → parts ≠ [] → make_parts current parts fs = (Ok u, fs') →
  fs_stat (c_str (foldl enter current parts)) fs' = Some Directory.
Proof.
  revert current fs. induction parts as [|part parts IH]; intros current fs Hp Hne Hm; [done|].
  apply Forall_cons in Hp as [Hpart Hp]. cbn [make_parts] in Hm.
  destruct part as [|c part]; [done|]. cbn [foldl]. fold (enter current (c :: part)) in Hm.
  set (next := enter current (c :: part)) in *.
  assert (∃ fs1, fs_stat (c_str next) fs1 = Some Directory
    ∧ make_parts next parts fs1 = (Ok u, fs')) as (fs1 & Hs & Hrest).
  { destruct (fs_mkdir (c_str next) fs) as [[] fs1]; [..|done];
      (destruct (bool_decide (fs_stat (c_str next) fs1 = Some Directory)) eqn:Hb; [|done]);
      apply bool_decide_eq_true in Hb; eauto. }
  destruct parts as [|part' parts]; [|by eapply IH].
  cbn in Hrest |- *. by injection Hrest as _ <-.
Qed.

(** The parts of a path, put together again. *)
Lemma split_slash_join path :
  ∃ part parts, split_slash path = part :: parts
    ∧ path = part ++ concat ((λ p, str "/" ++ p) <$> parts) ∧ ¬ In Byte.x2f part.
Proof.
  induction path as [|c path (part & parts & Hs & Hp & Hn)]; cbn [split_slash].
  { exists [], []. split; [done|]. split; [done|]. intros []. }
  case_bool_decide as Hc.
  - subst c. exists [], (part :: parts). split; [by rewrite Hs|]. split; [|intros []].
    rewrite Hp at 1. reflexivity.
  - rewrite Hs. exists (c :: part), parts. split; [done|]. split; [by rewrite Hp at 1|].
    intros [->|Hin]; [done|by apply Hn].
Qed.

Lemma enter_parts current parts :
  current ≠ [] → current ≠ str "/" →
  foldl enter current parts = current ++ concat ((λ p, str "/" ++ p) <$> parts).
Proof.
  revert current. induction parts as [|p parts IH]; intros current Hc Hs; cbn [foldl].
  { by rewrite app_nil_r. }
  assert (enter current p = current ++ str "/" ++ p) as ->.
  { unfold enter, JoinPath. by rewrite !bool_decide_eq_false_2. }
  rewrite IH; [by rewrite fmap_cons; cbn [concat]; rewrite <-!app_assoc|..].
  - by intros [? _]%app_eq_nil.
  - intros He. destruct current as [|c [|c' current]]; [done| |by destruct current].
    by injection He as -> ?.
Qed.

Lemma MakeDirs_Ok path fs u fs' :
  tidy path → MakeDirs path fs = (Ok u, fs') → fs_stat (c_str path) fs' = Some Directory.
Proof.
  destruct path as [|c path]; [done|]. unfold tidy, MakeDirs. rewrite decide_bool_decide.
  destruct (bool_decide (c = Byte.x2f)) eqn:Hb; intros Ht Hm.
  - apply bool_decide_eq_true in Hb as ->.
    destruct (split_slash_join path) as (part & parts & Hs & Hp & Hn). rewrite Hs in *.
    pose proof (make_parts_Ok _ _ _ _ _ Ht ltac:(done) Hm) as Hst. cbn [foldl] in Hst.
    apply Forall_cons in Ht as [Hne _]. rewrite enter_parts in Hst; [|done|by destruct part].
    assert (enter (str "/") part ++ concat ((λ p, str "/" ++ p) <$> parts) = Byte.x2f :: path) as <-;
      [|done]. by rewrite Hp.
  - apply bool_decide_eq_false in Hb.
    destruct (split_slash_join (c :: path)) as (part & parts & Hs & Hp & Hn). rewrite Hs in *.
    pose proof (make_parts_Ok _ _ _ _ _ Ht ltac:(done) Hm) as Hst. cbn [foldl] in Hst.
    apply Forall_cons in Ht as [Hne _].
    change (enter [] part) with part in Hst. rewrite enter_parts in Hst; [by rewrite Hp|done|].
    intros ->. apply Hn. by left.
Qed.
End Directory.

(** ** Writing the files *)

Definition output_names (shard_count : Z) : list cpp_string :=
  str "schema.yaml" :: (ShardFileName <$> seqZ 0 shard_count).

Section Output.
Context `{Arrow} {F : Type} `{!OfflineSystem F} (fs_map : cpp_string → F → map_result).

(** The file behind a path is the same in two states. *)
Definition same_file (path : cpp_string) (fs fs' : F) : Prop :=
  fs_map (c_str path) fs' = fs_map (c_str path) fs
  ∧ fs_stat (c_str path) fs' = fs_stat (c_str path) fs.

(** What the output streams do to the files of the names in a directory: what
    is written is there, opening or writing one leaves the others and the
    directory alone. *)
Record output_laws (dir : cpp_string) (names : list cpp_string) : Prop := {
  ol_written n bytes fs fs' :
    n ∈ names → bytes ≠ [] → fs_write (JoinPath dir n) bytes fs = (true, fs') →
    fs_map (c_str (JoinPath dir n)) fs' = Mapped bytes
    ∧ fs_stat (c_str (JoinPath dir n)) fs' = Some RegularFile;
  ol_open n fs :
    n ∈ names → let fs' := (fs_open (JoinPath dir n) fs).2 in
    fs_stat (c_str dir) fs' = fs_stat (c_str dir) fs
    ∧ ∀ n', n' ∈ names → n' ≠ n → same_file (JoinPath dir n') fs fs';
  ol_write n bytes fs :
    n ∈ names → let fs' := (fs_write (JoinPath dir n) bytes fs).2 in
    fs_stat (c_str dir) fs' = fs_stat (c_str dir) fs
    ∧ ∀ n', n' ∈ names → n' ≠ n → same_file (JoinPath dir n') fs fs';
}.

Section Shards.
Context (dir : cpp_string) (spec : ArtifactBuildSpec) (rows : list ArtifactRow).
Hypothesis Hlaws : output_laws dir (output_names (spec_shard_count spec)).
Hypothesis Hn : is_u32 (spec_shard_count spec).

Abbreviation shard_of k := (MkArtifactShardBuildSpec k (shard_part spec rows k)).
Abbreviation full_spec := (set_shards (shards_of spec rows) spec).
Abbreviation path_of k := (JoinPath dir (ShardFileName k)).

(** Every image has bytes. *)
Hypothesis Himage : ∀ k bytes, 0 ≤ k < spec_shard_count spec →
  artifact_image full_spec [shard_of k] = Ok bytes → bytes ≠ [].

Lemma shard_name_in k : 0 ≤ k < spec_shard_count spec →
  ShardFileName k ∈ output_names (spec_shard_count spec).
Proof.
  intros Hk. apply elem_of_cons. right. apply list_elem_of_fmap_2, elem_of_seqZ. lia.
Qed.

Lemma find_shard k : 0 ≤ k < spec_shard_count spec →
  find_key shard_spec_id k (shards_of spec rows) = Some (shard_of k).
Proof.
  intros Hk. apply find_key_Some.
  - unfold shards_of. rewrite <-list_fmap_compose.
    rewrite (list_fmap_ext _ id) by done. rewrite list_fmap_id. apply NoDup_seqZ.
  - split; [|done]. unfold shards_of.
    apply (list_elem_of_fmap_2 (λ k, shard_of k)), elem_of_seqZ. lia.
Qed.

(** The shards of the list are written, and the directory is there. *)
Definition written_shards (ks : list Z) (fs : F) : Prop :=
  fs_stat (c_str dir) fs = Some Directory
  ∧ ∀ k, k ∈ ks → ∃ bytes, artifact_image full_spec [shard_of k] = Ok bytes
      ∧ fs_map (c_str (path_of k)) fs = Mapped bytes
      ∧ fs_stat (c_str (path_of k)) fs = Some RegularFile.

Lemma write_one_shard ks k fs u fs' :
  0 ≤ k < spec_shard_count spec → Forall (λ j, 0 ≤ j < spec_shard_count spec ∧ j ≠ k) ks →
  written_shards ks fs →
  WriteArtifactShard fs_open fs_write (path_of k) full_spec k fs = (Ok u, fs') →
  written_shards (ks ++ [k]) fs'.
Proof.
  intros Hk Hks [Hdir Hw] Hrun. unfold WriteArtifactShard in Hrun. cbn [spec_shards set_shards] in Hrun.
  rewrite find_shard in Hrun by done. unfold WriteArtifactWithShards, sbind, slift in Hrun.
  destruct (artifact_image _ _) as [bytes|e|ft] eqn:Himg; [|done..].
  pose proof (ol_open _ _ Hlaws (ShardFileName k) fs (shard_name_in k Hk)) as [Hd1 Ho1].
  destruct (fs_open (path_of k) fs) as [[] fs1]; cbn [negb snd] in *; [|done].
  pose proof (ol_write _ _ Hlaws (ShardFileName k) bytes fs1 (shard_name_in k Hk)) as [Hd2 Ho2].
  destruct (fs_write (path_of k) bytes fs1) as [[] fs2] eqn:Hwr; cbn [negb snd] in *; [|done].
  injection Hrun as _ <-. split; [by rewrite Hd2, Hd1|].
  intros j [Hj| ->%list_elem_of_singleton]%elem_of_app.
  - destruct (Hw j Hj) as (bs & Hb & Hm & Hs). exists bs. split; [done|].
    rewrite Forall_forall in Hks. destruct (Hks j Hj) as [Hjr Hjk].
    assert (ShardFileName j ≠ ShardFileName k) as Hne.
    { intros He. apply Hjk, ShardFileName_inj; [unfold is_u32 in *; lia..|done]. }
    destruct (Ho2 _ (shard_name_in j Hjr) Hne) as [E1 E2]. rewrite E1, E2.
    destruct (Ho1 _ (shard_name_in j Hjr) Hne) as [E3 E4]. by rewrite E3, E4.
  - exists bytes. split; [done|]. eapply ol_written; [exact Hlaws|by apply shard_name_in| |exact Hwr].
    by apply (Himage k).
Qed.

Lemma write_all_shards fs u fs' :
  fs_stat (c_str dir) fs = Some Directory →
  sfor (λ k, WriteArtifactShard fs_open fs_write (path_of k) full_spec k)
    (seqZ 0 (spec_shard_count spec)) fs = (Ok u, fs') →
  written_shards (seqZ 0 (spec_shard_count spec)) fs'.
Proof.
  intros Hd. apply (sfor_inv _ written_shards); [split; [done|by intros k ?%elem_of_nil]|].
  intros ks k rest t t' Hsplit Hks Hrun. pose proof (NoDup_seqZ 0 (spec_shard_count spec)) as Hnd.
  eapply write_one_shard; [| |exact Hks|by destruct (WriteArtifactShard _ _ _ _ _ _)].
  - assert (k ∈ seqZ 0 (spec_shard_count spec)) as Hin by (rewrite Hsplit; set_solver).
    apply elem_of_seqZ in Hin. lia.
  - apply Forall_forall. intros j Hj. split.
    + assert (j ∈ seqZ 0 (spec_shard_count spec)) as Hin by (rewrite Hsplit; set_solver).
      apply elem_of_seqZ in Hin. lia.
    + intros ->. rewrite Hsplit in Hnd. apply NoDup_app in Hnd as (_ & Hd' & _).
      apply (Hd' _ Hj). left.
Qed.
End Shards.
End Output.
