(* ===== verification/OfflineTheorems.v ===== *)
(** * What the offline builder guarantees

    A build that succeeds has read its tables as lists of distinct keys with
    typed values, and the directory it leaves serves exactly those rows.  Rows
    are encoded as an upsert of the same values would be, values have the types
    of their fields, the input files are all there is below the path, and the
    schema file written reads back. *)

From S2P Require Import Prelude Status ByteIo Hash Types Schema SchemaProofs RowStorage RowSafety.
From S2P Require Import RowProofs RowAccess Snapshot SnapshotProofs Payload Codec PayloadProofs.
From S2P Require Import UpdateApplier EncodeProofs Kafka ArtifactFormat ArtifactWriter MmapBacking.
From S2P Require Import ArtifactSchema ArtifactLayout ArtifactLoad ArtifactTheorems ForwardIndexProofs.
From S2P Require Import IndexTheorems OfflineSchema OfflineSchemaProofs OfflineEncode OfflineEncodeProofs.
From S2P Require Import OfflineColumns OfflineColumnsProofs OfflineBuilder OfflineMain OfflineBuildProofs.
From S2P Require Import OfflineInputProofs OfflineServeProofs.
From S2P Require AsyncLoad ForwardIndex.

(** ** Parameters *)

(** The options are values of their C++ types. *)
Record options_typed (o : BuildArtifactOptions) : Prop := {
  ot_count : when is_u32 (option_shard_count o);
  ot_seed : when is_u64 (option_hash_seed o);
  ot_hash : when is_u32 (option_hash_version o);
  ot_version : when is_u64 (option_schema_version o);
}.

Record parameters_typed (p : build_parameters) : Prop := {
  pt_version : is_u64 (output_schema_version p);
  pt_count : is_u32 (build_shard_count p);
  pt_power : ForwardIndex.IsPowerOfTwo (build_shard_count p) = true;
  pt_seed : is_u64 (build_hash_seed p);
  pt_hash : is_u32 (build_hash_version p);
}.

Lemma when_default {A} (P : A → Prop) (o : option A) d : when P o → P d → P (default d o).
Proof. by destruct o. Qed.

Lemma resolve_parameters_returns o config :
  options_typed o → config_typed config → returns parameters_typed (resolve_parameters o config).
Proof.
  intros [] []. unfold resolve_parameters. cbv zeta.
  destruct (ForwardIndex.IsPowerOfTwo _) eqn:Hp; cbn [negb]; [|done].
  do 2 (apply returns_if; [done|]). split; cbn; try done; repeat apply when_default; try done;
    try (unfold is_u32, is_u64; lia). apply wrap64_range.
Qed.

(** ** Rows of typed values *)

Lemma compiled_field_ids s :
  schema_ok s → Forall (λ f, is_u32 (field_id f)) (fields (compile_layout s)).
Proof.
  intros Hok. change (Forall (is_u32 ∘ field_id) (fields (compile_layout s))). apply Forall_fmap.
  rewrite compiled_ids by done. destruct Hok as [_ Hr _]. unfold history_ids in Hr.
  rewrite fmap_app, Forall_app in Hr. destruct Hr as [Hr _].
  by rewrite sort_fields_perm.
Qed.

(** The size of one value within the row's message. *)
Lemma message_value_size L values f v :
  f ∈ fields L → value_of values f = Some v →
  Zlen (value_bytes (decoded_of v)) ≤ Zlen (payload_bytes (row_message L values)).
Proof.
  intros Hf Hv. set (d := MkDecodedField (field_id f) (wire_kind (decoded_of v)) (decoded_of v)).
  assert (d ∈ omap (field_message values) (fields L)) as Hd
    by (apply list_elem_of_omap; exists f; split; [done|unfold field_message; by rewrite Hv]).
  pose proof (fields_size_payload (row_message L values)) as Hp. cbn [row_message payload_fields] in Hp.
  destruct (list_elem_of_split _ _ Hd) as (l1 & l2 & Hl). rewrite Hl in Hp.
  change (d :: l2) with ([d] ++ l2) in Hp. rewrite !fields_size_app, fields_size_one, field_bytes_size in Hp.
  pose proof (fields_size_nonneg l1). pose proof (fields_size_nonneg l2). cbn [d decoded_value] in Hp. lia.
Qed.

Lemma typed_values_row L values :
  typed_values L values → Zlen (payload_bytes (row_message L values)) ≤ 2 ^ 30 → typed_row L values.
Proof.
  intros Hty Hsz f v Hf Hv. pose proof (message_value_size L values f v Hf Hv) as Hle.
  assert (values !! field_id f = Some v ∧ v ≠ DMonostate) as [Hl Hne].
  { unfold value_of in Hv. destruct (values !! field_id f) as [[]|]; by simplify_eq. }
  pose proof (Hty f v Hf Hl) as Hw. destruct v as [|s|vs]; [done|..];
    destruct Hw as [Hfit Hr]; (split; [done|]); apply in_range_value_ok; (done || lia).
Qed.

(** What a row that was read answers: the table's values, defaults elsewhere. *)
Definition answers (L : CompiledRowLayout) (values : gmap Z FieldValue) (row : Row) : Prop :=
  ∀ f, f ∈ fields L →
    match value_of values f with
    | Some v => reads_back row f (decoded_of v)
    | None => Row_Has row (field_id f) = Ok false ∧ reads_default row f
    end.

Lemma encoded_answers s values r :
  schema_ok s → typed_values (compile_layout s) values →
  Zlen (payload_bytes (row_message (compile_layout s) values)) ≤ 2 ^ 30 →
  EncodeRow (compile_layout s) values = Ok r →
  cut_row (compile_layout s) r = r
  ∧ MaterializeRow (Some (compile_layout s)) r = Ok (row_of (compile_layout s) r)
  ∧ answers (compile_layout s) values (row_of (compile_layout s) r).
Proof.
  intros Hok Hty Hsz Hr. pose proof (compile_layout_wf s Hok) as Hwf.
  pose proof (compiled_field_ids s Hok) as Hids. pose proof (typed_values_row _ _ Hty Hsz) as Hrow.
  set (L := compile_layout s) in *.
  pose proof (EncodeRow_spec L values Hwf Hids Hrow Hsz) as Hspec. rewrite Hr in Hspec.
  destruct Hspec as (Hup & Hholds & _). split_and!.
  - unfold cut_row. rewrite take_ge; [by destruct r|].
    pose proof (rh_slot _ _ _ Hholds) as Hs. unfold Zlen in Hs. lia.
  - pose proof (EncodeForLayout_spec L _ Hwf (row_message_ok L Hwf Hids values Hrow Hsz) Hsz) as He.
    rewrite Hup in He. apply He.
  - exact (proj2 (EncodeRow_reads L values r Hwf Hids Hrow Hsz Hr)).
Qed.

(** ** What a build has read *)

Section Build.
Context `{ArrowLaws} {F : Type} `{!OfflineSystem F}.

Lemma ReadPrimaryKey_range column i n : returns is_u64 (ReadPrimaryKey column i n).
Proof.
  unfold ReadPrimaryKey. eapply (returns_bind (λ _, True)); [by apply LocateArray_returns|].
  intros [a local] _. apply returns_if; [done|]. apply returns_if; [exact (uint64_values a local)|].
  apply returns_if; [|done]. cbv zeta. apply returns_if; [done|].
  cbn [returns]. apply wrap64_range.
Qed.

Lemma table_row_returns config L columns i :
  layout_wf L → returns (λ row, is_u64 row.1 ∧ typed_values L row.2) (table_row config L columns i).
Proof.
  intros Hwf. unfold table_row. eapply returns_bind; [apply ReadPrimaryKey_range|]. intros k Hk.
  eapply returns_bind; [by apply read_row_returns|]. by intros vs Hvs.
Qed.

Lemma table_rows_returns config L table :
  layout_wf L → returns (Forall (λ row, is_u64 row.1 ∧ typed_values L row.2)) (table_rows config L table).
Proof.
  intros Hwf. unfold table_rows. eapply (returns_bind (λ _, True)); [by apply ResolveTableColumns_returns|].
  intros columns _. apply returns_omapM. intros i _. by apply table_row_returns.
Qed.

(** The rows of the tables, with their encodings. *)
Lemma accepted_rows config L tables mores :
  layout_wf L → Forall2 (accepted config L) tables mores →
  ∃ rows, tables_rows config L tables = Ok rows
    ∧ Forall2 (λ row r, encode_table_row L row = Ok r) rows (concat mores)
    ∧ Forall (λ row, is_u64 row.1 ∧ typed_values L row.2) rows.
Proof.
  intros Hwf. unfold tables_rows. induction 1 as [|table more tables mores (rows1 & Hr1 & He1) _ IH].
  { exists []. by repeat split. }
  destruct IH as (rows & Hr & He & Hty). cbn [omapM]. rewrite Hr1. cbn [obind].
  destruct (omapM (table_rows config L) tables) as [rss|e|ft]; [|done..]. injection Hr as <-.
  exists (rows1 ++ concat rss). split; [done|]. split.
  - apply Forall2_app; [by apply omapM_Ok|done].
  - apply Forall_app. split; [|done]. pose proof (table_rows_returns config L table Hwf) as Ht.
    by rewrite Hr1 in Ht.
Qed.

(** The state a build starts from. *)
Lemma initial_state o p L files :
  MkBuildState (initial_spec o p L) ∅ (initial_result p files)
  = state_of (initial_spec o p L) (initial_result p files) [].
Proof.
  unfold state_of, counted, shards_of. cbn. unfold initial_result. f_equal. f_equal.
  unfold shard_part. cbn. rewrite <-(length_seqZ 0 (build_shard_count p)).
  induction (seqZ 0 (build_shard_count p)) as [|k l IH]; [done|]. cbn. by rewrite <-IH.
Qed.

Record built (fuel : nat) (options : BuildArtifactOptions) (fs : F) (config : ParsedSchemaConfig)
    (p : build_parameters) (s : RuntimeSchema) (files : list cpp_string)
    (tables : list arrow_table) (rows : list (Z * gmap Z FieldValue)) (encoded : list ArtifactRow)
    : Prop := {
  bu_config : ParseSchemaFile (fs_read (schema_path options) fs) = Ok config;
  bu_parameters : resolve_parameters options config = Ok p;
  bu_typed : parameters_typed p;
  bu_schema : BuildRuntimeSchema config (output_schema_version p) = Ok s;
  bu_reachable : reachable_schema (output_schema_version p) s;
  bu_defaults : no_defaults s;
  bu_active : active_fields s ≠ [];
  bu_files : CollectParquetFiles fuel fs (input_path options) = Ok files;
  bu_tables : omapM (read_table fs) files = Ok tables;
  bu_rows : tables_rows config (compile_layout s) tables = Ok rows;
  bu_encoded : Forall2 (λ row r, encode_table_row (compile_layout s) row = Ok r) rows encoded;
  bu_values : Forall (λ row, is_u64 row.1 ∧ typed_values (compile_layout s) row.2) rows;
  bu_keys : NoDup (artifact_primary_key <$> encoded);
}.

Lemma check_config_fields c c' : check_config c = Ok c' → c' = c ∧ config_fields c ≠ [].
Proof.
  unfold check_config. intros Hc. guard_ok Hc H1. guard_ok Hc H2. guard_ok Hc H3.
  destruct (config_fields c) eqn:E; [done|]. by injection Hc as ->.
Qed.

Lemma ParseSchemaFile_fields content c : ParseSchemaFile content = Ok c → config_fields c ≠ [].
Proof.
  destruct content as [bytes|]; [|done]. cbn [ParseSchemaFile]. unfold parse_schema. intros Hc.
  bind_ok Hc st1 H1. bind_ok Hc st2 H2. by apply check_config_fields in Hc as [-> Hne].
Qed.

Lemma build_spec_inv fuel options fs config p state :
  options_typed options → build_spec fuel options fs = Ok (config, p, state) →
  ∃ s files tables rows encoded, built fuel options fs config p s files tables rows encoded
    ∧ state = state_of (initial_spec options p (compile_layout s)) (initial_result p files) encoded.
Proof.
  intros Hopt Hb. unfold build_spec in Hb. bind_ok Hb u Hu.
  bind_ok Hb c Hc. pose proof (ParseSchemaFile_returns (fs_read (schema_path options) fs)) as Hct.
  rewrite Hc in Hct. bind_ok Hb p' Hp.
  pose proof (resolve_parameters_returns options c Hopt Hct) as Hpt. rewrite Hp in Hpt.
  bind_ok Hb s Hs.
  pose proof (BuildRuntimeSchema_returns c (output_schema_version p') (ct_fields c Hct)) as Hst.
  rewrite Hs in Hst. destruct Hst as (Hreach & Hdef & Hact). bind_ok Hb L HL. injection HL as <-.
  bind_ok Hb files Hfiles. bind_ok Hb st Hst. injection Hb as -> -> ->.
  pose proof (compile_layout_wf s (reachable_schema_ok _ _ Hreach)) as Hwf.
  rewrite initial_state in Hst.
  apply files_loop_Ok in Hst as (tables & mores & Ht & Hacc & Hnd & ->);
    [|apply Hpt|apply Hpt|apply NoDup_nil_2].
  destruct (accepted_rows config _ _ _ Hwf Hacc) as (rows & Hrows & Henc & Hval).
  exists s, files, tables, rows, (concat mores). split; [|done]. split; try done.
  rewrite Hact. by eapply ParseSchemaFile_fields.
Qed.
End Build.

(** ** Serving the rows *)

Lemma encoded_keys L rows encoded :
  Forall2 (λ row r, encode_table_row L row = Ok r) rows encoded →
  artifact_primary_key <$> encoded = rows.*1.
Proof.
  induction 1 as [|row r rows encoded Hr _ IH]; [done|]. rewrite !fmap_cons, IH. f_equal.
  unfold encode_table_row in Hr. by bind_ok Hr e He; injection Hr as <-.
Qed.

(** The shard of a key holds the encoding of the key's row. *)
Lemma shard_map_rows L spec (rows : list (Z * gmap Z FieldValue)) encoded key :
  Forall2 (λ row r, encode_table_row L row = Ok r) rows encoded →
  NoDup (artifact_primary_key <$> encoded) →
  match (list_to_map rows : gmap Z (gmap Z FieldValue)) !! key with
  | Some values => ∃ e, EncodeRow L values = Ok e
      ∧ shard_map L (MkArtifactShardBuildSpec (builder_shard spec key)
          (shard_part spec encoded (builder_shard spec key))) !! key = Some (cut_row L e)
  | None => shard_map L (MkArtifactShardBuildSpec (builder_shard spec key)
          (shard_part spec encoded (builder_shard spec key))) !! key = None
  end.
Proof.
  intros Henc Hnd. pose proof (encoded_keys L rows encoded Henc) as Hkeys.
  set (part := shard_part spec encoded _).
  set (pairs := (λ r, (artifact_primary_key r, artifact_encoded r)) <$> part).
  assert (pairs.*1 = artifact_primary_key <$> part) as Hp1 by (unfold pairs; by rewrite <-list_fmap_compose).
  assert (NoDup pairs.*1) as Hndp.
  { rewrite Hp1. eapply sublist_NoDup; [exact Hnd|]. apply fmap_sublist, sublist_filter. }
  unfold shard_map. cbn [shard_rows]. fold pairs. rewrite lookup_fmap.
  destruct (list_to_map rows !! key) as [values|] eqn:Hv.
  - apply elem_of_list_to_map_2 in Hv. apply list_elem_of_lookup in Hv as [i Hi].
    destruct (Forall2_lookup_l _ _ _ _ _ Henc Hi) as (r & Hr & Her). unfold encode_table_row in Her.
    bind_ok Her e He. injection Her as <-. exists e. split; [done|].
    rewrite (elem_of_list_to_map_1 _ key e Hndp); [done|]. unfold pairs, part, shard_part.
    apply list_elem_of_fmap. exists (MkArtifactRow key e). split; [done|].
    apply list_elem_of_filter. split; [done|]. by eapply list_elem_of_lookup_2.
  - apply not_elem_of_list_to_map_2 in Hv.
    assert (key ∉ pairs.*1) as Hni.
    { rewrite Hp1. intros Hin. apply Hv. rewrite <-Hkeys.
      apply list_elem_of_fmap in Hin as (r & -> & Hin). apply list_elem_of_fmap_2.
      by apply list_elem_of_filter in Hin as [_ ?]. }
    by rewrite (not_elem_of_list_to_map_1 _ _ Hni).
Qed.

Section Serve.
Context `{ArrowLaws} `{SectionSort} {F : Type} `{!OfflineSystem F}.
Context (fs_map : cpp_string → F → map_result).

(** The loader's view of the file system. *)
Definition loader_stat (fs : F) (path : cpp_string) : sys_error + file_kind :=
  match fs_stat path fs with Some kind => inr kind | None => inl ENOENT end.
Definition loader_map (fs : F) (path : cpp_string) : map_result := fs_map path fs.

Lemma compiled_slot_pos s : schema_ok s → active_fields s ≠ [] → 0 < row_slot_size (compile_layout s).
Proof.
  intros Hok Hne. pose proof (compile_layout_wf s Hok) as Hwf.
  pose proof (lw_bitmap _ Hwf) as Hb. pose proof (lw_size _ Hwf) as Hs.
  assert (0 < Zlen (fields (compile_layout s))); [|lia].
  pose proof (f_equal length (compiled_ids s Hok)) as Hl. rewrite !length_fmap in Hl.
  unfold Zlen. rewrite Hl, (Permutation_length (sort_fields_perm _)).
  destruct (active_fields s); [done|]. simpl. lia.
Qed.

Section Written.
Context (fuel : nat) (options : BuildArtifactOptions) (fs : F).
Context (config : ParsedSchemaConfig) (p : build_parameters) (s : RuntimeSchema).
Context (files : list cpp_string) (tables : list arrow_table).
Context (rows : list (Z * gmap Z FieldValue)) (encoded : list ArtifactRow).
Hypothesis Hbuilt : built fuel options fs config p s files tables rows encoded.

Abbreviation spec0 := (initial_spec options p (compile_layout s)).
Abbreviation spec := (set_shards (shards_of spec0 encoded) spec0).
Abbreviation shard_of k := (MkArtifactShardBuildSpec k (shard_part spec0 encoded k)).

Lemma built_spec_kept : spec_kept (output_schema_version p) s spec.
Proof.
  destruct Hbuilt. split; try done; [by apply bu_typed0| |].
  - apply compiled_slot_pos; [by eapply reachable_schema_ok|done].
  - assert (spec_progress spec = []) as -> by (unfold spec_progress; by case_match).
    repeat split; cbn; try done; apply NoDup_nil_2.
Qed.

Lemma built_typed k : 0 ≤ k < build_shard_count p → shards_typed spec [shard_of k].
Proof.
  intros Hk. destruct Hbuilt. destruct bu_typed0. split; cbn; try done.
  - apply Forall_singleton. cbn. unfold is_u32 in *. lia.
  - apply Forall_singleton. cbn. apply Forall_forall. intros r [_ Hr]%list_elem_of_filter.
    assert (artifact_primary_key r ∈ rows.*1) as Hin
      by (rewrite <-(encoded_keys _ _ _ bu_encoded0); by apply list_elem_of_fmap_2).
    apply list_elem_of_fmap in Hin as (row & -> & Hrow). rewrite Forall_forall in bu_values0.
    by apply (bu_values0 row).
Qed.

Lemma built_image k bytes :
  0 ≤ k < build_shard_count p → artifact_image spec [shard_of k] = Ok bytes → bytes ≠ [].
Proof.
  intros Hk Himg ->. pose proof built_spec_kept as [Hs Hv _ HL _ _].
  destruct (built_typed k Hk) as [Hc Hse Hh Hi _].
  destruct (compiled_ranges _ s Hs Hv) as [Hver Hfp].
  assert (spec_range spec (compile_layout s)) as Hr by (split; rewrite ?Hver; done).
  destruct (artifact_image_spec spec _ _ [] HL Hr Hi) as (parts & _ & Him & _); [by cbn|done|done|].
  destruct (image_size_le spec _ parts [] Him) as (Hlo & Hhi & _).
  change (Zlen []) with 0 in Hlo. lia.
Qed.

(** A file the build has written is what [written_shard] asks for. *)
Lemma built_written uri fs' k :
  stable_sort ∨ shard_part spec0 encoded k ≠ [] →
  (∀ path bytes, loader_map fs' path = Mapped bytes → is_u64 (Zlen bytes)) →
  ResolveLocalPath uri = Ok (output_path options) →
  written_shards fs_map (output_path options) spec0 encoded (seqZ 0 (build_shard_count p)) fs' →
  0 ≤ k < build_shard_count p →
  written_shard (loader_stat fs') (loader_map fs') s spec uri (shard_of k).
Proof.
  intros Hsort Hmax Huri [Hdir Hw] Hk.
  destruct (Hw k) as (bytes & Himg & Hmap & Hstat); [apply elem_of_seqZ; lia|].
  split. exists [shard_of k], bytes, (JoinPath (output_path options) (ShardFileName k)). split_and!.
  - left.
  - by apply built_typed.
  - done.
  - destruct Hsort as [Hsort|Hne]; [by left|right]. by apply Forall_singleton.
  - exact Himg.
  - by eapply Hmax.
  - unfold ResolveArtifactFilePath. rewrite Huri. cbn [obind shard_spec_id].
    unfold loader_stat at 1. rewrite Hdir. rewrite <-JoinPath_same, <-ShardFileName_same.
    unfold loader_stat. by rewrite Hstat.
  - exact Hmap.
Qed.

(** Every key is answered with the row of the tables, if there is one. *)
Lemma built_serves uri fs' o key :
  (∀ k, 0 ≤ k < build_shard_count p →
    written_shard (loader_stat fs') (loader_map fs') s spec uri (shard_of k)) →
  options_match spec (load_options_of o) →
  Forall (λ row, Zlen (payload_bytes (row_message (compile_layout s) row.2)) ≤ 2 ^ 30) rows →
  ∃ b, LoadShard (loader_stat fs') (loader_map fs') uri (builder_shard spec0 key) o = Ok b
    ∧ match (list_to_map rows : gmap Z (gmap Z FieldValue)) !! key with
      | Some values => ∃ row, FullSnapshotView_Get (make_full (Some (mmap_backing b))) key = Ok (Some row)
          ∧ row_layout row = Some (compile_layout s) ∧ answers (compile_layout s) values row
      | None => FullSnapshotView_Get (make_full (Some (mmap_backing b))) key = Ok None
      end.
Proof.
  intros Hw Ho Hsmall. pose proof built_spec_kept as Hkept. destruct Hbuilt. destruct bu_typed0.
  pose proof (builder_shard_range spec0 key pt_count0 pt_power0) as Hk.
  destruct (written_loads _ _ _ _ _ _ _ _ Hkept Ho (Hw _ Hk)) as (b & Hload & Hback).
  exists b. split; [exact Hload|].
  assert (FullSnapshotView_Get (make_full (Some (mmap_backing b))) key
    = map_get (compile_layout s) (shard_map (compile_layout s) (shard_of (builder_shard spec0 key))) key)
    as -> by exact (view_Get_spec _ _ _ key Hback).
  unfold map_get.
  pose proof (shard_map_rows (compile_layout s) spec0 rows encoded key bu_encoded0 bu_keys0) as Hmap.
  destruct (list_to_map rows !! key) as [values|] eqn:Hv; [|by rewrite Hmap].
  destruct Hmap as (e & He & ->). apply elem_of_list_to_map_2 in Hv.
  rewrite Forall_forall in bu_values0, Hsmall.
  destruct (encoded_answers s values e) as (Hcut & Hmat & Hans);
    [by eapply reachable_schema_ok|by apply (bu_values0 _ Hv)|by apply (Hsmall _ Hv)|done|].
  rewrite Hcut, Hmat. eexists. split; [done|]. by split.
Qed.
End Written.
End Serve.

(** ** The whole build *)

Lemma sbind_Ok_inv {S X Y} (m : stateful S Status X) (k : X → stateful S Status Y) s y s' :
  sbind m k s = (Ok y, s') → ∃ x s1, m s = (Ok x, s1) ∧ k x s1 = (Ok y, s').
Proof. unfold sbind. destruct (m s) as [[x|e|ft] s1]; [eauto|done..]. Qed.

Section Directory.
Context `{ArrowLaws} `{SectionSort} {F : Type} `{!OfflineSystem F}.
Context (fs_map : cpp_string → F → map_result).

Lemma BuildArtifactDirectory_inv fuel options fs result fs' :
  BuildArtifactDirectory fuel options fs = (Ok result, fs') →
  ∃ config p state u1 fs1 u2 fs2 u3,
    build_spec fuel options fs = Ok (config, p, state)
    ∧ MakeDirs (output_path options) fs = (Ok u1, fs1)
    ∧ WriteSchemaFile fs_open fs_write (JoinPath (output_path options) (str "schema.yaml")) config
        (output_schema_version p) (build_shard_count p) (build_hash_seed p) (build_hash_version p) fs1
      = (Ok u2, fs2)
    ∧ sfor (write_shard options (state_spec state)) (seqZ 0 (build_shard_count p)) fs2 = (Ok u3, fs')
    ∧ result = state_result state.
Proof.
  unfold BuildArtifactDirectory. intros ([[config p] state] & fs0 & Hb & Hrest)%sbind_Ok_inv.
  unfold slift in Hb. injection Hb as Hb <-.
  apply sbind_Ok_inv in Hrest as (u1 & fs1 & Hdirs & Hrest).
  apply sbind_Ok_inv in Hrest as (u2 & fs2 & Hsch & Hrest).
  apply sbind_Ok_inv in Hrest as (u3 & fs3 & Hsh & Hret). injection Hret as <- <-.
  by exists config, p, state, u1, fs1, u2, fs2, u3.
Qed.

(** Writing the schema file leaves the directory. *)
Lemma WriteSchemaFile_dir dir n config v sc seed hv fs u fs' :
  output_laws fs_map dir (output_names n) →
  WriteSchemaFile fs_open fs_write (JoinPath dir (str "schema.yaml")) config v sc seed hv fs = (Ok u, fs') →
  fs_stat (c_str dir) fs' = fs_stat (c_str dir) fs.
Proof.
  intros Hlaws. assert (str "schema.yaml" ∈ output_names n) as Hin by left.
  unfold WriteSchemaFile. pose proof (ol_open _ _ _ Hlaws _ fs Hin) as [Hd1 _].
  destruct (fs_open _ fs) as [[] fs1]; cbn [negb snd] in *; [|done].
  pose proof (ol_write _ _ _ Hlaws _ (schema_text config v sc seed hv) fs1 Hin) as [Hd2 _].
  destruct (fs_write _ _ fs1) as [[] fs2]; cbn [negb snd] in *; [|done].
  intros [= _ <-]. by rewrite Hd2.
Qed.

Lemma directory_written fuel options fs result fs' :
  options_typed options → tidy (output_path options) →
  output_laws fs_map (output_path options) (output_names (result_shard_count result)) →
  BuildArtifactDirectory fuel options fs = (Ok result, fs') →
  ∃ config p s files tables rows encoded,
    built fuel options fs config p s files tables rows encoded
    ∧ result = counted (initial_spec options p (compile_layout s)) (initial_result p files) encoded
    ∧ written_shards fs_map (output_path options) (initial_spec options p (compile_layout s)) encoded
        (seqZ 0 (build_shard_count p)) fs'.
Proof.
  intros Hopt Htidy Hlaws Hrun.
  apply BuildArtifactDirectory_inv in Hrun
    as (config & p & state & u1 & fs1 & u2 & fs2 & u3 & Hb & Hdirs & Hsch & Hsh & ->).
  apply build_spec_inv in Hb as (s & files & tables & rows & encoded & Hbuilt & ->); [|done].
  exists config, p, s, files, tables, rows, encoded. split; [done|]. split; [done|].
  cbn [state_result state_of counted result_shard_count initial_result] in Hlaws.
  apply MakeDirs_Ok in Hdirs; [|done]. pose proof (WriteSchemaFile_dir _ _ _ _ _ _ _ _ _ _ Hlaws Hsch) as Hd.
  apply (write_all_shards fs_map _ (initial_spec options p (compile_layout s)) encoded Hlaws) with fs2 u3.
  - apply Hbuilt.
  - intros k bytes Hk. by eapply built_image.
  - by rewrite Hd.
  - exact Hsh.
Qed.
End Directory.

(** ** Properties *)

(** The messages of the rows are not too large for the arena. *)
Definition small_rows (L : CompiledRowLayout) (rows : list (Z * gmap Z FieldValue)) : Prop :=
  Forall (λ row, Zlen (payload_bytes (row_message L row.2)) ≤ 2 ^ 30) rows.

(** A forward index over the artifact has the parameters of the build. *)
Definition same_directory (p : build_parameters) (o : AsyncLoad.ForwardIndexOptions) : Prop :=
  AsyncLoad.options_shard_count o = build_shard_count p
  ∧ AsyncLoad.options_hash_seed o = build_hash_seed p
  ∧ AsyncLoad.options_hash_version o = build_hash_version p.

Lemma keys_filter (P : Z → Prop) `{∀ k, Decision (P k)} (rows : list ArtifactRow) :
  artifact_primary_key <$> filter (λ r, P (artifact_primary_key r)) rows
  = filter P (artifact_primary_key <$> rows).
Proof.
  induction rows as [|r rows IH]; [done|]. rewrite fmap_cons, !filter_cons.
  case_decide; [by rewrite fmap_cons, IH|exact IH].
Qed.

Section Claims.
Context `{ArrowLaws} `{SectionSort} {F : Type} `{!OfflineSystem F}.
Context (fs_map : cpp_string → F → map_result).

(** *** C2: A directory built offline serves exactly the rows of its tables.

    Take any run of [BuildArtifactDirectory] that succeeds, on any file system
    whose output streams write the files they are given and leave the others
    alone; [std::sort] keeps the order of equal elements, or no shard is left
    without rows.  Then the schema file was parsed, the Parquet files below the input
    path were all read into tables, and their rows have distinct keys and
    typed values; the result counts them in total and per shard.  The
    directory left behind serves them, when their values have bounded size:
    for every key, loading the shard in which a forward index with the
    parameters of the build looks the key up succeeds, and a snapshot of the
    loaded shard answers with the values of the table row of that key, defaults
    for the fields without value, and with no row for a key that is in no
    table. *)
Theorem offline_build_is_served (fuel : nat) (options : BuildArtifactOptions) (fs fs' : F)
    (result : BuildArtifactResult) (uri : cpp_string)
    (Hopt : options_typed options) (Htidy : tidy (output_path options))
    (Huri : ResolveLocalPath uri = Ok (output_path options))
    (Hlaws : output_laws fs_map (output_path options) (output_names (result_shard_count result)))
    (Hsizes : ∀ path bytes, fs_map path fs' = Mapped bytes → is_u64 (Zlen bytes))
    (Hsort : stable_sort ∨ Forall (λ count, count ≠ 0) (rows_per_shard result))
    (Hrun : BuildArtifactDirectory fuel options fs = (Ok result, fs')) :
  ∃ config p s files tables rows encoded,
    built fuel options fs config p s files tables rows encoded
    ∧ row_count result = wrap64 (Zlen rows)
    ∧ rows_per_shard result
      = (λ k, wrap64 (Zlen (filter (λ key, builder_shard (initial_spec options p (compile_layout s)) key = k)
                              (rows.*1)))) <$> seqZ 0 (build_shard_count p)
    ∧ (small_rows (compile_layout s) rows → ∀ index o key,
         same_directory p index →
         options_match (initial_spec options p (compile_layout s)) (load_options_of o) →
         ∃ b, LoadShard (loader_stat fs') (loader_map fs_map fs') uri (ForwardIndex.index_shard index key) o
              = Ok b
           ∧ match (list_to_map rows : gmap Z (gmap Z FieldValue)) !! key with
             | Some values => ∃ row,
                 FullSnapshotView_Get (make_full (Some (mmap_backing b))) key = Ok (Some row)
                 ∧ row_layout row = Some (compile_layout s) ∧ answers (compile_layout s) values row
             | None => FullSnapshotView_Get (make_full (Some (mmap_backing b))) key = Ok None
             end).
Proof.
  destruct (directory_written fs_map fuel options fs result fs' Hopt Htidy Hlaws Hrun)
    as (config & p & s & files & tables & rows & encoded & Hbuilt & -> & Hw).
  exists config, p, s, files, tables, rows, encoded.
  pose proof (encoded_keys _ _ _ (bu_encoded _ _ _ _ _ _ _ _ _ _ Hbuilt)) as Hkeys.
  split; [done|]. split; [|split].
  - cbn. f_equal. unfold Zlen. by rewrite <-(length_fmap artifact_primary_key encoded), Hkeys, length_fmap.
  - cbn. apply list_fmap_ext. intros i k _. f_equal. rewrite <-Hkeys. unfold shard_part.
    unfold Zlen. rewrite <-(length_fmap artifact_primary_key (filter _ _)). do 2 f_equal.
    exact (keys_filter (λ key, builder_shard _ key = k) encoded).
  - intros Hsmall index o key (E1 & E2 & E3) Ho.
    replace (ForwardIndex.index_shard index key)
      with (builder_shard (initial_spec options p (compile_layout s)) key)
      by (unfold builder_shard, ForwardIndex.index_shard; by rewrite E1, E2, E3).
    eapply built_serves; [exact Hbuilt| |by destruct Ho; split|exact Hsmall].
    intros k Hk. eapply built_written; try done. destruct Hsort as [Hsort|Hcounts]; [by left|right].
    intros Hnil. cbn [rows_per_shard counted] in Hcounts. rewrite Forall_fmap, Forall_forall in Hcounts.
    apply (Hcounts k); [by apply elem_of_seqZ|]. cbn. by rewrite Hnil.
Qed.
End Claims.

(** *** C11: Rows encoded offline are the rows upserts of the same values would be.

    Take the layout of any schema the program can build, and values of the
    types of its fields.  [EncodeRow] of the offline builder gives the same
    row, bit for bit, as encoding the upsert message that carries the same
    values for the layout ([EncodeForLayout] of the update applier), and it
    succeeds exactly when that does.  The row reads back the values and the
    defaults of the fields without one; the only error is a required field
    without value. *)
Theorem offline_row_is_upsert_row (ver : Z) (s : RuntimeSchema) (L : CompiledRowLayout)
    (values : gmap Z FieldValue)
    (Hs : reachable_schema ver s) (HL : Compile s = Ok L) (Hty : typed_values L values)
    (Hsize : Zlen (payload_bytes (row_message L values)) ≤ 2 ^ 30) :
  (∀ r, EncodeRow L values = Ok r ↔ EncodeForLayout (row_message L values) (Some L) = Ok r)
  ∧ match EncodeRow L values with
    | Ok r => row_ok L r ∧ answers L values (row_of L r)
    | Err e => status_code e = kInvalidArgument
               ∧ ∃ f, f ∈ fields L ∧ required f = true ∧ value_of values f = None
    | Fault _ => False
    end.
Proof.
  injection HL as <-. pose proof (reachable_schema_ok _ _ Hs) as Hok.
  pose proof (compile_layout_wf s Hok) as Hwf. pose proof (compiled_field_ids s Hok) as Hids.
  pose proof (typed_values_row _ _ Hty Hsize) as Hrow. set (L := compile_layout s) in *.
  pose proof (EncodeRow_spec L values Hwf Hids Hrow Hsize) as Hspec.
  pose proof (EncodeForLayout_spec L _ Hwf (row_message_ok L Hwf Hids values Hrow Hsize) Hsize) as Hup.
  destruct (EncodeRow L values) as [r|e|ft] eqn:Hr; [| |done].
  - destruct Hspec as (He & _ & _). split; [|exact (EncodeRow_reads L values r Hwf Hids Hrow Hsize Hr)].
    intros r'. rewrite He. split; by intros [= ->].
  - split; [|exact Hspec]. intros r'. split; [done|]. intros He. rewrite He in Hup.
    destruct Hspec as (_ & f & Hf & Hq & Hn). destruct Hup as (_ & Hnot & _). destruct Hnot. right.
    exists f. split_and!; [done..|]. cbn [row_message payload_fields]. rewrite message_ids.
    intros (g & Hg & Hin)%list_elem_of_fmap. apply list_elem_of_filter in Hin as [[w Hw] Hin].
    pose proof (FindField_in L f Hwf Hf) as E1. rewrite Hg, FindField_in in E1 by done. congruence.
Qed.

Section Faults.
Context `{ArrowLaws} {F : Type} `{!OfflineSystem F}.
Context (spec : ArtifactBuildSpec) (result : BuildArtifactResult).
Hypothesis Hn : is_u32 (spec_shard_count spec).
Hypothesis Hpow : ForwardIndex.IsPowerOfTwo (spec_shard_count spec) = true.

Definition some_state (state : build_state) : Prop := ∃ rows, state = state_of spec result rows.

Lemma add_table_row_returns config L columns i state :
  layout_wf L → some_state state → returns some_state (add_table_row config L columns state i).
Proof.
  intros Hwf [rows ->]. unfold add_table_row.
  eapply returns_bind; [apply ReadPrimaryKey_range|]. intros k _. apply returns_decide; [done|].
  eapply returns_bind; [by apply read_row_returns|]. intros values Hvs.
  eapply returns_bind; [apply returns_any; by apply EncodeRow_no_fault|]. intros e _. cbv zeta.
  cbn [state_of state_spec state_result]. rewrite builder_shard_set. set (r := MkArtifactRow k e).
  change k with (artifact_primary_key r) at 1. rewrite push_row_state by done. cbn [obind].
  change k with (artifact_primary_key r) at 1. rewrite count_row_state by done. cbn [obind returns].
  exists (rows ++ [r]). unfold state_of. f_equal. rewrite fmap_app, list_to_set_app_L. cbn. set_solver.
Qed.

Lemma ReadParquetFileIntoSpec_returns config L fs path state :
  layout_wf L → some_state state →
  returns some_state (ReadParquetFileIntoSpec config L fs state path).
Proof.
  intros Hwf Hs. unfold ReadParquetFileIntoSpec. destruct (fs_parquet path fs); try done.
  eapply returns_bind; [apply ResolveTableColumns_returns|]. intros columns _.
  apply returns_ofold; [done|]. intros i st _ Hst. by apply add_table_row_returns.
Qed.
End Faults.

Lemma build_spec_returns `{ArrowLaws} {F} `{!OfflineSystem F} fuel n options (fs : F) :
  options_typed options → nested fs n (input_path options) → (n ≤ fuel)%nat →
  returns (λ _, True) (build_spec fuel options fs).
Proof.
  intros Hopt Hdeep Hfuel. unfold build_spec.
  eapply (returns_bind (λ _, True)); [unfold check_options; by repeat apply returns_if|]. intros _ _.
  eapply returns_bind; [apply ParseSchemaFile_returns|]. intros c Hc.
  eapply returns_bind; [by apply resolve_parameters_returns|]. intros p [_ Hcount Hpower _ _].
  eapply returns_bind; [apply BuildRuntimeSchema_returns, Hc|]. intros s (Hs & _ & _).
  pose proof (compile_layout_wf s (reachable_schema_ok _ _ Hs)) as Hwf. cbn [Compile obind].
  eapply (returns_bind (λ _, True)).
  { unfold CollectParquetFiles. eapply (returns_bind (λ _, True)); [|intros files _; by case_bool_decide].
    pose proof (collect_spec fs n fuel (input_path options) [] Hdeep Hfuel) as Hl.
    by destruct (CollectParquetFilesRecursive _ _ _ _). }
  intros files _. eapply returns_bind; [|by intros state _]. rewrite initial_state.
  apply (returns_ofold (some_state (initial_spec options p (compile_layout s)) (initial_result p files)));
    [by exists []|]. intros path state _ Hst.
  by apply ReadParquetFileIntoSpec_returns.
Qed.

(** The rows of several tables, encoded. *)
Lemma accepted_tables `{Arrow} config L tables encoded :
  (∃ mores, Forall2 (accepted config L) tables mores ∧ encoded = concat mores)
  ↔ ∃ rows, tables_rows config L tables = Ok rows ∧ omapM (encode_table_row L) rows = Ok encoded.
Proof.
  unfold tables_rows. setoid_rewrite obind_Ok. setoid_rewrite omapM_Ok. split.
  - intros (mores & Hm & ->). induction Hm as [|table more tables mores (rows & Hr & Hmore) _ IH].
    + exists []. split; [by exists []|constructor].
    + destruct IH as (rows' & (rss & Hrss & [= <-]) & Hrows').
      exists (rows ++ concat rss). split; [exists (rows :: rss); split; [by constructor|done]|].
      cbn [concat]. apply Forall2_app; [by apply omapM_Ok|done].
  - intros (rows & (rss & Hrss & [= <-]) & Henc). revert encoded Henc.
    induction Hrss as [|table rows tables rss Hr _ IH]; intros encoded Henc.
    + inversion Henc. exists []. by split.
    + cbn [concat] in Henc. apply Forall2_app_inv_l in Henc as (more & rest & Hm & Hrest & ->).
      destruct (IH rest Hrest) as (mores & Hmores & ->). exists (more :: mores). split; [|done].
      constructor; [|done]. exists rows. split; [done|]. by apply omapM_Ok.
Qed.

Section Inputs.
Context `{ArrowLaws} {F : Type} `{!OfflineSystem F}.

(** *** C36: The loop over the files takes the rows of all tables, once each, and sorts them into shards.

    The loops of [BuildArtifactDirectory] over files and rows succeed exactly
    when every file can be read, every row of the tables can be converted and
    encoded, and the primary keys of all of them are distinct.  They then
    leave, for every shard, the rows whose key hashes to it, in the order of
    the files and of their rows, the set of the keys, and counts that agree
    with the shards. *)
Theorem rows_sorted_into_shards (options : BuildArtifactOptions) (p : build_parameters)
    (config : ParsedSchemaConfig) (L : CompiledRowLayout) (fs : F) (files : list cpp_string)
    (state : build_state)
    (Hcount : is_u32 (build_shard_count p))
    (Hpower : ForwardIndex.IsPowerOfTwo (build_shard_count p) = true) :
  ofold (ReadParquetFileIntoSpec config L fs) files
    (MkBuildState (initial_spec options p L) ∅ (initial_result p files)) = Ok state
  ↔ ∃ tables rows encoded,
      omapM (read_table fs) files = Ok tables ∧ tables_rows config L tables = Ok rows
      ∧ omapM (encode_table_row L) rows = Ok encoded ∧ NoDup (rows.*1)
      ∧ state = state_of (initial_spec options p L) (initial_result p files) encoded.
Proof.
  rewrite initial_state. rewrite files_loop_Ok; [|done|done|by apply NoDup_nil_2]. cbn [app]. split.
  - intros (tables & mores & Ht & Hacc & Hnd & ->).
    destruct (proj1 (accepted_tables config L tables (concat mores))) as (rows & Hrows & Henc);
      [by exists mores|]. exists tables, rows, (concat mores). split_and!; try done.
    by rewrite <-(encoded_keys L rows (concat mores)) by (by apply omapM_Ok).
  - intros (tables & rows & encoded & Ht & Hrows & Henc & Hnd & ->).
    destruct (proj2 (accepted_tables config L tables encoded)) as (mores & Hacc & ->); [by exists rows|].
    exists tables, mores. split_and!; try done.
    by rewrite (encoded_keys L rows (concat mores)) by (by apply omapM_Ok).
Qed.

(** *** C37: Collecting input files ends and finds every Parquet file.

    On a file system whose directories below the input path are nested fewer
    than [n] deep, [CollectParquetFiles] returns within [n] levels.  It
    succeeds with the Parquet files among the paths it visits, which are the
    input path and whatever is listed, not hidden, in a directory it visits;
    it fails when one of these does not exist, is neither file nor directory
    or cannot be listed, and when none of them is a Parquet file. *)
Theorem CollectParquetFiles_finds_all (fs : F) (n fuel : nat) (path : cpp_string)
    (Hdeep : nested fs n path) (Hfuel : (n ≤ fuel)%nat) :
  match CollectParquetFiles fuel fs path with
  | Ok files => files ≠ [] ∧ (∀ file, file ∈ files ↔ visits fs path file ∧ parquet_file fs file)
                ∧ ∀ below, visits fs path below → ¬ blocked fs below
  | Err _ => (∃ below, visits fs path below ∧ blocked fs below)
             ∨ ∀ below, visits fs path below → ¬ parquet_file fs below
  | Fault _ => False
  end.
Proof.
  unfold CollectParquetFiles. pose proof (collect_spec fs n fuel path [] Hdeep Hfuel) as Hl.
  destruct (CollectParquetFilesRecursive fuel fs path []) as [files|e|ft]; cbn [obind]; [| |done].
  - destruct Hl as (more & -> & Hm & Hb). cbn [app]. case_bool_decide as Hnil; [|by split_and!].
    right. intros below Hv Hp. subst more. assert (below ∈ @nil cpp_string) as Hin by (by apply Hm).
    by apply elem_of_nil in Hin.
  - left. exact Hl.
Qed.

(** *** C12: A build gets to its first write without a fault, with typed values only.

    Whatever the schema file, the directories and the tables hold, the part of
    [BuildArtifactDirectory] before the first write ends, in an error or in
    the specification to write: no wrong alternative of a variant, no index
    out of range, no byte written outside an arena.  In the second case its
    parameters are values of their types with a power of two of shards, the
    schema is one [AddField] builds, the keys of the rows are distinct
    [uint64] and every value has the shape and the type of its field and the
    range of its C++ type, and is null only for a nullable field. *)
Theorem build_reads_typed_rows (fuel n : nat) (options : BuildArtifactOptions) (fs : F)
    (Hopt : options_typed options) (Hdeep : nested fs n (input_path options)) (Hfuel : (n ≤ fuel)%nat) :
  match build_spec fuel options fs with
  | Ok (config, p, state) => ∃ s files tables rows encoded,
      built fuel options fs config p s files tables rows encoded
      ∧ state = state_of (initial_spec options p (compile_layout s)) (initial_result p files) encoded
  | Err _ => True
  | Fault _ => False
  end.
Proof.
  destruct (build_spec fuel options fs) as [[[config p] state]|e|ft] eqn:Hb;
    [by apply build_spec_inv|done|].
  pose proof (build_spec_returns fuel n options fs Hopt Hdeep Hfuel) as Hr. by rewrite Hb in Hr.
Qed.
End Inputs.

(** ** The schema file written *)

(** *** C38: The schema file of an artifact reads back as the schema it was built from.

    Take any schema file that parses, with names that are plain text: no
    quotes around them, no hash in them, no newline.  The file
    [WriteSchemaFile] writes for it parses to the parameters of the build, the
    same primary key and the same fields, whatever the fields' types and
    encodings, so it builds the same schema. *)
Theorem schema_file_roundtrip (content : option (list byte)) (config : ParsedSchemaConfig)
    (v sc seed hv : Z) (Hparsed : ParseSchemaFile content = Ok config)
    (Hv : is_u64 v) (Hsc : is_u32 sc) (Hseed : is_u64 seed) (Hhv : is_u32 hv)
    (Hkey : plain (primary_key_name config))
    (Hnames : Forall (λ f, plain (spec_name f)) (config_fields config)) :
  ∃ written,
    ParseSchemaFile (Some (schema_text config v sc seed hv)) = Ok written
    ∧ written = MkParsedSchemaConfig v true (Some sc) (Some seed) (Some hv) (primary_key_name config)
                  kUInt64 true true (config_fields config)
    ∧ BuildRuntimeSchema written v = BuildRuntimeSchema config v.
Proof.
  pose proof (ParseSchemaFile_returns content) as Hty. rewrite Hparsed in Hty.
  eexists. split; [|split; reflexivity]. cbn [ParseSchemaFile]. apply schema_text_reads_back; try done.
  - apply Forall_forall. intros f Hf. rewrite Forall_forall in Hnames.
    pose proof (ct_fields _ Hty) as Hfs. rewrite Forall_forall in Hfs.
    destruct (Hfs f Hf) as [[] He]. split; [done|by apply Hnames|done..].
  - by eapply ParseSchemaFile_fields.
Qed.

(** *** C39: A name that looks as if a comment followed it is cut when the written file is read.

    A schema file can give a field a name with a hash in it, in double quotes:
    the line parses to that very name.  [WriteSchemaFile] writes names without
    quotes.  So for fields with names that are plain text, followed by a blank,
    a hash and any text without newline, the file written parses without an
    error to fields whose names are cut before the blank: an artifact built
    for the longer names comes with a schema file for the shorter ones. *)
Theorem hash_in_name_is_lost (config : ParsedSchemaConfig) (tail : cpp_string) (v sc seed hv : Z)
    (Hv : is_u64 v) (Hsc : is_u32 sc) (Hseed : is_u64 seed) (Hhv : is_u32 hv)
    (Hkey : plain (primary_key_name config)) (Hsome : config_fields config ≠ [])
    (Hfields : Forall writable (config_fields config))
    (Hnames : Forall (λ f, unquoted (spec_name f)) (config_fields config))
    (Htail : Forall (λ c, c ≠ Byte.x0a ∧ c ≠ Byte.x22) tail) :
  let long := with_fields (rename (commented tail) <$> config_fields config) config in
  (∀ s n name, name ∈ spec_name <$> config_fields long →
     parse_section s = kFields → has_pending_field s = true →
     parse_line s (n, str "    name: " ++ quoted name)
     = Ok (with_field (set_name name (pending_field s)) s))
  ∧ ParseSchemaFile (Some (schema_text long v sc seed hv))
    = Ok (MkParsedSchemaConfig v true (Some sc) (Some seed) (Some hv) (primary_key_name config)
            kUInt64 true true (config_fields config)).
Proof.
  split.
  - intros s n name Hin Hs Hp. unfold key_line in *.
    rewrite <-(quoted_name_line s n name); [done| |done|done]. cbn [with_fields config_fields] in Hin.
    rewrite <-list_fmap_compose in Hin. apply list_elem_of_fmap in Hin as (f & -> & Hf).
    rewrite Forall_forall in Hnames. specialize (Hnames f Hf). cbn. unfold commented, unquoted in *.
    apply Forall_app. split; [eapply Forall_impl; [exact Hnames|naive_solver]|].
    repeat constructor; try done. eapply Forall_impl; [exact Htail|naive_solver].
  - cbn [ParseSchemaFile]. rewrite commented_text; try done.
    + by apply schema_text_reads_back.
    + eapply Forall_impl; [exact Htail|naive_solver].
Qed.

(** ** Numbers *)

Definition numeral (text : cpp_string) (n : Z) : Prop :=
  text ≠ [] ∧ Forall (λ c, is_digit c = true) text ∧ digits_value text = n.

Definition shift_digit (value : Z) (c : byte) : Z := value * 10 + (byte_to_Z c - 48).

Lemma shift_digit_ge v text :
  0 ≤ v → Forall (λ c, is_digit c = true) text → v ≤ foldl shift_digit v text.
Proof.
  revert v. induction text as [|c text IH]; intros v Hv Ht; cbn [foldl]; [lia|].
  apply Forall_cons in Ht as [Hc Ht]. unfold is_digit in Hc. btoprop.
  assert (v ≤ shift_digit v c) by (unfold shift_digit; lia). etrans; [done|]. apply IH; [lia|done].
Qed.

Lemma is_digit_not c : is_digit c = negb ((byte_to_Z c <? 48) || (57 <? byte_to_Z c)).
Proof. unfold is_digit. by rewrite negb_orb, !Z.leb_antisym. Qed.

Lemma uint32_digits_Some v text n :
  is_u32 v → uint32_digits v text = Some n ↔
    Forall (λ c, is_digit c = true) text ∧ foldl shift_digit v text = n ∧ n ≤ u32_max.
Proof.
  unfold is_u32. revert v. induction text as [|c text IH]; intros v Hv; cbn [uint32_digits foldl].
  { rewrite wrap32_small by done. split; [intros [= <-]|by intros (_ & -> & _)].
    unfold u32_max. split_and!; [done|done|lia]. }
  rewrite Forall_cons, is_digit_not. destruct (_ || _) eqn:Hc; cbn [negb]; [by split; [|intros ((?&?)&?)]|].
  btoprop. rewrite (wrap64_small (v * 10)), wrap64_small by (unfold is_u64; lia).
  fold (shift_digit v c). destruct (u32_max <? shift_digit v c) eqn:Hm; btoprop.
  - split; [done|]. intros ((_ & Ht) & <- & Hle).
    pose proof (shift_digit_ge (shift_digit v c) text ltac:(unfold shift_digit; lia) Ht). lia.
  - rewrite IH by (unfold shift_digit, u32_max in *; lia). naive_solver.
Qed.

Lemma uint64_digits_Some v text n :
  is_u64 v → uint64_digits v text = Some n ↔
    Forall (λ c, is_digit c = true) text ∧ foldl shift_digit v text = n ∧ n ≤ u64_max.
Proof.
  unfold is_u64. revert v. induction text as [|c text IH]; intros v Hv; cbn [uint64_digits foldl].
  { split; [intros [= <-]|by intros (_ & -> & _)]. unfold u64_max. split_and!; [done|done|lia]. }
  rewrite Forall_cons, is_digit_not. destruct (_ || _) eqn:Hc; cbn [negb]; [by split; [|intros ((?&?)&?)]|].
  btoprop. destruct ((u64_max - (byte_to_Z c - 48)) / 10 <? v) eqn:Hm; btoprop.
  - split; [done|]. intros ((_ & Ht) & <- & Hle).
    pose proof (shift_digit_ge (shift_digit v c) text ltac:(unfold shift_digit; lia) Ht).
    assert (shift_digit v c ≤ u64_max) as Hs by lia. unfold shift_digit in Hs.
    assert (v ≤ (u64_max - (byte_to_Z c - 48)) / 10) by (apply Z.div_le_lower_bound; lia). lia.
  - assert (shift_digit v c ≤ u64_max) as Hs.
    { unfold shift_digit. pose proof (Z.mul_div_le (u64_max - (byte_to_Z c - 48)) 10 ltac:(lia)). lia. }
    unfold shift_digit, u64_max in Hs.
    rewrite (wrap64_small (v * 10)), wrap64_small by (unfold is_u64; lia). fold (shift_digit v c).
    rewrite IH by (unfold shift_digit; lia). naive_solver.
Qed.

Lemma ParseUnsigned_Ok max text name n :
  ParseUnsigned max text name = Ok n ↔ numeral text n ∧ n ≤ max.
Proof.
  unfold ParseUnsigned, from_chars, numeral. case_bool_decide as Hne; [naive_solver|].
  assert (digits_prefix text = text ↔ Forall (λ c, is_digit c = true) text) as Hall.
  { split; [|apply digits_prefix_all]. intros <-. apply digits_prefix_digits. }
  assert (length (digits_prefix text) = length text → digits_prefix text = text) as Hlen.
  { clear. induction text as [|c text IH]; [done|]. cbn [digits_prefix].
    destruct (is_digit c); [|done]. intros [= Hl]. by rewrite IH. }
  destruct (decide (digits_prefix text = text)) as [He|He].
  - rewrite He, bool_decide_eq_false_2 by done. destruct (max <? digits_value text) eqn:Hm; btoprop.
    + split; [done|]. intros ((_ & _ & <-) & Hle). lia.
    + rewrite bool_decide_eq_true_2 by done. split; [|naive_solver].
      intros [= <-]. split_and!; [done|by apply Hall|done|lia].
  - split; [|by intros ((_ & Hf & _) & _); apply Hall in Hf].
    assert (length (digits_prefix text) ≠ length text) as Hl by auto.
    rewrite (bool_decide_eq_false_2 (length _ = _)) by done. by repeat case_match.
Qed.

(** *** C40: The command line accepts the numbers the schema file accepts.

    [ParseUInt32] and [ParseUInt64] of the command line accept exactly the
    non-empty strings of decimal digits whose value the type can hold, with
    that value: no sign, no blank, and no overflow of the accumulator goes
    unnoticed, however many digits there are.  The [std::from_chars] of the
    schema parser accepts the same strings with the same values. *)
Theorem ParseUInt_accepts_numerals (text name : cpp_string) (n : Z) :
  (ParseUInt32 text = Some n ↔ numeral text n ∧ n ≤ u32_max)
  ∧ (ParseUInt64 text = Some n ↔ numeral text n ∧ n ≤ u64_max)
  ∧ (ParseUInt32 text = Some n ↔ ParseUnsigned u32_max text name = Ok n)
  ∧ (ParseUInt64 text = Some n ↔ ParseUnsigned u64_max text name = Ok n).
Proof.
  rewrite !ParseUnsigned_Ok.
  assert (ParseUInt32 text = Some n ↔ numeral text n ∧ n ≤ u32_max) as H32.
  { unfold ParseUInt32, numeral. destruct text as [|c text]; [naive_solver|].
    rewrite uint32_digits_Some by (unfold is_u32; lia). naive_solver. }
  assert (ParseUInt64 text = Some n ↔ numeral text n ∧ n ≤ u64_max) as H64.
  { unfold ParseUInt64, numeral. destruct text as [|c text]; [naive_solver|].
    rewrite uint64_digits_Some by (unfold is_u64; lia). naive_solver. }
  by split_and!.
Qed.
