(* ===== verification/OfflineSamples.v ===== *)
(** * Sample builds

    A small reader of tables and a file system of a few files satisfy what is
    assumed of Arrow, Parquet and the operating system; a build of one table
    with one row goes through on it. *)

From S2P Require Import Prelude Status ByteIo Hash Types Schema SchemaProofs RowStorage RowSafety.
From S2P Require Import RowProofs Snapshot RealtimeDelta Payload PayloadProofs Kafka UpdateApplier ArtifactFormat ArtifactWriter MmapBacking.
From S2P Require Import ArtifactLoad ArtifactTheorems ArtifactSamples OfflineSchema OfflineSchemaProofs.
From S2P Require Import OfflineEncode OfflineEncodeProofs OfflineColumns OfflineColumnsProofs OfflineBuilder.
From S2P Require AsyncLoad ForwardIndex.
From S2P Require Import OfflineBuildProofs OfflineInputProofs OfflineServeProofs OfflineTheorems.

(** ** Tables *)

(** An array of small unsigned numbers, its type id [INT64] or [UINT64]. *)
Record sample_array : Type := MkArray { sample_type : arrow_type; sample_values : list byte }.
Record sample_table : Type := MkTable {
  sample_rows : Z;
  sample_columns : list (cpp_string * list sample_array);
}.

Definition sample_value (a : sample_array) (i : Z) : Z :=
  byte_to_Z (default Byte.x00 (sample_values a !! Z.to_nat i)).

#[export] Instance sample_arrow : Arrow := {|
  arrow_array := sample_array;
  array_length a := Zlen (sample_values a);
  type_id := sample_type;
  IsNull _ _ := false;
  Int8Value _ _ := 0;
  Int32Value := sample_value;
  Int64Value := sample_value;
  UInt64Value := sample_value;
  BooleanValue _ _ := false;
  GetString _ _ := [];
  list_values a := a;
  value_offset _ _ := 0;
  value_length _ _ := 0;
  arrow_table := sample_table;
  num_rows := sample_rows;
  GetColumnByName t name := snd <$> head (filter (λ c, c.1 = name) (sample_columns t));
|}.

#[export] Instance sample_arrow_laws : ArrowLaws.
Proof.
  assert (∀ a i, 0 ≤ sample_value a i < 256) as Hv by (intros a i; apply byte_to_Z_range).
  assert (128 ≤ it_modulus int8_t `div` 2 ∧ 256 ≤ it_modulus int32_t `div` 2
    ∧ 256 ≤ it_modulus int64_t `div` 2 ∧ 256 ≤ it_modulus uint64_t) as (H1 & H2 & H3 & H4)
    by (vm_compute; split_and!; congruence).
  split; intros a i; specialize (Hv a i); unfold in_int_range; cbn -[sample_value it_modulus Z.div]; lia.
Qed.

(** ** Files *)

Inductive node : Type := File (bytes : list byte) | Dir (names : list cpp_string).

Definition sample_fs : Type := cpp_string → option node.

Definition put_node (path : cpp_string) (n : node) (fs : sample_fs) : sample_fs :=
  λ path', if decide (path' = path) then Some n else fs path'.

Definition sample_parquet (path : cpp_string) : parquet_result sample_table :=
  if decide (path = str "/in/a.parquet") then
    TableRead (MkTable 1 [(str "id", [MkArray UINT64 [Byte.x07]]); (str "v", [MkArray INT64 [Byte.x05]])])
  else OpenFileFailed "no such file".

#[export] Instance sample_system : OfflineSystem sample_fs := {|
  fs_stat path fs :=
    match fs path with Some (File _) => Some RegularFile | Some (Dir _) => Some Directory | None => None end;
  fs_mkdir path fs :=
    match fs path with Some _ => (AlreadyExists, fs) | None => (Created, put_node path (Dir []) fs) end;
  fs_readdir path fs :=
    match fs path with Some (Dir names) => inr names | _ => inl "not a directory" end;
  fs_read path fs := match fs path with Some (File bytes) => Some bytes | _ => None end;
  fs_open path fs := (true, put_node path (File []) fs);
  fs_write path bytes fs :=
    if Zlen bytes <? 2 ^ 64 then (true, put_node path (File bytes) fs) else (false, put_node path (File []) fs);
  fs_parquet path _ := sample_parquet path;
|}.

Definition offline_map (path : cpp_string) (fs : sample_fs) : map_result :=
  match fs path with
  | Some (File (c :: bytes)) =>
      if Zlen (c :: bytes) <? 2 ^ 64 then Mapped (c :: bytes) else MmapFailed "too large"
  | Some (File []) => EmptyFile
  | _ => OpenFailed ENOENT
  end.

Lemma offline_map_size path fs bytes : offline_map path fs = Mapped bytes → is_u64 (Zlen bytes).
Proof.
  unfold offline_map. destruct (fs path) as [[[|c bs]|names]|]; [done| |done..].
  destruct (_ <? _) eqn:Hlt; [|done]. intros [= <-]. btoprop. unfold is_u64.
  pose proof (Zlen_nonneg (c :: bs)). lia.
Qed.

Lemma sample_names n :
  n ∈ output_names 1 →
  c_str (JoinPath (str "/out") n) = JoinPath (str "/out") n ∧ str "/out" ≠ JoinPath (str "/out") n.
Proof.
  intros [->|[->|Hn]%elem_of_cons]%elem_of_cons.
  - vm_compute. by split.
  - vm_compute. by split.
  - by apply elem_of_nil in Hn.
Qed.

(** Putting a file below the output directory. *)
Lemma put_other dir n bytes fs :
  dir = str "/out" → n ∈ output_names 1 →
  fs_stat (c_str dir) (put_node (JoinPath dir n) (File bytes) fs) = fs_stat (c_str dir) fs
  ∧ ∀ n', n' ∈ output_names 1 → n' ≠ n →
      same_file offline_map (JoinPath dir n') fs (put_node (JoinPath dir n) (File bytes) fs).
Proof.
  intros -> Hn. assert (∀ path, path ≠ JoinPath (str "/out") n →
    put_node (JoinPath (str "/out") n) (File bytes) fs path = fs path) as Hput
    by (intros path Hp; unfold put_node; by rewrite decide_False).
  split.
  - cbn [fs_stat sample_system]. rewrite Hput; [done|]. apply (sample_names n Hn).
  - intros n' Hn' Hne. unfold same_file, offline_map. cbn [fs_stat sample_system].
    rewrite (proj1 (sample_names n' Hn')). rewrite Hput; [done|]. intros He.
    apply Hne, (app_inv_head (str "/out/")). exact He.
Qed.

Lemma sample_output_laws : output_laws offline_map (str "/out") (output_names 1).
Proof.
  split.
  - intros n bytes fs fs' Hn Hne Hw. cbn [fs_write sample_system] in Hw.
    destruct (_ <? _) eqn:Hlt; [|done]. injection Hw as <-.
    rewrite (proj1 (sample_names n Hn)).
    unfold offline_map. cbn [fs_stat sample_system]. unfold put_node. rewrite decide_True by done.
    destruct bytes as [|c bytes]; [done|]. by rewrite Hlt.
  - intros n fs Hn. by apply put_other.
  - intros n bytes fs Hn. cbn [fs_write sample_system]. destruct (_ <? _); by apply put_other.
Qed.

(** ** A build *)

Definition schema_lines : list cpp_string :=
  [str "schema_version: 1"; str "primary_key:"; str "  name: id"; str "  type: uint64"; str "fields:";
   str "  - field_id: 7"; str "    name: v"; str "    type: int64"; str "    is_list: false";
   str "    nullable: true"; str "    encoding: fixed"].

Definition sample_schema_file : cpp_string := unlines schema_lines.

(** A schema file and a directory with one table. *)
Definition sample_files : sample_fs :=
  put_node (str "/schema.yaml") (File sample_schema_file)
    (put_node (str "/in") (Dir [str "."; str "a.parquet"])
       (put_node (str "/in/a.parquet") (File [Byte.x00]) (λ _, None))).

Definition sample_build_options : BuildArtifactOptions :=
  MkBuildArtifactOptions (str "/schema.yaml") (str "/in") (str "/out") (str "build") (Some 1) None None
    None false.

Definition sample_result : BuildArtifactResult :=
  MkBuildArtifactResult 1 1 0 1 2 [1] [str "/in/a.parquet"].

Lemma sample_run : (BuildArtifactDirectory 2 sample_build_options sample_files).1 = Ok sample_result.
Proof. vm_compute. reflexivity. Qed.

Lemma sample_options_typed : options_typed sample_build_options.
Proof. split; cbn; unfold is_u32; try done; lia. Qed.

Lemma sample_tidy : tidy (str "/out").
Proof. vm_compute. repeat constructor. discriminate. Qed.

Definition sample_after : sample_fs := (BuildArtifactDirectory 2 sample_build_options sample_files).2.

(** What the build finds. *)
Definition offline_field : FieldSpec := MkFieldSpec 7 (str "v") kInt64 false true kFixed DMonostate false.
Definition offline_schema : RuntimeSchema := MkRuntimeSchema 2 [offline_field] [].
Definition sample_row_layout : CompiledRowLayout := compile_layout offline_schema.
Definition sample_row_values : gmap Z FieldValue := {[7 := DScalar (SInt64 5)]}.

Definition offline_config : ParsedSchemaConfig :=
  MkParsedSchemaConfig 1 true None None None (str "id") kUInt64 true true [offline_field].

Definition sample_parameters : build_parameters := MkBuildParameters 2 1 0 1.

Lemma sample_parsed : ParseSchemaFile (Some sample_schema_file) = Ok offline_config.
Proof. vm_compute. reflexivity. Qed.

Lemma sample_built config p s files tables rows encoded :
  built 2 sample_build_options sample_files config p s files tables rows encoded →
  p = sample_parameters ∧ s = offline_schema ∧ rows = [(7, sample_row_values)].
Proof.
  intros [Hc Hp _ Hs _ _ _ Hf Ht Hr _ _ _].
  change (fs_read (schema_path sample_build_options) sample_files) with (Some sample_schema_file) in Hc.
  rewrite sample_parsed in Hc. injection Hc as <-.
  assert (resolve_parameters sample_build_options offline_config = Ok sample_parameters) as Ep
    by (vm_compute; reflexivity).
  rewrite Ep in Hp. injection Hp as <-.
  assert (BuildRuntimeSchema offline_config (output_schema_version sample_parameters) = Ok offline_schema)
    as Es by (vm_compute; reflexivity).
  rewrite Es in Hs. injection Hs as <-. split; [done|]. split; [done|].
  assert (CollectParquetFiles 2 sample_files (input_path sample_build_options) = Ok [str "/in/a.parquet"])
    as Ef by (vm_compute; reflexivity).
  rewrite Ef in Hf. injection Hf as <-. vm_compute in Ht. injection Ht as <-.
  vm_compute in Hr. injection Hr as <-. vm_compute. reflexivity.
Qed.

Definition sample_index : AsyncLoad.ForwardIndexOptions :=
  AsyncLoad.MkForwardIndexOptions kFullSnapshotOnly 1 0 1 ThresholdConfig_default
    (MkKafkaConsumerConfig [] [] []).

(** The directory answers the key of the table's row, and no other key. *)
Lemma offline_build_is_served_witness :
  BuildArtifactDirectory 2 sample_build_options sample_files = (Ok sample_result, sample_after)
  ∧ ∀ key, ∃ b, LoadShard (H := keeping_sort) (loader_stat sample_after) (loader_map offline_map sample_after)
        (str "/out") (ForwardIndex.index_shard sample_index key) (MkMmapSnapshotLoadOptions 1 0 1 kRequired)
      = Ok b
    ∧ if decide (key = 7) then
        ∃ row, FullSnapshotView_Get (make_full (Some (mmap_backing b))) key = Ok (Some row)
          ∧ answers sample_row_layout sample_row_values row
      else FullSnapshotView_Get (make_full (Some (mmap_backing b))) key = Ok None.
Proof.
  assert (BuildArtifactDirectory 2 sample_build_options sample_files
    = (Ok sample_result, sample_after)) as Hrun by (rewrite <-sample_run; apply surjective_pairing).
  split; [exact Hrun|]. intros key.
  destruct (@offline_build_is_served sample_arrow sample_arrow_laws keeping_sort sample_fs sample_system
    offline_map 2 sample_build_options sample_files sample_after sample_result (str "/out")
    sample_options_typed sample_tidy)
    as (config & p & s & files & tables & rows & encoded & Hb & _ & _ & Hserve).
  - vm_compute. reflexivity.
  - exact sample_output_laws.
  - intros path bytes. apply offline_map_size.
  - right. repeat constructor. discriminate.
  - exact Hrun.
  - apply sample_built in Hb as (-> & -> & ->).
    destruct (Hserve ltac:(apply Forall_singleton; vm_compute; congruence) sample_index
      (MkMmapSnapshotLoadOptions 1 0 1 kRequired) key) as (b & Hload & Hget);
      [by split_and!|by split; [right|right| |left]|].
    exists b. split; [exact Hload|]. cbn [list_to_map foldr uncurry fst snd] in Hget. case_decide as Hk.
    + subst key. rewrite lookup_insert_eq in Hget. destruct Hget as (row & Hrow & _ & Hans).
      exists row. by split.
    + by rewrite lookup_insert_ne, lookup_empty in Hget by done.
Defined.

(** ** Rows *)

Lemma offline_reachable : reachable_schema 2 offline_schema.
Proof.
  unfold reachable_schema. eapply rtc_l; [|apply rtc_refl].
  eapply (step_add offline_field); [unfold is_u32; simpl; lia|reflexivity].
Qed.

Lemma sample_row_typed : typed_values sample_row_layout sample_row_values.
Proof.
  intros f v Hf Hv. apply list_elem_of_singleton in Hf as ->. unfold sample_row_values in Hv.
  apply lookup_singleton_Some in Hv as [_ <-]. vm_compute. by split; [|split; congruence].
Qed.

Lemma offline_row_is_upsert_row_witness :
  ∃ r, EncodeRow sample_row_layout sample_row_values = Ok r
    ∧ EncodeForLayout (row_message sample_row_layout sample_row_values) (Some sample_row_layout) = Ok r
    ∧ answers sample_row_layout sample_row_values (row_of sample_row_layout r).
Proof.
  destruct (offline_row_is_upsert_row 2 offline_schema sample_row_layout sample_row_values
    offline_reachable eq_refl sample_row_typed) as [Hiff Hans]; [vm_compute; congruence|].
  destruct (EncodeRow sample_row_layout sample_row_values) as [r|e|ft] eqn:Hr;
    [|vm_compute in Hr; discriminate..].
  exists r. split; [reflexivity|]. split; [exact (proj1 (Hiff r) eq_refl)|exact (proj2 Hans)].
Defined.

(** ** Input *)

Lemma sample_nested : nested sample_files 2 (str "/in").
Proof.
  intros names child Hs Hd Hc. vm_compute in Hd. injection Hd as <-.
  assert (child = str "/in/a.parquet") as ->.
  { apply list_elem_of_fmap in Hc as (name & -> & Hn).
    apply list_elem_of_filter in Hn as [[_ Hdot] Hn].
    apply elem_of_cons in Hn as [->|Hn]; [by vm_compute in Hdot|].
    by apply list_elem_of_singleton in Hn as ->. }
  intros names' child' Hs'. vm_compute in Hs'. discriminate.
Qed.

Lemma CollectParquetFiles_finds_all_witness :
  CollectParquetFiles 2 sample_files (str "/in") = Ok [str "/in/a.parquet"]
  ∧ visits sample_files (str "/in") (str "/in/a.parquet").
Proof.
  pose proof (CollectParquetFiles_finds_all sample_files 2 2 (str "/in") sample_nested (le_n 2)) as Hall.
  assert (CollectParquetFiles 2 sample_files (str "/in") = Ok [str "/in/a.parquet"]) as Hrun
    by (vm_compute; reflexivity).
  rewrite Hrun in Hall. destruct Hall as (_ & Hall & _). split; [exact Hrun|]. apply Hall. left.
Defined.

Lemma build_reads_typed_rows_witness :
  ∃ config p state s files tables rows encoded,
    build_spec 2 sample_build_options sample_files = Ok (config, p, state)
    ∧ built 2 sample_build_options sample_files config p s files tables rows encoded.
Proof.
  pose proof (build_reads_typed_rows 2 2 sample_build_options sample_files sample_options_typed
    sample_nested (le_n 2)) as Hb.
  destruct (build_spec 2 sample_build_options sample_files) as [[[config p] state]|e|ft] eqn:Hrun;
    [|vm_compute in Hrun; discriminate..].
  destruct Hb as (s & files & tables & rows & encoded & Hb & _).
  exists config, p, state, s, files, tables, rows, encoded. split; [reflexivity|exact Hb].
Defined.

Lemma rows_sorted_into_shards_witness :
  ∃ state tables rows encoded,
    ofold (ReadParquetFileIntoSpec offline_config sample_row_layout sample_files) [str "/in/a.parquet"]
      (MkBuildState (initial_spec sample_build_options sample_parameters sample_row_layout) ∅
         (initial_result sample_parameters [str "/in/a.parquet"])) = Ok state
    ∧ tables_rows offline_config sample_row_layout tables = Ok rows
    ∧ state = state_of (initial_spec sample_build_options sample_parameters sample_row_layout)
                (initial_result sample_parameters [str "/in/a.parquet"]) encoded.
Proof.
  destruct (ofold (ReadParquetFileIntoSpec offline_config sample_row_layout sample_files)
    [str "/in/a.parquet"] _) as [state|e|ft] eqn:Hrun; [|vm_compute in Hrun; discriminate..].
  destruct (proj1 (rows_sorted_into_shards sample_build_options sample_parameters offline_config
    sample_row_layout sample_files [str "/in/a.parquet"] state ltac:(unfold is_u32; simpl; lia) eq_refl) Hrun)
    as (tables & rows & encoded & _ & Hrows & _ & _ & Hs).
  exists state, tables, rows, encoded. split; [reflexivity|]. split; [exact Hrows|exact Hs].
Defined.

(** ** Schema files *)

Lemma plain_v : plain (str "v").
Proof. split; [vm_compute; reflexivity..|repeat constructor; by vm_compute|done]. Qed.

Lemma plain_id : plain (str "id").
Proof. split; [vm_compute; reflexivity..|repeat constructor; by vm_compute|done]. Qed.

Lemma schema_file_roundtrip_witness :
  ∃ written, ParseSchemaFile (Some (schema_text offline_config 2 1 0 1)) = Ok written
    ∧ BuildRuntimeSchema written 2 = Ok offline_schema.
Proof.
  destruct (schema_file_roundtrip (Some sample_schema_file) offline_config 2 1 0 1 sample_parsed)
    as (written & Hw & _ & Hb); [unfold is_u64, is_u32; lia..|exact plain_id| |].
  - apply Forall_singleton. exact plain_v.
  - exists written. split; [exact Hw|]. rewrite Hb. vm_compute. reflexivity.
Defined.

(** The file for the field ["v #1"] reads back with the field ["v"]. *)
Lemma hash_in_name_is_lost_witness :
  ParseSchemaFile (Some (schema_text
    (MkParsedSchemaConfig 1 true None None None (str "id") kUInt64 true true
       [MkFieldSpec 7 (str "v #1") kInt64 false true kFixed DMonostate false]) 2 1 0 1))
  = Ok (MkParsedSchemaConfig 2 true (Some 1) (Some 0) (Some 1) (str "id") kUInt64 true true [offline_field]).
Proof.
  apply (hash_in_name_is_lost offline_config (str "1") 2 1 0 1);
    [unfold is_u64, is_u32; lia..|exact plain_id|done| | |].
  - apply Forall_singleton. by split; try exact plain_v.
  - apply Forall_singleton. repeat constructor; by vm_compute.
  - repeat constructor; by vm_compute.
Defined.
